(* ===== verification/_CoqProject ===== *)
-Q . S2P
Prelude.v
Marshall.v
Protocols.v
RpcStub.v
RpcServer.v
RpcClient.v
Call1.v
Log.v
Address.v
Paxos.v
PaxosSafety.v
PaxosRun.v
LockServerRsm.v
LockClientRsm.v
LockLegacy.v
Extent.v
InodeMap.v
DirForm.v
YfsClient.v
FsTree.v
Fuse.v
Config.v
Rsm.v
RsmNode.v
Failover.v
Join.v
RsmClient.v
LockService.v
LockHistory.v
Fifo.v
Handle.v
Connection.v
RpcSystem.v
Services.v
RpcTest.v
PollMgr.v
Base64.v
LockTester.v
LabTests.v
