(* ===== verification/Prelude.v ===== *)
(** * YFS: a verification of the 6.824 file system

    The program is a distributed file system in C++.  [yfs_client] is mounted
    through FUSE and keeps files and directories as extents of an extent server,
    under locks of a lock service that is replicated by a state machine, whose
    views are agreed on by Paxos; all parts talk through an RPC library with
    at-most-once calls.

    ** Conventions

    Every C++ integer is a [Z] kept at its width by [u8] ... [i32] where the
    source converts or wraps.  A [std::string] is the list of its [char]s.  Code
    that can fail is of type [outcome]: [Ret] of a value, [VerifyFail] (a failed
    [VERIFY] or [assert] ends the process), [UB] (undefined behaviour: a read out
    of bounds, an access to a freed object, an iterator of an erased element) or
    [Hang] (a mutex taken twice, a wait that nobody ends).  One read out of bounds
    is not [UB]: the count at the head of a directory whose extent is shorter than
    four bytes, as that of every empty directory is, is made of bytes that are a
    parameter ([Beyond] of [DirForm]); the theorems hold whatever they are.
    Shared objects live on explicit heaps ([Handle], [LockServerRsm],
    [RpcServer]).  A thread is cut into the regions between taking a mutex and
    leaving it or waiting; such a region is one function on the state, and an
    interleaving is a sequence of regions, often given by a step relation.  The
    handlers that an RPC server runs at once on its threads are taken to be such
    regions too; those of the lock server and of the state machine hold a mutex,
    those of the extent server do not, as its locks are commented out.
    Sockets, clocks, [rand], [select] and the bytes libfuse makes are inputs or
    parameters.

    ** The parts, and what is proved

    - [Prelude]: widths, characters, [outcome], lists.
    - [Marshall] (rpc/marshall.h, rpc/rpc.cc), [Protocols] (the *_protocol.h
      headers), [RpcStub] (the templates of rpc/rpc.h, rsm.h, rsm_client.h).  The
      class [CodecOk] is the promise of a codec to read back what it wrote and to
      stop there; every type the protocols carry keeps it
      ([codec_roundtrip]); hence a call through the stubs and a registered
      handler is the method call itself ([rpc_transparent], [rsm_transparent]);
      [u_rawbytes_exact] says exactly which lengths pass the bounds check.
    - [RpcServer], [RpcClient], [Call1] (rpc/rpc.cc).  [at_most_once]: no
      interleaving executes a request twice; [dispatch_duplicate]: a duplicate
      is answered with the stored reply.  [headers_truthful], [ack_contiguous]:
      the xids and acknowledgements a client sends are what the server's window
      relies on.  [Call1] is the loop of a call and its channel:
      [call1_returns], [call1_sends_once], [refconn_balanced], and
      [call1_spins] for the deadlines that are no times.
    - [RpcSystem] puts a client, a server and a network that loses, repeats and
      reorders together.  For a client whose calls never time out,
      [rpc_exactly_once]: no request is executed twice, and a call that has
      returned has the result of the execution of its own request or was refused
      unexecuted; [rpc_linearizable]: the executions are one sequence that
      respects the order of the calls.  [timeout_breaks_at_most_once]: with a
      timeout a request can be executed twice.  [Services] runs the programs on
      it: [extent_calls] turns calls of [extent_client], served by
      extent_smain.cc, into the calls [Extent] models; [lock_client_call] does
      so for lock_client.cc and the blocking lock server.
    - [Connection] (rpc/connection.cc), [PollMgr] (rpc/pollmgr.cc), [Handle]
      (handle.cc), [Fifo] (rpc/fifo.h, rpc/thr_pool.cc).  [pdu_stream]: framing
      over a byte stream that splits where it likes, but not in a length word;
      [block_remove_quiet], [removal_ends], [select_complete]: no callback after a
      removal, if no wake-up is spurious ([spurious_removal]), no removal lost,
      and no ready descriptor missed;
      [handles_safe]: the reference-counted cache of clients is memory safe;
      [pool_drains]: signals are not lost, so a pool does not sleep on its work,
      and shutting it down terminates with every job run.
    - [Log] (log.cc), [Paxos], [PaxosSafety], [PaxosRun] (paxos.cc).  [logread_replays],
      [acceptor_recovers]: an acceptor restarted from its log has its state
      back.  [paxos_agreement]: with any number of proposers over a network that
      loses, delays and reorders, and with nodes that are behind, at most one value
      is decided for an instance, provided that a node leaves accept requests of
      decided instances, and prepare requests of instances after the next,
      unanswered; [late_accept_disagreement] and [early_promise_disagreement] show
      that the code does neither and that both are needed.
      [run_takes_steps]: the proposer's code takes the steps of that system;
      [lone_proposer_decides]: a proposer that is alone decides while a majority
      answers.
    - [Config] (config.cc): the views that are proposed and the heartbeats
      ([config_next_view], [heartbeater_target]).
    - [Rsm], [RsmNode], [Failover], [Join] (rsm.cc), [RsmClient]
      (rsm_client.cc).  [requests_replicated]: the replicas are one machine while
      the view holds; [view_history]: requests, crashes of one member at a time,
      the primary's too, and joins of nodes in any order are still one machine,
      and the members of the last view have its state; a crash is found out by
      heartbeats, every new view is decided by [proposer::run] among the members of
      the old one, and the nodes synchronise ([change_view_replicas],
      [join_view_replicas]);
      [sync_brings_up_to_date]: the state transfer to a node that is behind;
      [serves_as_member]: a node whose recovery thread, handlers, acceptor and
      view announcements interleave freely takes requests in only in the committed
      view and as its member; [primary_executes_late]: what the primary has begun
      it executes in any view; [busy_leaves_primary_behind], [client_failover]:
      failures.
    - [LockServerRsm], [LockClientRsm] (lock_*_cache_rsm.cc), [LockLegacy]
      (lock_server.cc, lock_server_cache.cc, lock_client_cache.cc).
      [lock_exclusive], [lock_server_exclusive]: a lock has one holder at the
      server; [lock_state_transfer]: replicas exchange locks unchanged;
      [two_holders]: with two threads in a client, two clients hold one lock.
      [LockService]: the service that lock_smain.cc registers, called through
      [rsm_client::call], is one lock server ([lock_service]), and stays so
      through crashes and joins ([LockHistory], [lock_history]).
    - [Extent] (extent_server.cc, extent_client.cc, extent_client_cache.cc).
      [cache_refines_store]: the write-back cache is a store.  The class
      [ExtentClientSpec] is the promise the file system is proved against.
    - [InodeMap], [DirForm], [YfsClient], [FsTree] (yfs_client.cc), [Fuse]
      (fuse.cc).  [yfs_keeps_tree]: the files are a tree whose inode numbers tell
      files from directories, and every operation keeps it so.
      [yfs_refines_fs], [fuse_refines]: sequences of operations, and requests of
      the kernel, follow an abstract file system, on a network that delivers and
      unless a new file gets the number of one that only a cache knows;
      [lock_discipline]: which
      operations use extents only under their lock; [GetAvailInum_lowest]: the
      bit tricks find the lowest free number; [dirform_roundtrip];
      [stat_race_loses_file], [create_failure_removes_root]: how data is lost.
    - [Address] (rpc.cc, yfs_client.cc, lock_client_cache.cc): texts for
      addresses and file numbers ([make_sockaddr_spec], [filename_n2i]).
    - [Base64] (base_64.h): [base64_roundtrip].
    - The test programs: [RpcTest] (rpc/rpctest.cc), [LockTester]
      (lock_tester.cc), [LabTests] (test-lab-3-b.c, test-lab-3-c.c).
      [rpctest_passes]: the checks of the RPC test hold over a network that
      loses, repeats and reorders, while no call times out, by [RpcSystem]; [tester_passes]: with
      exclusive locks no interleaving of the tester's threads fails or sticks;
      [lab_tests_pass]: no interleaving of system calls, served by the abstract
      file system of [YfsClient], fails a check.  [check1_misses] and
      [double_grant_caught] say what the checks miss and find.

    ** Bounds and fuel

    Loops over containers are structural.  The loops that are not have fuel that
    is computed from the input: the parsers of [Log], [Config] and [DirForm]
    take the length of the text, since every turn consumes a character (for
    [DirForm] more fuel changes nothing: [read_items_fuel]); the decimal printer
    takes the ten digits of a 32-bit number or the twenty of a 64-bit one, the
    retryer one more than its waiters.  Retry loops whose length
    depends on the environment ([RsmClient], [Extent] for [rand], the calls of
    [Paxos], the turns of [Call1]) are given the finite list of answers of the
    environment; eight turns are enough for a call with [to_max], and the
    attempts of a proposer are bounded by the numbers promised before.  Threads
    that run for ever are step relations, of which the theorems take any finite
    execution.

    ** Not modelled

    Of the [main] functions of the servers only the objects they create and the
    handlers they register are modelled, of those of the tests the calls and
    checks; their arguments, [main] of fuse.cc, which starts libfuse, and
    lock_demo.cc are not.  gettime.cc (a clock for macOS), jsl_log, tprintf.h,
    slock.h and method_thread.h wrap the operating system.  rsm_tester.cc,
    rsmtest_client.cc and the Perl scripts drive the test service of [Rsm] and
    the mounted file system from the command line.  Of rpctest.cc the tests that
    wait for real time, of servers that are not there, are left out.  Real time
    appears only as the deadlines of [RpcClient] and [Call1].  In the histories of
    [view_history] and [lock_history] nodes that are up answer every call, views
    change while no request is in flight, one at a time and by one proposer, and
    the revoker and retryer of the lock server do not run; what a node does under
    any interleaving is [serves_as_member], and what proposers do
    [paxos_agreement].  The kernel under [LabTests] is the
    requests of [served], taken as atomic. *)
From stdpp Require Export prelude gmap strings sorting list.
From Stdlib Require Export Ascii.
From Stdlib Require Import ZArith Lia.

#[global] Open Scope Z_scope.

Create HintDb yfs.
Create Rewrite HintDb yfs.
Declare Scope yfs_scope.
Delimit Scope yfs_scope with yfs.

(** ** Machine integers

    Every integer of the program is a [Z]; the widths of the C++ types are the
    following wrap-around functions, applied where the source converts or
    where an unsigned operation can wrap. *)

Definition u8 (z : Z) : Z := z mod 2 ^ 8.
Definition u16 (z : Z) : Z := z mod 2 ^ 16.
Definition u32 (z : Z) : Z := z mod 2 ^ 32.
Definition u64 (z : Z) : Z := z mod 2 ^ 64.
Definition i16 (z : Z) : Z := (z + 2 ^ 15) mod 2 ^ 16 - 2 ^ 15.
Definition i32 (z : Z) : Z := (z + 2 ^ 31) mod 2 ^ 32 - 2 ^ 31.

Definition is_u8 (z : Z) : Prop := 0 <= z < 2 ^ 8.
Definition is_u16 (z : Z) : Prop := 0 <= z < 2 ^ 16.
Definition is_u32 (z : Z) : Prop := 0 <= z < 2 ^ 32.
Definition is_u64 (z : Z) : Prop := 0 <= z < 2 ^ 64.
Definition is_i16 (z : Z) : Prop := - 2 ^ 15 <= z < 2 ^ 15.
Definition is_i32 (z : Z) : Prop := - 2 ^ 31 <= z < 2 ^ 31.

(** Solve an arithmetic goal that mentions the widths, [mod] and [/]. *)
Ltac width :=
  unfold u8, u16, u32, u64, i16, i32, is_u8, is_u16, is_u32, is_u64,
    is_i16, is_i32 in *;
  change (2 ^ 8) with 256 in *; change (2 ^ 15) with 32768 in *;
  change (2 ^ 16) with 65536 in *; change (2 ^ 31) with 2147483648 in *;
  change (2 ^ 32) with 4294967296 in *;
  change (2 ^ 64) with 18446744073709551616 in *;
  Z.to_euclidean_division_equations; lia.

Lemma u32_id z : is_u32 z -> u32 z = z.
Proof. intros. unfold u32. apply Z.mod_small. done. Qed.
Lemma u64_id z : is_u64 z -> u64 z = z.
Proof. intros. unfold u64. apply Z.mod_small. done. Qed.
Lemma i32_id z : is_i32 z -> i32 z = z.
Proof. intros. width. Qed.
Lemma u32_range z : is_u32 (u32 z).
Proof. width. Qed.
Lemma u64_range z : is_u64 (u64 z).
Proof. width. Qed.
Lemma i32_range z : is_i32 (i32 z).
Proof. width. Qed.
Lemma i32_u32 z : i32 (u32 z) = i32 z.
Proof. width. Qed.
Lemma u32_i32 z : u32 (i32 z) = u32 z.
Proof. width. Qed.
#[export] Hint Resolve u32_range u64_range i32_range : yfs.
#[export] Hint Rewrite u32_id u64_id i32_id using assumption : yfs.

(** ** Characters and [std::string]

    A [std::string] is the list of its [char]s.  [char_to_Z] reads a [char] as
    an [unsigned char]; [schar_to_Z] as the signed [char] of the platforms the
    code is written for. *)

Abbreviation str := (list ascii).

Definition char_to_Z (c : ascii) : Z := Z.of_N (N_of_ascii c).
Definition Z_to_char (z : Z) : ascii := ascii_of_N (Z.to_N (u8 z)).
Definition schar_to_Z (c : ascii) : Z :=
  let z := char_to_Z c in if bool_decide (z < 128) then z else z - 256.

(** String literals of the source. *)
Definition lit (s : string) : str := String.list_ascii_of_string s.

Definition NUL : ascii := Z_to_char 0.

Lemma char_to_Z_range c : is_u8 (char_to_Z c).
Proof.
  unfold char_to_Z, is_u8. pose proof (N_ascii_bounded c).
  change (2 ^ 8) with 256. lia.
Qed.
Lemma char_to_Z_to_char z : char_to_Z (Z_to_char z) = u8 z.
Proof.
  unfold char_to_Z, Z_to_char. rewrite N_ascii_embedding; width.
Qed.
Lemma Z_to_char_to_Z c : Z_to_char (char_to_Z c) = c.
Proof.
  unfold Z_to_char. pose proof (char_to_Z_range c) as Hc.
  replace (u8 (char_to_Z c)) with (char_to_Z c) by width.
  unfold char_to_Z. rewrite N2Z.id. apply ascii_N_embedding.
Qed.
Lemma char_to_Z_inj c d : char_to_Z c = char_to_Z d -> c = d.
Proof. intros H. by rewrite <-(Z_to_char_to_Z c), H, Z_to_char_to_Z. Qed.
Lemma Z_to_char_mod z z' : u8 z = u8 z' -> Z_to_char z = Z_to_char z'.
Proof. intros H. apply char_to_Z_inj. by rewrite !char_to_Z_to_char. Qed.
(** Masking a sign-extended [char] gives back its unsigned value. *)
Lemma schar_land c : Z.land (u32 (schar_to_Z c)) 255 = char_to_Z c.
Proof.
  change 255 with (Z.ones 8). rewrite Z.land_ones by lia.
  pose proof (char_to_Z_range c). unfold schar_to_Z.
  case_bool_decide; width.
Qed.
Lemma u8_schar c : u8 (u32 (schar_to_Z c)) = char_to_Z c.
Proof.
  rewrite <-schar_land. change 255 with (Z.ones 8).
  by rewrite Z.land_ones by lia.
Qed.

(** Lexicographic comparison of [std::string]s, on unsigned [char]s. *)
Fixpoint str_ltb (a b : str) : bool :=
  match a, b with
  | _, [] => false
  | [], _ :: _ => true
  | x :: a', y :: b' =>
      if char_to_Z x <? char_to_Z y then true
      else if char_to_Z y <? char_to_Z x then false
      else str_ltb a' b'
  end.
Definition str_leb (a b : str) : bool := negb (str_ltb b a).

Lemma str_ltb_irrefl a : str_ltb a a = false.
Proof. induction a as [|x a IH]; simpl; [done|]. by rewrite Z.ltb_irrefl. Qed.
Lemma str_ltb_trans a b c :
  str_ltb a b = true -> str_ltb b c = true -> str_ltb a c = true.
Proof.
  revert b c. induction a as [|x a IH]; intros [|y b] [|z c]; simpl; try done.
  destruct (Z.ltb_spec (char_to_Z x) (char_to_Z y)),
    (Z.ltb_spec (char_to_Z y) (char_to_Z z)),
    (Z.ltb_spec (char_to_Z x) (char_to_Z z)),
    (Z.ltb_spec (char_to_Z y) (char_to_Z x)),
    (Z.ltb_spec (char_to_Z z) (char_to_Z y)),
    (Z.ltb_spec (char_to_Z z) (char_to_Z x)); try done; try lia. apply IH.
Qed.
Lemma str_ltb_trichotomy a b :
  str_ltb a b = false -> str_ltb b a = false -> a = b.
Proof.
  revert b. induction a as [|x a IH]; intros [|y b]; simpl; try done.
  destruct (Z.ltb_spec (char_to_Z x) (char_to_Z y)); [done|].
  destruct (Z.ltb_spec (char_to_Z y) (char_to_Z x)); [done|].
  intros. f_equal; [apply char_to_Z_inj; lia | by apply IH].
Qed.
Lemma str_ltb_asym a b : str_ltb a b = true -> str_ltb b a = false.
Proof.
  intros H. destruct (str_ltb b a) eqn:E; [|done].
  pose proof (str_ltb_trans _ _ _ H E) as C. by rewrite str_ltb_irrefl in C.
Qed.

(** ** Outcomes

    [Ret a]: the code returns.  [VerifyFail]: a [VERIFY] (an [assert]) fails
    and the process dies.  [UB]: the code reads or writes outside an object,
    or dereferences a null pointer, so the language gives it no meaning.
    [Hang]: the code blocks for ever on a mutex nobody will unlock. *)

Inductive outcome (A : Type) : Type :=
  | Ret (a : A)
  | VerifyFail
  | UB
  | Hang.
Arguments Ret {A} a.
Arguments VerifyFail {A}.
Arguments UB {A}.
Arguments Hang {A}.

#[global] Instance outcome_ret : MRet outcome := fun A a => Ret a.
#[global] Instance outcome_bind : MBind outcome := fun A B f m =>
  match m with Ret a => f a | VerifyFail => VerifyFail | UB => UB | Hang => Hang end.
#[global] Instance outcome_eq_dec `{EqDecision A} : EqDecision (outcome A).
Proof. solve_decision. Defined.

Definition VERIFY (b : bool) : outcome unit := if b then Ret tt else VerifyFail.

Lemma outcome_bind_Ret {A B} (a : A) (f : A -> outcome B) : (Ret a ≫= f) = f a.
Proof. done. Qed.
Lemma bind_Ret_inv {A B} (m : outcome A) (f : A -> outcome B) b :
  (m ≫= f) = Ret b -> exists a, m = Ret a /\ f a = Ret b.
Proof. destruct m; simpl; [eauto|done..]. Qed.
Lemma VERIFY_Ret b u : VERIFY b = Ret u -> b = true.
Proof. by destruct b. Qed.

(** Decompose a hypothesis [m ≫= f = Ret b] into its successful parts. *)
Ltac inv_bind :=
  repeat match goal with
  | H : (_ ≫= _) = Ret _ |- _ =>
      let a := fresh "a" in let E := fresh "E" in
      apply bind_Ret_inv in H as (a & E & H)
  | H : VERIFY _ = Ret _ |- _ => apply VERIFY_Ret in H
  | H : Ret _ = Ret _ |- _ => injection H as H
  | H : mret _ = Ret _ |- _ => injection H as H
  end.

(** ** [std::map]

    A [std::map] is a [gmap]; where the code iterates over it the order is the
    order of the keys, which [std_iter] restores. *)

Class StdOrder (K : Type) := {
  key_leb : K -> K -> bool;
  key_leb_total a b : key_leb a b = true \/ key_leb b a = true;
  key_leb_trans a b c :
    key_leb a b = true -> key_leb b c = true -> key_leb a c = true;
}.

#[global] Program Instance Z_std_order : StdOrder Z := {| key_leb := Z.leb |}.
Next Obligation. intros. rewrite !Z.leb_le. lia. Qed.
Next Obligation. intros a b c. rewrite !Z.leb_le. lia. Qed.

#[global] Program Instance str_std_order : StdOrder str :=
  {| key_leb := str_leb |}.
Next Obligation.
  intros a b. unfold str_leb. destruct (str_ltb b a) eqn:E; [|by left].
  right. by rewrite (str_ltb_asym _ _ E).
Qed.
Next Obligation.
  intros a b c. unfold str_leb. rewrite !negb_true_iff. intros H1 H2.
  destruct (str_ltb c a) eqn:E; [|done]. exfalso.
  destruct (str_ltb a b) eqn:E1.
  - pose proof (str_ltb_trans _ _ _ E E1). congruence.
  - pose proof (str_ltb_trichotomy _ _ E1 H1). subst. congruence.
Qed.

Section std_map.
Context `{Countable K, !StdOrder K} {V : Type}.
Implicit Types m : gmap K V.

Definition key_le (p q : K * V) : Prop := key_leb p.1 q.1 = true.
#[global] Instance key_le_dec p q : Decision (key_le p q).
Proof. unfold key_le. apply _. Defined.
#[global] Instance key_le_total : Total key_le.
Proof. intros p q. apply key_leb_total. Qed.
#[global] Instance key_le_trans : Transitive key_le.
Proof. intros p q r. apply key_leb_trans. Qed.

(** The elements in the order [begin()], ..., [end()]. *)
Definition std_iter m : list (K * V) := merge_sort key_le (map_to_list m).

Lemma std_iter_perm m : std_iter m ≡ₚ map_to_list m.
Proof. apply merge_sort_Permutation. Qed.
Lemma std_iter_sorted m : StronglySorted key_le (std_iter m).
Proof. apply StronglySorted_merge_sort; apply _. Qed.
Lemma std_iter_length m : length (std_iter m) = size m.
Proof. rewrite std_iter_perm. apply length_map_to_list. Qed.
Lemma std_iter_NoDup m : NoDup (std_iter m).*1.
Proof. rewrite std_iter_perm. apply NoDup_fst_map_to_list. Qed.
Lemma std_iter_lookup m k v : (k, v) ∈ std_iter m <-> m !! k = Some v.
Proof. rewrite std_iter_perm. apply elem_of_map_to_list. Qed.

(** Inserting the pairs of an iteration one by one rebuilds the map. *)
Definition std_build (m : gmap K V) (l : list (K * V)) : gmap K V :=
  foldl (fun m p => <[p.1 := p.2]> m) m l.

Lemma std_build_lookup m l k :
  NoDup l.*1 ->
  std_build m l !! k =
    match (list_to_map l : gmap K V) !! k with Some v => Some v | None => m !! k end.
Proof.
  revert m. induction l as [|[k' v] l IH]; intros m Hnd; simpl.
  { by rewrite lookup_empty. }
  inversion_clear Hnd as [|? ? Hk Hnd']. rewrite IH by done.
  destruct (decide (k' = k)) as [->|Hne].
  - rewrite lookup_insert_eq.
    rewrite (not_elem_of_list_to_map_1 l k) by done.
    by rewrite lookup_insert_eq.
  - by rewrite !lookup_insert_ne.
Qed.

Lemma std_build_iter m : std_build ∅ (std_iter m) = m.
Proof.
  apply map_eq. intros k. rewrite std_build_lookup by apply std_iter_NoDup.
  rewrite (list_to_map_proper (M:=gmap K) _ _ (std_iter_NoDup m) (std_iter_perm m)).
  rewrite list_to_map_to_list, lookup_empty. by destruct (m !! k).
Qed.
End std_map.

(** [m[k]] on a [std::map] whose value type has default [d]: the element is
    created when it is missing. *)
Definition std_ref `{Countable K} {V} (d : V) (m : gmap K V) (k : K) : V :=
  default d (m !! k).
Definition std_touch `{Countable K} {V} (d : V) (m : gmap K V) (k : K) : gmap K V :=
  <[k := std_ref d m k]> m.

Lemma std_ref_insert_eq `{Countable K} {V} (d : V) (m : gmap K V) k v :
  std_ref d (<[k := v]> m) k = v.
Proof. unfold std_ref. by rewrite lookup_insert_eq. Qed.
Lemma std_ref_insert_ne `{Countable K} {V} (d : V) (m : gmap K V) k k' v :
  k <> k' -> std_ref d (<[k := v]> m) k' = std_ref d m k'.
Proof. intros. unfold std_ref. by rewrite lookup_insert_ne. Qed.
Lemma std_ref_touch `{Countable K} {V} (d : V) (m : gmap K V) k k' :
  std_ref d (std_touch d m k) k' = std_ref d m k'.
Proof.
  unfold std_touch. destruct (decide (k = k')) as [<-|Hne].
  - by rewrite std_ref_insert_eq.
  - by rewrite std_ref_insert_ne.
Qed.
#[export] Hint Rewrite @std_ref_insert_eq : yfs.

(** ** Lists as memory *)

(** [memcpy(buf + i, bs, length bs)]. *)
Definition mem_store (buf : str) (i : nat) (bs : str) : str :=
  take i buf ++ bs ++ drop (i + length bs) buf.
#[global] Arguments mem_store : simpl never.

Lemma length_mem_store buf i bs :
  (i + length bs <= length buf)%nat -> length (mem_store buf i bs) = length buf.
Proof.
  intros. unfold mem_store.
  rewrite !length_app, length_take, length_drop. lia.
Qed.
Lemma take_mem_store buf i bs n :
  (n <= i)%nat -> (i <= length buf)%nat -> take n (mem_store buf i bs) = take n buf.
Proof.
  intros. unfold mem_store.
  rewrite take_app_le by (rewrite length_take; lia).
  rewrite take_take. f_equal. lia.
Qed.
Lemma mem_store_prefix buf i bs :
  (i <= length buf)%nat ->
  take (i + length bs) (mem_store buf i bs) = take i buf ++ bs.
Proof.
  intros. unfold mem_store. rewrite app_assoc.
  rewrite take_app_length'; [done|]. rewrite length_app, length_take. lia.
Qed.
Lemma drop_mem_store buf i bs n :
  (i + length bs <= n)%nat -> (i + length bs <= length buf)%nat ->
  drop n (mem_store buf i bs) = drop n buf.
Proof.
  intros. unfold mem_store. rewrite app_assoc.
  rewrite drop_app_ge; rewrite length_app, length_take; [|lia].
  rewrite drop_drop. f_equal. lia.
Qed.
