(* ===== verification/Marshall.v ===== *)
(** * The RPC wire format: [marshall] and [unmarshall]

    Models [rpc/marshall.h] and the marshalling half of [rpc/rpc.cc]: the
    growing output buffer, the bounds-checked input buffer, one pair of
    operators per base type, and the templates for vectors and maps.  The
    overloaded [operator<<] / [operator>>] of a type is a [codec]; [CodecOk]
    states what a codec promises to its clients: [put] appends a fixed
    encoding, and [get] reads it back. *)
From S2P Require Import Prelude.
#[local] Obligation Tactic := idtac.

(** The bytes of a heap block before the program writes them: [fresh_byte i] is
    the content of byte [i] of a block from [malloc] or of the part [realloc]
    adds.  Every theorem holds for every choice. *)
Class FreshMem := fresh_byte : Z -> ascii.
Definition fresh_zero : FreshMem := fun _ => NUL.

Definition RPC_HEADER_SZ : Z := Z.max 20 8 + 4.
Definition DEFAULT_RPC_SZ : Z := 1024.

Record req_header := ReqHeader {
  rq_xid : Z; rq_proc : Z; rq_clt_nonce : Z; rq_srv_nonce : Z; rq_xid_rep : Z
}.
Record reply_header := ReplyHeader { rp_xid : Z; rp_ret : Z }.

(** ** The output buffer *)

Record marshall := Marshall { m_buf : str; m_capa : Z; m_ind : Z }.

(** ** The input buffer *)

Record unmarshall := Unmarshall {
  u_buf : str; u_sz : Z; u_ind : Z; u_ok : bool
}.

Section output.
Context `{FreshMem}.

Definition fresh (from n : nat) : str :=
  (fun i => fresh_byte (Z.of_nat i)) <$> seq from n.

Definition realloc (buf : str) (sz : Z) : str :=
  take (Z.to_nat sz) buf ++ fresh (length buf) (Z.to_nat sz - length buf).

Definition marshall_new : marshall :=
  {| m_buf := fresh 0 (Z.to_nat DEFAULT_RPC_SZ);
     m_capa := DEFAULT_RPC_SZ; m_ind := RPC_HEADER_SZ |}.

Definition rawbyte (m : marshall) (x : Z) : marshall :=
  let m := if m_capa m <=? m_ind m
           then {| m_buf := realloc (m_buf m) (m_capa m * 2);
                   m_capa := m_capa m * 2; m_ind := m_ind m |}
           else m in
  {| m_buf := mem_store (m_buf m) (Z.to_nat (m_ind m)) [Z_to_char x];
     m_capa := m_capa m; m_ind := m_ind m + 1 |}.

Definition rawbytes (m : marshall) (p : str) (n : Z) : marshall :=
  let m := if m_capa m <? m_ind m + n
           then let capa := if n <? m_capa m then 2 * m_capa m
                            else m_capa m + n in
                {| m_buf := realloc (m_buf m) capa;
                   m_capa := capa; m_ind := m_ind m |}
           else m in
  {| m_buf := mem_store (m_buf m) (Z.to_nat (m_ind m)) (take (Z.to_nat n) p);
     m_capa := m_capa m; m_ind := m_ind m + n |}.

(** [get_content()], which is also [str()]. *)
Definition m_str (m : marshall) : str :=
  take (Z.to_nat (m_ind m - RPC_HEADER_SZ))
    (drop (Z.to_nat RPC_HEADER_SZ) (m_buf m)).

(** [take_buf]: the buffer and the number of bytes in use. *)
Definition m_take_buf (m : marshall) : str * Z := (m_buf m, m_ind m).

Definition put_bool (m : marshall) (x : bool) : marshall :=
  rawbyte m (if x then 1 else 0).
Definition put_uchar (m : marshall) (x : Z) : marshall := rawbyte m x.
Definition put_char (m : marshall) (x : ascii) : marshall :=
  put_uchar m (char_to_Z x).
Definition put_u16 (m : marshall) (x : Z) : marshall :=
  let m := rawbyte m (Z.land (Z.shiftr x 8) 255) in
  rawbyte m (Z.land x 255).
Definition put_i16 (m : marshall) (x : Z) : marshall := put_u16 m (u16 x).
Definition put_u32 (m : marshall) (x : Z) : marshall :=
  let m := rawbyte m (Z.land (Z.shiftr x 24) 255) in
  let m := rawbyte m (Z.land (Z.shiftr x 16) 255) in
  let m := rawbyte m (Z.land (Z.shiftr x 8) 255) in
  rawbyte m (Z.land x 255).
Definition put_i32 (m : marshall) (x : Z) : marshall := put_u32 m (u32 x).
Definition put_string (m : marshall) (s : str) : marshall :=
  let m := put_u32 m (u32 (Z.of_nat (length s))) in
  rawbytes m s (Z.of_nat (length s)).
Definition put_u64 (m : marshall) (x : Z) : marshall :=
  let m := put_u32 m (u32 (Z.shiftr x 32)) in
  put_u32 m (u32 x).

(** [pack]: an [int], at the current position. *)
Definition pack (m : marshall) (x : Z) : marshall :=
  let m := rawbyte m (Z.land (Z.shiftr x 24) 255) in
  let m := rawbyte m (Z.land (Z.shiftr x 16) 255) in
  let m := rawbyte m (Z.land (Z.shiftr x 8) 255) in
  rawbyte m (Z.land x 255).

Definition m_seek (m : marshall) (i : Z) : marshall :=
  {| m_buf := m_buf m; m_capa := m_capa m; m_ind := i |}.

Definition pack_req_header (m : marshall) (h : req_header) : marshall :=
  let saved_sz := m_ind m in
  let m := m_seek m 4 in
  let m := pack m (rq_xid h) in
  let m := pack m (rq_proc h) in
  let m := pack m (i32 (rq_clt_nonce h)) in
  let m := pack m (i32 (rq_srv_nonce h)) in
  let m := pack m (rq_xid_rep h) in
  m_seek m saved_sz.

Definition pack_reply_header (m : marshall) (h : reply_header) : marshall :=
  let saved_sz := m_ind m in
  let m := m_seek m 4 in
  let m := pack m (rp_xid h) in
  let m := pack m (rp_ret h) in
  m_seek m saved_sz.
End output.

Section input.
(** [unmarshall(char *b, int sz)]. *)
Definition unmarshall_pdu (b : str) (sz : Z) : unmarshall :=
  {| u_buf := b; u_sz := sz; u_ind := 0; u_ok := true |}.
(** [unmarshall()]. *)
Definition unmarshall_empty : unmarshall :=
  {| u_buf := []; u_sz := 0; u_ind := 0; u_ok := false |}.
(** [unmarshall(const std::string &s)], which is [take_content]. *)
Definition unmarshall_string `{FreshMem} (s : str) : unmarshall :=
  {| u_buf := fresh 0 (Z.to_nat RPC_HEADER_SZ) ++ s;
     u_sz := Z.of_nat (length s) + RPC_HEADER_SZ;
     u_ind := RPC_HEADER_SZ; u_ok := true |}.
(** [take_in(another)]. *)
Definition take_in (another : unmarshall) : unmarshall :=
  {| u_buf := u_buf another; u_sz := u_sz another; u_ind := RPC_HEADER_SZ;
     u_ok := RPC_HEADER_SZ <=? u_sz another |}.

Definition okdone (u : unmarshall) : bool := u_ok u && (u_ind u =? u_sz u).

Definition u_rawbyte (u : unmarshall) : Z * unmarshall :=
  if u_sz u <=? u_ind u
  then (0, {| u_buf := u_buf u; u_sz := u_sz u; u_ind := u_ind u; u_ok := false |})
  else (u32 (schar_to_Z (default NUL (u_buf u !! Z.to_nat (u_ind u)))),
        {| u_buf := u_buf u; u_sz := u_sz u; u_ind := u_ind u + 1; u_ok := u_ok u |}).

(** [rawbytes(ss, n)]: the bound is computed in [unsigned int]; a read past
    the end of the buffer has no meaning. *)
Definition u_rawbytes (ss : str) (u : unmarshall) (n : Z) : outcome (str * unmarshall) :=
  if u32 (u_sz u) <? u32 (u_ind u + n)
  then Ret (ss, {| u_buf := u_buf u; u_sz := u_sz u; u_ind := u_ind u; u_ok := false |})
  else if bool_decide (u_ind u + n <= Z.of_nat (length (u_buf u)))
  then Ret (take (Z.to_nat n) (drop (Z.to_nat (u_ind u)) (u_buf u)),
            {| u_buf := u_buf u; u_sz := u_sz u; u_ind := i32 (u_ind u + n);
               u_ok := u_ok u |})
  else UB.

Definition get_bool (u : unmarshall) : bool * unmarshall :=
  let '(x, u) := u_rawbyte u in (negb (x =? 0), u).
Definition get_uchar (u : unmarshall) : Z * unmarshall :=
  let '(x, u) := u_rawbyte u in (u8 x, u).
Definition get_char (u : unmarshall) : ascii * unmarshall :=
  let '(x, u) := u_rawbyte u in (Z_to_char x, u).
Definition get_u16 (u : unmarshall) : Z * unmarshall :=
  let '(b1, u) := u_rawbyte u in
  let '(b0, u) := u_rawbyte u in
  (u16 (Z.lor (u16 (Z.shiftl (Z.land b1 255) 8)) (Z.land b0 255)), u).
Definition get_i16 (u : unmarshall) : Z * unmarshall :=
  let '(b1, u) := u_rawbyte u in
  let '(b0, u) := u_rawbyte u in
  (i16 (Z.lor (i16 (Z.shiftl (Z.land b1 255) 8)) (Z.land b0 255)), u).
Definition get_u32 (u : unmarshall) : Z * unmarshall :=
  let '(b3, u) := u_rawbyte u in
  let '(b2, u) := u_rawbyte u in
  let '(b1, u) := u_rawbyte u in
  let '(b0, u) := u_rawbyte u in
  (Z.lor (Z.lor (Z.lor (u32 (Z.shiftl (Z.land b3 255) 24))
                       (Z.shiftl (Z.land b2 255) 16))
                (Z.shiftl (Z.land b1 255) 8)) (Z.land b0 255), u).
Definition get_i32 (u : unmarshall) : Z * unmarshall :=
  let '(b3, u) := u_rawbyte u in
  let '(b2, u) := u_rawbyte u in
  let '(b1, u) := u_rawbyte u in
  let '(b0, u) := u_rawbyte u in
  (i32 (Z.lor (i32 (Z.lor (i32 (Z.lor (i32 (Z.shiftl (Z.land b3 255) 24))
                       (Z.shiftl (Z.land b2 255) 16)))
                (Z.shiftl (Z.land b1 255) 8))) (Z.land b0 255)), u).
Definition get_u64 (u : unmarshall) : Z * unmarshall :=
  let '(h, u) := get_u32 u in
  let '(l, u) := get_u32 u in
  (Z.lor l (u64 (Z.shiftl h 32)), u).
Definition get_string (s : str) (u : unmarshall) : outcome (str * unmarshall) :=
  let '(sz, u) := get_u32 u in
  if u_ok u then u_rawbytes s u sz else Ret (s, u).

Definition u_seek (u : unmarshall) (i : Z) : unmarshall :=
  {| u_buf := u_buf u; u_sz := u_sz u; u_ind := i; u_ok := u_ok u |}.

(** [unpack] has the text of [operator>>(unmarshall &, int &)]. *)
Definition unpack (u : unmarshall) : Z * unmarshall := get_i32 u.

Definition unpack_req_header (u : unmarshall) : req_header * unmarshall :=
  let u := u_seek u 4 in
  let '(xid, u) := unpack u in
  let '(proc, u) := unpack u in
  let '(clt, u) := unpack u in
  let '(srv, u) := unpack u in
  let '(rep, u) := unpack u in
  (ReqHeader xid proc (u32 clt) (u32 srv) rep, u_seek u RPC_HEADER_SZ).

Definition unpack_reply_header (u : unmarshall) : reply_header * unmarshall :=
  let u := u_seek u 4 in
  let '(xid, u) := unpack u in
  let '(ret, u) := unpack u in
  (ReplyHeader xid ret, u_seek u RPC_HEADER_SZ).
End input.

(** ** Big-endian numbers *)

Definition be16 (x : Z) : str := [Z_to_char (Z.shiftr x 8); Z_to_char x].
Definition be32 (x : Z) : str :=
  [Z_to_char (Z.shiftr x 24); Z_to_char (Z.shiftr x 16);
   Z_to_char (Z.shiftr x 8); Z_to_char x].

Lemma Z_to_char_land x : Z_to_char (Z.land x 255) = Z_to_char x.
Proof.
  apply Z_to_char_mod. change 255 with (Z.ones 8). rewrite Z.land_ones by lia. width.
Qed.

Lemma lor_shiftl_add a b n :
  0 <= n -> 0 <= b < 2 ^ n -> Z.lor (a * 2 ^ n) b = a * 2 ^ n + b.
Proof.
  intros Hn Hb. rewrite <-Z.shiftl_mul_pow2 by done.
  assert (Z.land (Z.shiftl a n) b = 0) as Hd.
  { apply Z.bits_inj'. intros i Hi. rewrite Z.bits_0, Z.land_spec.
    destruct (Z.lt_ge_cases i n).
    - by rewrite Z.shiftl_spec_low.
    - replace (Z.testbit b i) with false; [apply andb_false_r|].
      destruct (decide (b = 0)) as [->|]; [by rewrite Z.bits_0|].
      symmetry. apply Z.bits_above_log2; [lia|].
      apply Z.log2_lt_pow2; [lia|].
      assert (2 ^ n <= 2 ^ i) by (apply Z.pow_le_mono_r; lia). lia. }
  by rewrite <-Z.lxor_lor, Z.add_nocarry_lxor.
Qed.

Lemma lor_bytes4 b3 b2 b1 b0 :
  is_u8 b3 -> is_u8 b2 -> is_u8 b1 -> is_u8 b0 ->
  Z.lor (Z.lor (Z.lor (b3 * 2 ^ 24) (b2 * 2 ^ 16)) (b1 * 2 ^ 8)) b0
  = b3 * 2 ^ 24 + b2 * 2 ^ 16 + b1 * 2 ^ 8 + b0.
Proof.
  unfold is_u8. change (2 ^ 8) with 256. intros.
  rewrite (lor_shiftl_add b3) by lia.
  replace (b3 * 2 ^ 24 + b2 * 2 ^ 16) with ((b3 * 256 + b2) * 2 ^ 16) by lia.
  rewrite (lor_shiftl_add _ (b1 * 256)) by lia.
  replace ((b3 * 256 + b2) * 2 ^ 16 + b1 * 256)
    with (((b3 * 256 + b2) * 256 + b1) * 2 ^ 8) by lia.
  rewrite lor_shiftl_add by lia. lia.
Qed.

Lemma u32_bytes x :
  u32 x = u8 (Z.shiftr x 24) * 2 ^ 24 + u8 (Z.shiftr x 16) * 2 ^ 16
          + u8 (Z.shiftr x 8) * 2 ^ 8 + u8 x.
Proof.
  rewrite !Z.shiftr_div_pow2 by lia. unfold u32, u8.
  change (2 ^ 32) with 4294967296. change (2 ^ 24) with 16777216.
  change (2 ^ 16) with 65536. change (2 ^ 8) with 256.
  Z.to_euclidean_division_equations. lia.
Qed.

(** ** The buffer invariants *)

(** The output buffer: [_capa] is the block's size, the write head is between
    the header and the end, and the block is at most twice as large as what is
    in use (so [_capa] cannot overflow an [int] below 2^30 bytes). *)
Definition marshall_wf (m : marshall) : Prop :=
  Z.of_nat (length (m_buf m)) = m_capa m /\
  RPC_HEADER_SZ <= m_ind m <= m_capa m /\
  m_capa m <= Z.max DEFAULT_RPC_SZ (2 * m_ind m).

(** [m'] is [m] with the bytes [bs] appended. *)
Definition appended (m : marshall) (bs : str) (m' : marshall) : Prop :=
  marshall_wf m' /\
  m_ind m' = m_ind m + Z.of_nat (length bs) /\
  take (Z.to_nat (m_ind m')) (m_buf m') = take (Z.to_nat (m_ind m)) (m_buf m) ++ bs.

Section output_lemmas.
Context `{FreshMem}.

Lemma length_fresh i n : length (fresh i n) = n.
Proof. unfold fresh. by rewrite length_fmap, length_seq. Qed.

Lemma length_realloc buf sz :
  (length buf <= Z.to_nat sz)%nat -> length (realloc buf sz) = Z.to_nat sz.
Proof.
  intros. unfold realloc. rewrite length_app, length_take, length_fresh. lia.
Qed.
Lemma take_realloc buf sz n :
  (n <= length buf)%nat -> (length buf <= Z.to_nat sz)%nat ->
  take n (realloc buf sz) = take n buf.
Proof.
  intros. unfold realloc. rewrite (take_ge buf) by lia.
  by rewrite take_app_le by lia.
Qed.

Lemma marshall_new_wf : marshall_wf marshall_new.
Proof.
  unfold marshall_wf, marshall_new, RPC_HEADER_SZ; cbn [m_buf m_capa m_ind].
  rewrite length_fresh. unfold DEFAULT_RPC_SZ. lia.
Qed.
Lemma marshall_new_str : m_str marshall_new = [].
Proof. unfold m_str, marshall_new. cbn [m_ind]. by rewrite Z.sub_diag. Qed.

(** Storing [n] bytes after making room for them. *)
Lemma store_appended (m : marshall) buf capa bs :
  marshall_wf m ->
  (buf = m_buf m /\ capa = m_capa m \/
   buf = realloc (m_buf m) capa /\ m_capa m <= capa /\
   capa <= 2 * (m_ind m + Z.of_nat (length bs))) ->
  m_ind m + Z.of_nat (length bs) <= capa ->
  appended m bs {| m_buf := mem_store buf (Z.to_nat (m_ind m)) bs;
                   m_capa := capa; m_ind := m_ind m + Z.of_nat (length bs) |}.
Proof.
  unfold appended, marshall_wf, RPC_HEADER_SZ.
  intros (Hlen & Hind & Hcap) Hbuf Hroom; cbn [m_buf m_capa m_ind].
  assert (Z.of_nat (length buf) = capa /\
          take (Z.to_nat (m_ind m)) buf = take (Z.to_nat (m_ind m)) (m_buf m))
    as [Hl Htake].
  { destruct Hbuf as [[-> ->]|(-> & ? & ?)]; [done|].
    rewrite length_realloc, take_realloc by lia. split; [lia|done]. }
  rewrite length_mem_store by lia.
  replace (Z.to_nat (m_ind m + Z.of_nat (length bs)))
    with (Z.to_nat (m_ind m) + length bs)%nat by lia.
  rewrite mem_store_prefix by lia. rewrite Htake.
  split_and!; try done; lia.
Qed.

Lemma rawbyte_appended m x :
  marshall_wf m -> appended m [Z_to_char x] (rawbyte m x).
Proof.
  intros Hwf. pose proof Hwf as (Hlen & Hind & Hcap). unfold RPC_HEADER_SZ in *.
  unfold rawbyte. destruct (Z.leb_spec (m_capa m) (m_ind m)); simpl.
  - apply (store_appended m _ _ [Z_to_char x]); simpl; [done| |lia].
    right. split; [done|lia].
  - apply (store_appended m _ _ [Z_to_char x]); simpl; [done|by left|lia].
Qed.

Lemma rawbytes_appended m p :
  marshall_wf m -> appended m p (rawbytes m p (Z.of_nat (length p))).
Proof.
  intros Hwf. pose proof Hwf as (Hlen & Hind & Hcap). unfold RPC_HEADER_SZ in *.
  unfold rawbytes. rewrite Nat2Z.id, firstn_all.
  destruct (Z.ltb_spec (m_capa m) (m_ind m + Z.of_nat (length p))); simpl.
  - destruct (Z.ltb_spec (Z.of_nat (length p)) (m_capa m)); simpl;
      (apply (store_appended m _ _ p); simpl; [done|right; split; [done|lia]|lia]).
  - apply (store_appended m _ _ p); simpl; [done|by left|lia].
Qed.

Lemma appended_wf m bs m' : appended m bs m' -> marshall_wf m'.
Proof. by intros []. Qed.
Lemma appended_trans m1 m2 m3 bs bs' :
  appended m1 bs m2 -> appended m2 bs' m3 -> appended m1 (bs ++ bs') m3.
Proof.
  intros (? & Hi & Ht) (? & Hi' & Ht'). split_and!; [done| |].
  - rewrite length_app. lia.
  - by rewrite Ht', Ht, app_assoc.
Qed.
Lemma appended_nil m : marshall_wf m -> appended m [] m.
Proof. intros. split_and!; [done|simpl; lia|by rewrite app_nil_r]. Qed.

(** Appending changes neither the header area nor the content before. *)
Lemma appended_str m bs m' :
  marshall_wf m -> appended m bs m' -> m_str m' = m_str m ++ bs.
Proof.
  intros (Hl & Hi & _) (_ & Hind & Ht). unfold m_str.
  rewrite !take_drop_commute. unfold RPC_HEADER_SZ in *.
  replace (Z.to_nat _ + Z.to_nat (m_ind m' - _))%nat
    with (Z.to_nat (m_ind m')) by lia.
  replace (Z.to_nat _ + Z.to_nat (m_ind m - _))%nat
    with (Z.to_nat (m_ind m)) by lia.
  rewrite Ht. apply drop_app_le. rewrite length_take. lia.
Qed.

(** A writer: on every well-formed buffer it appends [bs]. *)
Definition appends (f : marshall -> marshall) (bs : str) : Prop :=
  forall m, marshall_wf m -> appended m bs (f m).

Lemma appends_comp f g bs bs' :
  appends f bs -> appends g bs' -> appends (fun m => g (f m)) (bs ++ bs').
Proof.
  intros Hf Hg m Hm. eapply appended_trans; [by apply Hf|].
  apply Hg. by eapply appended_wf, Hf.
Qed.
Lemma appends_id : appends (fun m => m) [].
Proof. intros m. apply appended_nil. Qed.
Lemma appends_rawbyte x : appends (fun m => rawbyte m x) [Z_to_char x].
Proof. intros m. apply rawbyte_appended. Qed.
Lemma appends_rawbytes p :
  appends (fun m => rawbytes m p (Z.of_nat (length p))) p.
Proof. intros m. apply rawbytes_appended. Qed.
Lemma appends_eq f bs bs' : appends f bs -> bs = bs' -> appends f bs'.
Proof. by intros ? <-. Qed.

Lemma appends_u16 x : appends (fun m => put_u16 m x) (be16 x).
Proof.
  eapply appends_eq; [exact (appends_comp _ _ _ _ (appends_rawbyte _) (appends_rawbyte _))|].
  simpl. by rewrite !Z_to_char_land.
Qed.
Lemma appends_u32 x : appends (fun m => put_u32 m x) (be32 x).
Proof.
  eapply appends_eq.
  { exact (appends_comp _ _ _ _ (appends_rawbyte _)
      (appends_comp _ _ _ _ (appends_rawbyte _)
        (appends_comp _ _ _ _ (appends_rawbyte _) (appends_rawbyte _)))). }
  simpl. by rewrite !Z_to_char_land.
Qed.
End output_lemmas.

(** ** Reading back *)

Definition unmarshall_wf (u : unmarshall) : Prop :=
  0 <= u_ind u <= u_sz u /\ Z.of_nat (length (u_buf u)) = u_sz u /\ u_sz u < 2 ^ 31.

Definition remaining (u : unmarshall) : str := drop (Z.to_nat (u_ind u)) (u_buf u).

Definition advance (u : unmarshall) (n : nat) : unmarshall :=
  {| u_buf := u_buf u; u_sz := u_sz u; u_ind := u_ind u + Z.of_nat n; u_ok := u_ok u |}.

(** [g] reads the value [a] from the bytes [bs], whatever its target held. *)
Definition reads {A} (g : A -> unmarshall -> outcome (A * unmarshall))
    (a : A) (bs : str) : Prop :=
  forall u rest old, unmarshall_wf u -> u_ok u = true -> remaining u = bs ++ rest ->
    g old u = Ret (a, advance u (length bs)).

Lemma remaining_advance u bs rest :
  unmarshall_wf u -> remaining u = bs ++ rest ->
  remaining (advance u (length bs)) = rest.
Proof.
  unfold remaining, advance; simpl. intros (Hi & Hs & _) Hr.
  rewrite Z2Nat.inj_add, Nat2Z.id by lia.
  rewrite <-drop_drop, Hr. by apply drop_app_length.
Qed.
Lemma remaining_room u bs rest :
  unmarshall_wf u -> remaining u = bs ++ rest ->
  u_ind u + Z.of_nat (length bs) <= u_sz u.
Proof.
  unfold remaining. intros (Hi & Hs & _) Hr.
  apply (f_equal length) in Hr. rewrite length_drop, length_app in Hr. lia.
Qed.
Lemma advance_wf u bs rest :
  unmarshall_wf u -> remaining u = bs ++ rest -> unmarshall_wf (advance u (length bs)).
Proof.
  intros Hwf Hr. pose proof (remaining_room _ _ _ Hwf Hr).
  destruct Hwf as (? & ? & ?). unfold unmarshall_wf, advance; simpl. lia.
Qed.
Lemma advance_advance u n n' : advance (advance u n) n' = advance u (n + n').
Proof. unfold advance; simpl. f_equal. lia. Qed.
Lemma advance_0 u : advance u 0 = u.
Proof. destruct u. unfold advance; simpl. f_equal. lia. Qed.
Lemma advance_ok u n : u_ok (advance u n) = u_ok u.
Proof. done. Qed.

Lemma u_rawbyte_cons u c rest :
  unmarshall_wf u -> remaining u = c :: rest ->
  u_rawbyte u = (u32 (schar_to_Z c), advance u 1).
Proof.
  intros Hwf Hr. pose proof (remaining_room u [c] rest Hwf Hr) as Hroom.
  unfold u_rawbyte. simpl in Hroom.
  destruct (Z.leb_spec (u_sz u) (u_ind u)); [lia|].
  unfold remaining in Hr.
  assert (u_buf u !! Z.to_nat (u_ind u) = Some c) as ->.
  { rewrite <-(Nat.add_0_r (Z.to_nat (u_ind u))), <-lookup_drop, Hr. done. }
  done.
Qed.

(** One step of a reader: consume the next byte. *)
Ltac read_byte Hwf Hr :=
  match type of Hr with
  | remaining ?u = ?c :: ?rest =>
      rewrite (u_rawbyte_cons u c rest Hwf Hr); cbn beta iota;
      let W := fresh "Hwf" in let R := fresh "Hr" in
      pose proof (advance_wf u [c] rest Hwf Hr) as W;
      pose proof (remaining_advance u [c] rest Hwf Hr) as R;
      cbn [length] in W, R; clear Hwf Hr; rename W into Hwf; rename R into Hr
  end.

Lemma get_u32_be32 x u rest :
  unmarshall_wf u -> remaining u = be32 x ++ rest ->
  get_u32 u = (u32 x, advance u 4).
Proof.
  intros Hwf Hr. unfold be32 in Hr. simpl in Hr. unfold get_u32.
  do 4 read_byte Hwf Hr. rewrite !schar_land, !advance_advance, !char_to_Z_to_char.
  f_equal. rewrite !Z.shiftl_mul_pow2 by lia.
  rewrite (u32_id (u8 _ * _)) by width.
  rewrite lor_bytes4 by width. symmetry. apply u32_bytes.
Qed.

Lemma i32_land a : i32 (Z.land a (Z.ones 32)) = i32 a.
Proof. rewrite Z.land_ones by lia. apply i32_u32. Qed.
(** Truncating an operand of [|] before converting to [int] changes nothing. *)
Lemma i32_lor_cong a a' b : u32 a = u32 a' -> i32 (Z.lor a b) = i32 (Z.lor a' b).
Proof.
  intros E. rewrite <-(i32_land (Z.lor a b)), <-(i32_land (Z.lor a' b)).
  rewrite !Z.land_lor_distr_l. do 2 f_equal. by rewrite !Z.land_ones by lia.
Qed.
Lemma u32_u32 a : u32 (u32 a) = u32 a.
Proof. width. Qed.

(** The two [int] readers compute the [unsigned] value and convert it once. *)
Lemma get_i32_get_u32 u : get_i32 u = (i32 (get_u32 u).1, (get_u32 u).2).
Proof.
  unfold get_i32, get_u32.
  destruct (u_rawbyte u) as [b3 u1], (u_rawbyte u1) as [b2 u2],
    (u_rawbyte u2) as [b1 u3], (u_rawbyte u3) as [b0 u4]. simpl. f_equal.
  set (a := Z.shiftl (Z.land b3 255) 24).
  etrans; [apply i32_lor_cong, u32_i32|]. rewrite <-!Z.lor_assoc.
  etrans; [apply i32_lor_cong, u32_i32|]. rewrite <-!Z.lor_assoc.
  etrans; [apply i32_lor_cong, u32_i32|].
  symmetry. apply i32_lor_cong, u32_u32.
Qed.

Lemma get_i32_be32 x u rest :
  unmarshall_wf u -> remaining u = be32 x ++ rest ->
  get_i32 u = (i32 x, advance u 4).
Proof.
  intros Hwf Hr. rewrite get_i32_get_u32, (get_u32_be32 x u rest) by done.
  simpl. by rewrite i32_u32.
Qed.

(** Reading moves the head and never touches the buffer. *)
Lemma u_rawbyte_frame u x u' :
  u_rawbyte u = (x, u') -> u_buf u' = u_buf u /\ u_sz u' = u_sz u.
Proof. unfold u_rawbyte. case_match; by intros [= _ <-]. Qed.
Lemma get_u32_frame u x u' :
  get_u32 u = (x, u') -> u_buf u' = u_buf u /\ u_sz u' = u_sz u.
Proof.
  unfold get_u32.
  destruct (u_rawbyte u) as [b3 u1] eqn:E1, (u_rawbyte u1) as [b2 u2] eqn:E2,
    (u_rawbyte u2) as [b1 u3] eqn:E3, (u_rawbyte u3) as [b0 u4] eqn:E4.
  intros [= _ <-].
  apply u_rawbyte_frame in E1 as [? ?], E2 as [? ?], E3 as [? ?], E4 as [? ?].
  split; congruence.
Qed.
Lemma get_i32_frame u x u' :
  get_i32 u = (x, u') -> u_buf u' = u_buf u /\ u_sz u' = u_sz u.
Proof.
  rewrite get_i32_get_u32. intros [= _ <-].
  destruct (get_u32 u) as [y u1] eqn:E. by apply get_u32_frame in E.
Qed.

Lemma get_u64_frame u x u' :
  get_u64 u = (x, u') -> u_buf u' = u_buf u /\ u_sz u' = u_sz u.
Proof.
  unfold get_u64. destruct (get_u32 u) as [h u1] eqn:E1, (get_u32 u1) as [l u2] eqn:E2.
  intros [= _ <-]. apply get_u32_frame in E1 as [? ?], E2 as [? ?]. by split; etrans.
Qed.
(** A string that is read is a part of the buffer. *)
Lemma get_string_buf old u s u' : get_string old u = Ret (s, u') -> u_buf u' = u_buf u.
Proof.
  unfold get_string. destruct (get_u32 u) as [n u1] eqn:E. apply get_u32_frame in E as [<- _].
  case_match; [|by intros [= _ <-]]. unfold u_rawbytes. case_match; [by intros [= _ <-]|].
  case_match; [|done]. by intros [= _ <-].
Qed.
Lemma get_string_length old u s u' :
  get_string old u = Ret (s, u') -> (length s <= length old `max` length (u_buf u))%nat.
Proof.
  unfold get_string. destruct (get_u32 u) as [n u1] eqn:E. apply get_u32_frame in E as [<- _].
  case_match; [|intros [= <- <-]; lia]. unfold u_rawbytes. case_match; [intros [= <- <-]; lia|].
  case_match; [|done]. intros [= <- <-]. rewrite length_take, length_drop. lia.
Qed.
(** A reader that is still [ok] has read what it was asked for. *)
Lemma u_rawbyte_ok u x u' :
  u_rawbyte u = (x, u') -> u_ok u' = true ->
  u_ok u = true /\ u_ind u' = u_ind u + 1 /\ u_ind u < u_sz u.
Proof. unfold u_rawbyte. destruct (Z.leb_spec (u_sz u) (u_ind u)); by intros [= _ <-]. Qed.
Lemma get_i32_ok u x u' :
  get_i32 u = (x, u') -> u_ok u' = true ->
  u_ok u = true /\ u_ind u' = u_ind u + 4 /\ u_ind u' <= u_sz u.
Proof.
  unfold get_i32.
  destruct (u_rawbyte u) as [b3 u1] eqn:E1, (u_rawbyte u1) as [b2 u2] eqn:E2,
    (u_rawbyte u2) as [b1 u3] eqn:E3, (u_rawbyte u3) as [b0 u4] eqn:E4.
  intros [= _ <-] K4.
  destruct (u_rawbyte_ok _ _ _ E4 K4) as (K3 & ? & ?), (u_rawbyte_ok _ _ _ E3 K3) as (K2 & ? & ?),
    (u_rawbyte_ok _ _ _ E2 K2) as (K1 & ? & ?), (u_rawbyte_ok _ _ _ E1 K1) as (K0 & ? & ?).
  apply u_rawbyte_frame in E1 as [_ ?], E2 as [_ ?], E3 as [_ ?], E4 as [_ ?].
  split_and!; [done|lia|lia].
Qed.

Lemma u16_bytes x : u16 x = u8 (Z.shiftr x 8) * 2 ^ 8 + u8 x.
Proof. rewrite Z.shiftr_div_pow2 by lia. width. Qed.

Lemma get_u16_be16 x u rest :
  unmarshall_wf u -> remaining u = be16 x ++ rest ->
  get_u16 u = (u16 x, advance u 2).
Proof.
  intros Hwf Hr. unfold be16 in Hr. simpl in Hr. unfold get_u16.
  do 2 read_byte Hwf Hr. rewrite !schar_land, !advance_advance, !char_to_Z_to_char.
  f_equal. rewrite Z.shiftl_mul_pow2 by lia.
  replace (u16 (u8 (Z.shiftr x 8) * 2 ^ 8)) with (u8 (Z.shiftr x 8) * 2 ^ 8) by width.
  rewrite lor_shiftl_add by width. rewrite (u16_bytes x). width.
Qed.

Lemma get_u64_be x u rest :
  unmarshall_wf u ->
  remaining u = be32 (u32 (Z.shiftr x 32)) ++ be32 (u32 x) ++ rest ->
  get_u64 u = (u64 x, advance u 8).
Proof.
  intros Hwf Hr. unfold get_u64. rewrite (get_u32_be32 _ _ _ Hwf Hr).
  rewrite (get_u32_be32 (u32 x) _ rest).
  2: by apply (advance_wf _ _ _ Hwf Hr). 2: by apply (remaining_advance _ _ _ Hwf Hr).
  rewrite advance_advance. f_equal. rewrite !u32_u32, Z.lor_comm.
  rewrite Z.shiftl_mul_pow2, Z.shiftr_div_pow2 by lia.
  rewrite u64_id by width. rewrite lor_shiftl_add by width. width.
Qed.

Lemma u_rawbytes_app s rest u old :
  unmarshall_wf u -> remaining u = s ++ rest ->
  u_rawbytes old u (Z.of_nat (length s)) = Ret (s, advance u (length s)).
Proof.
  intros Hwf Hr. pose proof (remaining_room _ _ _ Hwf Hr) as Hroom.
  destruct Hwf as (Hi & Hl & Hb). unfold u_rawbytes.
  rewrite (u32_id (u_sz u)), (u32_id (u_ind u + _)) by width.
  destruct (Z.ltb_spec (u_sz u) (u_ind u + Z.of_nat (length s))); [lia|].
  rewrite bool_decide_true by lia. unfold remaining in Hr.
  rewrite Nat2Z.id, Hr, take_app_length. unfold advance.
  by rewrite i32_id by width.
Qed.

Lemma get_string_app s rest u old :
  unmarshall_wf u -> u_ok u = true ->
  remaining u = (be32 (u32 (Z.of_nat (length s))) ++ s) ++ rest ->
  get_string old u = Ret (s, advance u (4 + length s)).
Proof.
  intros Hwf Hok Hr. pose proof (remaining_room _ _ _ Hwf Hr) as Hroom.
  rewrite <-app_assoc in Hr. rewrite length_app in Hroom.
  assert (is_u32 (Z.of_nat (length s))) by (destruct Hwf as (?&?&?); width).
  unfold get_string. rewrite (get_u32_be32 _ _ _ Hwf Hr).
  rewrite advance_ok, Hok, u32_u32, u32_id by done.
  rewrite (u_rawbytes_app s rest).
  - by rewrite advance_advance.
  - apply (advance_wf _ _ _ Hwf Hr).
  - apply (remaining_advance _ _ _ Hwf Hr).
Qed.

(** ** Codecs: a type with its [operator<<] and [operator>>]

    [c_get old u] is [u >> x] for a variable [x] that holds [old]; [c_dflt] is
    the value of a freshly declared variable of the type. *)

Record codec (A : Type) := Codec {
  c_put : marshall -> A -> marshall;
  c_get : A -> unmarshall -> outcome (A * unmarshall);
  c_dflt : A;
}.
Arguments Codec {A}.
Arguments c_put {A}.
Arguments c_get {A}.
Arguments c_dflt {A}.

(** What a codec promises: [put] appends the encoding of the value, and [get]
    reads a valid value back from its encoding and consumes exactly that. *)
Class CodecOk {A} (c : codec A) := {
  enc : A -> str;
  valid : A -> Prop;
  put_ok a : appends (fun m => c_put c m a) (enc a);
  get_ok a : valid a -> reads (c_get c) a (enc a);
}.
Arguments enc {A} c {_}.
Arguments valid {A} c {_}.
Arguments put_ok {A} c {_}.
Arguments get_ok {A} c {_}.

(** Reading one value through its codec, in a proof. *)
Lemma get_step {A B} (c : codec A) `{!CodecOk c} a u rest old
    (k : A * unmarshall -> outcome B) :
  unmarshall_wf u -> u_ok u = true -> remaining u = enc c a ++ rest -> valid c a ->
  (c_get c old u ≫= k) = k (a, advance u (length (enc c a))).
Proof. intros. by erewrite (get_ok c a) by done. Qed.

(** After a read the reader stands right behind it. *)
Ltac read_step Hwf Hok Hr :=
  match type of Hr with
  | remaining ?u = enc ?c ?a ++ ?rest =>
      rewrite (get_step c a u rest _ _ Hwf Hok Hr); [|try done];
      let W := fresh "W" in let R := fresh "R" in
      pose proof (advance_wf u _ rest Hwf Hr) as W;
      pose proof (remaining_advance u _ rest Hwf Hr) as R;
      clear Hwf Hr; rename W into Hwf; rename R into Hr
  end.

Section codecs.
Context `{FreshMem}.

Definition total {A} (g : unmarshall -> A * unmarshall) (_ : A) (u : unmarshall)
  : outcome (A * unmarshall) := Ret (g u).

Definition c_bool : codec bool := Codec put_bool (total get_bool) false.
Definition c_uchar : codec Z := Codec put_uchar (total get_uchar) 0.
Definition c_char : codec ascii := Codec put_char (total get_char) NUL.
Definition c_u16 : codec Z := Codec put_u16 (total get_u16) 0.
Definition c_i16 : codec Z := Codec put_i16 (total get_i16) 0.
Definition c_u32 : codec Z := Codec put_u32 (total get_u32) 0.
Definition c_i32 : codec Z := Codec put_i32 (total get_i32) 0.
Definition c_u64 : codec Z := Codec put_u64 (total get_u64) 0.
Definition c_string : codec str := Codec put_string get_string [].

(** [std::vector<C>]. *)
Definition put_vector {A} (c : codec A) (m : marshall) (v : list A) : marshall :=
  foldl (c_put c) (put_u32 m (u32 (Z.of_nat (length v)))) v.
Fixpoint get_vector_loop {A} (c : codec A) (n : nat) (v : list A) (u : unmarshall)
  : outcome (list A * unmarshall) :=
  match n with
  | O => Ret (v, u)
  | S n => '(z, u) ← c_get c (c_dflt c) u; get_vector_loop c n (v ++ [z]) u
  end.
Definition get_vector {A} (c : codec A) (_ : list A) (u : unmarshall)
  : outcome (list A * unmarshall) :=
  let '(n, u) := get_u32 u in get_vector_loop c (Z.to_nat n) [] u.
Definition c_vector {A} (c : codec A) : codec (list A) :=
  Codec (put_vector c) (get_vector c) [].

(** [std::map<A,B>]. *)
Definition put_map `{Countable K, !StdOrder K} {V} (ck : codec K) (cv : codec V)
    (m : marshall) (d : gmap K V) : marshall :=
  foldl (fun m p => c_put cv (c_put ck m p.1) p.2)
    (put_u32 m (u32 (Z.of_nat (size d)))) (std_iter d).
Fixpoint get_map_loop `{Countable K} {V} (ck : codec K) (cv : codec V)
    (n : nat) (d : gmap K V) (u : unmarshall) : outcome (gmap K V * unmarshall) :=
  match n with
  | O => Ret (d, u)
  | S n =>
      '(a, u) ← c_get ck (c_dflt ck) u;
      '(b, u) ← c_get cv (c_dflt cv) u;
      get_map_loop ck cv n (<[a := b]> d) u
  end.
Definition get_map `{Countable K} {V} (ck : codec K) (cv : codec V)
    (_ : gmap K V) (u : unmarshall) : outcome (gmap K V * unmarshall) :=
  let '(n, u) := get_u32 u in get_map_loop ck cv (Z.to_nat n) ∅ u.
Definition c_map `{Countable K, !StdOrder K} {V} (ck : codec K) (cv : codec V)
  : codec (gmap K V) := Codec (put_map ck cv) (get_map ck cv) ∅.

#[global] Typeclasses Opaque c_bool c_uchar c_char c_u16 c_i16 c_u32 c_i32 c_u64
  c_string c_vector c_map.

#[global] Program Instance c_bool_ok : CodecOk c_bool := {|
  enc b := [Z_to_char (if b then 1 else 0)]; valid _ := True |}.
Next Obligation. intros b. apply appends_rawbyte. Qed.
Next Obligation.
  intros b _ u rest old Hwf _ Hr. simpl in *. unfold total, get_bool.
  rewrite (u_rawbyte_cons _ _ _ Hwf Hr). by destruct b.
Qed.

#[global] Program Instance c_uchar_ok : CodecOk c_uchar := {|
  enc x := [Z_to_char x]; valid := is_u8 |}.
Next Obligation. intros x. apply appends_rawbyte. Qed.
Next Obligation.
  intros x Hx u rest old Hwf _ Hr. simpl in *. unfold total, get_uchar.
  rewrite (u_rawbyte_cons _ _ _ Hwf Hr), u8_schar, char_to_Z_to_char.
  by replace (u8 x) with x by width.
Qed.

#[global] Program Instance c_char_ok : CodecOk c_char := {|
  enc x := [x]; valid _ := True |}.
Next Obligation.
  intros x. eapply appends_eq; [apply appends_rawbyte|]. by rewrite Z_to_char_to_Z.
Qed.
Next Obligation.
  intros x _ u rest old Hwf _ Hr. simpl in *. unfold total, get_char.
  rewrite (u_rawbyte_cons _ _ _ Hwf Hr). unfold Z_to_char.
  rewrite u8_schar. do 2 f_equal. rewrite <-(Z_to_char_to_Z x) at 2.
  unfold Z_to_char. pose proof (char_to_Z_range x).
  by replace (u8 (char_to_Z x)) with (char_to_Z x) by width.
Qed.

#[global] Program Instance c_u16_ok : CodecOk c_u16 := {|
  enc := be16; valid := is_u16 |}.
Next Obligation. apply appends_u16. Qed.
Next Obligation.
  intros x Hx u rest old Hwf _ Hr. simpl in *. unfold total.
  rewrite (get_u16_be16 x u rest) by done. by replace (u16 x) with x by width.
Qed.

#[global] Program Instance c_u32_ok : CodecOk c_u32 := {|
  enc := be32; valid := is_u32 |}.
Next Obligation. apply appends_u32. Qed.
Next Obligation.
  intros x Hx u rest old Hwf _ Hr. simpl in *. unfold total.
  rewrite (get_u32_be32 x u rest) by done. by rewrite u32_id.
Qed.

#[global] Program Instance c_i32_ok : CodecOk c_i32 := {|
  enc x := be32 (u32 x); valid := is_i32 |}.
Next Obligation. intros x. exact (appends_u32 (u32 x)). Qed.
Next Obligation.
  intros x Hx u rest old Hwf _ Hr. simpl in *. unfold total.
  rewrite (get_i32_be32 (u32 x) u rest) by done. by rewrite i32_u32, i32_id.
Qed.

#[global] Program Instance c_u64_ok : CodecOk c_u64 := {|
  enc x := be32 (u32 (Z.shiftr x 32)) ++ be32 (u32 x); valid := is_u64 |}.
Next Obligation. intros x. exact (appends_comp _ _ _ _ (appends_u32 _) (appends_u32 _)). Qed.
Next Obligation.
  intros x Hx u rest old Hwf _ Hr. simpl in *. unfold total.
  rewrite (get_u64_be x u rest) by done. by rewrite u64_id.
Qed.

#[global] Program Instance c_string_ok : CodecOk c_string := {|
  enc s := be32 (u32 (Z.of_nat (length s))) ++ s; valid _ := True |}.
Next Obligation.
  intros s. exact (appends_comp _ _ _ _ (appends_u32 _) (appends_rawbytes s)).
Qed.
Next Obligation.
  intros s _ u rest old Hwf Hok Hr. simpl c_get.
  by rewrite (get_string_app s rest).
Qed.

Lemma appends_fold {A} (f : marshall -> A -> marshall) (e : A -> str) l :
  (forall a, appends (fun m => f m a) (e a)) ->
  appends (fun m => foldl f m l) (l ≫= e).
Proof.
  intros Hf. induction l as [|a l IH]; simpl; [apply appends_id|].
  exact (appends_comp _ _ _ _ (Hf a) IH).
Qed.

Lemma get_vector_loop_ok {A} (c : codec A) `{!CodecOk c} v acc u rest :
  Forall (valid c) v -> unmarshall_wf u -> u_ok u = true ->
  remaining u = (v ≫= enc c) ++ rest ->
  get_vector_loop c (length v) acc u = Ret (acc ++ v, advance u (length (v ≫= enc c))).
Proof.
  intros Hv. revert acc u. induction Hv as [|a v Ha Hv IH]; intros acc u Hwf Hok Hr; simpl.
  { by rewrite app_nil_r, advance_0. }
  simpl in Hr. rewrite <-app_assoc in Hr. read_step Hwf Hok Hr.
  rewrite IH by done. rewrite advance_advance, <-length_app. by rewrite <-app_assoc.
Qed.

#[global] Program Instance c_vector_ok {A} (c : codec A) `{!CodecOk c}
  : CodecOk (c_vector c) := {|
  enc v := be32 (u32 (Z.of_nat (length v))) ++ (v ≫= enc c);
  valid v := Forall (valid c) v /\ is_u32 (Z.of_nat (length v)) |}.
Next Obligation.
  intros A c ? v.
  apply (appends_comp (fun m => put_u32 m _) (fun m => foldl (c_put c) m v));
    [apply appends_u32|].
  apply appends_fold, (put_ok c).
Qed.
Next Obligation.
  intros A c ? v [Hv Hn] u rest old Hwf Hok Hr. simpl. unfold get_vector.
  rewrite <-app_assoc in Hr. rewrite (get_u32_be32 _ _ _ Hwf Hr).
  rewrite u32_u32, u32_id, Nat2Z.id by done.
  rewrite (get_vector_loop_ok c v [] _ rest Hv); [|by apply (advance_wf _ _ _ Hwf Hr)
    |done|by apply (remaining_advance _ _ _ Hwf Hr)].
  by rewrite advance_advance.
Qed.

Lemma get_map_loop_ok `{Countable K} {V} (ck : codec K) (cv : codec V)
    `{!CodecOk ck, !CodecOk cv} (l : list (K * V)) d u rest :
  Forall (fun p => valid ck p.1 /\ valid cv p.2) l ->
  unmarshall_wf u -> u_ok u = true ->
  remaining u = (l ≫= fun p => enc ck p.1 ++ enc cv p.2) ++ rest ->
  get_map_loop ck cv (length l) d u =
    Ret (std_build d l,
         advance u (length (l ≫= fun p => enc ck p.1 ++ enc cv p.2))).
Proof.
  intros Hv. revert d u.
  induction Hv as [|[a b] l [Ha Hb] Hv IH]; intros d u Hwf Hok Hr; simpl.
  { by rewrite advance_0. }
  simpl in Hr. rewrite <-!app_assoc in Hr.
  read_step Hwf Hok Hr. read_step Hwf Hok Hr.
  rewrite IH by done. by rewrite !advance_advance, !length_app, Nat.add_assoc.
Qed.

#[global] Program Instance c_map_ok `{Countable K, !StdOrder K} {V}
    (ck : codec K) (cv : codec V) `{!CodecOk ck, !CodecOk cv}
  : CodecOk (c_map ck cv) := {|
  enc d := be32 (u32 (Z.of_nat (size d))) ++
           (std_iter d ≫= fun p => enc ck p.1 ++ enc cv p.2);
  valid d := map_Forall (fun k v => valid ck k /\ valid cv v) d /\
             is_u32 (Z.of_nat (size d)) |}.
Next Obligation.
  intros K ??? V ck cv ?? d.
  apply (appends_comp (fun m => put_u32 m _)
    (fun m => foldl (fun m p => c_put cv (c_put ck m p.1) p.2) m (std_iter d)));
    [apply appends_u32|].
  apply (appends_fold _ (fun p => enc ck p.1 ++ enc cv p.2)).
  intros [k v]. exact (appends_comp _ _ _ _ (put_ok ck k) (put_ok cv v)).
Qed.
Next Obligation.
  intros K ??? V ck cv ?? d [Hv Hn] u rest old Hwf Hok Hr. simpl. unfold get_map.
  rewrite <-app_assoc in Hr. rewrite (get_u32_be32 _ _ _ Hwf Hr).
  rewrite u32_u32, u32_id, Nat2Z.id, <-std_iter_length by done.
  rewrite (get_map_loop_ok ck cv (std_iter d) ∅ _ rest).
  - by rewrite advance_advance, std_build_iter.
  - apply Forall_forall. intros [k v] Hin%std_iter_lookup. by apply (Hv k v).
  - by apply (advance_wf _ _ _ Hwf Hr).
  - done.
  - by apply (remaining_advance _ _ _ Hwf Hr).
Qed.
End codecs.

(** ** Packing the header in place *)

Lemma mem_store_app buf i bs bs' :
  (i + length bs + length bs' <= length buf)%nat ->
  mem_store (mem_store buf i bs) (i + length bs) bs' = mem_store buf i (bs ++ bs').
Proof.
  intros. unfold mem_store at 1. rewrite mem_store_prefix by lia.
  rewrite drop_mem_store by lia. unfold mem_store.
  by rewrite length_app, Nat.add_assoc, <-!app_assoc.
Qed.

Section headers.
Context `{FreshMem}.

Lemma rawbyte_in_place buf capa (i : nat) x :
  Z.of_nat i < capa ->
  rawbyte (Marshall buf capa (Z.of_nat i)) x =
    Marshall (mem_store buf i [Z_to_char x]) capa (Z.of_nat (i + 1)).
Proof.
  intros. unfold rawbyte; cbn [m_buf m_capa m_ind].
  destruct (Z.leb_spec capa (Z.of_nat i)); [lia|]; cbn [m_buf m_capa m_ind].
  rewrite Nat2Z.id. f_equal. lia.
Qed.

(** Four bytes packed inside the block: nothing moves, nothing grows. *)
Lemma pack_in_place buf capa (i : nat) x :
  Z.of_nat i + 4 <= capa -> Z.of_nat (length buf) = capa ->
  pack (Marshall buf capa (Z.of_nat i)) x =
    Marshall (mem_store buf i (be32 x)) capa (Z.of_nat (i + 4)).
Proof.
  intros Hroom Hlen. unfold pack. rewrite !rawbyte_in_place by lia.
  rewrite !Z_to_char_land, <-!Nat.add_assoc. f_equal.
  rewrite (mem_store_app _ i [_] [_]) by (simpl; lia). cbn [app].
  rewrite (mem_store_app _ i [_; _] [_]) by (simpl; lia). cbn [app].
  by rewrite (mem_store_app _ i [_; _; _] [_]) by (simpl; lia).
Qed.

Lemma pack_chain buf capa (i : nat) bs x :
  Z.of_nat (i + length bs) + 4 <= capa -> Z.of_nat (length buf) = capa ->
  pack (Marshall (mem_store buf i bs) capa (Z.of_nat (i + length bs))) x =
    Marshall (mem_store buf i (bs ++ be32 x)) capa
      (Z.of_nat (i + length (bs ++ be32 x))).
Proof.
  intros. rewrite pack_in_place; [|lia|rewrite length_mem_store; lia].
  rewrite mem_store_app by (cbn [be32 length]; lia). f_equal.
  rewrite length_app. simpl. lia.
Qed.

Definition req_header_bytes (h : req_header) : str :=
  be32 (rq_xid h) ++ be32 (rq_proc h) ++ be32 (i32 (rq_clt_nonce h)) ++
  be32 (i32 (rq_srv_nonce h)) ++ be32 (rq_xid_rep h).
Definition reply_header_bytes (h : reply_header) : str :=
  be32 (rp_xid h) ++ be32 (rp_ret h).

Lemma pack_req_header_eq m h :
  marshall_wf m ->
  pack_req_header m h =
    Marshall (mem_store (m_buf m) 4 (req_header_bytes h)) (m_capa m) (m_ind m).
Proof.
  intros (Hl & Hi & _). unfold RPC_HEADER_SZ in Hi.
  unfold pack_req_header, m_seek. rewrite (pack_in_place _ _ 4) by lia.
  change (4 + 4)%nat with (4 + length (be32 (rq_xid h)))%nat.
  do 4 (rewrite pack_chain; [|rewrite ?length_app; simpl; lia|done]).
  unfold req_header_bytes. by rewrite <-!app_assoc.
Qed.

Lemma pack_reply_header_eq m h :
  marshall_wf m ->
  pack_reply_header m h =
    Marshall (mem_store (m_buf m) 4 (reply_header_bytes h)) (m_capa m) (m_ind m).
Proof.
  intros (Hl & Hi & _). unfold RPC_HEADER_SZ in Hi.
  unfold pack_reply_header, m_seek. rewrite (pack_in_place _ _ 4) by lia.
  change (4 + 4)%nat with (4 + length (be32 (rp_xid h)))%nat.
  by rewrite pack_chain; [|rewrite ?length_app; simpl; lia|].
Qed.

(** The bytes a connection sends for a marshalled message. *)
Definition pdu (m : marshall) : str := take (Z.to_nat (m_ind m)) (m_buf m).

(** What the receiver sees behind the size field: the packed header bytes,
    then (at the fixed offset) the content. *)
Lemma pdu_layout m hb :
  marshall_wf m -> (length hb <= 20)%nat ->
  let m' := Marshall (mem_store (m_buf m) 4 hb) (m_capa m) (m_ind m) in
  Z.of_nat (length (pdu m')) = m_ind m /\
  (exists rest, drop 4 (pdu m') = hb ++ rest) /\
  drop (Z.to_nat RPC_HEADER_SZ) (pdu m') = m_str m.
Proof.
  intros (Hl & Hi & _) Hhb. unfold RPC_HEADER_SZ in *. unfold pdu; cbn [m_buf m_ind].
  split_and!.
  - rewrite length_take, length_mem_store by lia. lia.
  - exists (take (Z.to_nat (m_ind m) - 4 - length hb) (drop (4 + length hb) (m_buf m))).
    rewrite skipn_firstn_comm. unfold mem_store.
    rewrite drop_app_length' by (rewrite length_take; lia).
    rewrite take_app_ge by lia. done.
  - unfold m_str, RPC_HEADER_SZ. rewrite skipn_firstn_comm.
    rewrite drop_mem_store by lia. f_equal. lia.
Qed.

Definition valid_req_header (h : req_header) : Prop :=
  is_i32 (rq_xid h) /\ is_i32 (rq_proc h) /\ is_u32 (rq_clt_nonce h) /\
  is_u32 (rq_srv_nonce h) /\ is_i32 (rq_xid_rep h).

(** Read the next [int] of a header. *)
Lemma unpack_be32 x u rest :
  unmarshall_wf u -> remaining u = be32 x ++ rest ->
  unpack u = (i32 x, advance u 4) /\ unmarshall_wf (advance u 4) /\
  remaining (advance u 4) = rest.
Proof.
  intros Hwf Hr. split_and!; [by apply (get_i32_be32 x u rest)| |].
  - apply (advance_wf _ _ _ Hwf Hr).
  - apply (remaining_advance _ _ _ Hwf Hr).
Qed.

Lemma unmarshall_pdu_seek b sz i :
  Z.of_nat (length b) = sz -> sz < 2 ^ 31 -> 0 <= i <= sz ->
  unmarshall_wf (u_seek (unmarshall_pdu b sz) i).
Proof. intros. unfold unmarshall_wf, u_seek, unmarshall_pdu; simpl. lia. Qed.
End headers.

Ltac unpack_step Hwf Hr :=
  match type of Hr with
  | remaining ?u = be32 ?x ++ ?rest =>
      let E := fresh "E" in let W := fresh "W" in let R := fresh "R" in
      destruct (unpack_be32 x u rest Hwf Hr) as (E & W & R); rewrite E;
      clear E Hwf Hr; rename W into Hwf; rename R into Hr
  end.

Section header_roundtrip.
Context `{FreshMem}.

(** Whatever the bytes, a request whose header could be read is a well-formed
    reader of the rest. *)
Lemma unpack_req_header_wf b h u :
  unpack_req_header (unmarshall_pdu b (Z.of_nat (length b))) = (h, u) -> u_ok u = true ->
  Z.of_nat (length b) < 2 ^ 31 ->
  unmarshall_wf u /\ u_sz u = Z.of_nat (length b).
Proof.
  unfold unpack_req_header, unpack. set (u0 := u_seek _ 4). intros E Hok Hlen.
  destruct (get_i32 u0) as [x1 u1] eqn:E1, (get_i32 u1) as [x2 u2] eqn:E2, (get_i32 u2) as [x3 u3] eqn:E3,
    (get_i32 u3) as [x4 u4] eqn:E4, (get_i32 u4) as [x5 u5] eqn:E5. injection E as _ <-.
  cbn in Hok.
  destruct (get_i32_ok _ _ _ E5 Hok) as (K4 & ? & ?), (get_i32_ok _ _ _ E4 K4) as (K3 & ? & ?),
    (get_i32_ok _ _ _ E3 K3) as (K2 & ? & ?), (get_i32_ok _ _ _ E2 K2) as (K1 & ? & ?),
    (get_i32_ok _ _ _ E1 K1) as (_ & ? & ?).
  apply get_i32_frame in E1 as [B1 S1], E2 as [B2 S2], E3 as [B3 S3], E4 as [B4 S4], E5 as [B5 S5].
  assert (u_buf u5 = b /\ u_sz u5 = Z.of_nat (length b) /\ 24 <= u_sz u5) as (Hb & Hs & ?).
  { rewrite B5, B4, B3, B2, B1. split; [done|]. unfold u0 in *. cbn in *. lia. }
  unfold unmarshall_wf, u_seek, RPC_HEADER_SZ. cbn. rewrite Hb. lia.
Qed.
Lemma req_header_framed m h b :
  marshall_wf m -> m_ind m < 2 ^ 31 -> valid_req_header h ->
  length b = length (pdu (pack_req_header m h)) ->
  drop 4 b = drop 4 (pdu (pack_req_header m h)) ->
  let '(h', u) := unpack_req_header (unmarshall_pdu b (m_ind m)) in
  h' = h /\ u_ok u = true /\ unmarshall_wf u /\ remaining u = m_str m.
Proof.
  intros Hm Hsz (H1 & H2 & H3 & H4 & H5) Hlb Hdb. pose proof Hm as (_ & Hi & _).
  rewrite pack_req_header_eq in Hlb, Hdb by done.
  destruct (pdu_layout m (req_header_bytes h) Hm) as (Hl & [rest Hr] & Hs);
    [simpl; lia|].
  rewrite <-Hlb in Hl. rewrite <-Hdb in Hr.
  apply (f_equal (drop 20)) in Hdb. rewrite !drop_drop in Hdb. change (4 + 20)%nat with 24%nat in Hdb.
  change (Z.to_nat RPC_HEADER_SZ) with 24%nat in Hs. rewrite <-Hdb in Hs. clear Hlb Hdb. unfold unpack_req_header. set (hd := RPC_HEADER_SZ) in *.
  assert (unmarshall_wf (u_seek (unmarshall_pdu b (m_ind m)) 4)) as Hwf.
  { apply unmarshall_pdu_seek; unfold hd, RPC_HEADER_SZ in *; lia. }
  assert (remaining (u_seek (unmarshall_pdu b (m_ind m)) 4) =
          req_header_bytes h ++ rest) as Hr' by exact Hr.
  unfold req_header_bytes in Hr'. rewrite <-!app_assoc in Hr'.
  do 5 unpack_step Hwf Hr'. split_and!; [| done | |exact Hs].
  - destruct h; simpl in *. rewrite !u32_i32, !i32_id, !u32_id by width. done.
  - apply unmarshall_pdu_seek; unfold hd, RPC_HEADER_SZ in *; lia.
Qed.
Lemma req_header_roundtrip m h :
  marshall_wf m -> m_ind m < 2 ^ 31 -> valid_req_header h ->
  let b := pdu (pack_req_header m h) in
  let '(h', u) := unpack_req_header (unmarshall_pdu b (m_ind m)) in
  h' = h /\ u_ok u = true /\ unmarshall_wf u /\ remaining u = m_str m.
Proof. intros. by apply req_header_framed. Qed.

Lemma reply_header_framed m h b :
  marshall_wf m -> m_ind m < 2 ^ 31 -> is_i32 (rp_xid h) -> is_i32 (rp_ret h) ->
  length b = length (pdu (pack_reply_header m h)) ->
  drop 4 b = drop 4 (pdu (pack_reply_header m h)) ->
  let '(h', u) := unpack_reply_header (unmarshall_pdu b (m_ind m)) in
  h' = h /\ u_ok u = true /\ unmarshall_wf u /\ remaining u = m_str m.
Proof.
  intros Hm Hsz H1 H2 Hlb Hdb. pose proof Hm as (_ & Hi & _).
  rewrite pack_reply_header_eq in Hlb, Hdb by done.
  destruct (pdu_layout m (reply_header_bytes h) Hm) as (Hl & [rest Hr] & Hs);
    [simpl; lia|].
  rewrite <-Hlb in Hl. rewrite <-Hdb in Hr.
  apply (f_equal (drop 20)) in Hdb. rewrite !drop_drop in Hdb. change (4 + 20)%nat with 24%nat in Hdb.
  change (Z.to_nat RPC_HEADER_SZ) with 24%nat in Hs. rewrite <-Hdb in Hs. clear Hlb Hdb. unfold unpack_reply_header. set (hd := RPC_HEADER_SZ) in *.
  assert (unmarshall_wf (u_seek (unmarshall_pdu b (m_ind m)) 4)) as Hwf.
  { apply unmarshall_pdu_seek; unfold hd, RPC_HEADER_SZ in *; lia. }
  assert (remaining (u_seek (unmarshall_pdu b (m_ind m)) 4) =
          reply_header_bytes h ++ rest) as Hr' by exact Hr.
  unfold reply_header_bytes in Hr'. rewrite <-!app_assoc in Hr'.
  do 2 unpack_step Hwf Hr'. split_and!; [| done | |exact Hs].
  - destruct h; simpl in *. by rewrite !i32_id by done.
  - apply unmarshall_pdu_seek; unfold hd, RPC_HEADER_SZ in *; lia.
Qed.
Lemma reply_header_roundtrip m h :
  marshall_wf m -> m_ind m < 2 ^ 31 -> is_i32 (rp_xid h) -> is_i32 (rp_ret h) ->
  let b := pdu (pack_reply_header m h) in
  let '(h', u) := unpack_reply_header (unmarshall_pdu b (m_ind m)) in
  h' = h /\ u_ok u = true /\ unmarshall_wf u /\ remaining u = m_str m.
Proof. intros. by apply reply_header_framed. Qed.
End header_roundtrip.

(** ** Properties *)

(** C35. The bounds check of [unmarshall::rawbytes], computed in [unsigned int]:
    on a well-formed reader a length that fits is read exactly, a length that
    does not fit is refused and only the [ok] flag changes, and a length within
    the read position of 2^32 wraps past the check, so the code reads outside
    the buffer. *)
Theorem u_rawbytes_exact ss u n :
  unmarshall_wf u -> is_u32 n ->
  (u_ind u + n <= u_sz u ->
     u_rawbytes ss u n = Ret (take (Z.to_nat n) (remaining u), advance u (Z.to_nat n))) /\
  (u_sz u < u_ind u + n < 2 ^ 32 ->
     u_rawbytes ss u n =
       Ret (ss, {| u_buf := u_buf u; u_sz := u_sz u; u_ind := u_ind u; u_ok := false |})) /\
  (2 ^ 32 <= u_ind u + n -> u_rawbytes ss u n = UB).
Proof.
  intros (Hi & Hl & Hs) Hn. unfold u_rawbytes, remaining, advance. split_and!; intros Hc.
  - destruct (Z.ltb_spec (u32 (u_sz u)) (u32 (u_ind u + n))); [width|].
    rewrite bool_decide_eq_true_2 by lia. rewrite i32_id by width.
    by rewrite Z2Nat.id by (destruct Hn; lia).
  - destruct (Z.ltb_spec (u32 (u_sz u)) (u32 (u_ind u + n))); [done|width].
  - destruct (Z.ltb_spec (u32 (u_sz u)) (u32 (u_ind u + n))); [width|].
    by rewrite bool_decide_eq_false_2 by width.
Qed.
(** A 28-byte message with the read position behind its 24-byte header, asked
    for 2^32 - 24 bytes. *)
Lemma u_rawbytes_exact_witness :
  let u := {| u_buf := replicate 28 NUL; u_sz := 28; u_ind := 24; u_ok := true |} in
  unmarshall_wf u /\ is_u32 (2 ^ 32 - 24) /\ u_rawbytes [] u (2 ^ 32 - 24) = UB.
Proof.
  intros u. assert (unmarshall_wf u) as Hu by (vm_compute; intuition congruence).
  assert (is_u32 (2 ^ 32 - 24)) as Hn by (vm_compute; intuition congruence).
  split; [exact Hu|]. split; [exact Hn|].
  apply (u_rawbytes_exact [] u (2 ^ 32 - 24) Hu Hn). cbn. lia.
Defined.
