(* ===== verification/Protocols.v ===== *)
(** * The wire structures of the protocol headers

    [extent_protocol.h], [paxos_protocol.h], [rsm_protocol.h] and
    [lock_protocol.h]: the status codes, the procedure numbers, and the structs
    with the [operator<<] / [operator>>] that the headers define for them.
    Every struct gets a codec and the proof that it keeps the codec promise. *)
From S2P Require Import Prelude Marshall.
#[local] Obligation Tactic := idtac.

(** ** Proof steps for structs: one field at a time *)

Ltac put_field Hm :=
  match goal with
  | |- appended ?m (enc ?c ?a ++ _) _ =>
      let P := fresh "P" in
      pose proof (put_ok c a m Hm) as P; cbn beta in P;
      eapply appended_trans; [exact P|];
      apply appended_wf in P; clear Hm; rename P into Hm
  | |- appended ?m (enc ?c ?a) _ => exact (put_ok c a m Hm)
  end.
Ltac put_struct :=
  let a := fresh "a" in let m := fresh "m" in let Hm := fresh "Hm" in
  intros a m Hm; cbn beta; repeat put_field Hm.

Lemma get_last {A B} (c : codec A) `{!CodecOk c} a u rest old
    (k : A * unmarshall -> outcome B) :
  unmarshall_wf u -> u_ok u = true -> remaining u = enc c a ++ rest -> valid c a ->
  (c_get c old u ≫= k) = k (a, advance u (length (enc c a))).
Proof. apply get_step. Qed.

Ltac get_struct :=
  let u := fresh "u" in let rest := fresh "rest" in let old := fresh "old" in
  let Hwf := fresh "Hwf" in let Hok := fresh "Hok" in let Hr := fresh "Hr" in
  intros u rest old Hwf Hok Hr; cbn [enc] in Hr;
  repeat rewrite <-app_assoc in Hr;
  repeat (read_step Hwf Hok Hr; cbn beta iota);
  rewrite ?advance_advance, ?length_app, ?Nat.add_assoc.

(** ** Extents *)

Module extent_protocol.
Definition OK : Z := 0.
Definition RPCERR : Z := 1.
Definition NOENT : Z := 2.
Definition IOERR : Z := 3.
Definition proc_put : Z := 0x6001.
Definition proc_get : Z := 0x6002.
Definition proc_getattr : Z := 0x6003.
Definition proc_remove : Z := 0x6004.
Definition proc_getinode : Z := 0x6005.

Record attr := Attr { atime : Z; mtime : Z; ctime : Z; size : Z }.

Section codec.
Context `{FreshMem}.
Definition put_attr (m : marshall) (a : attr) : marshall :=
  let m := c_put c_u32 m (atime a) in
  let m := c_put c_u32 m (mtime a) in
  let m := c_put c_u32 m (ctime a) in
  c_put c_u32 m (size a).
Definition get_attr (a : attr) (u : unmarshall) : outcome (attr * unmarshall) :=
  '(at_, u) ← c_get c_u32 (atime a) u;
  '(mt, u) ← c_get c_u32 (mtime a) u;
  '(ct, u) ← c_get c_u32 (ctime a) u;
  '(sz, u) ← c_get c_u32 (size a) u;
  Ret (Attr at_ mt ct sz, u).
Definition c_attr : codec attr := Codec put_attr get_attr (Attr 0 0 0 0).

#[global] Typeclasses Opaque c_attr.
#[global] Program Instance c_attr_ok : CodecOk c_attr := {|
  enc a := enc c_u32 (atime a) ++ enc c_u32 (mtime a) ++
           enc c_u32 (ctime a) ++ enc c_u32 (size a);
  valid a := is_u32 (atime a) /\ is_u32 (mtime a) /\ is_u32 (ctime a) /\
             is_u32 (size a) |}.
Next Obligation. put_struct. Qed.
Next Obligation.
  intros [a1 a2 a3 a4] (H1 & H2 & H3 & H4). cbn [c_get c_attr].
  unfold get_attr. get_struct. done.
Qed.
End codec.
End extent_protocol.

(** ** Locks *)

Module lock_protocol.
Definition OK : Z := 0.
Definition RETRY : Z := 1.
Definition RPCERR : Z := 2.
Definition NOENT : Z := 3.
Definition IOERR : Z := 4.
Definition proc_acquire : Z := 0x7001.
Definition proc_release : Z := 0x7002.
Definition proc_stat : Z := 0x7003.
End lock_protocol.

Module rlock_protocol.
Definition OK : Z := 0.
Definition RPCERR : Z := 1.
Definition proc_revoke : Z := 0x8001.
Definition proc_retry : Z := 0x8002.
End rlock_protocol.

Module AcqRet.
Definition OK : Z := 0.
Definition RETRY : Z := 1.
Inductive lock_status := NONE | FREE | LOCK | RELEASING | ACQING.
#[global] Instance lock_status_eq_dec : EqDecision lock_status.
Proof. solve_decision. Defined.
End AcqRet.

(** ** Paxos *)

Module paxos_protocol.
Definition OK : Z := 0.
Definition ERR : Z := 1.
Definition proc_preparereq : Z := 0x11001.
Definition proc_acceptreq : Z := 0x11002.
Definition proc_decidereq : Z := 0x11003.
Definition proc_heartbeat : Z := 0x11004.

Record prop_t := Prop_t { p_n : Z; p_m : str }.
Record preparearg := PrepareArg { pa_instance : Z; pa_n : prop_t }.
Record prepareres := PrepareRes {
  pr_oldinstance : bool; pr_accept : bool; pr_n_a : prop_t; pr_v_a : str }.
Record acceptarg := AcceptArg { aa_instance : Z; aa_n : prop_t; aa_v : str }.
Record decidearg := DecideArg { da_instance : Z; da_v : str }.

#[global] Instance prop_t_eq_dec : EqDecision prop_t.
Proof. solve_decision. Defined.
#[global] Instance prop_t_countable : Countable prop_t.
Proof.
  refine (inj_countable' (fun p => (p_n p, p_m p)) (fun q => Prop_t q.1 q.2) _).
  by intros [].
Defined.

Section codec.
Context `{FreshMem}.
Definition put_prop (m : marshall) (a : prop_t) : marshall :=
  let m := c_put c_u32 m (p_n a) in
  c_put c_string m (p_m a).
Definition get_prop (a : prop_t) (u : unmarshall) : outcome (prop_t * unmarshall) :=
  '(n, u) ← c_get c_u32 (p_n a) u;
  '(s, u) ← c_get c_string (p_m a) u;
  Ret (Prop_t n s, u).
Definition c_prop : codec prop_t := Codec put_prop get_prop (Prop_t 0 []).

#[global] Typeclasses Opaque c_prop.
#[global] Program Instance c_prop_ok : CodecOk c_prop := {|
  enc a := enc c_u32 (p_n a) ++ enc c_string (p_m a);
  valid a := is_u32 (p_n a) |}.
Next Obligation. put_struct. Qed.
Next Obligation.
  intros [n s] Hn. cbn [c_get c_prop]. unfold get_prop. get_struct. done.
Qed.

Definition put_preparearg (m : marshall) (a : preparearg) : marshall :=
  let m := c_put c_u32 m (pa_instance a) in
  c_put c_prop m (pa_n a).
Definition get_preparearg (a : preparearg) (u : unmarshall)
  : outcome (preparearg * unmarshall) :=
  '(i, u) ← c_get c_u32 (pa_instance a) u;
  '(n, u) ← c_get c_prop (pa_n a) u;
  Ret (PrepareArg i n, u).
Definition c_preparearg : codec preparearg :=
  Codec put_preparearg get_preparearg (PrepareArg 0 (c_dflt c_prop)).
#[global] Typeclasses Opaque c_preparearg.
#[global] Program Instance c_preparearg_ok : CodecOk c_preparearg := {|
  enc a := enc c_u32 (pa_instance a) ++ enc c_prop (pa_n a);
  valid a := is_u32 (pa_instance a) /\ valid c_prop (pa_n a) |}.
Next Obligation. put_struct. Qed.
Next Obligation.
  intros [i n] [Hi Hn]. cbn [c_get c_preparearg]. unfold get_preparearg.
  get_struct. done.
Qed.

Definition put_prepareres (m : marshall) (r : prepareres) : marshall :=
  let m := c_put c_bool m (pr_oldinstance r) in
  let m := c_put c_bool m (pr_accept r) in
  let m := c_put c_prop m (pr_n_a r) in
  c_put c_string m (pr_v_a r).
Definition get_prepareres (r : prepareres) (u : unmarshall)
  : outcome (prepareres * unmarshall) :=
  '(o, u) ← c_get c_bool (pr_oldinstance r) u;
  '(a, u) ← c_get c_bool (pr_accept r) u;
  '(n, u) ← c_get c_prop (pr_n_a r) u;
  '(v, u) ← c_get c_string (pr_v_a r) u;
  Ret (PrepareRes o a n v, u).
Definition c_prepareres : codec prepareres :=
  Codec put_prepareres get_prepareres (PrepareRes false false (c_dflt c_prop) []).
#[global] Typeclasses Opaque c_prepareres.
#[global] Program Instance c_prepareres_ok : CodecOk c_prepareres := {|
  enc r := enc c_bool (pr_oldinstance r) ++ enc c_bool (pr_accept r) ++
           enc c_prop (pr_n_a r) ++ enc c_string (pr_v_a r);
  valid r := valid c_prop (pr_n_a r) |}.
Next Obligation. put_struct. Qed.
Next Obligation.
  intros [o a n v] Hn. cbn [c_get c_prepareres]. unfold get_prepareres.
  get_struct. done.
Qed.

Definition put_acceptarg (m : marshall) (a : acceptarg) : marshall :=
  let m := c_put c_u32 m (aa_instance a) in
  let m := c_put c_prop m (aa_n a) in
  c_put c_string m (aa_v a).
Definition get_acceptarg (a : acceptarg) (u : unmarshall)
  : outcome (acceptarg * unmarshall) :=
  '(i, u) ← c_get c_u32 (aa_instance a) u;
  '(n, u) ← c_get c_prop (aa_n a) u;
  '(v, u) ← c_get c_string (aa_v a) u;
  Ret (AcceptArg i n v, u).
Definition c_acceptarg : codec acceptarg :=
  Codec put_acceptarg get_acceptarg (AcceptArg 0 (c_dflt c_prop) []).
#[global] Typeclasses Opaque c_acceptarg.
#[global] Program Instance c_acceptarg_ok : CodecOk c_acceptarg := {|
  enc a := enc c_u32 (aa_instance a) ++ enc c_prop (aa_n a) ++ enc c_string (aa_v a);
  valid a := is_u32 (aa_instance a) /\ valid c_prop (aa_n a) |}.
Next Obligation. put_struct. Qed.
Next Obligation.
  intros [i n v] [Hi Hn]. cbn [c_get c_acceptarg]. unfold get_acceptarg.
  get_struct. done.
Qed.

Definition put_decidearg (m : marshall) (a : decidearg) : marshall :=
  let m := c_put c_u32 m (da_instance a) in
  c_put c_string m (da_v a).
Definition get_decidearg (a : decidearg) (u : unmarshall)
  : outcome (decidearg * unmarshall) :=
  '(i, u) ← c_get c_u32 (da_instance a) u;
  '(v, u) ← c_get c_string (da_v a) u;
  Ret (DecideArg i v, u).
Definition c_decidearg : codec decidearg :=
  Codec put_decidearg get_decidearg (DecideArg 0 []).
#[global] Typeclasses Opaque c_decidearg.
#[global] Program Instance c_decidearg_ok : CodecOk c_decidearg := {|
  enc a := enc c_u32 (da_instance a) ++ enc c_string (da_v a);
  valid a := is_u32 (da_instance a) |}.
Next Obligation. put_struct. Qed.
Next Obligation.
  intros [i v] Hi. cbn [c_get c_decidearg]. unfold get_decidearg. get_struct. done.
Qed.
End codec.
End paxos_protocol.

(** ** The replicated state machine *)

Module rsm_protocol.
(** [rsm_client_protocol]. *)
Definition client_OK : Z := 0.
Definition client_ERR : Z := 1.
Definition client_NOTPRIMARY : Z := 2.
Definition client_BUSY : Z := 3.
(** [rsm_protocol]. *)
Definition OK : Z := 0.
Definition ERR : Z := 1.
Definition BUSY : Z := 2.

Record viewstamp := Viewstamp { vid : Z; seqno : Z }.
Record transferres := TransferRes { tr_state : str; tr_last : viewstamp }.
Record joinres := JoinRes { jr_log : str }.

#[global] Instance viewstamp_eq_dec : EqDecision viewstamp.
Proof. solve_decision. Defined.

Definition vs_eq (a b : viewstamp) : bool :=
  (vid a =? vid b) && (seqno a =? seqno b).
Definition vs_gt (a b : viewstamp) : bool :=
  (vid b <? vid a) || ((vid a =? vid b) && (seqno b <? seqno a)).
Definition vs_neq (a b : viewstamp) : bool :=
  negb (vid a =? vid b) || negb (seqno a =? seqno b).

Lemma vs_neq_spec a b : vs_neq a b = true <-> a <> b.
Proof.
  unfold vs_neq. rewrite orb_true_iff, !negb_true_iff, !Z.eqb_neq.
  destruct a as [v s], b as [v' s']; simpl. split; [by intros [?|?] [=]|].
  intros H. destruct (decide (v = v')) as [->|]; [|by left]. right. congruence.
Qed.

Section codec.
Context `{FreshMem}.
Definition put_viewstamp (m : marshall) (v : viewstamp) : marshall :=
  let m := c_put c_u32 m (vid v) in
  c_put c_u32 m (seqno v).
Definition get_viewstamp (v : viewstamp) (u : unmarshall)
  : outcome (viewstamp * unmarshall) :=
  '(i, u) ← c_get c_u32 (vid v) u;
  '(s, u) ← c_get c_u32 (seqno v) u;
  Ret (Viewstamp i s, u).
Definition c_viewstamp : codec viewstamp :=
  Codec put_viewstamp get_viewstamp (Viewstamp 0 0).
#[global] Typeclasses Opaque c_viewstamp.
#[global] Program Instance c_viewstamp_ok : CodecOk c_viewstamp := {|
  enc v := enc c_u32 (vid v) ++ enc c_u32 (seqno v);
  valid v := is_u32 (vid v) /\ is_u32 (seqno v) |}.
Next Obligation. put_struct. Qed.
Next Obligation.
  intros [i s] [Hi Hs]. cbn [c_get c_viewstamp]. unfold get_viewstamp.
  get_struct. done.
Qed.

Definition put_transferres (m : marshall) (r : transferres) : marshall :=
  let m := c_put c_string m (tr_state r) in
  c_put c_viewstamp m (tr_last r).
Definition get_transferres (r : transferres) (u : unmarshall)
  : outcome (transferres * unmarshall) :=
  '(s, u) ← c_get c_string (tr_state r) u;
  '(l, u) ← c_get c_viewstamp (tr_last r) u;
  Ret (TransferRes s l, u).
Definition c_transferres : codec transferres :=
  Codec put_transferres get_transferres (TransferRes [] (c_dflt c_viewstamp)).
#[global] Typeclasses Opaque c_transferres.
#[global] Program Instance c_transferres_ok : CodecOk c_transferres := {|
  enc r := enc c_string (tr_state r) ++ enc c_viewstamp (tr_last r);
  valid r := valid c_viewstamp (tr_last r) |}.
Next Obligation. put_struct. Qed.
Next Obligation.
  intros [s l] Hl. cbn [c_get c_transferres]. unfold get_transferres.
  get_struct. done.
Qed.

Definition put_joinres (m : marshall) (r : joinres) : marshall :=
  c_put c_string m (jr_log r).
Definition get_joinres (r : joinres) (u : unmarshall)
  : outcome (joinres * unmarshall) :=
  '(s, u) ← c_get c_string (jr_log r) u; Ret (JoinRes s, u).
Definition c_joinres : codec joinres := Codec put_joinres get_joinres (JoinRes []).
#[global] Typeclasses Opaque c_joinres.
#[global] Program Instance c_joinres_ok : CodecOk c_joinres := {|
  enc r := enc c_string (jr_log r); valid _ := True |}.
Next Obligation. put_struct. Qed.
Next Obligation.
  intros [s] _ u rest old Hwf Hok Hr. cbn [c_get c_joinres]. unfold get_joinres.
  rewrite (get_step c_string s u rest) by done. done.
Qed.
End codec.
End rsm_protocol.
