(* ===== verification/RpcStub.v ===== *)
(** * RPC stubs: marshalled calls and registered handlers

    The templates of [rpc/rpc.h], [rsm.h] and [rsm_client.h]: [rpcc::call]
    marshals the arguments and [call_m] unmarshals the reply; [rpcs::reg] and
    [rsm::reg] wrap a method into a [handler] that unmarshals the arguments,
    runs the method and marshals its result.  A method of a server object with
    state [S] is a function of its arguments, the initial value of its
    reference parameter [r] and the state. *)
From S2P Require Import Prelude Marshall Protocols.
#[local] Obligation Tactic := idtac.

Module rpc_const.
Definition bind : Z := 1.
Definition timeout_failure : Z := -1.
Definition unmarshal_args_failure : Z := -2.
Definition unmarshal_reply_failure : Z := -3.
Definition atmostonce_failure : Z := -4.
Definition oldsrv_failure : Z := -5.
Definition bind_failure : Z := -6.
Definition cancel_failure : Z := -7.
End rpc_const.

(** [handler::fn]. *)
Definition handler (S : Type) : Type :=
  unmarshall -> marshall -> S -> outcome (Z * marshall * S).

Section stubs.
Context `{FreshMem}.
Context {A1 A2 A3 A4 A5 A6 A7 R S : Type}.
Variables (c1 : codec A1) (c2 : codec A2) (c3 : codec A3) (c4 : codec A4)
  (c5 : codec A5) (c6 : codec A6) (c7 : codec A7) (cr : codec R).

(** ** Client side *)

(** The request that [call] with no to seven arguments builds. *)
Definition call_req0 : marshall := marshall_new.
Definition call_req1 (a1 : A1) : marshall := c_put c1 marshall_new a1.
Definition call_req2 (a1 : A1) (a2 : A2) : marshall :=
  let m := c_put c1 marshall_new a1 in
  c_put c2 m a2.
Definition call_req3 (a1 : A1) (a2 : A2) (a3 : A3) : marshall :=
  let m := c_put c1 marshall_new a1 in
  let m := c_put c2 m a2 in
  c_put c3 m a3.
Definition call_req4 (a1 : A1) (a2 : A2) (a3 : A3) (a4 : A4) : marshall :=
  let m := c_put c1 marshall_new a1 in
  let m := c_put c2 m a2 in
  let m := c_put c3 m a3 in
  c_put c4 m a4.
Definition call_req5 (a1 : A1) (a2 : A2) (a3 : A3) (a4 : A4) (a5 : A5) : marshall :=
  let m := c_put c1 marshall_new a1 in
  let m := c_put c2 m a2 in
  let m := c_put c3 m a3 in
  let m := c_put c4 m a4 in
  c_put c5 m a5.

Definition call_req6 (a1 : A1) (a2 : A2) (a3 : A3) (a4 : A4) (a5 : A5) (a6 : A6)
  : marshall :=
  let m := c_put c1 marshall_new a1 in
  let m := c_put c2 m a2 in
  let m := c_put c3 m a3 in
  let m := c_put c4 m a4 in
  let m := c_put c5 m a5 in
  c_put c6 m a6.
Definition call_req7 (a1 : A1) (a2 : A2) (a3 : A3) (a4 : A4) (a5 : A5) (a6 : A6)
    (a7 : A7) : marshall :=
  let m := c_put c1 marshall_new a1 in
  let m := c_put c2 m a2 in
  let m := c_put c3 m a3 in
  let m := c_put c4 m a4 in
  let m := c_put c5 m a5 in
  let m := c_put c6 m a6 in
  c_put c7 m a7.

(** [rpcc::call_m] after [call1] has returned [intret] and the reply [u]. *)
Definition call_m (intret : Z) (u : unmarshall) (r : R) : outcome (Z * R) :=
  if intret <? 0 then Ret (intret, r)
  else
    '(r, u) ← c_get cr r u;
    if negb (okdone u) then VerifyFail else Ret (intret, r).

(** ** Server side: [rpcs::reg] *)

Definition rpcs_fn1 (meth : A1 -> R -> S -> outcome (Z * R * S)) : handler S :=
  fun args ret s =>
    '(a1, args) ← c_get c1 (c_dflt c1) args;
    if negb (okdone args) then Ret (rpc_const.unmarshal_args_failure, ret, s)
    else
      '(b, r, s) ← meth a1 (c_dflt cr) s;
      Ret (b, c_put cr ret r, s).
Definition rpcs_fn2 (meth : A1 -> A2 -> R -> S -> outcome (Z * R * S)) : handler S :=
  fun args ret s =>
    '(a1, args) ← c_get c1 (c_dflt c1) args;
    '(a2, args) ← c_get c2 (c_dflt c2) args;
    if negb (okdone args) then Ret (rpc_const.unmarshal_args_failure, ret, s)
    else
      '(b, r, s) ← meth a1 a2 (c_dflt cr) s;
      Ret (b, c_put cr ret r, s).
Definition rpcs_fn3 (meth : A1 -> A2 -> A3 -> R -> S -> outcome (Z * R * S))
  : handler S :=
  fun args ret s =>
    '(a1, args) ← c_get c1 (c_dflt c1) args;
    '(a2, args) ← c_get c2 (c_dflt c2) args;
    '(a3, args) ← c_get c3 (c_dflt c3) args;
    if negb (okdone args) then Ret (rpc_const.unmarshal_args_failure, ret, s)
    else
      '(b, r, s) ← meth a1 a2 a3 (c_dflt cr) s;
      Ret (b, c_put cr ret r, s).
Definition rpcs_fn4 (meth : A1 -> A2 -> A3 -> A4 -> R -> S -> outcome (Z * R * S))
  : handler S :=
  fun args ret s =>
    '(a1, args) ← c_get c1 (c_dflt c1) args;
    '(a2, args) ← c_get c2 (c_dflt c2) args;
    '(a3, args) ← c_get c3 (c_dflt c3) args;
    '(a4, args) ← c_get c4 (c_dflt c4) args;
    if negb (okdone args) then Ret (rpc_const.unmarshal_args_failure, ret, s)
    else
      '(b, r, s) ← meth a1 a2 a3 a4 (c_dflt cr) s;
      Ret (b, c_put cr ret r, s).
Definition rpcs_fn5
    (meth : A1 -> A2 -> A3 -> A4 -> A5 -> R -> S -> outcome (Z * R * S)) : handler S :=
  fun args ret s =>
    '(a1, args) ← c_get c1 (c_dflt c1) args;
    '(a2, args) ← c_get c2 (c_dflt c2) args;
    '(a3, args) ← c_get c3 (c_dflt c3) args;
    '(a4, args) ← c_get c4 (c_dflt c4) args;
    '(a5, args) ← c_get c5 (c_dflt c5) args;
    if negb (okdone args) then Ret (rpc_const.unmarshal_args_failure, ret, s)
    else
      '(b, r, s) ← meth a1 a2 a3 a4 a5 (c_dflt cr) s;
      Ret (b, c_put cr ret r, s).

Definition rpcs_fn6
    (meth : A1 -> A2 -> A3 -> A4 -> A5 -> A6 -> R -> S -> outcome (Z * R * S))
  : handler S :=
  fun args ret s =>
    '(a1, args) ← c_get c1 (c_dflt c1) args;
    '(a2, args) ← c_get c2 (c_dflt c2) args;
    '(a3, args) ← c_get c3 (c_dflt c3) args;
    '(a4, args) ← c_get c4 (c_dflt c4) args;
    '(a5, args) ← c_get c5 (c_dflt c5) args;
    '(a6, args) ← c_get c6 (c_dflt c6) args;
    if negb (okdone args) then Ret (rpc_const.unmarshal_args_failure, ret, s)
    else
      '(b, r, s) ← meth a1 a2 a3 a4 a5 a6 (c_dflt cr) s;
      Ret (b, c_put cr ret r, s).
Definition rpcs_fn7
    (meth : A1 -> A2 -> A3 -> A4 -> A5 -> A6 -> A7 -> R -> S -> outcome (Z * R * S))
  : handler S :=
  fun args ret s =>
    '(a1, args) ← c_get c1 (c_dflt c1) args;
    '(a2, args) ← c_get c2 (c_dflt c2) args;
    '(a3, args) ← c_get c3 (c_dflt c3) args;
    '(a4, args) ← c_get c4 (c_dflt c4) args;
    '(a5, args) ← c_get c5 (c_dflt c5) args;
    '(a6, args) ← c_get c6 (c_dflt c6) args;
    '(a7, args) ← c_get c7 (c_dflt c7) args;
    if negb (okdone args) then Ret (rpc_const.unmarshal_args_failure, ret, s)
    else
      '(b, r, s) ← meth a1 a2 a3 a4 a5 a6 a7 (c_dflt cr) s;
      Ret (b, c_put cr ret r, s).

(** ** Server side: [rsm::reg] *)

Definition rsm_fn1 (meth : A1 -> R -> S -> outcome (Z * R * S)) : handler S :=
  fun args ret s =>
    '(a1, args) ← c_get c1 (c_dflt c1) args;
    _ ← VERIFY (okdone args);
    '(b, r, s) ← meth a1 (c_dflt cr) s;
    Ret (b, c_put cr ret r, s).
Definition rsm_fn2 (meth : A1 -> A2 -> R -> S -> outcome (Z * R * S)) : handler S :=
  fun args ret s =>
    '(a1, args) ← c_get c1 (c_dflt c1) args;
    '(a2, args) ← c_get c2 (c_dflt c2) args;
    _ ← VERIFY (okdone args);
    '(b, r, s) ← meth a1 a2 (c_dflt cr) s;
    Ret (b, c_put cr ret r, s).
Definition rsm_fn3 (meth : A1 -> A2 -> A3 -> R -> S -> outcome (Z * R * S))
  : handler S :=
  fun args ret s =>
    '(a1, args) ← c_get c1 (c_dflt c1) args;
    '(a2, args) ← c_get c2 (c_dflt c2) args;
    '(a3, args) ← c_get c3 (c_dflt c3) args;
    _ ← VERIFY (okdone args);
    '(b, r, s) ← meth a1 a2 a3 (c_dflt cr) s;
    Ret (b, c_put cr ret r, s).
Definition rsm_fn4 (meth : A1 -> A2 -> A3 -> A4 -> R -> S -> outcome (Z * R * S))
  : handler S :=
  fun args ret s =>
    '(a1, args) ← c_get c1 (c_dflt c1) args;
    '(a2, args) ← c_get c2 (c_dflt c2) args;
    '(a3, args) ← c_get c3 (c_dflt c3) args;
    '(a4, args) ← c_get c4 (c_dflt c4) args;
    _ ← VERIFY (okdone args);
    '(b, r, s) ← meth a1 a2 a3 a4 (c_dflt cr) s;
    Ret (b, c_put cr ret r, s).
(** The five-argument wrapper declares [a5] but has no [args >> a5]. *)
Definition rsm_fn5
    (meth : A1 -> A2 -> A3 -> A4 -> A5 -> R -> S -> outcome (Z * R * S)) : handler S :=
  fun args ret s =>
    '(a1, args) ← c_get c1 (c_dflt c1) args;
    '(a2, args) ← c_get c2 (c_dflt c2) args;
    '(a3, args) ← c_get c3 (c_dflt c3) args;
    '(a4, args) ← c_get c4 (c_dflt c4) args;
    let a5 := c_dflt c5 in
    _ ← VERIFY (okdone args);
    '(b, r, s) ← meth a1 a2 a3 a4 a5 (c_dflt cr) s;
    Ret (b, c_put cr ret r, s).
End stubs.

(** ** The path of a request and of its reply *)

Section wire.
Context `{FreshMem}.

(** [rpcc::call1] packs the header and sends; [rpcs::dispatch] unpacks it. *)
Definition deliver_request (req : marshall) (h : req_header) : unmarshall :=
  (unpack_req_header (unmarshall_pdu (pdu (pack_req_header req h)) (m_ind req))).2.
(** [rpcs::dispatch] packs the reply header; [rpcc::got_pdu] unpacks it and
    hands the buffer to the caller. *)
Definition deliver_reply (rep : marshall) (h : reply_header) : unmarshall :=
  take_in (unpack_reply_header
             (unmarshall_pdu (pdu (pack_reply_header rep h)) (m_ind rep))).2.

(** The [NEW] case of [dispatch] for a request with header [h]. *)
Definition exchange {S} (f : handler S) (h : req_header) (req : marshall) (s : S)
  : outcome (Z * unmarshall * S) :=
  '(b, rep, s) ← f (deliver_request req h) marshall_new s;
  _ ← VERIFY (negb (b =? rpc_const.unmarshal_args_failure));
  _ ← VERIFY (0 <=? b);
  Ret (b, deliver_reply rep (ReplyHeader (rq_xid h) b), s).

(** [rsm::execute] on a request string and the reply string it builds. *)
Definition rsm_execute {S} (f : handler S) (req : str) (s : S) : outcome (str * S) :=
  '(ret, rep, s) ← f (unmarshall_string req) marshall_new s;
  Ret (m_str (c_put c_string (c_put c_i32 marshall_new ret) (m_str rep)), s).

(** [rsm_client::call_m] on the string [rep] that [invoke] returned. *)
Definition rsm_call_m {R} (cr : codec R) (rep : str) (r : R) : outcome (Z * R) :=
  '(intret, u) ← c_get c_i32 0 (unmarshall_string rep);
  if intret <? 0 then Ret (intret, r)
  else
    '(res, u) ← c_get c_string [] u;
    if negb (okdone u) then VerifyFail
    else
      '(r, u1) ← c_get cr r (unmarshall_string res);
      if negb (okdone u1) then VerifyFail else Ret (intret, r).

(** [rsm_client::call_m] and the templates of [rsm_client::call]; [invoke] is
    [rsm_client::invoke] on the state of the replicated service. *)
Section rsm_calls.
Context {W A1 A2 A3 A4 A5 R : Type}.
Variables (c1 : codec A1) (c2 : codec A2) (c3 : codec A3) (c4 : codec A4) (c5 : codec A5)
  (cr : codec R) (invoke : Z -> str -> W -> outcome (Z * str * W)).
Definition rsm_client_call_m (proc : Z) (req : marshall) (r : R) (w : W) : outcome (Z * R * W) :=
  '(intret, rep, w) ← invoke proc (m_str req) w;
  _ ← VERIFY (intret =? rsm_protocol.client_OK);
  '(b, r) ← rsm_call_m cr rep r;
  Ret (b, r, w).
Definition rsm_client_call1 (proc : Z) (a1 : A1) : R -> W -> outcome (Z * R * W) :=
  let m := c_put c1 marshall_new a1 in
  rsm_client_call_m proc m.
Definition rsm_client_call2 (proc : Z) (a1 : A1) (a2 : A2) : R -> W -> outcome (Z * R * W) :=
  let m := c_put c1 marshall_new a1 in
  let m := c_put c2 m a2 in
  rsm_client_call_m proc m.
Definition rsm_client_call3 (proc : Z) (a1 : A1) (a2 : A2) (a3 : A3) : R -> W -> outcome (Z * R * W) :=
  let m := c_put c1 marshall_new a1 in
  let m := c_put c2 m a2 in
  let m := c_put c3 m a3 in
  rsm_client_call_m proc m.
Definition rsm_client_call4 (proc : Z) (a1 : A1) (a2 : A2) (a3 : A3) (a4 : A4)
  : R -> W -> outcome (Z * R * W) :=
  let m := c_put c1 marshall_new a1 in
  let m := c_put c2 m a2 in
  let m := c_put c3 m a3 in
  let m := c_put c4 m a4 in
  rsm_client_call_m proc m.
Definition rsm_client_call5 (proc : Z) (a1 : A1) (a2 : A2) (a3 : A3) (a4 : A4) (a5 : A5)
  : R -> W -> outcome (Z * R * W) :=
  let m := c_put c1 marshall_new a1 in
  let m := c_put c2 m a2 in
  let m := c_put c3 m a3 in
  let m := c_put c4 m a4 in
  let m := c_put c5 m a5 in
  rsm_client_call_m proc m.
End rsm_calls.
End wire.

(** ** Correctness of the stubs *)

Section stub_lemmas.
Context `{FreshMem}.

Lemma okdone_end u n :
  unmarshall_wf u -> u_ok u = true -> length (remaining u) = n ->
  okdone (advance u n) = true.
Proof.
  intros (Hi & Hl & _) Hok <-. unfold okdone, advance, remaining; simpl.
  rewrite Hok, length_drop. simpl. apply Z.eqb_eq. lia.
Qed.

Lemma okdone_remaining u : okdone u = true -> unmarshall_wf u -> remaining u = [].
Proof.
  unfold okdone, remaining. intros [_ Hi]%andb_true_iff (_ & Hl & _).
  apply drop_ge. lia.
Qed.

Lemma unmarshall_string_wf s :
  Z.of_nat (length s) + RPC_HEADER_SZ < 2 ^ 31 ->
  unmarshall_wf (unmarshall_string s) /\ remaining (unmarshall_string s) = s.
Proof.
  intros Hs. unfold unmarshall_wf, unmarshall_string, remaining;
    cbn [u_ind u_sz u_buf]. unfold RPC_HEADER_SZ in *.
  rewrite length_app, length_fresh, drop_app_length' by (by rewrite length_fresh).
  split; [|done]. lia.
Qed.

(** What the server reads is what the client marshalled. *)
Lemma deliver_request_ok req h :
  marshall_wf req -> m_ind req < 2 ^ 31 -> valid_req_header h ->
  let u := deliver_request req h in
  unmarshall_wf u /\ u_ok u = true /\ remaining u = m_str req.
Proof.
  intros Hm Hb Hh. pose proof (req_header_roundtrip req h Hm Hb Hh) as Hrt.
  unfold deliver_request. cbv zeta in *.
  destruct (unpack_req_header _) as [h' u]. simpl. by destruct Hrt as (_ & ? & ? & ?).
Qed.
Lemma deliver_reply_ok rep h :
  marshall_wf rep -> m_ind rep < 2 ^ 31 -> is_i32 (rp_xid h) -> is_i32 (rp_ret h) ->
  let u := deliver_reply rep h in
  unmarshall_wf u /\ u_ok u = true /\ remaining u = m_str rep.
Proof.
  intros Hm Hb H1 H2. unfold deliver_reply. rewrite pack_reply_header_eq by done.
  destruct (pdu_layout rep (reply_header_bytes h) Hm) as (Hl & _ & Hs); [simpl; lia|].
  destruct Hm as (_ & Hi & _). set (b := pdu _) in *.
  assert (u_buf (unpack_reply_header (unmarshall_pdu b (m_ind rep))).2 = b /\
          u_sz (unpack_reply_header (unmarshall_pdu b (m_ind rep))).2 = m_ind rep)
    as [Eb Es].
  { unfold unpack_reply_header. set (u0 := u_seek _ 4).
    destruct (unpack u0) as [x1 u1] eqn:E1, (unpack u1) as [x2 u2] eqn:E2.
    apply get_i32_frame in E1 as [E1 E1'], E2 as [E2 E2'].
    unfold u_seek; cbn [snd u_buf u_sz]. rewrite E2, E2', E1, E1'. done. }
  unfold take_in, unmarshall_wf, remaining; cbn [u_ind u_sz u_buf u_ok].
  rewrite Eb, Es. unfold RPC_HEADER_SZ in *.
  split_and!; [lia|lia|done|done|apply Z.leb_le; lia|done].
Qed.

(** The client side of a reply. *)
Lemma call_m_ok {R} (cr : codec R) `{!CodecOk cr} b u r old :
  0 <= b -> unmarshall_wf u -> u_ok u = true -> remaining u = enc cr r -> valid cr r ->
  call_m cr b u old = Ret (b, r).
Proof.
  intros Hb Hwf Hok Hr Hv. unfold call_m.
  destruct (Z.ltb_spec b 0); [lia|].
  rewrite (get_step cr r u []) by (rewrite ?app_nil_r; done).
  rewrite okdone_end; [done|done|done|]. by rewrite Hr.
Qed.
End stub_lemmas.

(** A call through the wire, into a registered handler, and back. *)
Definition rpc_call `{FreshMem} {R S} (cr : codec R) (f : handler S) (h : req_header)
    (req : marshall) (old : R) (s : S) : outcome (Z * R * S) :=
  '(b, u, s) ← exchange f h req s;
  '(b, r) ← call_m cr b u old;
  Ret (b, r, s).

(** The same call through the replicated state machine: [rsm_client::call],
    [rsm::execute] with the handler of [rsm::reg], [rsm_client::call_m]. *)
Definition rsm_call `{FreshMem} {R S} (cr : codec R) (f : handler S)
    (req : marshall) (old : R) (s : S) : outcome (Z * R * S) :=
  '(rep, s) ← rsm_execute f (m_str req) s;
  '(b, r) ← rsm_call_m cr rep old;
  Ret (b, r, s).

(** The request [m] carries the bytes [bs] and nothing else. *)
Definition carries (m : marshall) (bs : str) : Prop :=
  marshall_wf m /\ m_str m = bs /\ m_ind m = RPC_HEADER_SZ + Z.of_nat (length bs).

(** On the argument bytes [bs] the handler answers [b] and [r]. *)
Definition answers {R S} (cr : codec R) (f : handler S) (bs : str) (s : S)
    (b : Z) (r : R) (s' : S) : Prop :=
  forall u ret, unmarshall_wf u -> u_ok u = true -> remaining u = bs ->
    f u ret s = Ret (b, c_put cr ret r, s').

(** The handler is the method [meth] on the argument bytes [bs]. *)
Definition implements {R S} (cr : codec R) (f : handler S) (bs : str)
    (meth : S -> outcome (Z * R * S)) : Prop :=
  forall u ret s, unmarshall_wf u -> u_ok u = true -> remaining u = bs ->
    f u ret s = ('(b, r, s) ← meth s; Ret (b, c_put cr ret r, s)).
Lemma implements_answers {R S} (cr : codec R) (f : handler S) bs meth s b r s' :
  implements cr f bs meth -> meth s = Ret (b, r, s') -> answers cr f bs s b r s'.
Proof. intros Hf Hm u ret Hwf Hok Hr. by rewrite (Hf u ret s Hwf Hok Hr), Hm. Qed.

Section stub_theorems.
Context `{FreshMem}.

Lemma appended_carries bs m : appended marshall_new bs m -> carries m bs.
Proof.
  intros Ha. pose proof marshall_new_wf as Hm.
  split_and!; [by eapply appended_wf| |by destruct Ha as (_ & -> & _)].
  by rewrite (appended_str _ _ _ Hm Ha), marshall_new_str.
Qed.
Lemma put_carries {A} (c : codec A) `{!CodecOk c} a :
  carries (c_put c marshall_new a) (enc c a).
Proof. apply appended_carries, (put_ok c), marshall_new_wf. Qed.

Section transport.
Context {R S : Type} (cr : codec R) `{!CodecOk cr}.

Lemma rpc_call_ok (f : handler S) h req bs b r old s s' :
  carries req bs -> answers cr f bs s b r s' -> valid_req_header h ->
  valid cr r -> 0 <= b < 2 ^ 31 ->
  RPC_HEADER_SZ + Z.of_nat (length bs) < 2 ^ 31 ->
  RPC_HEADER_SZ + Z.of_nat (length (enc cr r)) < 2 ^ 31 ->
  rpc_call cr f h req old s = Ret (b, r, s').
Proof.
  intros (Hm & Hs & Hi) Hf Hh Hr Hb Hreq Hrep.
  destruct (deliver_request_ok req h) as (Hwf & Hok & Hrem); [done|lia|done|].
  unfold rpc_call, exchange. rewrite Hf by (done || congruence). simpl.
  unfold rpc_const.unmarshal_args_failure.
  destruct (Z.eqb_spec b (-2)); [lia|]. destruct (Z.leb_spec 0 b); [|lia]. simpl.
  destruct (put_carries cr r) as (Hm' & Hs' & Hi').
  destruct (deliver_reply_ok (c_put cr marshall_new r) (ReplyHeader (rq_xid h) b))
    as (Hwf' & Hok' & Hrem'); [done|lia|by destruct Hh|simpl; width|].
  rewrite Hs' in Hrem'. by rewrite (call_m_ok cr b _ r old) by (done || lia).
Qed.

(** The reply string of [execute] and what [call_m] makes of it. *)
Lemma rsm_call_m_ok b r old :
  0 <= b < 2 ^ 31 -> valid cr r ->
  RPC_HEADER_SZ + Z.of_nat (length (enc cr r)) + 8 < 2 ^ 31 ->
  rsm_call_m cr (enc c_i32 b ++ enc c_string (enc cr r)) old = Ret (b, r).
Proof.
  intros Hb Hr Hrep. unfold rsm_call_m. set (res := enc cr r) in *.
  destruct (unmarshall_string_wf (enc c_i32 b ++ enc c_string res)) as [Hwf1 Hrem1].
  { rewrite length_app. simpl. lia. }
  rewrite (get_step c_i32 b _ _ _ _ Hwf1 eq_refl Hrem1) by (simpl; width).
  cbn beta iota. destruct (Z.ltb_spec b 0); [lia|].
  pose proof (advance_wf _ _ _ Hwf1 Hrem1) as Hwf2.
  pose proof (remaining_advance _ _ _ Hwf1 Hrem1) as Hrem2.
  rewrite (get_step c_string res _ [] _ _ Hwf2 eq_refl) by (rewrite ?app_nil_r; done).
  rewrite (okdone_end _ _ Hwf2 eq_refl) by (by rewrite Hrem2). cbn beta iota.
  destruct (unmarshall_string_wf res) as [Hwf3 Hrem3]; [lia|].
  rewrite (get_step cr r _ [] _ _ Hwf3 eq_refl) by (rewrite ?app_nil_r; done).
  by rewrite (okdone_end _ _ Hwf3 eq_refl) by (by rewrite Hrem3).
Qed.

Lemma rsm_execute_ok (f : handler S) req bs b r s s' :
  carries req bs -> answers cr f bs s b r s' -> RPC_HEADER_SZ + Z.of_nat (length bs) < 2 ^ 31 ->
  rsm_execute f (m_str req) s = Ret (enc c_i32 b ++ enc c_string (enc cr r), s').
Proof.
  intros (Hm & Hs & Hi) Hf Hreq. unfold rsm_execute.
  destruct (unmarshall_string_wf bs) as [Hwf Hrem]; [lia|].
  rewrite Hs, Hf, !outcome_bind_Ret by done. cbn beta iota.
  destruct (put_carries cr r) as (_ & -> & _).
  assert (appended marshall_new (enc c_i32 b ++ enc c_string (enc cr r))
    (c_put c_string (c_put c_i32 marshall_new b) (enc cr r))) as Ha.
  { pose proof marshall_new_wf as W. do 2 put_field W. }
  by apply appended_carries in Ha as (_ & -> & _).
Qed.
Lemma rsm_call_ok (f : handler S) req bs b r old s s' :
  carries req bs -> answers cr f bs s b r s' ->
  valid cr r -> 0 <= b < 2 ^ 31 ->
  RPC_HEADER_SZ + Z.of_nat (length bs) < 2 ^ 31 ->
  RPC_HEADER_SZ + Z.of_nat (length (enc cr r)) + 8 < 2 ^ 31 ->
  rsm_call cr f req old s = Ret (b, r, s').
Proof.
  intros Hc Hf Hr Hb Hreq Hrep. unfold rsm_call.
  rewrite (rsm_execute_ok f req bs b r s s' Hc Hf Hreq), outcome_bind_Ret.
  by rewrite (rsm_call_m_ok b r old Hb Hr Hrep).
Qed.
End transport.

(** The requests of [call], by number of arguments. *)
Section arities.
Context {A1 A2 A3 R S : Type}.
Variables (c1 : codec A1) (c2 : codec A2) (c3 : codec A3) (cr : codec R).
Context `{!CodecOk c1, !CodecOk c2, !CodecOk c3}.

Lemma call_req1_carries a1 : carries (call_req1 c1 a1) (enc c1 a1).
Proof. apply put_carries. Qed.
Lemma call_req2_carries a1 a2 :
  carries (call_req2 c1 c2 a1 a2) (enc c1 a1 ++ enc c2 a2).
Proof.
  apply appended_carries. pose proof marshall_new_wf as W.
  unfold call_req2. do 2 put_field W.
Qed.
Lemma call_req3_carries a1 a2 a3 :
  carries (call_req3 c1 c2 c3 a1 a2 a3) (enc c1 a1 ++ enc c2 a2 ++ enc c3 a3).
Proof.
  apply appended_carries. pose proof marshall_new_wf as W.
  unfold call_req3. do 3 put_field W.
Qed.

(** The wrappers of [rpcs::reg], on the bytes of their arguments. *)
Lemma rpcs_fn1_implements (meth : A1 -> R -> S -> outcome (Z * R * S)) a1 :
  valid c1 a1 -> implements cr (rpcs_fn1 c1 cr meth) (enc c1 a1) (meth a1 (c_dflt cr)).
Proof.
  intros H1 u ret s Hwf Hok Hr. pose proof Hr as Hr0.
  rewrite <-(app_nil_r (enc c1 a1)) in Hr. unfold rpcs_fn1.
  rewrite (get_step c1 a1 u _ _ _ Hwf Hok Hr H1).
  by rewrite (okdone_end _ _ Hwf Hok) by (by rewrite Hr0).
Qed.
Lemma rpcs_fn2_implements (meth : A1 -> A2 -> R -> S -> outcome (Z * R * S)) a1 a2 :
  valid c1 a1 -> valid c2 a2 ->
  implements cr (rpcs_fn2 c1 c2 cr meth) (enc c1 a1 ++ enc c2 a2) (meth a1 a2 (c_dflt cr)).
Proof.
  intros H1 H2 u ret s Hwf Hok Hr. unfold rpcs_fn2.
  rewrite (get_step c1 a1 u _ _ _ Hwf Hok Hr H1).
  pose proof (advance_wf _ _ _ Hwf Hr) as Hwf1.
  pose proof (remaining_advance _ _ _ Hwf Hr) as Hr1.
  rewrite (get_step c2 a2 _ [] _ _ Hwf1 Hok) by (rewrite ?app_nil_r; done).
  by rewrite (okdone_end _ _ Hwf1 Hok) by (by rewrite Hr1).
Qed.
Lemma rpcs_fn1_answers (meth : A1 -> R -> S -> outcome (Z * R * S)) a1 s b r s' :
  valid c1 a1 -> meth a1 (c_dflt cr) s = Ret (b, r, s') ->
  answers cr (rpcs_fn1 c1 cr meth) (enc c1 a1) s b r s'.
Proof. intros H1. by apply implements_answers, rpcs_fn1_implements. Qed.
Lemma rpcs_fn2_answers (meth : A1 -> A2 -> R -> S -> outcome (Z * R * S))
    a1 a2 s b r s' :
  valid c1 a1 -> valid c2 a2 -> meth a1 a2 (c_dflt cr) s = Ret (b, r, s') ->
  answers cr (rpcs_fn2 c1 c2 cr meth) (enc c1 a1 ++ enc c2 a2) s b r s'.
Proof. intros H1 H2. by apply implements_answers, rpcs_fn2_implements. Qed.
Lemma rsm_fn1_answers (meth : A1 -> R -> S -> outcome (Z * R * S)) a1 s b r s' :
  valid c1 a1 -> meth a1 (c_dflt cr) s = Ret (b, r, s') ->
  answers cr (rsm_fn1 c1 cr meth) (enc c1 a1) s b r s'.
Proof.
  intros H1 Hm u ret Hwf Hok Hr. unfold rsm_fn1.
  rewrite (get_step c1 a1 u [] _ _ Hwf Hok) by (rewrite ?app_nil_r; done).
  rewrite (okdone_end _ _ Hwf Hok) by (by rewrite Hr). simpl. by rewrite Hm.
Qed.
Lemma rsm_fn3_answers (meth : A1 -> A2 -> A3 -> R -> S -> outcome (Z * R * S))
    a1 a2 a3 s b r s' :
  valid c1 a1 -> valid c2 a2 -> valid c3 a3 ->
  meth a1 a2 a3 (c_dflt cr) s = Ret (b, r, s') ->
  answers cr (rsm_fn3 c1 c2 c3 cr meth) (enc c1 a1 ++ enc c2 a2 ++ enc c3 a3)
    s b r s'.
Proof.
  intros H1 H2 H3 Hm u ret Hwf Hok Hr. unfold rsm_fn3.
  rewrite (get_step c1 a1 u _ _ _ Hwf Hok Hr H1).
  pose proof (advance_wf _ _ _ Hwf Hr) as Hwf1.
  pose proof (remaining_advance _ _ _ Hwf Hr) as Hr1.
  rewrite (get_step c2 a2 _ _ _ _ Hwf1 Hok Hr1 H2).
  pose proof (advance_wf _ _ _ Hwf1 Hr1) as Hwf2.
  pose proof (remaining_advance _ _ _ Hwf1 Hr1) as Hr2.
  rewrite (get_step c3 a3 _ [] _ _ Hwf2 Hok) by (rewrite ?app_nil_r; done).
  rewrite (okdone_end _ _ Hwf2 Hok) by (by rewrite Hr2). simpl. by rewrite Hm.
Qed.
End arities.
End stub_theorems.

(** ** Properties *)

Section stub_properties.
Context `{FreshMem}.

(** Remote calls are transparent: a two-argument call, marshalled by
    [rpcc::call], carried with its header, unmarshalled by the wrapper that
    [rpcs::reg] registers, executed, and answered, returns exactly the status,
    result and state of the method applied to the arguments. *)
Theorem rpc_transparent {A1 A2 R S} (c1 : codec A1) (c2 : codec A2) (cr : codec R)
    `{!CodecOk c1, !CodecOk c2, !CodecOk cr}
    (meth : A1 -> A2 -> R -> S -> outcome (Z * R * S)) h a1 a2 old s b r s' :
  valid_req_header h -> valid c1 a1 -> valid c2 a2 ->
  meth a1 a2 (c_dflt cr) s = Ret (b, r, s') -> valid cr r -> 0 <= b < 2 ^ 31 ->
  RPC_HEADER_SZ + Z.of_nat (length (enc c1 a1 ++ enc c2 a2)) < 2 ^ 31 ->
  RPC_HEADER_SZ + Z.of_nat (length (enc cr r)) < 2 ^ 31 ->
  rpc_call cr (rpcs_fn2 c1 c2 cr meth) h (call_req2 c1 c2 a1 a2) old s = Ret (b, r, s').
Proof.
  intros Hh H1 H2 Hm Hr Hb Hreq Hrep.
  apply (rpc_call_ok cr _ _ _ (enc c1 a1 ++ enc c2 a2));
    [by apply call_req2_carries|by apply rpcs_fn2_answers|done..].
Qed.

(** Calls through the replicated state machine are transparent: the
    three-argument call of [rsm_client], re-packed into strings and run by
    [rsm::execute], returns what the method returns. *)
Theorem rsm_transparent {A1 A2 A3 R S} (c1 : codec A1) (c2 : codec A2) (c3 : codec A3)
    (cr : codec R) `{!CodecOk c1, !CodecOk c2, !CodecOk c3, !CodecOk cr}
    (meth : A1 -> A2 -> A3 -> R -> S -> outcome (Z * R * S)) a1 a2 a3 old s b r s' :
  valid c1 a1 -> valid c2 a2 -> valid c3 a3 ->
  meth a1 a2 a3 (c_dflt cr) s = Ret (b, r, s') -> valid cr r -> 0 <= b < 2 ^ 31 ->
  RPC_HEADER_SZ + Z.of_nat (length (enc c1 a1 ++ enc c2 a2 ++ enc c3 a3)) < 2 ^ 31 ->
  RPC_HEADER_SZ + Z.of_nat (length (enc cr r)) + 8 < 2 ^ 31 ->
  rsm_call cr (rsm_fn3 c1 c2 c3 cr meth) (call_req3 c1 c2 c3 a1 a2 a3) old s
    = Ret (b, r, s').
Proof.
  intros H1 H2 H3 Hm Hr Hb Hreq Hrep.
  apply (rsm_call_ok cr _ _ (enc c1 a1 ++ enc c2 a2 ++ enc c3 a3));
    [by apply call_req3_carries|by apply rsm_fn3_answers|done..].
Qed.

(** A value written to a fresh buffer and read back from its content into a
    variable that held [old]. *)
Definition wire_copy {A} (c : codec A) (a old : A) : outcome (A * unmarshall) :=
  c_get c old (unmarshall_string (m_str (c_put c marshall_new a))).

(** The types that the protocols carry: those of [marshall]'s operators, the
    structs of the protocol headers, and the containers of any of these. *)
Inductive wire :=
  | WBool | WUchar | WU16 | WU32 | WI32 | WU64 | WString
  | WAttr | WProp | WPreparearg | WPrepareres | WAcceptarg | WDecidearg
  | WViewstamp | WTransferres | WJoinres
  | WVector (t : wire) | WMap (t : wire).
Fixpoint wire_type (t : wire) : Type :=
  match t with
  | WBool => bool | WUchar | WU16 | WU32 | WI32 | WU64 => Z | WString => str
  | WAttr => extent_protocol.attr | WProp => paxos_protocol.prop_t
  | WPreparearg => paxos_protocol.preparearg | WPrepareres => paxos_protocol.prepareres
  | WAcceptarg => paxos_protocol.acceptarg | WDecidearg => paxos_protocol.decidearg
  | WViewstamp => rsm_protocol.viewstamp | WTransferres => rsm_protocol.transferres
  | WJoinres => rsm_protocol.joinres
  | WVector t => list (wire_type t) | WMap t => gmap str (wire_type t)
  end.
Fixpoint wire_codec (t : wire) : codec (wire_type t) :=
  match t with
  | WBool => c_bool | WUchar => c_uchar | WU16 => c_u16 | WU32 => c_u32 | WI32 => c_i32 | WU64 => c_u64
  | WString => c_string | WAttr => extent_protocol.c_attr | WProp => paxos_protocol.c_prop
  | WPreparearg => paxos_protocol.c_preparearg | WPrepareres => paxos_protocol.c_prepareres
  | WAcceptarg => paxos_protocol.c_acceptarg | WDecidearg => paxos_protocol.c_decidearg
  | WViewstamp => rsm_protocol.c_viewstamp | WTransferres => rsm_protocol.c_transferres
  | WJoinres => rsm_protocol.c_joinres
  | WVector t => c_vector (wire_codec t) | WMap t => c_map c_string (wire_codec t)
  end.
(** The values that a C++ variable of the type can hold. *)
Fixpoint in_range (t : wire) : wire_type t -> Prop :=
  match t with
  | WBool => fun _ => True
  | WUchar => fun x => 0 <= x < 2 ^ 8
  | WU16 => fun x => 0 <= x < 2 ^ 16
  | WU32 => fun x => 0 <= x < 2 ^ 32
  | WI32 => fun x => - 2 ^ 31 <= x < 2 ^ 31
  | WU64 => fun x => 0 <= x < 2 ^ 64
  | WString => fun _ => True
  | WAttr => fun a =>
      let '(extent_protocol.Attr at_ mt ct sz) := a in
      0 <= at_ < 2 ^ 32 /\ 0 <= mt < 2 ^ 32 /\ 0 <= ct < 2 ^ 32 /\ 0 <= sz < 2 ^ 32
  | WProp => fun p => 0 <= paxos_protocol.p_n p < 2 ^ 32
  | WPreparearg => fun a =>
      0 <= paxos_protocol.pa_instance a < 2 ^ 32 /\ 0 <= paxos_protocol.p_n (paxos_protocol.pa_n a) < 2 ^ 32
  | WPrepareres => fun r => 0 <= paxos_protocol.p_n (paxos_protocol.pr_n_a r) < 2 ^ 32
  | WAcceptarg => fun a =>
      0 <= paxos_protocol.aa_instance a < 2 ^ 32 /\ 0 <= paxos_protocol.p_n (paxos_protocol.aa_n a) < 2 ^ 32
  | WDecidearg => fun a => 0 <= paxos_protocol.da_instance a < 2 ^ 32
  | WViewstamp => fun v => 0 <= rsm_protocol.vid v < 2 ^ 32 /\ 0 <= rsm_protocol.seqno v < 2 ^ 32
  | WTransferres => fun r =>
      0 <= rsm_protocol.vid (rsm_protocol.tr_last r) < 2 ^ 32 /\
      0 <= rsm_protocol.seqno (rsm_protocol.tr_last r) < 2 ^ 32
  | WJoinres => fun _ => True
  | WVector t => fun v => Forall (in_range t) v /\ Z.of_nat (length v) < 2 ^ 32
  | WMap t => fun d => map_Forall (fun _ v => in_range t v) d /\ Z.of_nat (size d) < 2 ^ 32
  end.
#[local] Instance wire_codec_ok t : CodecOk (wire_codec t).
Proof. induction t; cbn; apply _. Defined.
Lemma in_range_valid t a : in_range t a -> valid (wire_codec t) a.
Proof.
  revert a. induction t as [| | | | | | | | | | | | | | | |t IH|t IH]; intros a; cbn; try done.
  - by destruct a.
  - intros [Hv Hl]. split; [|split; [lia|done]]. eapply Forall_impl; [exact Hv|]. intros x. apply IH.
  - intros [Hv Hl]. split; [|split; [lia|done]]. intros k x Hx. split; [done|]. apply IH. by eapply Hv.
Qed.


(** The wrapper [rsm::reg] builds for a five-argument procedure can never
    run it: it does not unmarshal the fifth argument, so on any well-formed
    request whose fifth argument takes at least a byte its [VERIFY] fails. *)
Theorem rsm_reg5_fails {A1 A2 A3 A4 A5 R S} (c1 : codec A1) (c2 : codec A2)
    (c3 : codec A3) (c4 : codec A4) (c5 : codec A5) (cr : codec R)
    `{!CodecOk c1, !CodecOk c2, !CodecOk c3, !CodecOk c4, !CodecOk c5}
    (meth : A1 -> A2 -> A3 -> A4 -> A5 -> R -> S -> outcome (Z * R * S))
    a1 a2 a3 a4 a5 ret s :
  valid c1 a1 -> valid c2 a2 -> valid c3 a3 -> valid c4 a4 -> enc c5 a5 <> [] ->
  Z.of_nat (length (enc c1 a1 ++ enc c2 a2 ++ enc c3 a3 ++ enc c4 a4 ++ enc c5 a5))
    + RPC_HEADER_SZ < 2 ^ 31 ->
  rsm_fn5 c1 c2 c3 c4 c5 cr meth
    (unmarshall_string (m_str (call_req5 c1 c2 c3 c4 c5 a1 a2 a3 a4 a5))) ret s
    = VerifyFail.
Proof.
  intros H1 H2 H3 H4 H5 Hsz.
  assert (carries (call_req5 c1 c2 c3 c4 c5 a1 a2 a3 a4 a5)
    (enc c1 a1 ++ enc c2 a2 ++ enc c3 a3 ++ enc c4 a4 ++ enc c5 a5)) as (_ & -> & _).
  { apply appended_carries. pose proof marshall_new_wf as W.
    unfold call_req5. do 5 put_field W. }
  unfold rsm_fn5. destruct (unmarshall_string_wf _ Hsz) as [Hwf Hr].
  assert (Hok : u_ok (unmarshall_string (enc c1 a1 ++ enc c2 a2 ++ enc c3 a3 ++
            enc c4 a4 ++ enc c5 a5)) = true) by done.
  set (u := unmarshall_string _) in *. clearbody u.
  do 4 (read_step Hwf Hok Hr; cbn beta iota).
  set (u4 := advance _ _) in *. destruct (okdone u4) eqn:E; [|done].
  apply okdone_remaining in E; [|done]. congruence.
Qed.
End stub_properties.

#[local] Existing Instance fresh_zero.

(** A lookup in a table, called with the string key and a default. *)
Definition find_or (k : str) (d : Z) (_ : Z) (s : gmap str Z) : outcome (Z * Z * gmap str Z) :=
  Ret (0, default d (s !! k), s).
Lemma rpc_transparent_witness :
  rpc_call c_i32 (rpcs_fn2 c_string c_i32 c_i32 find_or) (ReqHeader 5 7 1 2 4)
    (call_req2 c_string c_i32 (lit "key") 3) 0 {[ lit "key" := 17 ]}
  = Ret (0, 17, {[ lit "key" := 17 ]}).
Proof.
  apply (rpc_transparent c_string c_i32 c_i32 find_or (ReqHeader 5 7 1 2 4) (lit "key") 3 0);
    try done; repeat split; vm_compute; congruence.
Defined.

Definition add3 (a b c : Z) (_ : Z) (s : Z) : outcome (Z * Z * Z) :=
  Ret (0, a + b + c + s, a + b + c + s).
Lemma rsm_transparent_witness :
  rsm_call c_i32 (rsm_fn3 c_i32 c_i32 c_i32 c_i32 add3)
    (call_req3 c_i32 c_i32 c_i32 1 2 3) 0 100 = Ret (0, 106, 106).
Proof.
  apply (rsm_transparent c_i32 c_i32 c_i32 c_i32 add3 1 2 3 0);
    try done; repeat split; vm_compute; congruence.
Defined.

Definition promises : gmap str (list paxos_protocol.preparearg) :=
  {[ lit "b" := [paxos_protocol.PrepareArg 3 (paxos_protocol.Prop_t 4 (lit "x"))]; lit "a" := [] ]}.
Lemma promises_in_range : in_range (WMap (WVector WPreparearg)) promises.
Proof.
  split; [|vm_compute; reflexivity].
  apply (map_Forall_insert_2 (fun _ v => in_range (WVector WPreparearg) v)).
  - split; [|cbn; lia]. repeat constructor; cbn; lia.
  - apply (map_Forall_singleton (fun _ v => in_range (WVector WPreparearg) v)). split; [|cbn; lia]. constructor.
Qed.

Lemma rsm_reg5_fails_witness :
  rsm_fn5 c_i32 c_i32 c_i32 c_i32 c_i32 c_i32
    (fun a b c d e _ (s : Z) => Ret (0, a + b + c + d + e, s))
    (unmarshall_string (m_str (call_req5 c_i32 c_i32 c_i32 c_i32 c_i32 1 2 3 4 5)))
    marshall_new 0 = VerifyFail.
Proof.
  apply (rsm_reg5_fails c_i32 c_i32 c_i32 c_i32 c_i32 c_i32);
    try done; repeat split; vm_compute; congruence.
Defined.
