(* ===== verification/RpcServer.v ===== *)
(** * The RPC server: [rpcs]

    [rpc/rpc.cc]: the reply window that makes calls at-most-once
    ([checkduplicate_and_update], [add_reply], [free_reply_window]), the
    registration of handlers and [rpcs::dispatch].  The mutexes make every one
    of the window operations atomic, so an execution is a sequence of them;
    connections are numbers, with their creation times and liveness as
    parameters, and [c->send] is an output. *)
From S2P Require Import Prelude Marshall Protocols RpcStub.

Inductive rpcstate_t := NEW | INPROGRESS | DONE | FORGOTTEN.
#[global] Instance rpcstate_eq_dec : EqDecision rpcstate_t.
Proof. solve_decision. Defined.

Record reply_t := Reply {
  r_xid : Z; r_cb_present : bool; r_buf : str; r_sz : Z
}.
#[global] Instance reply_t_eq_dec : EqDecision reply_t.
Proof. solve_decision. Defined.

(** The constructor [reply_t(xid)]. *)
Definition reply_new (xid : Z) : reply_t := Reply xid false [] 0.

(** ** The reply window of one client *)

(** The first loop of [checkduplicate_and_update]: stop at the entry for [xid],
    erase the finished entries up to [xid_rep] on the way. *)
Fixpoint window_scan (xid xid_rep : Z) (l : list reply_t)
  : option reply_t * list reply_t :=
  match l with
  | [] => (None, [])
  | e :: l' =>
      if r_xid e =? xid then (Some e, l)
      else if (r_xid e <=? xid_rep) && r_cb_present e
      then window_scan xid xid_rep l'
      else let '(o, l'') := window_scan xid xid_rep l' in (o, e :: l'')
  end.

(** The second loop and the insertion: walk to the first entry with a smaller
    xid, step back one unless at the front, and insert before it. *)
Fixpoint first_smaller (xid : Z) (l : list reply_t) : nat :=
  match l with
  | [] => 0
  | e :: l' => if r_xid e <? xid then 0 else S (first_smaller xid l')
  end.
Definition window_insert (xid : Z) (l : list reply_t) : list reply_t :=
  let lit := Nat.pred (first_smaller xid l) in
  take lit l ++ reply_new xid :: drop lit l.

(** [checkduplicate_and_update] on the list of one client; the entry that is
    found carries the buffer that [*b] and [*sz] are set to. *)
Definition check_window (xid xid_rep : Z) (l : list reply_t)
  : rpcstate_t * option reply_t * list reply_t :=
  match window_scan xid xid_rep l with
  | (Some e, l) => (if r_cb_present e then DONE else INPROGRESS, Some e, l)
  | (None, l) =>
      match last l with
      | Some e => if xid <? r_xid e then (FORGOTTEN, None, l)
                  else (NEW, None, window_insert xid l)
      | None => (NEW, None, window_insert xid l)
      end
  end.

(** [add_reply] on the list of one client. *)
Fixpoint window_reply (xid : Z) (b : str) (sz : Z) (l : list reply_t) : list reply_t :=
  match l with
  | [] => []
  | e :: l' => if r_xid e =? xid then Reply xid true b sz :: l'
               else e :: window_reply xid b sz l'
  end.

(** ** The whole window *)

Definition reply_window := gmap Z (list reply_t).

Definition checkduplicate_and_update (clt_nonce xid xid_rep : Z)
    (w : gmap Z (list reply_t))
  : rpcstate_t * option reply_t * gmap Z (list reply_t) :=
  let '(st, e, l) := check_window xid xid_rep (std_ref [] w clt_nonce) in
  (st, e, <[clt_nonce := l]> w).
Definition add_reply (clt_nonce xid : Z) (b : str) (sz : Z)
    (w : gmap Z (list reply_t)) : gmap Z (list reply_t) :=
  <[clt_nonce := window_reply xid b sz (std_ref [] w clt_nonce)]> w.
Definition free_reply_window (w : gmap Z (list reply_t)) : gmap Z (list reply_t) := ∅.

(** ** The server object and [dispatch] *)

Record rpcs (S : Type) := Rpcs {
  nonce_ : Z;
  procs_ : gmap Z (handler S);
  reply_window_ : gmap Z (list reply_t);
  conns_ : gmap Z Z;          (* client nonce -> latest good connection *)
  refs_ : gmap Z Z;           (* connection -> its reference count *)
  counting_ : Z;
  curr_counts_ : Z;
  counts_ : gmap Z Z;
  app_ : S;                   (* the objects behind the handlers *)
}.
Arguments Rpcs {S}.
Arguments nonce_ {S}. Arguments procs_ {S}. Arguments reply_window_ {S}.
Arguments conns_ {S}. Arguments refs_ {S}. Arguments counting_ {S}.
Arguments curr_counts_ {S}. Arguments counts_ {S}. Arguments app_ {S}.

Section server.
Context `{FreshMem} {S : Type}.
(** The connections: creation time [(tv_sec, tv_usec)] and [isdead()]. *)
Variables (create_time : Z -> Z * Z) (isdead : Z -> bool).

Definition set_window (st : rpcs S) (w : gmap Z (list reply_t)) : rpcs S :=
  Rpcs (nonce_ st) (procs_ st) w (conns_ st) (refs_ st) (counting_ st)
    (curr_counts_ st) (counts_ st) (app_ st).
Definition set_conns (st : rpcs S) (c : gmap Z Z) : rpcs S :=
  Rpcs (nonce_ st) (procs_ st) (reply_window_ st) c (refs_ st) (counting_ st)
    (curr_counts_ st) (counts_ st) (app_ st).
Definition set_refs (st : rpcs S) (r : gmap Z Z) : rpcs S :=
  Rpcs (nonce_ st) (procs_ st) (reply_window_ st) (conns_ st) r (counting_ st)
    (curr_counts_ st) (counts_ st) (app_ st).
Definition set_counts (st : rpcs S) (curr : Z) (c : gmap Z Z) : rpcs S :=
  Rpcs (nonce_ st) (procs_ st) (reply_window_ st) (conns_ st) (refs_ st)
    (counting_ st) curr c (app_ st).
Definition set_app (st : rpcs S) (s : S) : rpcs S :=
  Rpcs (nonce_ st) (procs_ st) (reply_window_ st) (conns_ st) (refs_ st)
    (counting_ st) (curr_counts_ st) (counts_ st) s.

Definition incref (c : Z) (st : rpcs S) : rpcs S :=
  set_refs st (<[c := std_ref 0 (refs_ st) c + 1]> (refs_ st)).
Definition decref (c : Z) (st : rpcs S) : rpcs S :=
  set_refs st (<[c := std_ref 0 (refs_ st) c - 1]> (refs_ st)).

(** [connection::compare]. *)
Definition compare (a b : Z) : Z :=
  let '(as_, au) := create_time a in let '(bs, bu) := create_time b in
  if bs <? as_ then 1 else if as_ <? bs then -1
  else if bu <? au then 1 else if au <? bu then -1 else 0.

(** [rpcs::reg1]. *)
Definition reg1 (proc : Z) (h : handler S) (st : rpcs S) : outcome (rpcs S) :=
  match procs_ st !! proc with
  | Some _ => VerifyFail
  | None => Ret (Rpcs (nonce_ st) (<[proc := h]> (procs_ st)) (reply_window_ st)
              (conns_ st) (refs_ st) (counting_ st) (curr_counts_ st) (counts_ st)
              (app_ st))
  end.

(** [rpcs::updatestat]; the printing is left out. *)
Definition updatestat (proc : Z) (st : rpcs S) : rpcs S :=
  let counts := <[proc := std_ref 0 (counts_ st) proc + 1]> (counts_ st) in
  let curr := curr_counts_ st - 1 in
  set_counts st (if curr =? 0 then counting_ st else curr) counts.

(** [rpcs::rpcbind]. *)
Definition rpcbind (a : Z) (st : rpcs S) : Z * Z := (0, i32 (nonce_ st)).

(** "save the latest good connection to the client". *)
Definition save_conn (clt c : Z) (st : rpcs S) : rpcs S :=
  match conns_ st !! clt with
  | None => let st := incref c st in set_conns st (<[clt := c]> (conns_ st))
  | Some c0 =>
      if compare c0 c <? 0
      then let st := incref c (decref c0 st) in set_conns st (<[clt := c]> (conns_ st))
      else st
  end.

(** The duplicate check of [dispatch]; a client with nonce 0 asks for none. *)
Definition classify (h : req_header) (c : Z) (st : rpcs S)
  : rpcstate_t * option reply_t * rpcs S :=
  if rq_clt_nonce h =? 0 then (NEW, None, st)
  else
    let st := set_window st (std_touch [] (reply_window_ st) (rq_clt_nonce h)) in
    let st := save_conn (rq_clt_nonce h) c st in
    let '(stat, e, w) := checkduplicate_and_update (rq_clt_nonce h)
                           (u32 (rq_xid h)) (u32 (rq_xid_rep h)) (reply_window_ st) in
    (stat, e, set_window st w).

(** The [NEW] case: run the handler and pack its reply; then remember the reply
    and answer on the latest connection.  [conns_[clt]] of a client without an
    entry is a null pointer. *)
Definition run_handler (f : handler S) (h : req_header) (req : unmarshall) (st : rpcs S)
  : outcome (str * Z * rpcs S) :=
  let st := if counting_ st =? 0 then st else updatestat (rq_proc h) st in
  '(ret, rep, s) ← f req marshall_new (app_ st);
  _ ← VERIFY (negb (ret =? rpc_const.unmarshal_args_failure));
  _ ← VERIFY (0 <=? ret);
  let rep := pack_reply_header rep (ReplyHeader (rq_xid h) ret) in
  let '(b1, sz1) := m_take_buf rep in
  Ret (b1, sz1, set_app st s).
Definition run_send (h : req_header) (c : Z) (b1 : str) (sz1 : Z) (st : rpcs S)
  : outcome (rpcs S * list (Z * str)) :=
  let st := if 0 <? rq_clt_nonce h
            then set_window st (add_reply (rq_clt_nonce h) (u32 (rq_xid h)) b1 sz1
                                  (reply_window_ st))
            else st in
  '(c, st) ←
    (if isdead c then
       match conns_ st !! rq_clt_nonce h with
       | None => UB
       | Some c' => if c =? c' then Ret (c, st) else Ret (c', incref c' (decref c st))
       end
     else Ret (c, st));
  Ret (decref c st, [(c, take (Z.to_nat sz1) b1)]).
Definition run_new (f : handler S) (h : req_header) (c : Z) (req : unmarshall)
    (st : rpcs S) : outcome (rpcs S * list (Z * str)) :=
  '(b1, sz1, st) ← run_handler f h req st; run_send h c b1 sz1 st.

(** What [dispatch] does before it runs a handler: it is finished, with its
    answers, or there is a handler to run. *)
Definition dispatch_check (c : Z) (b : str) (sz : Z) (st : rpcs S)
  : outcome ((list (Z * str) + handler S * req_header * unmarshall) * rpcs S) :=
  let '(h, req) := unpack_req_header (unmarshall_pdu b sz) in
  if negb (u_ok req) then Ret (inl [], decref c st)
  else if negb (rq_srv_nonce h =? 0) && negb (rq_srv_nonce h =? nonce_ st)
  then
    let rep := pack_reply_header marshall_new
                 (ReplyHeader (rq_xid h) rpc_const.oldsrv_failure) in
    Ret (inl [(c, pdu rep)], st)
  else
    match procs_ st !! rq_proc h with
    | None => VerifyFail
    | Some f =>
        match classify h c st with
        | (NEW, _, st) => Ret (inr (f, h, req), st)
        | (INPROGRESS, _, st) => Ret (inl [], decref c st)
        | (DONE, Some e, st) =>
            Ret (inl [(c, take (Z.to_nat (r_sz e)) (r_buf e))], decref c st)
        | (DONE, None, st) => UB
        | (FORGOTTEN, _, st) =>
            let rep := pack_reply_header marshall_new
                         (ReplyHeader (rq_xid h) rpc_const.atmostonce_failure) in
            Ret (inl [(c, pdu rep)], decref c st)
        end
    end.
Definition dispatch (c : Z) (b : str) (sz : Z) (st : rpcs S)
  : outcome (rpcs S * list (Z * str)) :=
  '(v, st) ← dispatch_check c b sz st;
  match v with
  | inl out => Ret (st, out)
  | inr (f, h, req) => run_new f h c req st
  end.

(** [rpcs::got_pdu]: queue the request, holding a reference for the worker.
    [succ] is the answer of the thread pool; [reachable_] is read twice. *)
Definition rpcs_got_pdu (reachable succ reachable' : bool) (c : Z) (st : rpcs S)
  : bool * rpcs S :=
  if negb reachable then (true, st)
  else
    let st := incref c st in
    (succ, if negb succ || negb reachable' then decref c st else st).
End server.

(** ** The operations on a window *)

Lemma window_scan_spec x r l o l' :
  window_scan x r l = (o, l') ->
  (forall e, e ∈ l' -> e ∈ l) /\
  (forall e, e ∈ l -> e ∈ l' \/ (r_xid e <= r /\ r_cb_present e = true /\ r_xid e <> x)) /\
  match o with
  | Some e => e ∈ l /\ r_xid e = x
  | None => (forall e, e ∈ l -> r_xid e <> x) /\
            (forall e, e ∈ l' -> r_xid e <= r -> r_cb_present e = false)
  end.
Proof.
  revert o l'. induction l as [|e l IH]; intros o l'; simpl.
  { intros [= <- <-]. set_solver. }
  destruct (Z.eqb_spec (r_xid e) x) as [Heq|Hne].
  { intros [= <- <-]. split_and!; [done|by auto|by left|done]. }
  destruct (window_scan x r l) as [o2 l2] eqn:E.
  destruct (IH _ _ eq_refl) as (IH1 & IH2 & IH3).
  destruct (Z.leb_spec (r_xid e) r) as [Hle|Hgt]; simpl.
  - destruct (r_cb_present e) eqn:Hp; intros [= <- <-].
    + split_and!; [set_solver| |by destruct o2; set_solver].
      intros e' [->|?]%elem_of_cons; [right; done|by apply IH2].
    + split_and!; [set_solver| |].
      * intros e' [->|?]%elem_of_cons; [left; set_solver|].
        destruct (IH2 e') as [?|?]; [done|left; set_solver|by right].
      * destruct o2; [set_solver|]. destruct IH3 as [IH3 IH4]. split; [set_solver|].
        intros e' [->|?]%elem_of_cons; [done|by apply IH4].
  - intros [= <- <-]. split_and!; [set_solver| |].
    + intros e' [->|?]%elem_of_cons; [left; set_solver|].
      destruct (IH2 e') as [?|?]; [done|left; set_solver|by right].
    + destruct o2; [set_solver|]. destruct IH3 as [IH3 IH4]. split; [set_solver|].
      intros e' [->|?]%elem_of_cons; [lia|by apply IH4].
Qed.

Lemma window_insert_elem x l e :
  e ∈ window_insert x l <-> e = reply_new x \/ e ∈ l.
Proof.
  unfold window_insert. set (n := Nat.pred _).
  rewrite elem_of_app, elem_of_cons. rewrite <-(take_drop n l) at 3.
  rewrite elem_of_app. naive_solver.
Qed.

Lemma window_reply_elem x b sz l e :
  e ∈ window_reply x b sz l -> e ∈ l \/ (e = Reply x true b sz /\ exists e0, e0 ∈ l /\ r_xid e0 = x).
Proof.
  induction l as [|e0 l IH]; simpl; [by auto|].
  destruct (Z.eqb_spec (r_xid e0) x); rewrite elem_of_cons.
  - intros [->|?]; [right; split; [done|]; exists e0; split; [by left|done]|left; by right].
  - intros [->|Hin]; [left; by left|]. destruct (IH Hin) as [?|(-> & e1 & ? & ?)].
    + left; by right.
    + right. split; [done|]. exists e1. split; [by right|done].
Qed.
Lemma window_reply_keeps x b sz l e :
  e ∈ l -> exists e', e' ∈ window_reply x b sz l /\ r_xid e' = r_xid e.
Proof.
  induction l as [|e0 l IH]; [by intros ?%elem_of_nil|]. simpl.
  intros [->|Hin]%elem_of_cons; destruct (Z.eqb_spec (r_xid e0) x).
  - exists (Reply x true b sz). split; [by left|done].
  - exists e0. split; [by left|done].
  - exists e. split; [by right|done].
  - destruct (IH Hin) as (e' & ? & ?). exists e'. split; [by right|done].
Qed.

(** The entry of [x] is the one that is completed, wherever it stands. *)
Lemma window_reply_present x b sz l e :
  NoDup (r_xid <$> l) -> e ∈ window_reply x b sz l -> r_xid e = x -> r_cb_present e = true.
Proof.
  induction l as [|e0 l IH]; simpl; [by intros _ ?%elem_of_nil|].
  intros Hnd. inversion_clear Hnd as [|? ? Hni Hnd'].
  destruct (Z.eqb_spec (r_xid e0) x) as [Heq|]; rewrite elem_of_cons.
  - intros [->|Hin] Hx; [done|]. exfalso. apply Hni. rewrite Heq, <-Hx.
    by apply list_elem_of_fmap_2.
  - intros [->|Hin] Hx; [done|]. by apply IH.
Qed.

Lemma window_scan_sublist x r l o l' :
  window_scan x r l = (o, l') -> l' `sublist_of` l.
Proof.
  revert o l'. induction l as [|e l IH]; intros o l'; simpl; [by intros [= <- <-]|].
  destruct (r_xid e =? x); [by intros [= <- <-]|].
  destruct (window_scan x r l) as [o2 l2]. specialize (IH _ _ eq_refl).
  destruct (_ && _); intros [= <- <-]; by constructor.
Qed.
Lemma window_insert_perm x l : window_insert x l ≡ₚ reply_new x :: l.
Proof.
  unfold window_insert. rewrite <-Permutation_middle. by rewrite take_drop.
Qed.
Lemma window_reply_xids x b sz l : r_xid <$> window_reply x b sz l = r_xid <$> l.
Proof.
  induction l as [|e l IH]; [done|]. cbn [window_reply].
  destruct (Z.eqb_spec (r_xid e) x); rewrite !fmap_cons; [by subst|by rewrite IH].
Qed.

(** Where nothing is erased the list stays as it is, and otherwise its last
    entry stays or is among the erased. *)
Lemma window_scan_id x r l o l' :
  window_scan x r l = (o, l') -> (forall e, e ∈ l -> r < r_xid e) -> l' = l.
Proof.
  revert o l'. induction l as [|e l IH]; intros o l' E Hl; simpl in E; [by simplify_eq|].
  destruct (r_xid e =? x); [by simplify_eq|].
  destruct (Z.leb_spec (r_xid e) r) as [Hle|_]; [specialize (Hl e ltac:(by left)); lia|].
  cbn [andb] in E. destruct (window_scan x r l) as [o2 l2]. simplify_eq.
  f_equal. eapply IH; [done|]. intros e' He'. apply Hl. by right.
Qed.
Lemma window_scan_last x r l l' e :
  window_scan x r l = (None, l') -> last l = Some e -> last l' = Some e \/ r_xid e <= r.
Proof.
  revert l'. induction l as [|e0 l IH]; intros l' E Hl; [done|]. simpl in E.
  destruct (r_xid e0 =? x); [done|]. destruct (window_scan x r l) as [o2 l2] eqn:E2.
  assert (o2 = None) as ->. { destruct (_ && _); by simplify_eq. }
  specialize (IH l2 eq_refl). destruct l as [|e1 l].
  { simplify_eq/=. destruct (Z.leb_spec (r_xid e) r); [by right|]. by simplify_eq/=; left. }
  rewrite last_cons_cons in Hl. specialize (IH Hl).
  destruct (_ && _); simplify_eq; [done|]. destruct IH as [IH|]; [left|by right].
  rewrite last_cons, IH. done.
Qed.
Lemma window_insert_last x l e : last l = Some e -> last (window_insert x l) = Some e.
Proof.
  intros Hl. unfold window_insert. set (n := Nat.pred _).
  assert (n < length l)%nat as Hn.
  { assert (first_smaller x l <= length l)%nat by (clear; induction l; simpl; [lia|case_match; lia]).
    destruct l; [done|]. unfold n. simpl in *. case_match; simpl; lia. }
  assert (last (drop n l) = Some e) as Hd.
  { rewrite <-(take_drop n l), last_app in Hl. destruct (last (drop n l)) eqn:E; [done|].
    apply last_None, (f_equal length) in E. rewrite length_drop in E. simpl in E. lia. }
  by rewrite last_app, last_cons, Hd.
Qed.

(** ** At-most-once execution

    The life of one client's window: requests arrive (in any order, any number
    of times, each with the [xid_rep] its header was packed with), and handlers
    finish.  [nw] lists the xids that were classified [NEW], i.e. executed, [an]
    the xids whose reply was recorded, and [fg] those that were answered
    [FORGOTTEN]. *)

Section at_most_once.
(** The acknowledgement in the header of request [x]: [call1] packs it once,
    so all copies of [x] carry it. *)
Variable rep : Z -> Z.

Inductive window_run : list reply_t -> list Z -> list Z -> list Z -> Prop :=
  | run_init : window_run [] [] [] []
  | run_request w nw an fg x st e w' :
      window_run w nw an fg ->
      1 <= x -> rep x < x ->
      (* the client has seen a reply to everything it acknowledges *)
      (forall y, 1 <= y <= rep x -> y ∈ an \/ y ∈ fg) ->
      check_window x (rep x) w = (st, e, w') ->
      window_run w' (if decide (st = NEW) then x :: nw else nw) an
        (if decide (st = FORGOTTEN) then x :: fg else fg)
  | run_reply w nw an fg x b sz :
      window_run w nw an fg -> x ∈ nw ->
      window_run (window_reply x b sz w) nw (x :: an) fg.

(** Everything up to the floor [F] is answered and not in the window; everything
    executed above it is still there.  What was answered [FORGOTTEN] is below
    the last entry and stays so. *)
Record window_inv (F : Z) (w : list reply_t) (nw an fg : list Z) : Prop := {
  inv_an : forall x, x ∈ an -> x ∈ nw;
  inv_pos : forall x, x ∈ nw -> 1 <= x /\ rep x <= F;
  inv_above : forall e, e ∈ w -> F < r_xid e /\ r_xid e ∈ nw;
  inv_present : forall e, e ∈ w -> r_xid e ∈ an -> r_cb_present e = true;
  inv_kept : forall x, x ∈ nw -> x <= F \/ exists e, e ∈ w /\ r_xid e = x;
  inv_floor : forall y, 1 <= y <= F -> y ∈ an \/ y ∈ fg;
  inv_fg : forall x, x ∈ fg ->
    (forall e, e ∈ w -> r_xid e <> x) /\ exists e, last w = Some e /\ x < r_xid e;
  inv_fg_nw : forall x, x ∈ fg -> x ∈ nw -> x <= F;
  inv_nonempty : nw <> [] -> w <> [];
  inv_nodup : NoDup nw;
  inv_wnodup : NoDup (r_xid <$> w);
}.

Section request.
Context (F : Z) (w : list reply_t) (nw an fg : list Z).
Hypothesis Hinv : window_inv F w nw an fg.
Context (x : Z).
Hypothesis (Hx : 1 <= x) (Hrep : rep x < x).
Hypothesis Hacks : forall y, 1 <= y <= rep x -> y ∈ an \/ y ∈ fg.

(** A duplicate that is still in the window: nothing is erased. *)
Lemma request_found e w' : window_scan x (rep x) w = (Some e, w') -> w' = w.
Proof.
  intros E. destruct (window_scan_spec _ _ _ _ _ E) as (_ & _ & He & <-).
  apply (window_scan_id _ _ _ _ _ E). intros e' He'.
  destruct (inv_above _ _ _ _ _ Hinv e' He') as [? _], (inv_above _ _ _ _ _ Hinv e He) as [_ Hnw].
  apply (inv_pos _ _ _ _ _ Hinv) in Hnw. lia.
Qed.

(** A request without an entry: what survives is above the new floor. *)
Lemma request_purged w' :
  window_scan x (rep x) w = (None, w') ->
  (forall e, e ∈ w' -> Z.max F (rep x) < r_xid e) /\
  (forall e, e ∈ w' -> e ∈ w) /\
  (forall e, e ∈ w -> r_xid e <> x) /\
  (forall e, e ∈ w -> e ∈ w' \/ r_xid e <= rep x) /\
  NoDup (r_xid <$> w').
Proof.
  intros E. destruct (window_scan_spec _ _ _ _ _ E) as (Hsub & Hkeep & Hno & Hpres).
  split_and!; [|done|done| |].
  - intros e He. destruct (inv_above _ _ _ _ _ Hinv e (Hsub e He)) as [? Hnw].
    destruct (Z.le_gt_cases (r_xid e) (rep x)) as [Hle|?]; [|lia].
    apply (inv_pos _ _ _ _ _ Hinv) in Hnw.
    destruct (Hacks (r_xid e)) as [Han|Hfg]; [lia| |].
    + apply (inv_present _ _ _ _ _ Hinv e (Hsub e He)) in Han.
      rewrite (Hpres e He Hle) in Han. done.
    + destruct (inv_fg _ _ _ _ _ Hinv _ Hfg) as [Hn _]. by destruct (Hn e (Hsub e He)).
  - intros e He. destruct (Hkeep e He); naive_solver.
  - eapply sublist_NoDup; [exact (inv_wnodup _ _ _ _ _ Hinv)|].
    by apply fmap_sublist, (window_scan_sublist _ _ _ _ _ E).
Qed.

(** What was answered [FORGOTTEN] stays below the last entry, also of a window
    that has been purged and then given the new entry. *)
Lemma purged_fg w' x' :
  window_scan x (rep x) w = (None, w') -> x' ∈ fg ->
  (forall e, last w' = Some e -> x' < r_xid e) /\ (w' = [] -> x' < rep x).
Proof.
  intros E Hfg. destruct (request_purged w' E) as (Habove & _).
  destruct (inv_fg _ _ _ _ _ Hinv x' Hfg) as (_ & e & Hl & Hlt).
  destruct (window_scan_last _ _ _ _ _ E Hl) as [Hl'|Hle].
  - rewrite Hl'. split; [by intros ? [= <-]|by intros ->].
  - split; [|lia]. intros e' He'%last_Some_elem_of%Habove. lia.
Qed.
(** An executed or forgotten request without an entry is answered
    [FORGOTTEN]. *)
Lemma request_old_forgotten w' :
  window_scan x (rep x) w = (None, w') -> x ∈ nw \/ x ∈ fg ->
  exists e, last w' = Some e /\ x < r_xid e.
Proof.
  intros E Hold. destruct (request_purged w' E) as (Habove & _ & Hno & Hkeep & _).
  destruct Hold as [Hnw|Hfg].
  - destruct (inv_kept _ _ _ _ _ Hinv x Hnw) as [Hle|(e & He & ?)]; [|naive_solver].
    assert (w' <> []) as Hne.
    { assert (w <> []) as Hw.
      { apply (inv_nonempty _ _ _ _ _ Hinv). intros ->. by apply elem_of_nil in Hnw. }
      destruct w as [|e0 w0]; [done|].
      destruct (inv_above _ _ _ _ _ Hinv e0) as [? _]; [by left|].
      destruct (Hkeep e0) as [Hin|?]; [by left| |lia].
      intros ->. by apply elem_of_nil in Hin. }
    destruct (last w') as [e|] eqn:El; [|by apply last_None in El].
    exists e. split; [done|].
    assert (e ∈ w') as Hin%Habove by (by apply last_Some_elem_of). lia.
  - destruct (purged_fg w' x E Hfg) as [Hl Hn].
    destruct (last w') as [e|] eqn:El; [by eauto|]. apply last_None in El. specialize (Hn El). lia.
Qed.

(** What [check_window] can do with a request. *)
Lemma request_cases st e w' :
  check_window x (rep x) w = (st, e, w') ->
  (exists e0, e = Some e0 /\ e0 ∈ w /\ r_xid e0 = x /\ w' = w /\
     st = if r_cb_present e0 then DONE else INPROGRESS) \/
  (exists w1, window_scan x (rep x) w = (None, w1) /\ e = None /\
     ((st = FORGOTTEN /\ w' = w1 /\ exists e1, last w1 = Some e1 /\ x < r_xid e1) \/
      (st = NEW /\ w' = window_insert x w1 /\ x ∉ nw /\ x ∉ fg))).
Proof.
  unfold check_window. destruct (window_scan x (rep x) w) as [[e0|] w1] eqn:E.
  { intros [= <- <- <-]. left. exists e0.
    destruct (window_scan_spec _ _ _ _ _ E) as (_ & _ & He & Hex).
    rewrite (request_found e0 w1 E). by split_and!. }
  pose proof (request_old_forgotten w1 E) as Hforg. intros Hcheck. right. exists w1.
  destruct (last w1) as [el|] eqn:El.
  - destruct (Z.ltb_spec x (r_xid el)); simplify_eq; split_and!; try done; [left; eauto|right].
    split_and!; try done; intros Hin; destruct Hforg as (? & [= <-] & ?); eauto; lia.
  - simplify_eq. split_and!; try done. right.
    split_and!; try done; intros Hin; destruct Hforg as (? & ? & ?); eauto; done.
Qed.

(** What purging the window leaves, above its new floor. *)
Lemma request_kept w1 :
  window_scan x (rep x) w = (None, w1) ->
  (forall y, 1 <= y <= Z.max F (rep x) -> y ∈ an \/ y ∈ fg) /\
  (forall x', x' ∈ nw -> x' <= Z.max F (rep x) \/ exists e, e ∈ w1 /\ r_xid e = x') /\
  (forall x', x' ∈ fg -> x' ∈ nw -> x' <= Z.max F (rep x)) /\
  (forall x', x' ∈ fg -> forall e, e ∈ w1 -> r_xid e <> x').
Proof.
  intros E. destruct (request_purged w1 E) as (_ & Hsub & _ & Hkeep & _). split_and!.
  - intros y Hy. destruct (decide (y <= F)).
    + apply (inv_floor _ _ _ _ _ Hinv). lia.
    + apply Hacks. lia.
  - intros x' Hx'. destruct (inv_kept _ _ _ _ _ Hinv x' Hx') as [?|(e1 & He1 & <-)];
      [left; lia|]. destruct (Hkeep e1 He1); [right; eauto|left; lia].
  - intros x' H1 H2. pose proof (inv_fg_nw _ _ _ _ _ Hinv x' H1 H2). lia.
  - intros x' H1 e1 He1. apply (inv_fg _ _ _ _ _ Hinv x' H1). by apply Hsub.
Qed.
Lemma request_forgotten_inv w1 e1 :
  window_scan x (rep x) w = (None, w1) -> last w1 = Some e1 -> x < r_xid e1 ->
  window_inv (Z.max F (rep x)) w1 nw an (x :: fg) /\ (x ∈ nw -> x <= Z.max F (rep x)).
Proof.
  intros E Hl1 Hlt. destruct (request_purged w1 E) as (Habove & Hsub & Hno & Hkeep & Hnd).
  destruct (request_kept w1 E) as (Hfloor & Hkept & Hfn & Hfw).
  assert (x ∈ nw -> x <= Z.max F (rep x)) as Hxn.
  { intros Hnw. destruct (Hkept x Hnw) as [?|(e2 & He2 & ?)]; [done|]. by destruct (Hno e2 (Hsub e2 He2)). }
  split; [|done]. pose proof (fun x' => purged_fg w1 x' E) as Hpf. destruct Hinv.
  constructor; try done.
  - intros x' Hx'. destruct (inv_pos0 x' Hx'). lia.
  - intros e' He'. split; [by apply Habove|]. by apply inv_above0, Hsub.
  - intros e' He'. by apply inv_present0, Hsub.
  - intros y Hy. destruct (Hfloor y Hy); [by left|right; by right].
  - intros x' [->|Hx']%elem_of_cons; [split; [|by eauto]; intros e' He'; by apply Hno, Hsub|].
    split; [by apply Hfw|]. exists e1. split; [done|]. by apply (Hpf x' Hx').
  - intros x' [->|Hx']%elem_of_cons; [done|by apply Hfn].
  - intros _ ->. done.
Qed.
Lemma request_new_inv w1 :
  window_scan x (rep x) w = (None, w1) -> x ∉ nw -> x ∉ fg ->
  window_inv (Z.max F (rep x)) (window_insert x w1) (x :: nw) an fg.
Proof.
  intros E Hnew Hnf. destruct (request_purged w1 E) as (Habove & Hsub & Hno & Hkeep & Hnd).
  destruct (request_kept w1 E) as (Hfloor & Hkept & Hfn & Hfw).
  assert (Z.max F (rep x) < x) as Hxf.
  { destruct (decide (x <= F)); [|lia]. exfalso.
    destruct (inv_floor _ _ _ _ _ Hinv x) as [Ha|?]; [lia| |done].
    by apply Hnew, (inv_an _ _ _ _ _ Hinv). }
  pose proof (fun x' => purged_fg w1 x' E) as Hpf. destruct Hinv.
  constructor.
  - set_solver.
  - intros x' [->|?]%elem_of_cons; [lia|]. destruct (inv_pos0 x'); [done|lia].
  - intros e' [->|Hin]%window_insert_elem; [split; [done|by left]|].
    split; [by apply Habove|]. right. by apply inv_above0, Hsub.
  - intros e' [->|Hin]%window_insert_elem; [|naive_solver].
    intros Han. by apply inv_an0 in Han.
  - intros x' [->|Hx']%elem_of_cons.
    + right. exists (reply_new x). split; [|done]. apply window_insert_elem. by left.
    + destruct (Hkept x' Hx') as [?|(e1 & ? & ?)]; [by left|right].
      exists e1. split; [|done]. apply window_insert_elem. by right.
  - done.
  - intros x' Hx'. split.
    { intros e' [->|Hin]%window_insert_elem; [|by apply Hfw]. intros <-. done. }
    destruct (Hpf x' Hx') as [Hl Hn]. destruct (last w1) as [e1|] eqn:El.
    + exists e1. split; [by apply window_insert_last|by apply Hl].
    + apply last_None in El as ->. exists (reply_new x). split; [done|]. simpl.
      specialize (Hn eq_refl). lia.
  - intros x' Hx' [->|Hn]%elem_of_cons; [done|by apply Hfn].
  - intros _ Hnil. pose proof (window_insert_perm x w1) as Hp.
    rewrite Hnil in Hp. by apply Permutation_nil_cons in Hp.
  - by constructor.
  - rewrite window_insert_perm. simpl. constructor; [|done].
    intros (e' & He' & Hin)%list_elem_of_fmap. apply (Hno e'); auto.
Qed.

Lemma request_step st e w' :
  check_window x (rep x) w = (st, e, w') ->
  exists F', F <= F' <= Z.max F (rep x) /\
    window_inv F' w' (if decide (st = NEW) then x :: nw else nw) an
      (if decide (st = FORGOTTEN) then x :: fg else fg) /\
    (st = NEW -> x ∉ nw /\ x ∉ fg) /\
    (st = FORGOTTEN -> x ∈ nw -> x <= F').
Proof.
  intros Hc. destruct (request_cases st e w' Hc) as [(e0 & -> & He & <- & -> & Est)|(w1 & E & -> & Hcase)].
  { exists F. rewrite !decide_False by (subst; by destruct (r_cb_present e0)).
    split_and!; [lia|lia|done|..]; subst; by destruct (r_cb_present e0). }
  exists (Z.max F (rep x)). split; [lia|].
  destruct Hcase as [(-> & -> & e1 & Hl1 & Hlt)|(-> & -> & Hnew & Hnf)]; simpl.
  - by destruct (request_forgotten_inv w1 e1 E Hl1 Hlt).
  - split_and!; [by apply request_new_inv|done|done].
Qed.
End request.

Lemma window_reply_last x b sz l e :
  last l = Some e -> exists e', last (window_reply x b sz l) = Some e' /\ r_xid e' = r_xid e.
Proof.
  revert e. induction l as [|e0 l IH]; intros e Hl; [done|]. cbn [window_reply].
  rewrite last_cons in Hl. destruct (Z.eqb_spec (r_xid e0) x) as [Hx|]; rewrite last_cons.
  - destruct (last l) as [e1|]; simplify_eq; [by eauto|]. eexists. by split.
  - destruct (last l) as [e1|] eqn:El; simplify_eq.
    + destruct (IH e eq_refl) as (e' & -> & ?). eauto.
    + apply last_None in El as ->. simpl. eauto.
Qed.
Lemma reply_step F w nw an fg x b sz :
  window_inv F w nw an fg -> x ∈ nw ->
  window_inv F (window_reply x b sz w) nw (x :: an) fg.
Proof.
  intros [] Hx. constructor; try done.
  - set_solver.
  - intros e [Hin|(-> & e0 & Hin & <-)]%window_reply_elem; [naive_solver|].
    simpl. naive_solver.
  - intros e Hin Han. destruct (decide (r_xid e = x)) as [Hex|Hne].
    + apply (window_reply_present x b sz w); done.
    + apply elem_of_cons in Han as [?|Han]; [done|].
      apply window_reply_elem in Hin as [Hin|(-> & _)]; [|done]. naive_solver.
  - intros x' Hx'. destruct (inv_kept0 x' Hx') as [?|(e & He & <-)]; [by left|right].
    by apply window_reply_keeps.
  - intros y Hy. destruct (inv_floor0 y Hy); [left; by right|by right].
  - intros x' Hx'. destruct (inv_fg0 x' Hx') as (Hno & e & Hl & Hlt). split.
    + intros e' [Hin|(-> & e0 & Hin & <-)]%window_reply_elem; simpl; by apply Hno.
    + destruct (window_reply_last x b sz w e Hl) as (e' & He' & E). exists e'. split; [done|lia].
  - intros Hne Hnil. apply inv_nonempty0; [done|].
    apply (f_equal (fmap r_xid)) in Hnil. rewrite window_reply_xids in Hnil.
    by apply fmap_nil_inv in Hnil.
  - by rewrite window_reply_xids.
Qed.
Lemma window_inv_init : window_inv 0 [] [] [] [].
Proof. constructor; try set_solver; try lia; constructor. Qed.

Lemma window_run_inv w nw an fg :
  window_run w nw an fg -> exists F, window_inv F w nw an fg.
Proof.
  induction 1 as [|w nw an fg x st e w' _ [F IH] Hx Hr Ha Hc|w nw an fg x b sz _ [F IH] Hx].
  - exists 0. apply window_inv_init.
  - destruct (request_step F w nw an fg IH x Hx Hr Ha st e w' Hc) as (F' & _ & Hi & _). eauto.
  - exists F. by apply reply_step.
Qed.
End at_most_once.

(** ** The replies of [dispatch] *)

Lemma window_scan_reply x r b sz l :
  x ∈ r_xid <$> l ->
  exists l', window_scan x r (window_reply x b sz l) = (Some (Reply x true b sz), l').
Proof.
  induction l as [|e l IH]; [by intros ?%elem_of_nil|].
  rewrite fmap_cons, elem_of_cons. cbn [window_reply]. intros Hin.
  destruct (Z.eqb_spec (r_xid e) x) as [Heq|Hne]; cbn [window_scan r_xid].
  { rewrite Z.eqb_refl. eauto. }
  destruct (Z.eqb_spec (r_xid e) x) as [|_]; [done|].
  destruct IH as [l' ->]; [naive_solver|]. destruct (_ && _); eauto.
Qed.

Lemma check_window_new x r l e l' :
  check_window x r l = (NEW, e, l') -> x ∈ r_xid <$> l'.
Proof.
  unfold check_window. destruct (window_scan x r l) as [[e0|] l0].
  { by destruct (r_cb_present e0). }
  assert (x ∈ r_xid <$> window_insert x l0) as Hin.
  { rewrite (window_insert_perm x l0). by left. }
  destruct (last l0); [|by intros [= _ <-]]. case_match; by intros [= _ <-].
Qed.

Section dispatch_lemmas.
Context `{FreshMem} {S : Type}.
Variables (create_time : Z -> Z * Z) (isdead : Z -> bool).
Implicit Types st : rpcs S.

(** [save_conn] and the duplicate check change neither the handlers, the
    nonce, nor the objects behind the handlers. *)
Definition same_service st st' : Prop :=
  nonce_ st' = nonce_ st /\ procs_ st' = procs_ st /\ app_ st' = app_ st /\
  counting_ st' = counting_ st.

Lemma save_conn_service clt c st :
  same_service st (save_conn create_time clt c st) /\
  reply_window_ (save_conn create_time clt c st) = reply_window_ st.
Proof. unfold save_conn, same_service. by repeat case_match. Qed.

Lemma classify_service h c st stat e st' :
  classify create_time h c st = (stat, e, st') -> same_service st st'.
Proof.
  unfold classify. case_match; [by intros [= _ _ <-]|].
  set (st0 := set_window st _).
  destruct (save_conn_service (rq_clt_nonce h) c st0) as [Hs _].
  destruct (checkduplicate_and_update _ _ _ _) as [[? ?] w]. intros [= _ _ <-].
  exact Hs.
Qed.

(** The verdict is that of the client's own window. *)
Lemma classify_window h c st :
  rq_clt_nonce h <> 0 ->
  let '(stat, e, st') := classify create_time h c st in
  check_window (u32 (rq_xid h)) (u32 (rq_xid_rep h))
    (std_ref [] (reply_window_ st) (rq_clt_nonce h))
  = (stat, e, std_ref [] (reply_window_ st') (rq_clt_nonce h)).
Proof.
  intros Hc. unfold classify. destruct (Z.eqb_spec (rq_clt_nonce h) 0); [done|].
  set (st0 := set_window st _).
  destruct (save_conn_service (rq_clt_nonce h) c st0) as [_ ->].
  unfold checkduplicate_and_update, st0, set_window, std_touch.
  cbn [reply_window_]. rewrite std_ref_insert_eq.
  destruct (check_window _ _ _) as [[stat e] l]. cbn [reply_window_].
  by rewrite std_ref_insert_eq.
Qed.

(** What [dispatch] does with a request for a procedure it knows.  The first
    four bytes, where the connection puts the length, are not looked at. *)
Lemma dispatch_check_known c req h b st f :
  marshall_wf req -> m_ind req < 2 ^ 31 -> valid_req_header h ->
  length b = length (pdu (pack_req_header req h)) ->
  drop 4 b = drop 4 (pdu (pack_req_header req h)) ->
  rq_srv_nonce h = 0 \/ rq_srv_nonce h = nonce_ st ->
  procs_ st !! rq_proc h = Some f ->
  exists u, unmarshall_wf u /\ u_ok u = true /\ remaining u = m_str req /\
  dispatch_check create_time c b (m_ind req) st =
    match classify create_time h c st with
    | (NEW, _, st) => Ret (inr (f, h, u), st)
    | (INPROGRESS, _, st) => Ret (inl [], decref c st)
    | (DONE, Some e, st) =>
        Ret (inl [(c, take (Z.to_nat (r_sz e)) (r_buf e))], decref c st)
    | (DONE, None, st) => UB
    | (FORGOTTEN, _, st) =>
        Ret (inl [(c, pdu (pack_reply_header marshall_new
               (ReplyHeader (rq_xid h) rpc_const.atmostonce_failure)))], decref c st)
    end.
Proof.
  intros Hm Hb Hh Hlen Hdrop Hn Hf. pose proof (req_header_framed req h b Hm Hb Hh Hlen Hdrop) as Hrt.
  unfold dispatch_check. cbv zeta in *. destruct (unpack_req_header _) as [h' u].
  destruct Hrt as (-> & Hok & Hwf & Hr). exists u. split_and!; try done.
  rewrite Hok, Hf. cbn [negb].
  assert (negb (rq_srv_nonce h =? 0) && negb (rq_srv_nonce h =? nonce_ st) = false)
    as ->; [|done].
  destruct Hn as [->| ->]; [done|]. rewrite Z.eqb_refl. by rewrite andb_false_r.
Qed.
Lemma dispatch_known c req h st f :
  marshall_wf req -> m_ind req < 2 ^ 31 -> valid_req_header h ->
  rq_srv_nonce h = 0 \/ rq_srv_nonce h = nonce_ st ->
  procs_ st !! rq_proc h = Some f ->
  exists u, unmarshall_wf u /\ u_ok u = true /\ remaining u = m_str req /\
  dispatch create_time isdead c (pdu (pack_req_header req h)) (m_ind req) st =
    match classify create_time h c st with
    | (NEW, _, st) => run_new isdead f h c u st
    | (INPROGRESS, _, st) => Ret (decref c st, [])
    | (DONE, Some e, st) =>
        Ret (decref c st, [(c, take (Z.to_nat (r_sz e)) (r_buf e))])
    | (DONE, None, st) => UB
    | (FORGOTTEN, _, st) =>
        Ret (decref c st, [(c, pdu (pack_reply_header marshall_new
               (ReplyHeader (rq_xid h) rpc_const.atmostonce_failure)))])
    end.
Proof.
  intros Hm Hb Hh Hn Hf.
  destruct (dispatch_check_known c req h _ st f Hm Hb Hh eq_refl eq_refl Hn Hf)
    as (u & Hwf & Hok & Hr & E). exists u. split_and!; try done. unfold dispatch. rewrite E.
  by destruct (classify create_time h c st) as [[[] [e|]] st'].
Qed.
End dispatch_lemmas.

(** ** Properties *)

(** At most once: whatever the order, the number of copies and the
    interleaving with finishing handlers, no request of a client whose
    acknowledgements are truthful (and who does not acknowledge a request in
    that request's own header) is classified [NEW], i.e. executed, twice. *)
Theorem at_most_once (rep : Z -> Z) w nw an fg :
  window_run rep w nw an fg ->
  NoDup nw /\ forall x st e w', 1 <= x -> rep x < x ->
    (forall y, 1 <= y <= rep x -> y ∈ an \/ y ∈ fg) ->
    check_window x (rep x) w = (st, e, w') -> st = NEW -> x ∉ nw /\ x ∉ fg.
Proof.
  intros [F Hinv]%window_run_inv. split; [by destruct Hinv|]. intros x st e w' Hx Hr Ha Hc.
  by destruct (request_step rep F w nw an fg Hinv x Hx Hr Ha st e w' Hc) as (_ & _ & _ & ? & _).
Qed.

(** Two requests executed and answered, with a copy of the first replayed, then
    the third, which acknowledges both, and a late copy of the second. *)
Definition sample_rep (x : Z) : Z := if x =? 3 then 2 else 0.
Definition sample_window : list reply_t :=
  let w := (check_window 2 0 (check_window 1 0 []).2).2 in
  let w := (check_window 1 0 (window_reply 1 [] 0 w)).2 in
  (check_window 2 0 (check_window 3 2 (window_reply 2 [] 0 w)).2).2.
Lemma sample_run : window_run sample_rep sample_window [3; 2; 1] [2; 1] [2].
Proof.
  assert (Hno : forall x, sample_rep x = 0 ->
            forall (an fg : list Z) y, 1 <= y <= sample_rep x -> y ∈ an \/ y ∈ fg)
    by (intros x -> ? ? y ?; lia).
  pose proof (run_init sample_rep) as R.
  apply (run_request _ _ _ _ _ 1 NEW None [reply_new 1]) in R; [|lia|done|by apply Hno|done].
  apply (run_request _ _ _ _ _ 2 NEW None [reply_new 2; reply_new 1]) in R;
    [|lia|done|by apply Hno|done].
  apply (run_reply _ _ _ _ _ 1 [] 0) in R; [|by apply (bool_decide_unpack _)].
  apply (run_request _ _ _ _ _ 1 DONE (Some (Reply 1 true [] 0))
           [reply_new 2; Reply 1 true [] 0]) in R; [|lia|done|by apply Hno|done].
  apply (run_reply _ _ _ _ _ 2 [] 0) in R; [|by apply (bool_decide_unpack _)].
  apply (run_request _ _ _ _ _ 3 NEW None [reply_new 3]) in R; [|lia|done| |done].
  2: { intros y Hy. change (sample_rep 3) with 2 in Hy. left.
       assert (y = 1 \/ y = 2) as [-> | ->] by lia; by apply (bool_decide_unpack _). }
  by apply (run_request _ _ _ _ _ 2 FORGOTTEN None [reply_new 3]) in R;
    [|lia|done|by apply Hno|done].
Qed.
Lemma at_most_once_witness :
  NoDup [3; 2; 1] /\
  forall st e w', check_window 2 (sample_rep 2) sample_window = (st, e, w') ->
    st = NEW -> 2 ∉ [3; 2; 1].
Proof.
  destruct (at_most_once sample_rep _ _ _ _ sample_run) as [Hnd Hnew].
  split; [exact Hnd|]. intros st e w' Hc Hst.
  apply (Hnew 2 st e w'); [lia|vm_compute; reflexivity| |exact Hc|exact Hst].
  change (sample_rep 2) with 0. intros y Hy. lia.
Defined.

Section exactly_once.
Context `{FreshMem} {S : Type}.
Variables (create_time : Z -> Z * Z) (isdead : Z -> bool).

(** A handler changes only the objects behind it and the statistics; its reply
    carries the xid of the request. *)
Lemma run_handler_service f h u (st st' : rpcs S) b sz :
  run_handler f h u st = Ret (b, sz, st') ->
  nonce_ st' = nonce_ st /\ procs_ st' = procs_ st /\ reply_window_ st' = reply_window_ st /\
  exists ret rep, f u marshall_new (app_ st) = Ret (ret, rep, app_ st') /\ 0 <= ret /\
    (b, sz) = m_take_buf (pack_reply_header rep (ReplyHeader (rq_xid h) ret)).
Proof.
  unfold run_handler. intros E.
  set (st0 := if counting_ st =? 0 then st else updatestat (rq_proc h) st) in *.
  assert (procs_ st0 = procs_ st /\ nonce_ st0 = nonce_ st /\
          reply_window_ st0 = reply_window_ st /\ app_ st0 = app_ st) as (Hp & Hn & Hw & Ha).
  { unfold st0, updatestat, set_counts. by repeat case_match. }
  apply bind_Ret_inv in E as ([[ret rep] s] & Ef & E).
  apply bind_Ret_inv in E as (? & _ & E). apply bind_Ret_inv in E as (? & Hret%VERIFY_Ret & E).
  destruct (m_take_buf _) as [b1 sz1] eqn:Eb. injection E as <- <- <-. cbn.
  split_and!; [done..|]. exists ret, rep. rewrite <-Ha, Eb. split_and!; try done. lia.
Qed.

(** The state and the reply of a first execution: what [run_new] leaves in
    the window is what it sends. *)
Lemma run_new_reply f h c u (st st' : rpcs S) out :
  run_new isdead f h c u st = Ret (st', out) -> 0 < rq_clt_nonce h ->
  exists b sz c1,
    out = [(c1, take (Z.to_nat sz) b)] /\ procs_ st' = procs_ st /\
    nonce_ st' = nonce_ st /\
    std_ref [] (reply_window_ st') (rq_clt_nonce h) =
      window_reply (u32 (rq_xid h)) b sz
        (std_ref [] (reply_window_ st) (rq_clt_nonce h)).
Proof.
  intros Hrun Hclt. unfold run_new in Hrun.
  apply bind_Ret_inv in Hrun as ([[b1 sz1] st0] & E & Hrun).
  destruct (run_handler_service _ _ _ _ _ _ _ E) as (Hn & Hp & Hw & _).
  unfold run_send in Hrun. destruct (Z.ltb_spec 0 (rq_clt_nonce h)); [|lia].
  apply bind_Ret_inv in Hrun as ([c1 st1] & E1 & [= <- <-]).
  exists b1, sz1, c1. rewrite <-Hw, <-Hp, <-Hn.
  split; [done|].
  repeat case_match; simplify_eq; cbn [procs_ nonce_ reply_window_ set_window
    set_app set_refs decref incref]; unfold add_reply; by rewrite std_ref_insert_eq.
Qed.

(** Exactly-once as seen by the caller: a request that has been executed
    and is then received again (on any connection) is answered with the
    very bytes of the first reply; the handler does not run again, so the
    objects behind the handlers are unchanged. *)
Theorem dispatch_duplicate c c' req h f (st : rpcs S) st1 out :
  marshall_wf req -> m_ind req < 2 ^ 31 -> valid_req_header h ->
  rq_srv_nonce h = 0 \/ rq_srv_nonce h = nonce_ st ->
  procs_ st !! rq_proc h = Some f -> 0 < rq_clt_nonce h ->
  (classify create_time h c st).1.1 = NEW ->
  dispatch create_time isdead c (pdu (pack_req_header req h)) (m_ind req) st
    = Ret (st1, out) ->
  exists st2,
    dispatch create_time isdead c' (pdu (pack_req_header req h)) (m_ind req) st1
      = Ret (st2, [(c', out.*2 !!! 0%nat)]) /\
    app_ st2 = app_ st1.
Proof.
  intros Hm Hb Hh Hn Hf Hclt Hnew Hd.
  destruct (dispatch_known create_time isdead c req h st f) as (u & _ & _ & _ & E); try done.
  rewrite E in Hd. clear E.
  pose proof (classify_window create_time h c st) as Hcw.
  destruct (classify create_time h c st) as [[stat e] st0] eqn:Ecl.
  cbn in Hnew. subst stat. specialize (Hcw ltac:(lia)). cbn iota in Hcw.
  apply check_window_new in Hcw.
  destruct (classify_service _ _ _ _ _ _ _ Ecl) as (Hn0 & Hp0 & _).
  destruct (run_new_reply _ _ _ _ _ _ _ Hd Hclt) as (b & sz & c1 & -> & Hp1 & Hn1 & Hw).
  destruct (dispatch_known create_time isdead c' req h st1 f) as (u' & _ & _ & _ & ->);
    [done..| | |].
  { by rewrite Hn1, Hn0. } { by rewrite Hp1, Hp0. }
  pose proof (classify_window create_time h c' st1) as Hcw'.
  destruct (classify create_time h c' st1) as [[stat' e'] st2] eqn:Ecl'.
  specialize (Hcw' ltac:(lia)). cbn iota in Hcw'. rewrite Hw in Hcw'.
  unfold check_window in Hcw'.
  destruct (window_scan_reply (u32 (rq_xid h)) (u32 (rq_xid_rep h)) b sz _ Hcw)
    as [l' Hsc].
  rewrite Hsc in Hcw'. cbn [r_cb_present] in Hcw'. simplify_eq.
  eexists. split; [reflexivity|].
  destruct (classify_service _ _ _ _ _ _ _ Ecl') as (_ & _ & Ha & _). exact Ha.
Qed.

(** A request that was never received can be answered [FORGOTTEN]: when
    request 2 of a client overtakes request 1, the window holds 2 only, and
    request 1 fails with [atmostonce_failure] without ever being executed. *)
Theorem overtaken_request_forgotten x y :
  0 <= x < y ->
  (check_window x 0 (check_window y 0 []).2).1 = (FORGOTTEN, None).
Proof.
  intros Hxy. unfold check_window at 2. cbn. unfold check_window. cbn.
  destruct (Z.eqb_spec y x); [lia|].
  destruct (Z.leb_spec y 0); [lia|]. cbn. destruct (Z.ltb_spec x y); [done|lia].
Qed.
End exactly_once.

Lemma overtaken_request_forgotten_witness :
  0 <= 1 < 2 /\ (check_window 1 0 (check_window 2 0 []).2).1 = (FORGOTTEN, None).
Proof. split; [lia|]. apply (overtaken_request_forgotten 1 2). lia. Defined.

#[local] Existing Instance fresh_zero.

(** A counter service: procedure 7 adds its argument to the counter. *)
Definition counter_srv : rpcs Z :=
  Rpcs 99 {[ 7 := rpcs_fn1 c_u32 c_i32 (fun a _ s => Ret (0, s + a, s + a)) ]}
    ∅ ∅ ∅ 0 0 ∅ 10.
Definition add5 : marshall := call_req1 c_u32 5.
Definition add5_header : req_header := ReqHeader 1 7 42 99 0.
Abbreviation add5_sent c st :=
  (dispatch (fun _ => (0, 0)) (fun _ => false) c
    (pdu (pack_req_header add5 add5_header)) (m_ind add5) st).
Definition result_state (o : outcome (rpcs Z * list (Z * str))) : rpcs Z :=
  match o with Ret (st, _) => st | _ => counter_srv end.
Definition result_out (o : outcome (rpcs Z * list (Z * str))) : list (Z * str) :=
  match o with Ret (_, out) => out | _ => [] end.
Lemma result_eq o :
  match o with Ret _ => true | _ => false end = true ->
  o = Ret (result_state o, result_out o).
Proof. by destruct o as [[]| | |]. Qed.
Lemma add5_executed :
  app_ (result_state (add5_sent 3 counter_srv)) = 15 /\
  length (result_out (add5_sent 3 counter_srv)) = 1%nat.
Proof. vm_compute. done. Qed.
Lemma dispatch_duplicate_witness :
  let st1 := result_state (add5_sent 3 counter_srv) in
  app_ st1 = 15 /\
  exists st2,
    add5_sent 4 st1
      = Ret (st2, [(4, (result_out (add5_sent 3 counter_srv)).*2 !!! 0%nat)]) /\
    app_ st2 = app_ st1.
Proof.
  split; [exact (proj1 add5_executed)|].
  refine (dispatch_duplicate (fun _ => (0, 0)) (fun _ => false) 3 4 add5 add5_header
    (rpcs_fn1 c_u32 c_i32 (fun a _ s => Ret (0, s + a, s + a)))
    counter_srv _ (result_out (add5_sent 3 counter_srv)) _ _ _ _ _ _ _ (result_eq _ _)).
  - eapply appended_wf, (put_ok c_u32), marshall_new_wf.
  - vm_compute. reflexivity.
  - repeat split; vm_compute; congruence.
  - right. reflexivity.
  - reflexivity.
  - reflexivity.
  - vm_compute. reflexivity.
  - vm_compute. reflexivity.
Defined.
