(* ===== verification/RpcClient.v ===== *)
(** * The RPC client: [rpcc]

    [rpc/rpc.cc]: the calls a client has outstanding, the window of reported
    xids whose front is the acknowledgement packed into every request
    ([update_xid_rep]), [call1] cut at its lock regions (begin, transmit,
    deadline, end), the upcall [got_pdu], [bind] and [cancel], and the
    [timespec] arithmetic of the retransmission loop. *)
From S2P Require Import Prelude Marshall Protocols RpcStub.

(** ** The window of reported xids *)

(** [insert] before the first larger element, or [push_back]. *)
Fixpoint xid_insert (xid : Z) (l : list Z) : list Z :=
  match l with
  | [] => [xid]
  | x :: l' => if xid <? x then xid :: l else x :: xid_insert xid l'
  end.

(** [while (front() + 1 == *it) pop_front()], where [pre] is the list up to
    the iterator and [x] is [*it]; it cannot pop [x] itself. *)
Fixpoint pop_before (x : Z) (pre : list Z) : list Z :=
  match pre with
  | [] => []
  | f :: pre' => if u32 (f + 1) =? x then pop_before x pre' else pre
  end.

(** The [compress] loop, with the iterator between [pre] and [post]. *)
Fixpoint compress (pre post : list Z) : list Z :=
  match post with
  | [] => pre
  | x :: post' => compress (pop_before x pre ++ [x]) post'
  end.

Definition update_xid_rep (xid : Z) (w : list Z) : list Z :=
  match w with
  | [] => w
  | f :: _ =>
      if xid <=? f then w
      else match xid_insert xid w with
           | f' :: w' => compress [f'] w'
           | [] => []
           end
  end.

(** ** The client object *)

Record caller := Caller { ca_xid : Z; ca_un : unmarshall; ca_intret : Z; ca_done : bool }.

(** [struct request]: the copy of an old request a lossy test resends. *)
Record request := Request { rqs_buf : str; rqs_xid : Z }.
Definition request_clear : request := Request [] (-1).
Definition isvalid (r : request) : bool := negb (rqs_xid r =? -1).

Record rpcc := Rpcc {
  clt_nonce_ : Z;
  srv_nonce_ : Z;
  bind_done_ : bool;
  xid_ : Z;
  lossytest_ : Z;
  reachable_ : bool;
  destroy_wait_ : bool;
  calls_ : gmap Z caller;
  xid_rep_window_ : list Z;
  dup_req_ : request;
  xid_rep_done_ : Z;
}.

(** The constructor; [nonce] is [random()], or 0 for a client that does not
    retransmit, [lossy] the value of [RPC_LOSSY]. *)
Definition rpcc_new (retrans : bool) (random lossy : Z) : rpcc :=
  Rpcc (if retrans then u32 random else 0) 0 false 1 lossy true false ∅ [0]
    request_clear (-1).

Definition set_calls (cl : rpcc) (m : gmap Z caller) : rpcc :=
  Rpcc (clt_nonce_ cl) (srv_nonce_ cl) (bind_done_ cl) (xid_ cl) (lossytest_ cl)
    (reachable_ cl) (destroy_wait_ cl) m (xid_rep_window_ cl) (dup_req_ cl)
    (xid_rep_done_ cl).
Definition set_rep_window (cl : rpcc) (w : list Z) : rpcc :=
  Rpcc (clt_nonce_ cl) (srv_nonce_ cl) (bind_done_ cl) (xid_ cl) (lossytest_ cl)
    (reachable_ cl) (destroy_wait_ cl) (calls_ cl) w (dup_req_ cl) (xid_rep_done_ cl).
Definition set_xid (cl : rpcc) (x : Z) : rpcc :=
  Rpcc (clt_nonce_ cl) (srv_nonce_ cl) (bind_done_ cl) x (lossytest_ cl)
    (reachable_ cl) (destroy_wait_ cl) (calls_ cl) (xid_rep_window_ cl) (dup_req_ cl)
    (xid_rep_done_ cl).
Definition set_dup (cl : rpcc) (r : request) (d : Z) : rpcc :=
  Rpcc (clt_nonce_ cl) (srv_nonce_ cl) (bind_done_ cl) (xid_ cl) (lossytest_ cl)
    (reachable_ cl) (destroy_wait_ cl) (calls_ cl) (xid_rep_window_ cl) r d.
Definition set_destroy (cl : rpcc) (b : bool) : rpcc :=
  Rpcc (clt_nonce_ cl) (srv_nonce_ cl) (bind_done_ cl) (xid_ cl) (lossytest_ cl)
    (reachable_ cl) b (calls_ cl) (xid_rep_window_ cl) (dup_req_ cl) (xid_rep_done_ cl).

(** [bind] after its [call] returned [ret] and the server's nonce [r]. *)
Definition bind_finish (ret r : Z) (cl : rpcc) : rpcc :=
  if ret =? 0 then
    Rpcc (clt_nonce_ cl) (u32 r) true (xid_ cl) (lossytest_ cl) (reachable_ cl)
      (destroy_wait_ cl) (calls_ cl) (xid_rep_window_ cl) (dup_req_ cl) (xid_rep_done_ cl)
  else cl.

(** [xid_rep_window_.front()] (undefined on an empty list). *)
Definition rep_front (cl : rpcc) : outcome Z :=
  match xid_rep_window_ cl with [] => UB | f :: _ => Ret f end.

(** The first lock region of [call1]: refuse, or register the call and pack the
    header.  The result is the error code, or the xid, the packed request and
    [xid_rep]. *)
Definition call1_begin `{FreshMem} (proc : Z) (req : marshall) (un : unmarshall) (cl : rpcc)
  : outcome ((Z + Z * marshall * Z) * rpcc) :=
  if (negb (proc =? rpc_const.bind) && negb (bind_done_ cl)) ||
     ((proc =? rpc_const.bind) && bind_done_ cl)
  then Ret (inl rpc_const.bind_failure, cl)
  else if destroy_wait_ cl then Ret (inl rpc_const.cancel_failure, cl)
  else
    let xid := xid_ cl in
    let cl := set_xid cl (u32 (xid + 1)) in
    let cl := set_calls cl (<[i32 xid := Caller xid un 0 false]> (calls_ cl)) in
    f ← rep_front cl;
    let h := ReqHeader (i32 xid) (i32 proc) (clt_nonce_ cl) (srv_nonce_ cl) (i32 f) in
    Ret (inr (xid, pack_req_header req h, i32 f), cl).

(** The transmission on a live channel: perhaps an old request first. *)
Definition call1_transmit (req : marshall) (cl : rpcc) : list str * rpcc :=
  if reachable_ cl then
    if isvalid (dup_req_ cl) && (rqs_xid (dup_req_ cl) <? xid_rep_done_ cl)
    then ([rqs_buf (dup_req_ cl); pdu req], set_dup cl request_clear (xid_rep_done_ cl))
    else ([pdu req], cl)
  else ([], cl).

(** The end of [call1]: the call is unregistered and reported, whether it was
    answered or timed out; a lossy client remembers one finished request.  The
    [caller] lives in [call1]'s frame and [calls_] points to it, so it is found
    there; the other branch is not reached while xids do not wrap. *)
Definition call1_end (xid : Z) (xid_rep : Z) (req : marshall) (cl : rpcc) : Z * rpcc :=
  match calls_ cl !! i32 xid with
  | None => (rpc_const.timeout_failure, cl)
  | Some ca =>
      let cl := set_calls cl (delete (i32 xid) (calls_ cl)) in
      let cl := set_rep_window cl (update_xid_rep xid (xid_rep_window_ cl)) in
      let cl :=
        if ca_done ca && negb (lossytest_ cl =? 0) then
          let d := if isvalid (dup_req_ cl) then dup_req_ cl
                   else Request (pdu req) (i32 xid) in
          set_dup cl d (Z.max xid_rep (xid_rep_done_ cl))
        else cl in
      (if ca_done ca then ca_intret ca else rpc_const.timeout_failure, cl)
  end.

(** [rpcc::got_pdu]. *)
Definition rpcc_got_pdu (b : str) (sz : Z) (cl : rpcc) : rpcc :=
  let '(h, rep) := unpack_reply_header (unmarshall_pdu b sz) in
  if negb (u_ok rep) then cl
  else
    let cl := set_rep_window cl (update_xid_rep (u32 (rp_xid h)) (xid_rep_window_ cl)) in
    match calls_ cl !! rp_xid h with
    | None => cl
    | Some ca =>
        if ca_done ca then cl
        else set_calls cl (<[rp_xid h := Caller (ca_xid ca) (take_in rep) (rp_ret h) true]>
                             (calls_ cl))
    end.

(** [rpcc::cancel] up to its wait: every outstanding call is made to fail. *)
Definition cancel (cl : rpcc) : rpcc :=
  let calls := (fun ca => Caller (ca_xid ca) (ca_un ca) rpc_const.cancel_failure true)
                 <$> calls_ cl in
  set_destroy (set_calls cl calls)
    (if decide (size calls = 0%nat) then destroy_wait_ cl else true).

(** ** Deadlines *)

Record timespec := Timespec { tv_sec : Z; tv_nsec : Z }.

Definition cmp_timespec (a b : timespec) : Z :=
  if tv_sec b <? tv_sec a then 1
  else if tv_sec a <? tv_sec b then -1
  else if tv_nsec b <? tv_nsec a then 1
  else if tv_nsec a <? tv_nsec b then -1 else 0.

(** The normalising loop; [b % 1000] is below a second, so two turns are enough
    for any [a] whose nanoseconds are below a second. *)
Fixpoint norm_nsec (fuel : nat) (t : timespec) : timespec :=
  match fuel with
  | O => t
  | S fuel =>
      if 1000000000 <? tv_nsec t
      then norm_nsec fuel (Timespec (tv_sec t + 1) (tv_nsec t - 1000000000)) else t
  end.
(** C++ division and remainder round towards zero. *)
Definition add_timespec (a : timespec) (b : Z) : outcome timespec :=
  let r := Timespec (tv_sec a + Z.quot b 1000) (tv_nsec a + Z.rem b 1000 * 1000000) in
  _ ← VERIFY (0 <=? tv_nsec r);
  Ret (norm_nsec (Z.to_nat (tv_nsec r / 1000000000)) r).

Definition diff_timespec (e s : timespec) : outcome Z :=
  let diff := if tv_sec s <? tv_sec e then i32 ((tv_sec e - tv_sec s) * 1000) else 0 in
  _ ← VERIFY (negb (diff =? 0) || (tv_sec e =? tv_sec s));
  if tv_nsec s <? tv_nsec e
  then Ret (diff + Z.quot (tv_nsec e - tv_nsec s) 1000000)
  else Ret (diff - Z.quot (tv_nsec s - tv_nsec e) 1000000).

(** One turn of the loop of [call1]: the next deadline and the final deadline
    that is left; [tv_sec = 0] marks the last turn. *)
Definition next_deadline (now : timespec) (curr_to : Z) (final : timespec)
  : outcome (timespec * timespec) :=
  next ← add_timespec now curr_to;
  if 0 <? cmp_timespec next final
  then Ret (final, Timespec 0 (tv_nsec final))
  else Ret (next, final).

(** ** The acknowledgement *)

(** [f] is the greatest number such that 1, ..., [f] are all in [xs]. *)
Definition contiguous (xs : list Z) (f : Z) : Prop :=
  0 <= f /\ (forall y, 1 <= y <= f -> y ∈ xs) /\ (f + 1) ∉ xs.

(** The window [f :: w] after the reports [xs]. *)
Record rep_inv (xs : list Z) (f : Z) (w : list Z) : Prop := {
  ri_sorted : StronglySorted Z.le (f :: w);
  ri_u32 : forall y, y ∈ f :: w -> is_u32 y;
  ri_from : forall y, y ∈ w -> y ∈ xs;
  ri_kept : forall y, y ∈ xs -> y <= f \/ y ∈ w;
  ri_all : forall y, 1 <= y <= f -> y ∈ xs;
}.

Lemma xid_insert_perm x l : xid_insert x l ≡ₚ x :: l.
Proof.
  induction l as [|y l IH]; [done|]. simpl. case_match; [done|].
  rewrite IH. by constructor.
Qed.
Lemma xid_insert_sorted x l :
  StronglySorted Z.le l -> StronglySorted Z.le (xid_insert x l).
Proof.
  induction l as [|y l IH]; intros Hs; simpl; [by repeat constructor|].
  inversion_clear Hs as [|? ? Hs' Hall]. destruct (Z.ltb_spec x y).
  - constructor; [by constructor|]. constructor; [lia|].
    eapply Forall_impl; [exact Hall|]. simpl. lia.
  - constructor; [by apply IH|]. rewrite xid_insert_perm. by constructor.
Qed.
Lemma xid_insert_head x f w :
  f < x -> exists w', xid_insert x (f :: w) = f :: w' /\ w' ≡ₚ x :: w.
Proof.
  intros Hx. exists (xid_insert x w). simpl. destruct (Z.ltb_spec x f); [lia|].
  split; [done|apply xid_insert_perm].
Qed.

(** Popping stops at the first element that [x] does not follow. *)
Lemma pop_before_split x pre :
  (forall y, y ∈ pre -> is_u32 y /\ y <= x) -> is_u32 x ->
  exists dropped, pre = dropped ++ pop_before x pre /\
    (forall y, y ∈ dropped -> y + 1 = x) /\
    (forall f l, pop_before x pre = f :: l -> f + 1 <> x).
Proof.
  intros Hpre Hx. induction pre as [|f pre IH]; simpl.
  { exists []. set_solver. }
  destruct (Hpre f) as [Hf Hle]; [by left|].
  destruct (Z.eqb_spec (u32 (f + 1)) x) as [Heq|Hne].
  - destruct IH as (d & Hd & Hall & Hend); [intros y Hy; apply Hpre; by right|].
    assert (f + 1 = x) by (destruct (decide (f = 4294967295)); width).
    exists (f :: d). simpl. rewrite <-Hd. split_and!; [done| |done].
    intros y [->|?]%elem_of_cons; [done|by apply Hall].
  - exists []. split_and!; [done|set_solver|].
    intros f' l [= <- <-] <-. apply Hne. width.
Qed.

Lemma StronglySorted_head f (l : list Z) y :
  StronglySorted Z.le (f :: l) -> y ∈ l -> f <= y.
Proof. inversion_clear 1 as [|? ? _ Hall]. by apply Forall_forall. Qed.

(** The loop keeps the invariant and ends on a front whose successor is not in
    the window. *)
Lemma compress_inv xs pre post :
  forall f w, pre = f :: w -> rep_inv xs f (w ++ post) ->
  (f + 1 ∉ w) ->
  exists f' w', compress pre post = f' :: w' /\ rep_inv xs f' w' /\ f' + 1 ∉ w'.
Proof.
  revert pre. induction post as [|x post IH]; intros pre f w -> Hinv Hnext;
    cbn [compress].
  { rewrite app_nil_r in Hinv. eauto. }
  assert (Hbelow : forall y, y ∈ f :: w -> is_u32 y /\ y <= x).
  { intros y Hy. split; [apply (ri_u32 _ _ _ Hinv); set_solver|].
    pose proof (ri_sorted _ _ _ Hinv) as Hs. rewrite app_comm_cons in Hs.
    apply (StronglySorted_app_1_elem_of _ (f :: w) (x :: post)); [done|done|by left]. }
  assert (Hxu : is_u32 x) by (apply (ri_u32 _ _ _ Hinv); set_solver).
  assert (Hxs : x ∈ xs) by (apply (ri_from _ _ _ Hinv); set_solver).
  destruct (pop_before_split x (f :: w) Hbelow Hxu) as (d & Hd & Hall & Hend).
  destruct (pop_before x (f :: w)) as [|f1 w1] eqn:Ep.
  - (* everything before [x] was popped: [x] is the new front *)
    rewrite app_nil_r in Hd.
    assert (f + 1 = x) as Hfx by (apply Hall; rewrite <-Hd; by left).
    apply (IH [x] x []); [done| |set_solver]. destruct Hinv as [Hs Hu Hfrom Hk Ha].
    assert (Hw : forall y, y ∈ w -> y + 1 = x)
      by (intros y Hy; apply Hall; rewrite <-Hd; by right).
    constructor; simpl.
    + apply (StronglySorted_app_1_r _ (f :: w)). by simpl.
    + intros y Hy. apply Hu. set_solver.
    + intros y Hy. apply Hfrom. set_solver.
    + intros y Hy. destruct (Hk y Hy) as [?|Hin]; [left; lia|].
      rewrite elem_of_app, elem_of_cons in Hin.
      destruct Hin as [Hin|[->|Hin]]; [left; specialize (Hw y Hin); lia|left; lia|by right].
    + intros y Hy. destruct (decide (y = x)) as [->|]; [done|]. apply Ha. lia.
  - (* [f1] stays: nothing was popped, or only copies of the front *)
    assert (d = [] \/ exists d', d = f :: d') as [->|[d' ->]]
      by (destruct d as [|? d']; [by left|right; simplify_eq/=; eauto]).
    + simplify_eq/=. apply (IH _ f1 (w1 ++ [x])); [done| |].
      * by rewrite <-app_assoc.
      * specialize (Hend _ _ eq_refl). rewrite elem_of_app, list_elem_of_singleton.
        intros [?|?]; [done|lia].
    + simplify_eq/=. exfalso.
      assert (f + 1 = x) as Hfx by (apply Hall; by left).
      assert (f1 <> x - 1) by (specialize (Hend _ _ eq_refl); lia).
      assert (f <= f1).
      { apply (StronglySorted_head f ((d' ++ f1 :: w1) ++ x :: post));
          [apply Hinv|set_solver]. }
      destruct (Hbelow f1) as [_ ?]; [set_solver|].
      apply Hnext. replace (f + 1) with f1 by lia. set_solver.
Qed.

Lemma update_xid_rep_inv xs f w x :
  rep_inv xs f w -> is_u32 x -> f + 1 ∉ w ->
  exists f' w', update_xid_rep x (f :: w) = f' :: w' /\
    rep_inv (x :: xs) f' w' /\ f' + 1 ∉ w'.
Proof.
  intros Hinv Hx Hnext. unfold update_xid_rep. destruct (Z.leb_spec x f).
  { exists f, w. split_and!; [done| |done]. destruct Hinv.
    constructor; try done.
    - intros y Hy. right. by apply ri_from0.
    - intros y [->|?]%elem_of_cons; [by left|auto].
    - intros y Hy. right. by apply ri_all0. }
  pose proof (xid_insert_sorted x (f :: w) (ri_sorted _ _ _ Hinv)) as Hs.
  destruct (xid_insert_head x f w) as (w' & E & Hperm); [lia|]. rewrite E in *.
  apply (compress_inv _ [f] w' f []); [done| |set_solver]. destruct Hinv.
  constructor; simpl; [done| | | |].
  - intros y. rewrite Hperm, !elem_of_cons. intros [->|[->|?]]; [|done|];
      apply ri_u33; set_solver.
  - intros y. rewrite Hperm. set_solver.
  - intros y. rewrite Hperm, elem_of_cons. intros [->|Hy]; [right; by left|].
    destruct (ri_kept0 y Hy); [by left|right; by right].
  - intros y Hy. right. by apply ri_all0.
Qed.

(** ** The life of a client *)

Section client_run.
Context `{FreshMem}.

(** The steps of a client's threads and of its connection: calls begin, are
    sent, are answered and end, in any interleaving.  [hs] lists the requests
    packed so far as (xid, acknowledgement, the xids reported before it), and
    [rp] the xids reported so far.  Only requests that were made are
    answered, and the client makes fewer than 2^31 - 1 calls. *)
Inductive client_run : rpcc -> list (Z * Z * list Z) -> list Z -> Prop :=
  | client_init retrans random lossy :
      client_run (rpcc_new retrans random lossy) [] []
  | client_begin cl cl' hs rp proc req un x req' r :
      client_run cl hs rp -> xid_ cl < 2 ^ 31 - 1 ->
      call1_begin proc req un cl = Ret (inr (x, req', r), cl') ->
      client_run cl' ((x, r, rp) :: hs) rp
  | client_refused cl hs rp proc req un e cl' :
      client_run cl hs rp ->
      call1_begin proc req un cl = Ret (inl e, cl') -> client_run cl' hs rp
  | client_transmit cl hs rp req :
      client_run cl hs rp -> client_run (call1_transmit req cl).2 hs rp
  | client_reply cl hs rp x ret rep :
      client_run cl hs rp -> 1 <= x < xid_ cl -> is_i32 ret ->
      marshall_wf rep -> m_ind rep < 2 ^ 31 ->
      client_run (rpcc_got_pdu (pdu (pack_reply_header rep (ReplyHeader x ret)))
                    (m_ind rep) cl) hs (x :: rp)
  | client_end cl hs rp x r req ca :
      client_run cl hs rp -> 1 <= x < xid_ cl -> calls_ cl !! i32 x = Some ca ->
      client_run (call1_end x r req cl).2 hs (x :: rp)
  | client_bind cl hs rp ret r :
      client_run cl hs rp -> client_run (bind_finish ret r cl) hs rp
  | client_cancel cl hs rp :
      client_run cl hs rp -> client_run (cancel cl) hs rp.

Record client_inv (cl : rpcc) (hs : list (Z * Z * list Z)) (rp : list Z) : Prop := {
  ci_xid : 1 <= xid_ cl < 2 ^ 31;
  ci_rep : exists f w, xid_rep_window_ cl = f :: w /\ rep_inv rp f w /\
             f + 1 ∉ w /\ f < xid_ cl;
  ci_rp : forall y, y ∈ rp -> 1 <= y < xid_ cl;
  ci_hs : forall x r rp0, (x, r, rp0) ∈ hs ->
            1 <= x < xid_ cl /\ 0 <= r < x /\ (forall y, 1 <= y <= r -> y ∈ rp0);
  ci_fresh : NoDup (fst ∘ fst <$> hs);
}.

(** The invariant reads only the xid counter and the window. *)
Lemma client_inv_frame cl cl' hs rp :
  client_inv cl hs rp -> xid_ cl' = xid_ cl ->
  xid_rep_window_ cl' = xid_rep_window_ cl -> client_inv cl' hs rp.
Proof. intros [] E1 E2. constructor; rewrite ?E1, ?E2; done. Qed.

Lemma client_inv_report cl cl' hs rp x :
  client_inv cl hs rp -> 1 <= x < xid_ cl -> xid_ cl' = xid_ cl ->
  xid_rep_window_ cl' = update_xid_rep x (xid_rep_window_ cl) ->
  client_inv cl' hs (x :: rp).
Proof.
  intros [Hxid (f & w & Ew & Hinv & Hn & Hf) Hrp Hhs Hfr] Hx E1 E2.
  destruct (update_xid_rep_inv rp f w x Hinv) as (f' & w' & E & Hinv' & Hn');
    [width|done|].
  assert (Hrp' : forall y, y ∈ x :: rp -> 1 <= y < xid_ cl)
    by (intros y [->|?]%elem_of_cons; auto).
  constructor; rewrite ?E1; try done. exists f', w'. rewrite E2, Ew.
  split_and!; [done..|]. destruct (decide (1 <= f')); [|lia].
  apply Hrp', (ri_all _ _ _ Hinv'). lia.
Qed.

Lemma call1_begin_inv proc req un cl cl' x req' r :
  call1_begin proc req un cl = Ret (inr (x, req', r), cl') ->
  exists f w, xid_rep_window_ cl = f :: w /\ x = xid_ cl /\ r = i32 f /\
    xid_ cl' = u32 (x + 1) /\ xid_rep_window_ cl' = f :: w.
Proof.
  unfold call1_begin. do 2 (case_match; [done|]). intros E.
  apply bind_Ret_inv in E as (f & Ef & E). injection E as <- <- <- <-.
  unfold rep_front in Ef. cbn [set_calls set_xid xid_rep_window_] in *.
  destruct (xid_rep_window_ cl) as [|f0 w]; [done|]. injection Ef as ->.
  exists f, w. by split_and!.
Qed.

Lemma client_run_inv cl hs rp : client_run cl hs rp -> client_inv cl hs rp.
Proof.
  induction 1 as [| |cl hs rp ???? cl' ? IH E|cl hs rp req ? IH
    |cl hs rp x ret rep ? IH Hx Hret Hm Hb|cl hs rp x r req ca ? IH Hx Hca
    |cl hs rp ret r ? IH|cl hs rp ? IH].
  - assert (Hnil : forall A (P : A -> Prop) y, y ∈ [] -> P y)
      by (by intros A P y ?%elem_of_nil).
    constructor; cbn [rpcc_new xid_ xid_rep_window_].
    + done.
    + exists 0, []. split_and!; [done| |by apply not_elem_of_nil|lia].
      constructor; [by repeat constructor| |by apply Hnil|by apply Hnil|intros; lia].
      intros y ->%list_elem_of_singleton. width.
    + by apply Hnil.
    + intros x r rp0 ?%elem_of_nil. done.
    + constructor.
  - destruct IHclient_run as [Hxid (f & w & Ew & Hinv & Hn & Hf) Hrp Hhs Hfr].
    destruct (call1_begin_inv _ _ _ _ _ _ _ _ H2) as (f' & w' & Ew' & -> & -> & Ex & E2).
    rewrite Ew in Ew'. injection Ew' as <- <-.
    assert (0 <= f) by (apply (ri_u32 _ _ _ Hinv); by left).
    rewrite u32_id in Ex by width. rewrite i32_id by width.
    constructor; rewrite ?Ex, ?E2.
    + width.
    + exists f, w. split_and!; [done..|lia].
    + intros y Hy. apply Hrp in Hy. lia.
    + intros x r rp0 [[= -> -> ->]|Hin]%elem_of_cons.
      * split_and!; try lia. apply Hinv.
      * destruct (Hhs _ _ _ Hin). split; [lia|done].
    + rewrite fmap_cons. constructor; [|done].
      intros ([[x r] rp0] & E & Hin)%list_elem_of_fmap. apply Hhs in Hin. simpl in E. lia.
  - unfold call1_begin in E. repeat case_match; simplify_eq; try done.
    by apply bind_Ret_inv in E as (? & _ & [=]).
  - apply (client_inv_frame cl); [done|..];
      unfold call1_transmit; by repeat case_match.
  - pose proof (reply_header_roundtrip rep (ReplyHeader x ret) Hm Hb) as Hrt.
    pose proof (ci_xid _ _ _ IH) as Hxid.
    apply (client_inv_report cl); [done..| |]; unfold rpcc_got_pdu; cbv zeta in Hrt;
      destruct (unpack_reply_header _) as [h u];
      (destruct Hrt as (-> & Hok & _); [cbn; width|done|]); rewrite Hok;
      cbn [negb rp_xid]; rewrite u32_id by width; by repeat case_match.
  - unfold call1_end. rewrite Hca. apply (client_inv_report cl); [done..| |];
      cbn [snd]; by repeat case_match.
  - apply (client_inv_frame cl); [done|..]; unfold bind_finish; by case_match.
  - by apply (client_inv_frame cl).
Qed.
End client_run.

(** ** Time *)

Definition nanos (t : timespec) : Z := tv_sec t * 1000000000 + tv_nsec t.

Lemma norm_nsec_spec n t :
  0 <= tv_nsec t -> tv_nsec t <= (Z.of_nat n + 1) * 1000000000 ->
  nanos (norm_nsec n t) = nanos t /\ 0 <= tv_nsec (norm_nsec n t) <= 1000000000.
Proof.
  revert t. induction n as [|n IH]; intros t H0 H1; cbn [norm_nsec].
  { split; [done|lia]. }
  destruct (Z.ltb_spec 1000000000 (tv_nsec t)).
  - destruct (IH (Timespec (tv_sec t + 1) (tv_nsec t - 1000000000))) as [-> ?];
      [cbn; lia..|]. split; [unfold nanos; cbn; lia|done].
  - split; [done|lia].
Qed.

(** Adding a timeout of [b] milliseconds moves the clock by exactly [b] ms and
    never fails; the nanoseconds stay within one second, a full 10^9 included. *)
Lemma add_timespec_ok now b :
  0 <= tv_nsec now < 1000000000 -> 0 <= b ->
  exists t, add_timespec now b = Ret t /\ nanos t = nanos now + b * 1000000 /\
    0 <= tv_nsec t <= 1000000000 /\ (Z.rem b 1000 = 0 -> tv_nsec t = tv_nsec now).
Proof.
  intros Hn Hb.
  set (r := Timespec (tv_sec now + Z.quot b 1000) (tv_nsec now + Z.rem b 1000 * 1000000)).
  pose proof (Z.quot_rem b 1000 ltac:(lia)). pose proof (Z.rem_bound_pos b 1000 Hb ltac:(lia)).
  destruct (norm_nsec_spec (Z.to_nat (tv_nsec r / 1000000000)) r) as [Hv Hr].
  { cbn. lia. }
  { rewrite Z2Nat.id by (apply Z.div_pos; cbn; lia).
    pose proof (Z.mul_succ_div_gt (tv_nsec r) 1000000000). lia. }
  exists (norm_nsec (Z.to_nat (tv_nsec r / 1000000000)) r). split_and!; [|..|lia|lia|].
  - unfold add_timespec. fold r. unfold VERIFY.
    destruct (Z.leb_spec 0 (tv_nsec r)); [done|]. cbn in *. lia.
  - rewrite Hv. unfold nanos, r. cbn [tv_sec tv_nsec]. lia.
  - intros Hrem. assert (tv_nsec r = tv_nsec now) as Hr' by (unfold r; cbn; lia).
    rewrite Hr', Z.div_small by lia. cbn. done.
Qed.
(** The order of [cmp_timespec] on normalised times. *)
Lemma cmp_timespec_nanos a b :
  0 <= tv_nsec a <= 1000000000 -> 0 <= tv_nsec b <= 1000000000 ->
  if 0 <? cmp_timespec a b then nanos b <= nanos a else nanos a <= nanos b.
Proof.
  intros Ha Hb. unfold cmp_timespec, nanos.
  destruct (Z.ltb_spec (tv_sec b) (tv_sec a)); [cbn; lia|].
  destruct (Z.ltb_spec (tv_sec a) (tv_sec b)); [cbn; lia|].
  destruct (Z.ltb_spec (tv_nsec b) (tv_nsec a)); [cbn; lia|].
  destruct (Z.ltb_spec (tv_nsec a) (tv_nsec b)); cbn; lia.
Qed.

(** ** Properties *)

(** The acknowledgement is exact: after any reports, in any order and with
    any repetitions, the front of the window is the greatest [f] such that
    every xid from 1 to [f] has been reported. *)
Theorem ack_contiguous xs :
  Forall is_u32 xs ->
  exists f w, foldl (fun w x => update_xid_rep x w) [0] xs = f :: w /\ contiguous xs f.
Proof.
  intros Hxs.
  assert (exists f w, foldl (fun w x => update_xid_rep x w) [0] xs = f :: w /\
            rep_inv (reverse xs) f w /\ f + 1 ∉ w) as (f & w & E & Hinv & Hn).
  { induction xs as [|x xs IH] using rev_ind.
    - exists 0, []. split_and!; [done| |by apply not_elem_of_nil].
      change (reverse []) with ([] : list Z).
      constructor; [by repeat constructor| | | |intros; lia].
      + intros y ->%list_elem_of_singleton. width.
      + intros y Hy. by apply elem_of_nil in Hy.
      + intros y Hy. by apply elem_of_nil in Hy.
    - apply Forall_app in Hxs as [Hxs Hx]. rewrite Forall_singleton in Hx.
      destruct (IH Hxs) as (f & w & E & Hinv & Hn).
      rewrite foldl_app, E, reverse_snoc.
      exact (update_xid_rep_inv (reverse xs) f w x Hinv Hx Hn). }
  exists f, w. split; [done|]. destruct Hinv as [Hs Hu Hf Hk Ha].
  split_and!.
  - apply (Hu f). by left.
  - intros y Hy. by apply elem_of_reverse, Ha.
  - intros Hin. destruct (Hk (f + 1)) as [?|?]; [by apply elem_of_reverse|lia|done].
Qed.
Lemma ack_contiguous_witness :
  foldl (fun w x => update_xid_rep x w) [0] [2; 4; 2; 1; 6; 3] = [4; 6] /\
  exists f w, foldl (fun w x => update_xid_rep x w) [0] [2; 4; 2; 1; 6; 3] = f :: w /\
    contiguous [2; 4; 2; 1; 6; 3] f.
Proof.
  split; [reflexivity|]. apply (ack_contiguous [2; 4; 2; 1; 6; 3]).
  repeat constructor; vm_compute; congruence.
Defined.

(** A client's headers are truthful: however its calls, replies, timeouts
    and cancellations interleave, every request carries a fresh xid, and an
    acknowledgement below that xid that covers only calls that were already
    over (answered or given up) when the header was packed. *)
Theorem headers_truthful `{FreshMem} cl hs rp :
  client_run cl hs rp ->
  NoDup (fst ∘ fst <$> hs) /\
  forall x r rp0, (x, r, rp0) ∈ hs -> 0 <= r < x /\ forall y, 1 <= y <= r -> y ∈ rp0.
Proof.
  intros []%client_run_inv. split; [done|].
  intros x r rp0 Hin. by destruct (ci_hs0 x r rp0 Hin) as (_ & ? & ?).
Qed.

#[local] Existing Instance fresh_zero.

(** A client binds (xid 1, answered), then makes call 2, which acknowledges 1. *)
Definition client0 : rpcc := rpcc_new true 42 0.
Definition after_begin (proc : Z) (cl : rpcc) : rpcc :=
  match call1_begin proc marshall_new unmarshall_empty cl with
  | Ret (_, cl) => cl | _ => cl end.
Lemma after_begin_run proc cl hs rp x f w :
  client_run cl hs rp -> xid_ cl < 2 ^ 31 - 1 ->
  bind_done_ cl = negb (proc =? rpc_const.bind) -> destroy_wait_ cl = false ->
  xid_ cl = x -> xid_rep_window_ cl = f :: w ->
  client_run (after_begin proc cl) ((x, i32 f, rp) :: hs) rp.
Proof.
  intros Hrun Hx Hb Hd <- Hw.
  assert (exists req', call1_begin proc marshall_new unmarshall_empty cl =
            Ret (inr (xid_ cl, req', i32 f), after_begin proc cl)) as [req' E].
  { unfold after_begin, call1_begin, rep_front. rewrite Hb, Hd.
    cbn [set_calls set_xid xid_rep_window_]. rewrite Hw.
    destruct (proc =? rpc_const.bind); cbn [negb andb orb]; eexists; reflexivity. }
  by apply (client_begin cl _ _ _ _ _ _ _ _ _ Hrun Hx E).
Qed.
Definition client1 : rpcc := after_begin rpc_const.bind client0.
Definition client2 : rpcc :=
  bind_finish 0 99
    (rpcc_got_pdu (pdu (pack_reply_header marshall_new (ReplyHeader 1 0)))
       (m_ind (marshall_new)) client1).
Definition client3 : rpcc := after_begin 7 client2.
Lemma headers_truthful_witness :
  client_run client3 [(2, 1, [1]); (1, 0, [])] [1] /\
  NoDup (fst ∘ fst <$> [(2, 1, [1]); (1, 0, [])]) /\
  forall x r rp0, (x, r, rp0) ∈ [(2, 1, [1]); (1, 0, [])] ->
    0 <= r < x /\ forall y, 1 <= y <= r -> y ∈ rp0.
Proof.
  assert (Hrun : client_run client3 [(2, 1, [1]); (1, 0, [])] [1]).
  { apply (after_begin_run 7 client2 _ _ 2 1 []); [|vm_compute; reflexivity..].
    apply client_bind. apply (client_reply client1 _ _ 1 0 marshall_new);
      [|vm_compute; intuition congruence|done|apply marshall_new_wf|done].
    apply (after_begin_run rpc_const.bind client0 _ _ 1 0 []);
      [apply client_init|vm_compute; reflexivity..]. }
  split; [exact Hrun|]. exact (headers_truthful _ _ _ Hrun).
Defined.

