(* ===== verification/Call1.v ===== *)
(** * A call and its channel: the loop of [rpcc::call1]

    [rpc/rpc.cc]: [get_refconn], which keeps one connection per [rpcc] and gives
    every calling thread a reference to it, and the loop of [call1], which
    transmits, waits with doubling timeouts until a final deadline, and
    transmits again when its connection has died.  What the thread finds at
    each turn (the channel, which connections are dead, the clock, whether the
    reply has come) is its input; [RpcSystem] interleaves the transmissions
    with everything else. *)
From S2P Require Import Prelude RpcStub RpcClient.

Definition to_max : Z := 120000.
Definition to_min : Z := 1000.

(** ** The channel *)

(** [chan_] and the reference counts of the connections. *)
Record chans := Chans { chan_ : option Z; crefs : gmap Z Z }.

Definition incref (c : Z) (s : chans) : chans :=
  Chans (chan_ s) (<[c := std_ref 0 (crefs s) c + 1]> (crefs s)).
Definition decref (c : Z) (s : chans) : chans :=
  Chans (chan_ s) (<[c := std_ref 0 (crefs s) c - 1]> (crefs s)).
(** [connect_to_dst]: a new connection [conn] has one reference. *)
Definition connected (conn : option Z) (s : chans) : chans :=
  Chans conn (match conn with Some c => <[c := 1]> (crefs s) | None => crefs s end).

(** [get_refconn(&ch)]: [dead] says which connections are dead, [conn] what
    [connect_to_dst] returns if it is called. *)
Definition get_refconn (dead : Z -> bool) (conn ch : option Z) (s : chans) : option Z * chans :=
  let s :=
    match chan_ s with
    | None => connected conn s
    | Some c => if dead c then connected conn (decref c s) else s
    end in
  match chan_ s with
  | None => (ch, s)
  | Some c =>
      let s := match ch with Some c0 => decref c0 s | None => s end in
      (Some c, incref c s)
  end.
(** The end of [call1]: the thread drops its reference. *)
Definition drop_refconn (ch : option Z) (s : chans) : chans :=
  match ch with Some c => decref c s | None => s end.
(** [rpcc::~rpcc]: [ncalls] is the size of [calls_]. *)
Definition rpcc_destroy (ncalls : Z) (s : chans) : outcome chans :=
  let s := match chan_ s with Some c => Chans None (crefs (decref c s)) | None => s end in
  _ ← VERIFY (ncalls =? 0); Ret s.

(** The threads in [call1], each with its [ch], and the channel. *)
Inductive chan_step : list (option Z) * chans -> list (option Z) * chans -> Prop :=
  | ch_enter ths s : chan_step (ths, s) (None :: ths, s)
  | ch_get ths1 ths2 ch s dead conn ch' s' :
      (forall c, conn = Some c -> std_ref 0 (crefs s) c = 0) ->
      get_refconn dead conn ch s = (ch', s') ->
      chan_step (ths1 ++ ch :: ths2, s) (ths1 ++ ch' :: ths2, s')
  | ch_leave ths1 ths2 ch s :
      chan_step (ths1 ++ ch :: ths2, s) (ths1 ++ ths2, drop_refconn ch s).

(** ** The loop *)

(** [pthread_cond_timedwait] in its loop: a reply, a timeout, or, for a
    deadline that is not a time, [EINVAL] at once and for ever. *)
Definition timedwait (deadline : timespec) (done : bool) : outcome bool :=
  if done then Ret true
  else if tv_nsec deadline <? 1000000000 then Ret false else Hang.

(** What a turn finds: at [get_refconn], at the sending, at the clock, at the
    wait, and after it. *)
Record turn := Turn {
  t_dead : Z -> bool; t_conn : option Z; t_chans : chans; t_reachable : bool;
  t_now : timespec; t_done : bool; t_dead' : Z -> bool;
}.
(** The variables of the loop, and the connections the request was sent on, with
    whether they were dead by then. *)
Record loop_st := LoopSt {
  transmit : bool; ch : option Z; finaldeadline : timespec; curr_to : Z; sent : list (Z * bool);
}.

(** The transmission, if one is due: "only send once on a given channel". *)
Definition call1_send (t : turn) (s : loop_st) : option Z * list (Z * bool) :=
  if transmit s then
    let c := (get_refconn (t_dead t) (t_conn t) (ch s) (t_chans t)).1 in
    (c, match c with
        | Some k => if t_reachable t then sent s ++ [(k, t_dead t k)] else sent s
        | None => sent s
        end)
  else (ch s, sent s).
Definition call1_turn (retrans : bool) (t : turn) (s : loop_st)
  : outcome (bool * option Z * list (Z * bool) + loop_st) :=
  let '(c, out) := call1_send t s in
  if tv_sec (finaldeadline s) =? 0 then Ret (inl (false, c, out))
  else
    '(next, final) ← next_deadline (t_now t) (curr_to s) (finaldeadline s);
    done ← timedwait next (t_done t);
    if (done : bool) then Ret (inl (true, c, out))
    else
      let again := retrans && match c with None => true | Some k => t_dead' t k end in
      Ret (inr (LoopSt again c final (i32 (Z.shiftl (curr_to s) 1)) out)).

(** [None]: the turns that are given do not finish the call. *)
Fixpoint call1_loop (retrans : bool) (l : list turn) (s : loop_st)
  : outcome (option (bool * option Z * list (Z * bool))) :=
  match l with
  | [] => Ret None
  | t :: l =>
      r ← call1_turn retrans t s;
      match (r : _ + loop_st) with inl res => Ret (Some res) | inr s => call1_loop retrans l s end
  end.
Definition call1_start (final : timespec) : loop_st := LoopSt true None final to_min [].
Definition call1_wait (retrans : bool) (to : Z) (now : timespec) (l : list turn)
  : outcome (option (bool * option Z * list (Z * bool))) :=
  final ← add_timespec now to; call1_loop retrans l (call1_start final).

(** ** References *)

Definition holds (c : Z) (ch : option Z) : Z := if decide (ch = Some c) then 1 else 0.
Fixpoint holders (c : Z) (ths : list (option Z)) : Z :=
  match ths with [] => 0 | ch :: ths => holds c ch + holders c ths end.
(** One reference for [chan_] and one for every thread that uses it. *)
Definition balanced (x : list (option Z) * chans) : Prop :=
  forall c, std_ref 0 (crefs x.2) c = holds c (chan_ x.2) + holders c x.1.

Lemma holds_None c : holds c None = 0.
Proof. unfold holds. by rewrite decide_False. Qed.
Lemma holders_app c l1 l2 : holders c (l1 ++ l2) = holders c l1 + holders c l2.
Proof. induction l1 as [|ch l1 IH]; cbn; lia. Qed.
Lemma holders_nonneg c l : 0 <= holders c l.
Proof. induction l as [|ch l IH]; cbn; [lia|]. unfold holds. case_decide; lia. Qed.
Lemma std_ref_incref c c' s : std_ref 0 (crefs (incref c s)) c' = std_ref 0 (crefs s) c' + holds c' (Some c).
Proof.
  unfold incref, holds. cbn. case_decide as Hd; [injection Hd as ->; by rewrite std_ref_insert_eq|].
  rewrite std_ref_insert_ne by congruence. lia.
Qed.
Lemma std_ref_decref c c' s : std_ref 0 (crefs (decref c s)) c' = std_ref 0 (crefs s) c' - holds c' (Some c).
Proof.
  unfold decref, holds. cbn. case_decide as Hd; [injection Hd as ->; by rewrite std_ref_insert_eq|].
  rewrite std_ref_insert_ne by congruence. lia.
Qed.
Lemma std_ref_drop ch c' s : std_ref 0 (crefs (drop_refconn ch s)) c' = std_ref 0 (crefs s) c' - holds c' ch.
Proof. destruct ch as [c|]; [apply std_ref_decref|]. rewrite holds_None. cbn. lia. Qed.
(** The channel after a connection that was not known before. *)
Lemma std_ref_connected conn c' s :
  (forall c, conn = Some c -> std_ref 0 (crefs s) c = 0) ->
  std_ref 0 (crefs (connected conn s)) c' = std_ref 0 (crefs s) c' + holds c' conn.
Proof.
  intros Hnew. unfold connected, holds. destruct conn as [c|]; cbn; [|case_decide; [done|lia]].
  case_decide as Hd; [injection Hd as ->; rewrite std_ref_insert_eq, Hnew by done; lia|].
  rewrite std_ref_insert_ne by congruence. lia.
Qed.
Lemma get_refconn_balanced ths1 ths2 ch s dead conn ch' s' :
  (forall c, conn = Some c -> std_ref 0 (crefs s) c = 0) ->
  get_refconn dead conn ch s = (ch', s') ->
  balanced (ths1 ++ ch :: ths2, s) -> balanced (ths1 ++ ch' :: ths2, s').
Proof.
  intros Hnew E Hb. unfold get_refconn in E.
  set (s1 := match chan_ s with None => _ | Some c => _ end) in E.
  assert (balanced (ths1 ++ ch :: ths2, s1)) as Hb1.
  { intros c. specialize (Hb c) as Hc. unfold s1. destruct (chan_ s) as [c0|] eqn:Ec; cbn [fst snd] in Hc |- *.
    - destruct (dead c0); [|done].
      rewrite std_ref_connected, std_ref_decref, Hc, Ec; [cbn [chan_ connected]; lia|].
      intros c1 Hc1. rewrite std_ref_decref, (Hnew c1 Hc1).
      pose proof (Hb c1) as Hc2. cbn [fst snd] in Hc2. rewrite (Hnew c1 Hc1), Ec in Hc2.
      pose proof (holders_nonneg c1 (ths1 ++ ch :: ths2)). unfold holds in *. case_decide; lia.
    - rewrite std_ref_connected by done. rewrite Ec in Hc. rewrite Hc, holds_None. cbn [chan_ connected]. lia. }
  clearbody s1. clear Hb Hnew. destruct (chan_ s1) as [c0|] eqn:Ec; injection E as <- <-; [|done].
  intros c. specialize (Hb1 c). cbn [fst snd] in *. rewrite holders_app in *. cbn [holders] in *.
  rewrite std_ref_incref. change (match ch with Some c1 => decref c1 s1 | None => s1 end)
    with (drop_refconn ch s1). rewrite std_ref_drop.
  rewrite Ec in Hb1. destruct ch; cbn [chan_ incref decref drop_refconn] in *; rewrite Ec; lia.
Qed.

(** C22. Connections are counted: in every state that the threads of an [rpcc]
    reach by entering [call1], getting the channel (which may reconnect) and
    leaving, a connection has one reference for being the current channel and
    one for every thread that uses it; so none is deleted while it is used, and
    one that is not used and not current has no reference left. *)
Theorem refconn_balanced x :
  rtc chan_step ([], Chans None ∅) x -> balanced x.
Proof.
  assert (balanced ([], Chans None ∅)) as H0 by done. revert H0.
  generalize (([], Chans None ∅) : list (option Z) * chans). intros x0 H0 Hs.
  induction Hs as [|x1 x2 x3 Hstep _ IH]; [done|]. apply IH. destruct Hstep as [ths s|ths1 ths2 ch s dead conn ch' s' Hnew E|ths1 ths2 ch s].
  - intros c. apply (H0 c).
  - by eapply get_refconn_balanced.
  - intros c. specialize (H0 c). cbn [fst snd] in *. rewrite holders_app in *. cbn [holders] in H0.
    rewrite std_ref_drop. destruct ch; cbn [chan_ decref drop_refconn] in *; lia.
Qed.
Lemma refconn_balanced_witness : balanced ([Some 3], Chans (Some 4) (<[4 := 1]> {[3 := 1]})).
Proof.
  apply refconn_balanced.
  eapply rtc_l; [apply (ch_enter [])|].
  eapply rtc_l; [apply (ch_get [] [] None (Chans None ∅) (fun _ => false) (Some 3)); [by intros c [= <-]|reflexivity]|].
  eapply rtc_l; [apply (ch_enter [Some 3])|]. cbn [app].
  eapply rtc_l; [apply (ch_get [] [Some 3] None _ (fun c => c =? 3) (Some 4)); [by intros c [= <-]|reflexivity]|].
  eapply rtc_l; [apply (ch_leave [] [Some 3] (Some 4))|]. cbn [app].
  match goal with |- rtc _ ?a ?b => replace b with a by (vm_compute; reflexivity) end. apply rtc_refl.
Defined.

(** ** Deadlines *)

Definition valid_time (t : timespec) : Prop := 0 <= tv_nsec t < 1000000000.

(** The clock: at every turn it shows a time, no earlier than the deadline that
    the turn before has waited for. *)
Fixpoint clock_ok (retrans : bool) (lo : Z) (l : list turn) (s : loop_st) : Prop :=
  match l with
  | [] => True
  | t :: l =>
      valid_time (t_now t) /\ lo <= nanos (t_now t) /\
      match call1_turn retrans t s, next_deadline (t_now t) (curr_to s) (finaldeadline s) with
      | Ret (inr s'), Ret (next, _) => clock_ok retrans (nanos next) l s'
      | _, _ => True
      end
  end.

(** A turn ends the call, or doubles the timeout and waits on, or knows that it
    was the last. *)
Lemma turn_cases retrans t s :
  valid_time (t_now t) -> valid_time (finaldeadline s) -> 0 <= curr_to s -> Z.rem (curr_to s) 1000 = 0 ->
  (exists res, call1_turn retrans t s = Ret (inl res)) \/
  exists s' next final, call1_turn retrans t s = Ret (inr s') /\
    next_deadline (t_now t) (curr_to s) (finaldeadline s) = Ret (next, final) /\
    curr_to s' = i32 (curr_to s * 2) /\ finaldeadline s' = final /\
    (tv_sec final = 0 \/
     final = finaldeadline s /\ nanos next = nanos (t_now t) + curr_to s * 1000000 /\
     nanos next <= nanos final).
Proof.
  intros Hnow Hfin Hc Hrem. unfold call1_turn.
  destruct (call1_send t s) as [c out].
  destruct (tv_sec (finaldeadline s) =? 0); [left; eauto|].
  destruct (add_timespec_ok (t_now t) (curr_to s) Hnow Hc) as (next & Ea & En & Hr & Hns).
  specialize (Hns Hrem). unfold valid_time in *.
  pose proof (cmp_timespec_nanos next (finaldeadline s) Hr ltac:(lia)) as Hcmp.
  assert (exists d final, next_deadline (t_now t) (curr_to s) (finaldeadline s) = Ret (d, final) /\
    tv_nsec d < 1000000000 /\
    (tv_sec final = 0 \/ d = next /\ final = finaldeadline s /\ nanos next <= nanos final))
    as (d & final & Ed & Hd & Hf).
  { unfold next_deadline. rewrite Ea, outcome_bind_Ret.
    destruct (0 <? cmp_timespec next (finaldeadline s)).
    - eexists _, _. split_and!; [done|lia|by left].
    - eexists _, _. split_and!; [done|lia|by right]. }
  rewrite Ed, outcome_bind_Ret. unfold timedwait.
  destruct (t_done t); [left; cbn; eauto|]. destruct (Z.ltb_spec (tv_nsec d) 1000000000); [|lia].
  right. eexists _, d, final. split; [reflexivity|]. rewrite Z.shiftl_mul_pow2 by lia.
  split_and!; try done. destruct Hf as [?|(-> & -> & ?)]; [by left|right]. by split_and!.
Qed.

Lemma loop_ends k retrans l : forall j s lo,
  (j < k)%nat -> (k <= 20)%nat -> (k - j < length l)%nat ->
  curr_to s = 1000 * 2 ^ Z.of_nat j -> valid_time (finaldeadline s) ->
  nanos (finaldeadline s) < lo + 1000000000 * (2 ^ Z.of_nat k - 2 ^ Z.of_nat j) ->
  clock_ok retrans lo l s ->
  exists res, call1_loop retrans l s = Ret (Some res).
Proof.
  induction l as [|t l IH]; intros j s lo Hj Hk Hl Hc Hf Hlo Hclk; [cbn in Hl; lia|].
  cbn [clock_ok] in Hclk. destruct Hclk as (Hnow & Hge & Hclk). cbn [length] in Hl.
  assert (0 < 2 ^ Z.of_nat j) by (apply Z.pow_pos_nonneg; lia).
  assert (2 ^ Z.of_nat j <= 2 ^ 20) by (apply Z.pow_le_mono_r; lia).
  assert (2 ^ Z.of_nat (S j) = 2 * 2 ^ Z.of_nat j) as Hpow by (rewrite Nat2Z.inj_succ, Z.pow_succ_r; lia).
  assert (Z.rem (curr_to s) 1000 = 0) as Hrem by (rewrite Hc, Z.mul_comm; apply Z.rem_mul; lia).
  cbn [call1_loop].
  destruct (turn_cases retrans t s Hnow Hf ltac:(lia) Hrem) as [[res ->]|(s' & d & final & E & Ed & Hc' & Hf' & Hcase)].
  { rewrite outcome_bind_Ret. eauto. }
  rewrite E, outcome_bind_Ret. rewrite E, Ed in Hclk.
  destruct Hcase as [Hz|(-> & Hd & Hle)].
  - destruct l as [|t' l]; [cbn in Hl; lia|]. cbn [call1_loop]. unfold call1_turn.
    destruct (call1_send t' s') as [c out]. rewrite Hf', Hz. cbn. eauto.
  - assert (S j < k)%nat as HSj.
    { destruct (decide (S j = k)) as [<-|]; [|lia]. rewrite Hpow in Hlo. lia. }
    apply (IH (S j) s' (nanos d)); try done; [lia| |by rewrite Hf'|].
    + rewrite Hc', Hc, Hpow. rewrite i32_id; [lia|]. unfold is_i32. lia.
    + rewrite Hf', Hpow. lia.
Qed.

(** C20. A call does not hang: for a timeout [to] of whole seconds, at most
    [to_max], on a clock that does not go back, the loop of [call1] returns
    within eight turns, whatever the connections do and whether a reply comes
    or not; in general within [k + 1] turns when [to] is less than
    [1000 * (2^k - 1)] milliseconds. *)
Theorem call1_returns k retrans to now l :
  (0 < k <= 20)%nat -> 0 <= to < 1000 * (2 ^ Z.of_nat k - 1) -> Z.rem to 1000 = 0 ->
  valid_time now -> (k < length l)%nat ->
  (forall final, add_timespec now to = Ret final -> clock_ok retrans (nanos now) l (call1_start final)) ->
  exists res, call1_wait retrans to now l = Ret (Some res).
Proof.
  intros Hk Hto Hrem Hnow Hl Hclk. unfold call1_wait.
  destruct (add_timespec_ok now to Hnow ltac:(lia)) as (final & Ea & En & _ & Hns).
  rewrite Ea, outcome_bind_Ret. specialize (Hclk final Ea).
  apply (loop_ends k retrans l 0%nat (call1_start final) (nanos now)); cbn [call1_start finaldeadline curr_to];
    try done; try lia.
  - unfold valid_time in *. rewrite (Hns Hrem). done.
Qed.

(** Eight turns in which nothing answers. *)
Definition idle (now : timespec) : turn :=
  Turn (fun _ => false) (Some 5) (Chans None ∅) true now false (fun _ => false).
Definition idle_turns : list turn :=
  (fun x => idle (Timespec x 0)) <$> [100; 101; 103; 107; 115; 131; 163; 220].
Lemma idle_clock :
  forall final, add_timespec (Timespec 100 0) to_max = Ret final ->
    clock_ok true (nanos (Timespec 100 0)) idle_turns (call1_start final).
Proof. intros final [= <-]. vm_compute. repeat split; congruence. Qed.
Lemma call1_returns_witness :
  call1_wait true to_max (Timespec 100 0) idle_turns = Ret (Some (false, Some 5, [(5, false)])) /\
  exists res, call1_wait true to_max (Timespec 100 0) idle_turns = Ret (Some res).
Proof.
  split; [vm_compute; reflexivity|].
  apply (call1_returns 7 true to_max (Timespec 100 0) idle_turns);
    [lia|unfold to_max; lia|reflexivity|unfold valid_time; cbn; lia|cbn; lia|].
  exact idle_clock.
Defined.

(** A timeout that is not of whole seconds can make the final deadline [10^9]
    nanoseconds, which is no time: [pthread_cond_timedwait] refuses it at once
    and the thread spins until a reply comes.  Here the call is made half a
    second past a full one, with a timeout of 1.5 seconds. *)
Theorem call1_spins t0 t1 l :
  t_now t0 = Timespec 7 500000000 -> t_done t0 = false ->
  t_now t1 = Timespec 8 500000000 -> t_done t1 = false ->
  call1_wait true 1500 (Timespec 7 500000000) (t0 :: t1 :: l) = Hang.
Proof.
  intros Hn Hd Hn' Hd'. unfold call1_wait. change (add_timespec _ _) with (Ret (Timespec 8 1000000000)).
  rewrite outcome_bind_Ret. set (s0 := call1_start _).
  assert (exists s1, call1_turn true t0 s0 = Ret (inr s1) /\
    finaldeadline s1 = Timespec 8 1000000000 /\ curr_to s1 = 2000) as (s1 & E & Hf & Hc).
  { unfold call1_turn. destruct (call1_send t0 s0) as [c out]. rewrite Hn, Hd.
    eexists. by split; [reflexivity|]. }
  cbn [call1_loop]. rewrite E, outcome_bind_Ret. unfold call1_turn.
  destruct (call1_send t1 s1) as [c out]. by rewrite Hf, Hc, Hn', Hd'.
Qed.
Lemma call1_spins_witness :
  call1_wait true 1500 (Timespec 7 500000000)
    [idle (Timespec 7 500000000); idle (Timespec 8 500000000)] = Hang.
Proof. apply (call1_spins (idle (Timespec 7 500000000)) (idle (Timespec 8 500000000)) []); reflexivity. Defined.

(** ** Retransmission *)

(** The connections a live one of which carried the request. *)
Definition live (out : list (Z * bool)) : list Z := fst <$> filter (fun x => x.2 = false) out.

(** A dead connection stays dead. *)
Fixpoint deaths_ok (dead : Z -> bool) (l : list turn) : Prop :=
  match l with
  | [] => True
  | t :: l =>
      (forall c, dead c = true -> t_dead t c = true) /\
      (forall c, t_dead t c = true -> t_dead' t c = true) /\
      deaths_ok (t_dead' t) l
  end.

Record sent_inv (dead : Z -> bool) (again : bool) (c : option Z) (out : list (Z * bool)) : Prop := {
  sn_nodup : NoDup (live out);
  sn_dead : forall x, x ∈ live out -> dead x = true \/ c = Some x;
  sn_again : again = true -> forall x, x ∈ live out -> dead x = true;
}.
Lemma live_snoc out k d : live (out ++ [(k, d)]) = live out ++ (if d then [] else [k]).
Proof. unfold live. rewrite filter_app, fmap_app. by destruct d. Qed.

Lemma transmit_sent t dead (s : loop_st) :
  sent_inv dead (transmit s) (ch s) (sent s) ->
  (forall c, dead c = true -> t_dead t c = true) ->
  let '(c, out) := call1_send t s in
  sent_inv (t_dead t) false c out.
Proof.
  intros [Hnd Hdead Hag] Hmono. unfold call1_send. destruct (transmit s).
  - specialize (Hag eq_refl). cbv zeta.
    assert (forall x, x ∈ live (sent s) -> t_dead t x = true) as Hall by auto.
    assert (forall c, sent_inv (t_dead t) false c (sent s)) as Hsame by (constructor; auto; done).
    destruct (get_refconn _ _ _ _).1 as [k|]; [destruct (t_reachable t)|]; [|by apply Hsame..].
    constructor; [| |done].
    + rewrite live_snoc. destruct (t_dead t k) eqn:Ek; [by rewrite app_nil_r|].
      apply NoDup_app. split_and!; [done| |apply NoDup_singleton].
      intros x Hx ->%list_elem_of_singleton. apply Hall in Hx. congruence.
    + intros x. rewrite live_snoc. destruct (t_dead t k); rewrite ?app_nil_r; [auto|].
      rewrite elem_of_app, list_elem_of_singleton. intros [?| ->]; auto.
  - constructor; [done| |done]. intros x Hx. destruct (Hdead x Hx); auto.
Qed.

Lemma call1_send_count t s :
  (transmit s = true -> sent s = []) -> (length (sent s) <= 1)%nat -> (length (call1_send t s).2 <= 1)%nat.
Proof.
  intros Ht Hs. unfold call1_send. destruct (transmit s); [|done]. rewrite (Ht eq_refl). cbn.
  repeat case_match; cbn; lia.
Qed.
Lemma loop_sent retrans l : forall s dead ok c out,
  sent_inv dead (transmit s) (ch s) (sent s) -> deaths_ok dead l ->
  (retrans = false -> (transmit s = true -> sent s = []) /\ (length (sent s) <= 1)%nat) ->
  call1_loop retrans l s = Ret (Some (ok, c, out)) ->
  NoDup (live out) /\ (retrans = false -> (length out <= 1)%nat).
Proof.
  induction l as [|t l IH]; intros s dead ok c out Hs Hl Hr E; [done|].
  destruct Hl as (Hmono & Hafter & Hl). cbn [call1_loop] in E.
  pose proof (transmit_sent t dead s Hs Hmono) as Hs1.
  assert (retrans = false -> (length (call1_send t s).2 <= 1)%nat) as Hr1
    by (intros Hf; destruct (Hr Hf); by apply call1_send_count).
  unfold call1_turn in E. destruct (call1_send t s) as [c1 out1]. cbn [snd] in Hr1.
  destruct (tv_sec (finaldeadline s) =? 0).
  { injection E as <- <- <-. by destruct Hs1. }
  apply bind_Ret_inv in E as (r & Er & E). apply bind_Ret_inv in Er as ([next fin] & _ & Er).
  apply bind_Ret_inv in Er as (d & _ & Er). destruct d; injection Er as <-.
  { injection E as <- <- <-. by destruct Hs1. }
  refine (IH _ (t_dead' t) ok c out _ Hl _ E); cbn [transmit ch sent].
  - destruct Hs1 as [Hnd Hdead _]. constructor; [done|intros x Hx; destruct (Hdead x Hx); auto|].
    intros [_ Hag]%andb_true_iff x Hx. destruct (Hdead x Hx) as [?| ->]; [by apply Hafter|done].
  - intros Hf. split; [by rewrite Hf|by apply Hr1].
Qed.

(** C21. The request is sent at most once on a connection: however often [call1]
    reconnects, no connection that was alive when the request was sent on it
    carries it a second time, and a client without retransmission sends it
    once at most. *)
Theorem call1_sends_once retrans l final dead ok c out :
  deaths_ok dead l -> call1_loop retrans l (call1_start final) = Ret (Some (ok, c, out)) ->
  NoDup (live out) /\ (retrans = false -> (length out <= 1)%nat).
Proof.
  intros Hl E.
  assert (sent_inv dead true None []) as Hs by (constructor; [constructor|..]; by intros; set_solver).
  apply (loop_sent retrans l (call1_start final) dead ok c out Hs Hl); [|done].
  intros _. split; [done|cbn; lia].
Qed.
(** The first connection dies while the thread waits; the request goes out again
    on a second one, which answers. *)
Definition reconnect : list turn :=
  [Turn (fun _ => false) (Some 5) (Chans None ∅) true (Timespec 100 0) false (fun c => c =? 5);
   Turn (fun c => c =? 5) (Some 6) (Chans (Some 5) {[5 := 2]}) true (Timespec 101 0) true (fun c => c =? 5)].
Lemma call1_sends_once_witness :
  call1_loop true reconnect (call1_start (Timespec 103 0)) =
    Ret (Some (true, Some 6, [(5, false); (6, false)])) /\
  NoDup (live [(5, false); (6, false)]) /\
  (true = false -> (length [(5, false); (6, false)] <= 1)%nat).
Proof.
  split; [vm_compute; reflexivity|].
  apply (call1_sends_once true reconnect (Timespec 103 0) (fun _ => false) true (Some 6)).
  - cbn. repeat split; try done.
  - vm_compute. reflexivity.
Defined.
