(* ===== verification/Log.v ===== *)
(** * The durable log of Paxos

    [log.cc]: the acceptor's log file as text.  [loginstance], [logprop] and
    [logaccept] append a line; [logread] parses the file with [istream]
    extraction and rebuilds the acceptor's state.  The file is the list of its
    characters. *)
From S2P Require Import Prelude Marshall Protocols.
Import paxos_protocol.

(** The state of an [acceptor] ([paxos.h]) with the content of its log file. *)
Record acceptor := Acceptor {
  a_me : str;
  n_h : prop_t;
  n_a : prop_t;
  v_a : str;
  instance_h : Z;
  values : gmap Z str;
  logfile : str;
}.

(** ** Characters of the text format *)

Definition is_space (c : ascii) : bool :=
  let z := char_to_Z c in (z =? 32) || ((9 <=? z) && (z <=? 13)).
Definition is_digit (c : ascii) : bool :=
  let z := char_to_Z c in (48 <=? z) && (z <=? 57).
Definition newline : ascii := Z_to_char 10.
Definition space : ascii := Z_to_char 32.

(** ** [operator<<(ostream, unsigned)] *)

(** Decimal digits, most significant first; ten digits hold an [unsigned]. *)
Fixpoint digits (fuel : nat) (n : Z) : str :=
  match fuel with
  | O => []
  | S fuel =>
      if n <? 10 then [Z_to_char (48 + n)]
      else digits fuel (n / 10) ++ [Z_to_char (48 + n mod 10)]
  end.
Definition decimal (n : Z) : str := digits 10 n.

(** ** [istream] *)

(** The characters not yet read, and whether the stream is still good. *)
Record istream := Istream { s_rest : str; s_good : bool }.

Fixpoint skip_space (s : str) : str :=
  match s with
  | c :: s' => if is_space c then skip_space s' else s
  | [] => []
  end.
(** The longest prefix of characters that satisfy [p], and the rest. *)
Fixpoint span (p : ascii -> bool) (s : str) : str * str :=
  match s with
  | c :: s' => if p c then let '(a, b) := span p s' in (c :: a, b) else ([], s)
  | [] => ([], [])
  end.

(** [from >> string]: fails when there is no token left. *)
Definition read_token (old : str) (f : istream) : str * istream :=
  if s_good f then
    match span (fun c => negb (is_space c)) (skip_space (s_rest f)) with
    | ([], rest) => (old, Istream rest false)
    | (tok, rest) => (tok, Istream rest true)
    end
  else (old, f).

Definition digits_value (s : str) : Z :=
  foldl (fun v c => v * 10 + (char_to_Z c - 48)) 0 s.
(** [from >> unsigned] on text without signs: at the end of the file the target
    is left alone, text that is no number gives 0 and a number that does not fit
    gives the largest [unsigned], all failing. *)
Definition read_unsigned (old : Z) (f : istream) : Z * istream :=
  if s_good f then
    match span is_digit (skip_space (s_rest f)) with
    | ([], []) => (old, Istream [] false)
    | ([], rest) => (0, Istream rest false)
    | (ds, rest) =>
        if digits_value ds <? 2 ^ 32 then (digits_value ds, Istream rest true)
        else (2 ^ 32 - 1, Istream rest false)
    end
  else (old, f).

(** [from.get()]. *)
Definition get_char (f : istream) : istream :=
  if s_good f then
    match s_rest f with
    | _ :: rest => Istream rest true
    | [] => Istream [] false
    end
  else f.

(** [getline(from, v)]: up to the newline, which is consumed.  At the end of
    the file the characters read so far are returned and the stream is over. *)
Definition getline (f : istream) : str * istream :=
  if s_good f then
    match span (fun c => negb (bool_decide (c = newline))) (s_rest f) with
    | (l, _ :: rest) => (l, Istream rest true)
    | (l, []) => (l, Istream [] false)
    end
  else ([], f).

(** ** Writing *)

Definition log_append (a : acceptor) (l : str) : acceptor :=
  Acceptor (a_me a) (n_h a) (n_a a) (v_a a) (instance_h a) (values a) (logfile a ++ l).

Definition loginstance (instance : Z) (v : str) (a : acceptor) : acceptor :=
  log_append a (lit "done" ++ [space] ++ decimal instance ++ [space] ++ v ++ [newline]).
Definition logprop (n : prop_t) (a : acceptor) : acceptor :=
  log_append a (lit "propseen" ++ [space] ++ decimal (p_n n) ++ [space] ++ p_m n
                ++ [newline]).
Definition logaccept (n : prop_t) (v : str) (a : acceptor) : acceptor :=
  log_append a (lit "accepted" ++ [space] ++ decimal (p_n n) ++ [space] ++ p_m n
                ++ [space] ++ v ++ [newline]).

(** [dump]: the file line by line; an unfinished last line gets its newline. *)
Fixpoint dump_lines (fuel : nat) (f : istream) : str :=
  match fuel with
  | O => []
  | S fuel =>
      match getline f with
      | ([], Istream [] false) => []
      | (l, f') => l ++ [newline] ++ dump_lines fuel f'
      end
  end.
Definition dump (a : acceptor) : str :=
  dump_lines (S (length (logfile a))) (Istream (logfile a) true).
(** [restore]: the file is replaced. *)
Definition restore (s : str) (a : acceptor) : acceptor :=
  Acceptor (a_me a) (n_h a) (n_a a) (v_a a) (instance_h a) (values a) s.

(** ** Reading *)

(** One record of [logread], after its type was read. *)
Definition log_record (type : str) (a : acceptor) (f : istream)
  : outcome (acceptor * istream) :=
  if bool_decide (type = lit "done") then
    let '(i, f) := read_unsigned 0 f in
    let f := get_char f in
    let '(v, f) := getline f in
    Ret (Acceptor (a_me a) (Prop_t 0 (p_m (n_h a))) (Prop_t 0 (p_m (n_a a))) [] i
           (<[i := v]> (values a)) (logfile a), f)
  else if bool_decide (type = lit "propseen") then
    let '(n, f) := read_unsigned (p_n (n_h a)) f in
    let '(m, f) := read_token (p_m (n_h a)) f in
    Ret (Acceptor (a_me a) (Prop_t n m) (n_a a) (v_a a) (instance_h a) (values a)
           (logfile a), f)
  else if bool_decide (type = lit "accepted") then
    let '(n, f) := read_unsigned (p_n (n_a a)) f in
    let '(m, f) := read_token (p_m (n_a a)) f in
    let f := get_char f in
    let '(v, f) := getline f in
    Ret (Acceptor (a_me a) (n_h a) (Prop_t n m) v (instance_h a) (values a)
           (logfile a), f)
  else VerifyFail.

(** Every turn consumes a token, so the length of the file is fuel enough. *)
Fixpoint logread_loop (fuel : nat) (a : acceptor) (f : istream) : outcome acceptor :=
  match fuel with
  | O => Ret a
  | S fuel =>
      let '(type, f) := read_token [] f in
      if s_good f then
        '(a, f) ← log_record type a f;
        logread_loop fuel a f
      else Ret a
  end.
Definition logread (a : acceptor) : outcome acceptor :=
  logread_loop (S (length (logfile a))) a (Istream (logfile a) true).

(** ** The log as records *)

Inductive logrec := Done (i : Z) (v : str) | PropSeen (n : prop_t) | Accepted (n : prop_t) (v : str).

Definition print_rec (r : logrec) : str :=
  match r with
  | Done i v => lit "done" ++ [space] ++ decimal i ++ [space] ++ v ++ [newline]
  | PropSeen n => lit "propseen" ++ [space] ++ decimal (p_n n) ++ [space] ++ p_m n ++ [newline]
  | Accepted n v => lit "accepted" ++ [space] ++ decimal (p_n n) ++ [space] ++ p_m n
                    ++ [space] ++ v ++ [newline]
  end.

(** What a record stands for. *)
Definition apply_rec (a : acceptor) (r : logrec) : acceptor :=
  match r with
  | Done i v => Acceptor (a_me a) (Prop_t 0 (p_m (n_h a))) (Prop_t 0 (p_m (n_a a))) [] i
                  (<[i := v]> (values a)) (logfile a)
  | PropSeen n => Acceptor (a_me a) n (n_a a) (v_a a) (instance_h a) (values a) (logfile a)
  | Accepted n v => Acceptor (a_me a) (n_h a) n v (instance_h a) (values a) (logfile a)
  end.

(** Names are single words and values single lines. *)
Definition word (m : str) : Prop := m <> [] /\ Forall (fun c => is_space c = false) m.
Definition one_line (v : str) : Prop := Forall (fun c => c <> newline) v.
Definition wf_rec (r : logrec) : Prop :=
  match r with
  | Done i v => is_u32 i /\ one_line v
  | PropSeen n => is_u32 (p_n n) /\ word (p_m n)
  | Accepted n v => is_u32 (p_n n) /\ word (p_m n) /\ one_line v
  end.

(** ** Decimal numbers *)

Lemma is_digit_Z_to_char z : 0 <= z <= 9 -> is_digit (Z_to_char (48 + z)) = true.
Proof.
  intros. unfold is_digit. rewrite char_to_Z_to_char.
  apply andb_true_intro. split; apply Z.leb_le; width.
Qed.
Lemma digit_value z : 0 <= z <= 9 -> char_to_Z (Z_to_char (48 + z)) - 48 = z.
Proof. intros. rewrite char_to_Z_to_char. width. Qed.
Lemma is_digit_not_space c : is_digit c = true -> is_space c = false.
Proof.
  unfold is_digit, is_space. intros [H1 H2]%andb_prop.
  apply orb_false_iff. split; [|apply andb_false_iff; right]; lia.
Qed.

Lemma digits_value_snoc s c : digits_value (s ++ [c]) = digits_value s * 10 + (char_to_Z c - 48).
Proof. unfold digits_value. by rewrite foldl_app. Qed.

Lemma digits_single fuel n : n < 10 -> digits (S fuel) n = [Z_to_char (48 + n)].
Proof. intros. cbn [digits]. destruct (Z.ltb_spec n 10); [done|lia]. Qed.

Lemma digits_spec fuel n :
  0 <= n < 10 ^ Z.of_nat (S fuel) ->
  digits (S fuel) n <> [] /\ Forall (fun c => is_digit c = true) (digits (S fuel) n) /\
  digits_value (digits (S fuel) n) = n.
Proof.
  revert n. induction fuel as [|fuel IH]; intros n Hn;
    (destruct (Z.ltb_spec n 10) as [Hlt|Hge]; [rewrite digits_single by done|]).
  1, 3: split_and!; [done|repeat constructor; apply is_digit_Z_to_char; lia|];
    unfold digits_value; cbn [foldl]; rewrite digit_value; lia.
  - change (10 ^ Z.of_nat 1) with 10 in Hn. lia.
  - destruct (IH (n / 10)) as (IH1 & IH2 & IH3).
    { rewrite Nat2Z.inj_succ, Z.pow_succ_r in Hn by lia.
      split; [apply Z.div_pos; lia|apply Z.div_lt_upper_bound; lia]. }
    pose proof (Z.mod_pos_bound n 10 ltac:(lia)).
    assert (digits (S (S fuel)) n = digits (S fuel) (n / 10) ++ [Z_to_char (48 + n mod 10)])
      as ->.
    { cbn [digits]. destruct (Z.ltb_spec n 10); [lia|done]. }
    split_and!.
    + by destruct (digits (S fuel) (n / 10)).
    + apply Forall_app. split; [done|]. repeat constructor. apply is_digit_Z_to_char. lia.
    + rewrite digits_value_snoc, IH3, digit_value by lia.
      pose proof (Z.div_mod n 10). lia.
Qed.

Lemma decimal_spec n :
  is_u32 n ->
  decimal n <> [] /\ Forall (fun c => is_digit c = true) (decimal n) /\
  digits_value (decimal n) = n.
Proof. intros Hn. apply (digits_spec 9). change (10 ^ Z.of_nat 10) with 10000000000. width. Qed.

(** ** Reading back what was written *)

Lemma span_app p s c rest :
  Forall (fun x => p x = true) s -> p c = false -> span p (s ++ c :: rest) = (s, c :: rest).
Proof.
  intros Hs Hc. induction Hs as [|x s Hx Hs IH]; simpl; [by rewrite Hc|].
  by rewrite Hx, IH.
Qed.
Lemma skip_space_word c s : is_space c = false -> skip_space (c :: s) = c :: s.
Proof. intros H. simpl. by rewrite H. Qed.

Lemma read_token_word old m c rest :
  word m -> is_space c = true ->
  read_token old (Istream (m ++ c :: rest) true) = (m, Istream (c :: rest) true).
Proof.
  intros [Hne Hm] Hc. destruct m as [|x m]; [done|]. unfold read_token.
  cbn [s_good s_rest app]. rewrite skip_space_word by (by inversion Hm).
  change (x :: m ++ c :: rest) with ((x :: m) ++ c :: rest).
  rewrite (span_app _ (x :: m)); [done| |by rewrite Hc].
  eapply Forall_impl; [exact Hm|]. by intros y ->.
Qed.
Lemma read_token_space old f : read_token old (Istream (space :: f) true) = read_token old (Istream f true).
Proof. done. Qed.
Lemma read_unsigned_decimal old n c rest :
  is_u32 n -> is_digit c = false ->
  read_unsigned old (Istream (space :: decimal n ++ c :: rest) true)
    = (n, Istream (c :: rest) true).
Proof.
  intros Hn Hc. destruct (decimal_spec n Hn) as (Hne & Hd & Hv).
  unfold read_unsigned. cbn [s_good s_rest].
  change (skip_space (space :: decimal n ++ c :: rest)) with (skip_space (decimal n ++ c :: rest)).
  destruct (decimal n) as [|x ds] eqn:E; [done|].
  cbn [app]. rewrite skip_space_word by (inversion Hd; by apply is_digit_not_space).
  change (x :: ds ++ c :: rest) with ((x :: ds) ++ c :: rest).
  rewrite (span_app _ (x :: ds)) by done. cbn iota beta. rewrite Hv.
  destruct (Z.ltb_spec n (2 ^ 32)); [done|]. destruct Hn; lia.
Qed.
Lemma getline_line v rest :
  one_line v -> getline (Istream (v ++ newline :: rest) true) = (v, Istream rest true).
Proof.
  intros Hv. unfold getline. cbn [s_good s_rest]. rewrite span_app; [done| |done].
  eapply Forall_impl; [exact Hv|]. intros c Hc. by rewrite bool_decide_eq_false_2.
Qed.

(** One record is read back and the stream stands behind its line. *)
Lemma read_rec r a rest :
  wf_rec r ->
  exists type f, read_token [] (Istream (print_rec r ++ rest) true) = (type, f) /\
    s_good f = true /\ exists f', log_record type a f = Ret (apply_rec a r, f') /\
    (f' = Istream rest true \/ f' = Istream (newline :: rest) true).
Proof.
  intros Hr.
  assert (forall w, Forall (fun c => is_space c = false) (lit w) -> lit w <> [] ->
    forall t, read_token [] (Istream (lit w ++ space :: t) true)
              = (lit w, Istream (space :: t) true)) as Htype.
  { intros w Hw Hne t. by apply read_token_word. }
  destruct r as [i v|n|n v]; cbn [print_rec wf_rec apply_rec] in *;
    (eexists _, _; split; [rewrite <-!app_assoc; apply Htype; [by repeat constructor|done]|];
     split; [done|]); unfold log_record;
    repeat first [rewrite bool_decide_eq_true_2 by done
                 |rewrite bool_decide_eq_false_2 by done].
  - destruct Hr as [Hi Hv]. rewrite <-?app_assoc. cbn [app].
    rewrite read_unsigned_decimal by done. cbn [get_char s_good s_rest].
    rewrite getline_line by done. eauto.
  - destruct Hr as [Hn Hm]. rewrite <-?app_assoc. cbn [app].
    rewrite read_unsigned_decimal by done.
    rewrite read_token_space, read_token_word by done. destruct n. eauto.
  - destruct Hr as (Hn & Hm & Hv). rewrite <-?app_assoc. cbn [app].
    rewrite read_unsigned_decimal by done.
    rewrite read_token_space, read_token_word by done. cbn [get_char s_good s_rest].
    rewrite getline_line by done. destruct n. eauto.
Qed.

Lemma read_token_newline old s :
  read_token old (Istream (newline :: s) true) = read_token old (Istream s true).
Proof. done. Qed.

Lemma logread_loop_recs recs :
  Forall wf_rec recs ->
  forall fuel a f, (length recs < fuel)%nat ->
  let text := concat (print_rec <$> recs) in
  (f = Istream text true \/ f = Istream (newline :: text) true) ->
  logread_loop fuel a f = Ret (foldl apply_rec a recs).
Proof.
  induction 1 as [|r recs Hr _ IH]; intros fuel a f Hfuel text Hf;
    (destruct fuel as [|fuel]; [simpl in Hfuel; lia|]).
  { by destruct Hf as [-> | ->]. }
  assert (read_token [] f = read_token [] (Istream text true)) as E
    by (destruct Hf as [-> | ->]; [done|apply read_token_newline]).
  destruct (read_rec r a (concat (print_rec <$> recs)) Hr)
    as (type & f1 & E1 & Hg & f2 & E2 & Hf2).
  unfold text in E. rewrite fmap_cons in E. cbn [concat] in E.
  cbn [logread_loop]. rewrite E, E1. cbn beta iota. rewrite Hg, E2, outcome_bind_Ret.
  cbn beta iota. apply IH; [simpl in Hfuel; lia|done].
Qed.

Lemma print_rec_nonempty r : (1 <= length (print_rec r))%nat.
Proof. destruct r; simpl; lia. Qed.
Lemma logread_recs a recs :
  logfile a = concat (print_rec <$> recs) -> Forall wf_rec recs ->
  logread a = Ret (foldl apply_rec a recs).
Proof.
  intros Ha Hr. unfold logread. apply (logread_loop_recs recs Hr); [|left; by rewrite Ha].
  rewrite Ha. apply Nat.lt_succ_r. clear. induction recs as [|r recs IH]; [done|].
  rewrite fmap_cons. cbn [concat length]. rewrite length_app.
  pose proof (print_rec_nonempty r). lia.
Qed.

(** [dump] copies a file that ends with a newline. *)
Lemma dump_lines_copy fuel ls :
  Forall one_line ls -> (length ls < fuel)%nat ->
  dump_lines fuel (Istream (concat ((fun l => l ++ [newline]) <$> ls)) true)
    = concat ((fun l => l ++ [newline]) <$> ls).
Proof.
  intros Hls. revert fuel. induction Hls as [|l ls Hl _ IH]; intros fuel Hf;
    (destruct fuel as [|fuel]; [simpl in Hf; lia|]); [done|].
  rewrite fmap_cons. cbn [concat]. rewrite <-app_assoc. cbn [dump_lines app].
  rewrite getline_line by done.
  specialize (IH fuel ltac:(simpl in Hf; lia)).
  destruct (concat _); destruct l; cbn [app]; by rewrite IH.
Qed.

(** A record is one line. *)
Lemma word_one_line m : word m -> one_line m.
Proof. intros [_ Hm]. eapply Forall_impl; [exact Hm|]. by intros c Hc ->. Qed.
Lemma decimal_one_line n : is_u32 n -> one_line (decimal n).
Proof.
  intros Hn. destruct (decimal_spec n Hn) as (_ & Hd & _).
  eapply Forall_impl; [exact Hd|]. by intros c Hc ->.
Qed.
Lemma print_rec_line r : wf_rec r -> exists l, print_rec r = l ++ [newline] /\ one_line l.
Proof.
  destruct r as [i v|n|n v]; cbn [wf_rec print_rec]; intros Hr.
  - exists (lit "done" ++ [space] ++ decimal i ++ [space] ++ v).
    split; [by rewrite <-!app_assoc|]. destruct Hr.
    repeat apply Forall_app_2;
      first [assumption|by apply decimal_one_line|by apply word_one_line|by repeat constructor].
  - exists (lit "propseen" ++ [space] ++ decimal (p_n n) ++ [space] ++ p_m n).
    split; [by rewrite <-!app_assoc|]. destruct Hr.
    repeat apply Forall_app_2;
      first [assumption|by apply decimal_one_line|by apply word_one_line|by repeat constructor].
  - exists (lit "accepted" ++ [space] ++ decimal (p_n n) ++ [space] ++ p_m n ++ [space] ++ v).
    split; [by rewrite <-!app_assoc|]. destruct Hr as (? & ? & ?).
    repeat apply Forall_app_2;
      first [assumption|by apply decimal_one_line|by apply word_one_line|by repeat constructor].
Qed.
Lemma print_recs_lines recs :
  Forall wf_rec recs ->
  exists ls, concat (print_rec <$> recs) = concat ((fun l => l ++ [newline]) <$> ls) /\
    Forall one_line ls.
Proof.
  induction 1 as [|r recs Hr _ (ls & IH & Hls)]; [by exists []|].
  destruct (print_rec_line r Hr) as (l & E & Hl). exists (l :: ls).
  rewrite !fmap_cons. cbn [concat]. rewrite E, IH. split; [done|by constructor].
Qed.
Lemma dump_recs a recs :
  logfile a = concat (print_rec <$> recs) -> Forall wf_rec recs -> dump a = logfile a.
Proof.
  intros Ha Hr. destruct (print_recs_lines recs Hr) as (ls & E & Hls).
  unfold dump. rewrite Ha, E. apply dump_lines_copy; [done|].
  apply Nat.lt_succ_r. clear. induction ls as [|l ls IH]; [done|].
  rewrite fmap_cons. cbn [concat length]. rewrite !length_app. cbn. lia.
Qed.

(** ** Properties *)

(** C23. The log is durable text: whatever the acceptor appended with
    [loginstance], [logprop] and [logaccept] (numbers within 32 bits, names
    without blanks, values without newlines), [logread] reads it to the end and
    rebuilds exactly the state those records stand for. *)
Theorem logread_replays a recs :
  Forall wf_rec recs ->
  let written := foldl (fun a r => match r with
                          | Done i v => loginstance i v a
                          | PropSeen n => logprop n a
                          | Accepted n v => logaccept n v a
                          end) (restore [] a) recs in
  logread written = Ret (foldl apply_rec written recs).
Proof.
  intros Hr written. apply logread_recs; [|done]. unfold written.
  assert (forall b, logfile (foldl (fun a r => match r with
            | Done i v => loginstance i v a | PropSeen n => logprop n a
            | Accepted n v => logaccept n v a end) b recs)
          = logfile b ++ concat (print_rec <$> recs)) as Hlog; [|apply Hlog].
  clear Hr written. induction recs as [|r recs IH]; intros b; cbn [foldl].
  { by rewrite app_nil_r. }
  rewrite IH, fmap_cons. cbn [concat]. rewrite app_assoc. f_equal. by destruct r.
Qed.
Lemma logread_replays_witness :
  let recs := [PropSeen (Prop_t 4 (lit "host:1")); Accepted (Prop_t 4 (lit "host:1")) (lit "a b");
               Done 17 (lit "a b"); PropSeen (Prop_t 1 (lit "x"))] in
  let a := Acceptor (lit "me") (Prop_t 0 []) (Prop_t 0 []) [] 0 ∅ [] in
  let written := foldl (fun a r => match r with
                          | Done i v => loginstance i v a
                          | PropSeen n => logprop n a
                          | Accepted n v => logaccept n v a
                          end) (restore [] a) recs in
  logread written = Ret (foldl apply_rec written recs).
Proof.
  intros recs a. apply (logread_replays a recs). unfold recs.
  repeat apply Forall_cons_2; try apply Forall_nil_2;
    repeat split; try done; try (vm_compute; congruence); repeat constructor; done.
Defined.

(** Catching up: a node that receives another node's [dump] and restores it
    reads back the state of the sender's records, on top of its own. *)
Theorem dump_restore_catches_up a b recs :
  logfile a = concat (print_rec <$> recs) -> Forall wf_rec recs ->
  logread (restore (dump a) b) = Ret (foldl apply_rec (restore (dump a) b) recs).
Proof.
  intros Ha Hr. apply logread_recs; [|done]. cbn [restore logfile].
  by rewrite (dump_recs a recs Ha Hr).
Qed.
Lemma dump_restore_catches_up_witness :
  let recs := [Done 1 (lit "v1"); PropSeen (Prop_t 3 (lit "q"))] in
  let a := Acceptor (lit "a") (Prop_t 3 (lit "q")) (Prop_t 0 (lit "a")) [] 1
             {[ 1 := lit "v1" ]} (concat (print_rec <$> recs)) in
  let b := Acceptor (lit "b") (Prop_t 0 (lit "b")) (Prop_t 0 (lit "b")) [] 0 ∅ [] in
  logread (restore (dump a) b) = Ret (foldl apply_rec (restore (dump a) b) recs).
Proof.
  intros recs a b. apply (dump_restore_catches_up a b recs); [done|]. unfold recs.
  repeat apply Forall_cons_2; try apply Forall_nil_2;
    repeat split; try done; try (vm_compute; congruence); repeat constructor; done.
Defined.
