(* ===== verification/Address.v ===== *)
(** * Names and addresses: [rpc.cc], the identities of lock clients, [yfs_client.cc]

    Texts that stand for addresses and numbers: [make_sockaddr] takes a
    [host:port] apart, a lock client makes one of its own port for the server to
    call it back, and [yfs_client] writes and reads file numbers in decimal. *)
From S2P Require Import Prelude Log.

(** ** Socket addresses *)

(** Both numbers are in network byte order. *)
Record sockaddr_in := SockaddrIn { s_addr : Z; sin_port : Z }.
Definition htons (p : Z) : Z := u8 p * 256 + u8 (p `div` 256).
(** [operator<]. *)
Definition sockaddr_ltb (a b : sockaddr_in) : bool :=
  (s_addr a <? s_addr b) || ((s_addr a =? s_addr b) && (sin_port a <? sin_port b)).

(** The part of a text before the first colon and the part after it. *)
Definition split_colon (t : str) : str * option str :=
  match span (fun c => negb (bool_decide (c = ":"%char))) t with
  | (h, _ :: p) => (h, Some p)
  | (h, []) => (h, None)
  end.
(** [atoi] on the characters it uses: spaces, a sign and digits; a number that
    does not fit an [int] is undefined. *)
Definition atoi (t : str) : outcome Z :=
  let '(neg, t) := match skip_space t with
                   | c :: t => if decide (c = "-"%char) then (true, t)
                               else if decide (c = "+"%char) then (false, t) else (false, c :: t)
                   | [] => (false, [])
                   end in
  let n := digits_value (span is_digit t).1 in
  let n := if neg : bool then - n else n in
  if (- 2 ^ 31 <=? n) && (n <? 2 ^ 31) then Ret n else UB.

Section resolver.
(** [inet_addr] ([None] for [INADDR_NONE]) and [gethostbyname] ([None] when there
    is no such host, or its address has another length). *)
Context (inet_addr : str -> option Z) (gethostbyname : str -> option Z).

(** [make_sockaddr(host, port, dst)]: an unknown host ends the process; the port
    is cut to 16 bits. *)
Definition make_sockaddr2 (host port : str) : outcome sockaddr_in :=
  a ← (match inet_addr host with
       | Some a => Ret a
       | None => match gethostbyname host with Some a => Ret a | None => VerifyFail end
       end);
  p ← atoi port;
  Ret (SockaddrIn a (htons (u16 p))).
(** [make_sockaddr(hostandport, dst)]: the host is copied to a buffer of 200
    characters, which it and its terminator must fit. *)
Definition make_sockaddr (hostandport : str) : outcome sockaddr_in :=
  match split_colon hostandport with
  | (_, None) => make_sockaddr2 (lit "127.0.0.1") hostandport
  | (host, Some port) =>
      if (length host <? 200)%nat then make_sockaddr2 host port else UB
  end.

(** The identity of a lock client whose callbacks are served at [port]. *)
Definition client_id (port : Z) : str := lit "127.0.0.1" ++ lit ":" ++ decimal port.

(** ** Lemmas *)

Lemma span_all p s : Forall (fun x => p x = true) s -> span p s = (s, []).
Proof. induction 1 as [|x s Hx _ IH]; [done|]. cbn. by rewrite Hx, IH. Qed.
Lemma split_colon_port h p : ":"%char ∉ h -> split_colon (h ++ ":"%char :: p) = (h, Some p).
Proof.
  intros Hh. unfold split_colon. rewrite span_app; [done| |done].
  apply Forall_forall. intros c Hc. rewrite bool_decide_eq_false_2; [done|]. by intros ->.
Qed.
Lemma split_no_colon t : ":"%char ∉ t -> split_colon t = (t, None).
Proof.
  intros Ht. unfold split_colon. rewrite span_all; [done|].
  apply Forall_forall. intros c Hc. rewrite bool_decide_eq_false_2; [done|]. by intros ->.
Qed.
Lemma decimal_no_colon n : is_u32 n -> ":"%char ∉ decimal n.
Proof.
  intros Hn Hin. destruct (decimal_spec n Hn) as (_ & Hd & _).
  by apply (proj1 (Forall_forall _ _) Hd) in Hin.
Qed.
Lemma atoi_decimal n : 0 <= n < 2 ^ 31 -> atoi (decimal n) = Ret n.
Proof.
  intros Hn. destruct (decimal_spec n) as (Hne & Hd & Hv); [split; lia|].
  unfold atoi. destruct (decimal n) as [|c ds] eqn:E; [done|].
  pose proof (Forall_inv Hd) as Hc. rewrite skip_space_word by by apply is_digit_not_space.
  rewrite decide_False, decide_False by (by intros ->).
  rewrite span_all by done. cbn [fst]. rewrite Hv.
  destruct (Z.leb_spec (- 2 ^ 31) n); [|lia]. by destruct (Z.ltb_spec n (2 ^ 31)); [|lia].
Qed.
Lemma make_sockaddr2_port host a p :
  inet_addr host = Some a -> 0 <= p < 2 ^ 16 -> make_sockaddr2 host (decimal p) = Ret (SockaddrIn a (htons p)).
Proof.
  intros Ha Hp. unfold make_sockaddr2. rewrite Ha, outcome_bind_Ret, atoi_decimal, outcome_bind_Ret by lia.
  do 2 f_equal. unfold u16. by rewrite Z.mod_small.
Qed.

(** ** Properties *)

(** The bytes of a port are swapped, which loses nothing. *)
Lemma htons_involutive p : is_u16 p -> htons (htons p) = p.
Proof. intros. unfold htons. width. Qed.
(** A [host:port], or a port alone, is taken apart as it was put together; a host
    of 200 characters or more overruns the buffer. *)
Theorem make_sockaddr_spec host p a :
  0 <= p < 2 ^ 16 -> ":"%char ∉ host -> inet_addr host = Some a ->
  make_sockaddr (host ++ ":"%char :: decimal p) =
    (if decide (length host < 200)%nat then Ret (SockaddrIn a (htons p)) else UB) /\
  forall l, inet_addr (lit "127.0.0.1") = Some l ->
    make_sockaddr (decimal p) = Ret (SockaddrIn l (htons p)) /\
    make_sockaddr (client_id p) = Ret (SockaddrIn l (htons p)).
Proof.
  intros Hp Hh Ha. unfold make_sockaddr, client_id. rewrite split_colon_port by done. split.
  - destruct (Nat.ltb_spec (length host) 200); [rewrite decide_True by done|by rewrite decide_False by lia].
    by apply make_sockaddr2_port.
  - intros l Hl. rewrite split_no_colon by (apply decimal_no_colon; split; lia).
    split; [by apply make_sockaddr2_port|].
    change (lit ":" ++ decimal p) with (":"%char :: decimal p).
    rewrite (split_colon_port (lit "127.0.0.1") (decimal p)) by by apply (bool_decide_unpack _); vm_compute.
    by apply make_sockaddr2_port.
Qed.
End resolver.

(** [operator<] orders addresses: it is irreflexive and transitive, and two
    addresses that it does not order are equal. *)
Theorem sockaddr_order a b c :
  sockaddr_ltb a a = false /\
  (sockaddr_ltb a b = true -> sockaddr_ltb b c = true -> sockaddr_ltb a c = true) /\
  (sockaddr_ltb a b = false -> sockaddr_ltb b a = false -> a = b).
Proof.
  destruct a as [a1 a2], b as [b1 b2], c as [c1 c2]. unfold sockaddr_ltb. cbn.
  split_and!; [lia|lia|]. intros H1 H2. f_equal; lia.
Qed.

(** ** File numbers *)

(** [from >> unsigned long long] into a variable that holds [old]. *)
Definition read_ull (old : Z) (f : istream) : Z * istream :=
  if s_good f then
    match span is_digit (skip_space (s_rest f)) with
    | ([], []) => (old, Istream [] false)
    | ([], rest) => (0, Istream rest false)
    | (ds, rest) =>
        if digits_value ds <? 2 ^ 64 then (digits_value ds, Istream rest true)
        else (2 ^ 64 - 1, Istream rest false)
    end
  else (old, f).
(** [yfs_client::n2i]: [finum] is not initialised. *)
Definition n2i (garbage : Z) (n : str) : Z := (read_ull garbage (Istream n true)).1.
(** [yfs_client::filename]: twenty digits hold an [unsigned long long]. *)
Definition filename (inum : Z) : str := digits 20 inum.

(** A file number is read back from its name. *)
Theorem filename_n2i inum garbage : is_u64 inum -> n2i garbage (filename inum) = inum.
Proof.
  intros Hi. destruct (digits_spec 19 inum) as (Hne & Hd & Hv).
  { change (10 ^ Z.of_nat 20) with 100000000000000000000. width. }
  unfold n2i, filename, read_ull. cbn [s_good s_rest].
  destruct (digits 20 inum) as [|c ds] eqn:E; [done|].
  pose proof (Forall_inv Hd) as Hc. rewrite skip_space_word by by apply is_digit_not_space.
  rewrite span_all by done. rewrite Hv. destruct (Z.ltb_spec inum (2 ^ 64)); [done|]. destruct Hi; lia.
Qed.
