(* ===== verification/Paxos.v ===== *)
(** * Paxos: the acceptor's handlers and the proposer

    [paxos.cc].  The handlers of an acceptor run under its mutex and are
    functions on its state; upcalls to [paxos_change::paxos_commit] are outputs.
    The proposer talks to the other nodes by RPC: the calls are parameters of
    the proposer's section, given a world [W] that they read and change. *)
From S2P Require Import Prelude Marshall Protocols Log.
Import paxos_protocol.

(** ** Proposal numbers and member lists *)

Definition prop_gt (a b : prop_t) : bool :=
  (p_n b <? p_n a) || ((p_n a =? p_n b) && str_ltb (p_m b) (p_m a)).
Definition prop_ge (a b : prop_t) : bool :=
  (p_n b <? p_n a) || ((p_n a =? p_n b) && negb (str_ltb (p_m a) (p_m b))).

(** [print_members]: the names with a comma after all but the last. *)
Fixpoint print_members (nodes : list str) : str :=
  match nodes with
  | [] => []
  | [n] => n
  | n :: nodes => n ++ lit "," ++ print_members nodes
  end.

Fixpoint isamember (m : str) (nodes : list str) : bool :=
  match nodes with
  | [] => false
  | n :: nodes => if bool_decide (n = m) then true else isamember m nodes
  end.

(** [majority(l1, l2)]: the servers of [l2] contain a majority of [l1]. *)
Definition majority (l1 l2 : list str) : bool :=
  let n := foldl (fun n m => if isamember m l2 then u32 (n + 1) else n) 0 l1 in
  Z.shiftr (Z.of_nat (length l1)) 1 + 1 <=? n.

(** ** The acceptor *)

Definition set_n_h (a : acceptor) (n : prop_t) : acceptor :=
  Acceptor (a_me a) n (n_a a) (v_a a) (instance_h a) (values a) (logfile a).
Definition set_accepted (a : acceptor) (n : prop_t) (v : str) : acceptor :=
  Acceptor (a_me a) (n_h a) n v (instance_h a) (values a) (logfile a).
Definition set_values (a : acceptor) (m : gmap Z str) : acceptor :=
  Acceptor (a_me a) (n_h a) (n_a a) (v_a a) (instance_h a) m (logfile a).

(** The constructor, on the log file [file] left by an earlier run. *)
Definition acceptor_new (first : bool) (me value file : str) : outcome acceptor :=
  a ← logread (Acceptor me (Prop_t 0 me) (Prop_t 0 me) [] 0 ∅ file);
  if (instance_h a =? 0) && first then
    let a := set_values a (<[1 := value]> (values a)) in
    let a := loginstance 1 value a in
    Ret (Acceptor (a_me a) (n_h a) (n_a a) (v_a a) 1 (values a) (logfile a))
  else Ret a.

Definition preparereq (src : str) (arg : preparearg) (r : prepareres) (a : acceptor)
  : outcome (Z * prepareres * acceptor) :=
  if pa_instance arg <=? instance_h a then
    (* [values[a.instance]] creates the entry when it is missing *)
    let v := std_ref [] (values a) (pa_instance arg) in
    Ret (OK, PrepareRes true false (pr_n_a r) v,
         set_values a (std_touch [] (values a) (pa_instance arg)))
  else if prop_gt (pa_n arg) (n_h a) then
    let a := logprop (pa_n arg) (set_n_h a (pa_n arg)) in
    Ret (OK, PrepareRes false true (n_a a) (v_a a), a)
  else Ret (OK, PrepareRes false false (n_a a) (v_a a), a).

(** [a.instance] is not looked at. *)
Definition acceptreq (src : str) (arg : acceptarg) (r : bool) (a : acceptor)
  : outcome (Z * bool * acceptor) :=
  if prop_ge (aa_n arg) (n_h a) then
    Ret (OK, true, logaccept (aa_n arg) (aa_v arg) (set_accepted a (aa_n arg) (aa_v arg)))
  else Ret (OK, false, a).

(** [commit_wo]; the list holds the upcall [paxos_commit(instance, value)]. *)
Definition commit_wo (instance : Z) (value : str) (a : acceptor)
  : acceptor * list (Z * str) :=
  if instance_h a <? instance then
    let a := loginstance instance value (set_values a (<[instance := value]> (values a))) in
    (Acceptor (a_me a) (Prop_t 0 (a_me a)) (Prop_t 0 (a_me a)) [] instance (values a)
       (logfile a), [(instance, value)])
  else (a, []).
Definition commit (instance : Z) (value : str) (a : acceptor)
  : acceptor * list (Z * str) := commit_wo instance value a.

Definition decidereq (src : str) (arg : decidearg) (a : acceptor)
  : outcome (Z * acceptor * list (Z * str)) :=
  if da_instance arg =? u32 (instance_h a + 1) then
    _ ← VERIFY (bool_decide (v_a a = da_v arg));
    let '(a, up) := commit_wo (da_instance arg) (v_a a) a in
    Ret (OK, a, up)
  else if da_instance arg <=? instance_h a then Ret (OK, a, [])
  else VerifyFail.

(** [acceptor::restore]. *)
Definition acceptor_restore (s : str) (a : acceptor) : outcome acceptor :=
  logread (restore s a).

(** ** The proposer *)

Record proposer := Proposer {
  p_me : str; break1 : bool; break2 : bool; stable : bool; my_n : prop_t
}.
Definition proposer_new (me : str) : proposer := Proposer me false false true (Prop_t 0 me).
Definition isrunning (p : proposer) : bool := negb (stable p).

(** [setn], given the highest number the local acceptor has seen. *)
Definition setn (acc_n_h : prop_t) (p : proposer) : proposer :=
  let n := if u32 (p_n (my_n p) + 1) <? u32 (p_n acc_n_h + 1)
           then u32 (p_n acc_n_h + 1) else u32 (p_n (my_n p) + 1) in
  Proposer (p_me p) (break1 p) (break2 p) (stable p) (Prop_t n (p_m (my_n p))).

Definition set_stable (p : proposer) (b : bool) : proposer :=
  Proposer (p_me p) (break1 p) (break2 p) b (my_n p).

(** [breakpoint(3)] and [breakpoint(4)] arm the two test exits. *)
Definition breakpoint (b : Z) (p : proposer) : proposer :=
  if b =? 3 then Proposer (p_me p) true (break2 p) (stable p) (my_n p)
  else if b =? 4 then Proposer (p_me p) (break1 p) true (stable p) (my_n p)
  else p.

(** What the loop of [prepare] has collected: the nodes that accepted, the value
    with the highest [n_a] and that [n_a]. *)
Record collected := Collected { c_accepts : list str; c_v : str; c_max_n : prop_t }.
Definition collect0 (v : str) : collected := Collected [] v (Prop_t 0 []).
(** The body of the loop for a reply [r] with status [ret] of node [node]; [None]
    when the node has already decided the instance. *)
Definition prepare_reply (node : str) (ret : Z) (r : prepareres) (c : collected)
  : option collected :=
  if pr_oldinstance r && (ret =? OK) then None
  else if pr_accept r && (ret =? OK) then
    if prop_gt (pr_n_a r) (c_max_n c)
    then Some (Collected (c_accepts c ++ [node]) (pr_v_a r) (pr_n_a r))
    else Some (Collected (c_accepts c ++ [node]) (c_v c) (c_max_n c))
  else Some c.

Section proposer.
Context {W : Type}.
(** [safebind] of a node; the three RPCs, with the value their reference
    parameter held before; [acc->commit] and [acc->get_n_h] of the local
    acceptor. *)
Variables (binds : str -> W -> bool * W)
  (call_prepare : str -> preparearg -> prepareres -> W -> Z * prepareres * W)
  (call_accept : str -> acceptarg -> W -> Z * bool * W)
  (call_decide : str -> decidearg -> W -> W)
  (acc_commit : Z -> str -> W -> W)
  (acc_n_h : W -> prop_t).

(** [proposer::prepare]; the reply variable [r] is shared by all calls.  The
    result is [None] after an "oldinstance" reply. *)
Fixpoint prepare_loop (a : preparearg) (nodes : list str) (r : prepareres)
    (c : collected) (w : W) : option collected * W :=
  match nodes with
  | [] => (Some c, w)
  | node :: nodes =>
      let '(bound, w) := binds node w in
      if bound then
        let '(ret, r, w) := call_prepare node a r w in
        match prepare_reply node ret r c with
        | None => (None, acc_commit (pa_instance a) (pr_v_a r) w)
        | Some c => prepare_loop a nodes r c w
        end
      else prepare_loop a nodes r c w
  end.
Definition prepare (instance : Z) (nodes : list str) (v : str) (p : proposer) (w : W)
  : option collected * W :=
  prepare_loop (PrepareArg instance (my_n p)) nodes
    (PrepareRes false false (Prop_t 0 []) []) (collect0 v) w.

(** [proposer::accept]; [a.instance] is never assigned: [junk] is what it
    holds. *)
Fixpoint accept (junk : Z) (nodes : list str) (v : str) (accepts : list str)
    (p : proposer) (w : W) : outcome (list str * W) :=
  match nodes with
  | [] => Ret (accepts, w)
  | node :: nodes =>
      let '(bound, w) := binds node w in
      _ ← VERIFY bound;
      let '(ret, r, w) := call_accept node (AcceptArg junk (my_n p) v) w in
      accept junk nodes v (if r && (ret =? OK) then accepts ++ [node] else accepts) p w
  end.

Fixpoint decide_nodes (instance : Z) (accepts : list str) (v : str) (w : W) : outcome W :=
  match accepts with
  | [] => Ret w
  | node :: accepts =>
      let '(bound, w) := binds node w in
      _ ← VERIFY bound;
      decide_nodes instance accepts v (call_decide node (DecideArg instance v) w)
  end.

(** [proposer::run]; an armed breakpoint ends the process. *)
Definition run (junk instance : Z) (cur_nodes : list str) (newv : str) (p : proposer)
    (w : W) : outcome (bool * proposer * W) :=
  if negb (stable p) then Ret (false, p, w)
  else
    let p := setn (acc_n_h w) (set_stable p false) in
    match prepare instance cur_nodes [] p w with
    | (None, w) => Ret (false, set_stable p true, w)
    | (Some c, w) =>
        if majority cur_nodes (c_accepts c) then
          let v := if decide (c_v c = []) then newv else c_v c in
          _ ← VERIFY (negb (break1 p));
          '(accepts, w) ← accept junk (c_accepts c) v [] p w;
          if majority cur_nodes accepts then
            _ ← VERIFY (negb (break2 p));
            w ← decide_nodes instance accepts v w;
            Ret (true, set_stable p true, w)
          else Ret (false, set_stable p true, w)
        else Ret (false, set_stable p true, w)
    end.
End proposer.

(** ** Proposal numbers are totally ordered *)

Lemma prop_gt_irrefl a : prop_gt a a = false.
Proof. unfold prop_gt. rewrite Z.ltb_irrefl, Z.eqb_refl. apply str_ltb_irrefl. Qed.
Lemma prop_gt_spec a b :
  prop_gt a b = true <-> p_n b < p_n a \/ (p_n a = p_n b /\ str_ltb (p_m b) (p_m a) = true).
Proof. unfold prop_gt. by rewrite orb_true_iff, andb_true_iff, Z.ltb_lt, Z.eqb_eq. Qed.
Lemma prop_gt_trans a b c : prop_gt a b = true -> prop_gt b c = true -> prop_gt a c = true.
Proof.
  rewrite !prop_gt_spec. intros [H1|[H1 H1']] [H2|[H2 H2']]; try (left; lia).
  right. split; [lia|]. by apply (str_ltb_trans _ (p_m b)).
Qed.
Lemma prop_gt_total a b : prop_gt a b = false -> prop_gt b a = false -> a = b.
Proof.
  unfold prop_gt. rewrite !orb_false_iff, !andb_false_iff. intros [H1 H2] [H3 H4].
  assert (p_n a = p_n b) as E by lia. destruct a as [n m], b as [n' m']; cbn in *. subst.
  f_equal. apply str_ltb_trichotomy; [destruct H4|destruct H2]; try done; lia.
Qed.
Lemma prop_ge_gt a b : prop_ge a b = negb (prop_gt b a).
Proof.
  unfold prop_ge, prop_gt. destruct (Z.ltb_spec (p_n b) (p_n a)), (Z.ltb_spec (p_n a) (p_n b)),
    (Z.eqb_spec (p_n a) (p_n b)), (Z.eqb_spec (p_n b) (p_n a)); try lia; done.
Qed.
Lemma prop_gt_asym a b : prop_gt a b = true -> prop_gt b a = false.
Proof.
  intros H. destruct (prop_gt b a) eqn:E; [|done].
  pose proof (prop_gt_trans _ _ _ H E) as C. by rewrite prop_gt_irrefl in C.
Qed.
(** [a <= b < c] and [a < b <= c]. *)
Lemma prop_le_lt_trans a b c : prop_gt a b = false -> prop_gt c b = true -> prop_gt c a = true.
Proof.
  intros Hab Hcb. destruct (prop_gt b a) eqn:E; [by apply (prop_gt_trans _ b)|].
  by rewrite (prop_gt_total a b).
Qed.
Lemma prop_lt_le_trans a b c : prop_gt b a = true -> prop_gt b c = false -> prop_gt c a = true.
Proof.
  intros Hab Hcb. destruct (prop_gt c b) eqn:E; [by apply (prop_gt_trans _ b)|].
  by rewrite (prop_gt_total c b).
Qed.
Lemma prop_le_trans a b c : prop_gt a b = false -> prop_gt b c = false -> prop_gt a c = false.
Proof.
  intros Hab Hbc. destruct (prop_gt a c) eqn:E; [|done].
  pose proof (prop_lt_le_trans _ _ _ E Hab). congruence.
Qed.

(** ** Majorities intersect *)

Lemma isamember_spec m l : isamember m l = true <-> m ∈ l.
Proof.
  induction l as [|x l IH]; simpl; [by rewrite elem_of_nil|].
  rewrite elem_of_cons. case_bool_decide; [naive_solver|]. rewrite IH. naive_solver.
Qed.

Definition members_in (l1 l2 : list str) : list str := filter (fun m => m ∈ l2) l1.

Lemma majority_eq l1 l2 :
  Z.of_nat (length l1) < 2 ^ 32 ->
  majority l1 l2 = bool_decide (length l1 < 2 * length (members_in l1 l2))%nat.
Proof.
  intros Hl. unfold majority.
  assert (forall n, 0 <= n -> n + Z.of_nat (length l1) < 2 ^ 32 ->
    foldl (fun n m => if isamember m l2 then u32 (n + 1) else n) n l1
      = n + Z.of_nat (length (members_in l1 l2))) as Hfold.
  { clear Hl. unfold members_in. induction l1 as [|x l1 IH]; intros n Hn Hb; cbn [foldl].
    { cbn. lia. }
    cbn [length] in Hb. rewrite filter_cons. destruct (isamember x l2) eqn:E.
    - rewrite decide_True by (by apply isamember_spec).
      rewrite u32_id by (split; lia). rewrite IH by lia. cbn [length]. lia.
    - rewrite decide_False by (rewrite <-isamember_spec; congruence). apply IH; lia. }
  rewrite Hfold by lia. rewrite Z.shiftr_div_pow2 by lia.
  change (2 ^ 1) with 2. pose proof (Z.div_mod (Z.of_nat (length l1)) 2).
  pose proof (Z.mod_pos_bound (Z.of_nat (length l1)) 2).
  case_bool_decide; [apply Z.leb_le|apply Z.leb_gt]; lia.
Qed.
Lemma majority_count l1 l2 :
  Z.of_nat (length l1) < 2 ^ 32 ->
  majority l1 l2 = true -> (length l1 < 2 * length (members_in l1 l2))%nat.
Proof. intros Hl. rewrite majority_eq by done. by intros ?%bool_decide_eq_true. Qed.
(** More nodes are no smaller a majority. *)
Lemma majority_mono l l1 l2 :
  Z.of_nat (length l) < 2 ^ 32 -> (forall m, m ∈ l -> m ∈ l1 -> m ∈ l2) ->
  majority l l1 = true -> majority l l2 = true.
Proof.
  intros Hl Hsub. rewrite !majority_eq by done. rewrite !bool_decide_eq_true.
  enough (length (members_in l l1) <= length (members_in l l2))%nat by lia.
  unfold members_in. clear Hl. induction l as [|x l IH]; [done|]. rewrite !filter_cons.
  assert (length (filter (fun m => m ∈ l1) l) <= length (filter (fun m => m ∈ l2) l))%nat.
  { apply IH. intros m ?. apply Hsub. by right. }
  destruct (decide (x ∈ l1)) as [Hx|]; [|destruct (decide (x ∈ l2)); cbn [length]; lia].
  rewrite decide_True by (apply Hsub; [by left|done]). cbn [length]. lia.
Qed.

Lemma majority_intersect l l1 l2 :
  Z.of_nat (length l) < 2 ^ 32 ->
  majority l l1 = true -> majority l l2 = true -> exists m, m ∈ l1 /\ m ∈ l2.
Proof.
  intros Hl H1%majority_count H2%majority_count; [|done..].
  destruct (decide (Exists (fun m => m ∈ l1 /\ m ∈ l2) l)) as [Hex|Hno].
  - apply Exists_exists in Hex as (m & _ & ?). eauto.
  - exfalso. rewrite Exists_exists in Hno.
    assert (length (members_in l l1) + length (members_in l l2) <= length l)%nat; [|lia].
    clear H1 H2 Hl. unfold members_in. induction l as [|x l IH]; [done|].
    rewrite !filter_cons. cbn [length].
    assert (length (filter (fun m => m ∈ l1) l) + length (filter (fun m => m ∈ l2) l)
              <= length l)%nat.
    { apply IH. intros (m & ? & ? & ?). apply Hno. exists m. split; [by right|done]. }
    destruct (decide (x ∈ l1)), (decide (x ∈ l2)); cbn [length]; try lia.
    exfalso. apply Hno. exists x. split; [by left|done].
Qed.

(** ** Recovery from the log *)

(** The operations that change an acceptor, with the arguments they can get:
    32-bit numbers, names without blanks and values on one line. *)
Inductive acc_op :=
  | OPrepare (arg : preparearg) | OAccept (arg : acceptarg)
  | ODecide (arg : decidearg) | OCommit (i : Z) (v : str).
Definition valid_op (op : acc_op) : Prop :=
  match op with
  | OPrepare arg => is_u32 (p_n (pa_n arg)) /\ word (p_m (pa_n arg))
  | OAccept arg => is_u32 (p_n (aa_n arg)) /\ word (p_m (aa_n arg)) /\ one_line (aa_v arg)
  | ODecide arg => is_u32 (da_instance arg)
  | OCommit i v => is_u32 i /\ one_line v
  end.
Definition acc_step (a : acceptor) (op : acc_op) : outcome acceptor :=
  match op with
  | OPrepare arg => '(_, _, a) ← preparereq [] arg (PrepareRes false false (Prop_t 0 []) []) a;
                    Ret a
  | OAccept arg => '(_, _, a) ← acceptreq [] arg false a; Ret a
  | ODecide arg => '(_, a, _) ← decidereq [] arg a; Ret a
  | OCommit i v => Ret (commit i v a).1
  end.
Definition acc_steps (a : acceptor) (ops : list acc_op) : outcome acceptor :=
  foldl (fun a op => a ← a; acc_step a op) (Ret a) ops.

(** The same state, as far as the protocol can tell: a proposal number 0 has no
    owner, and an instance without an entry has the empty value. *)
Record same_state (a b : acceptor) : Prop := {
  ss_n_h : p_n (n_h a) = p_n (n_h b) /\ (p_n (n_h a) <> 0 -> n_h a = n_h b);
  ss_n_a : p_n (n_a a) = p_n (n_a b) /\ (p_n (n_a a) <> 0 -> n_a a = n_a b);
  ss_v_a : v_a a = v_a b;
  ss_inst : instance_h a = instance_h b;
  ss_values : forall i, std_ref [] (values a) i = std_ref [] (values b) i;
}.

(** [a] is what its log says, read by a node that starts with state [b]. *)
Definition logged (b a : acceptor) : Prop :=
  exists recs, logfile a = concat (print_rec <$> recs) /\ Forall wf_rec recs /\
    same_state a (foldl apply_rec b recs) /\ one_line (v_a a).

Lemma logged_append b a a' r :
  logged b a -> wf_rec r -> logfile a' = logfile a ++ print_rec r ->
  (forall c, same_state a c -> same_state a' (apply_rec c r)) -> one_line (v_a a') ->
  logged b a'.
Proof.
  intros (recs & Hl & Hwf & Hs & _) Hr Hl' Hstep Hv. exists (recs ++ [r]). split_and!.
  - rewrite fmap_app, concat_app, Hl', Hl. cbn. by rewrite app_nil_r.
  - apply Forall_app. split; [done|by constructor].
  - rewrite foldl_app. by apply Hstep.
  - done.
Qed.
Lemma logged_same b a a' :
  logged b a -> logfile a' = logfile a -> (forall c, same_state a c -> same_state a' c) ->
  v_a a' = v_a a -> logged b a'.
Proof.
  intros (recs & Hl & Hwf & Hs & Hv) Hl' Hstep Hv'. exists recs.
  rewrite Hl', Hv'. split_and!; auto.
Qed.

Lemma commit_logged b a i v :
  logged b a -> is_u32 i -> one_line v -> logged b (commit_wo i v a).1.
Proof.
  intros Hl Hi Hv. unfold commit_wo. destruct (instance_h a <? i); [|done].
  apply (logged_append b a _ (Done i v)); [done|done|done| |by constructor].
  intros c []. constructor; cbn; try done; try (by split).
  intros j. destruct (decide (i = j)) as [->|Hne].
  - by rewrite !std_ref_insert_eq.
  - by rewrite !std_ref_insert_ne.
Qed.

Lemma acc_step_logged b a op a' :
  logged b a -> valid_op op -> acc_step a op = Ret a' -> logged b a'.
Proof.
  intros Hl Hv. destruct op as [arg|arg|arg|i v]; cbn [acc_step]; intros Hs.
  - unfold preparereq in Hs. destruct (pa_instance arg <=? instance_h a).
    { cbn in Hs. injection Hs as <-. apply (logged_same b a); [done|done| |done].
      intros c []. constructor; try done. intros j. rewrite <-ss_values0. cbn.
      unfold std_touch. destruct (decide (pa_instance arg = j)) as [->|].
      - by rewrite std_ref_insert_eq.
      - by rewrite std_ref_insert_ne. }
    destruct (prop_gt (pa_n arg) (n_h a)); cbn in Hs; injection Hs as <-; [|done].
    apply (logged_append b a _ (PropSeen (pa_n arg))); [done|done|done| |].
    + intros c []. by constructor.
    + by destruct Hl as (? & _ & _ & _ & ?).
  - unfold acceptreq in Hs.
    destruct (prop_ge (aa_n arg) (n_h a)); cbn in Hs; injection Hs as <-; [|done].
    apply (logged_append b a _ (Accepted (aa_n arg) (aa_v arg))); [done|done|done| |].
    + intros c []. by constructor.
    + by destruct Hv as (_ & _ & ?).
  - unfold decidereq in Hs. destruct (da_instance arg =? _).
    + destruct (bool_decide _); [|done]. cbn in Hs.
      assert (one_line (v_a a)) as Hva by (by destruct Hl as (? & _ & _ & _ & ?)).
      pose proof (commit_logged b a (da_instance arg) (v_a a) Hl Hv Hva) as Hc.
      destruct (commit_wo _ _ _). cbn in *. by injection Hs as <-.
    + destruct (da_instance arg <=? instance_h a); [|done]. cbn in Hs. by injection Hs as <-.
  - injection Hs as <-. destruct Hv. by apply commit_logged.
Qed.

Lemma acc_steps_logged b a ops a' :
  logged b a -> Forall valid_op ops -> acc_steps a ops = Ret a' -> logged b a'.
Proof.
  intros Hl. revert a'. induction ops as [|op ops IH] using rev_ind; intros a' Hops.
  { by intros [= <-]. }
  unfold acc_steps. rewrite foldl_app. cbn [foldl]. intros Hs.
  apply Forall_app in Hops as [Hops Hop]. rewrite Forall_singleton in Hop.
  apply bind_Ret_inv in Hs as (a1 & H1 & H2).
  by apply (acc_step_logged b a1 op); [apply IH| |].
Qed.

(** ** Properties *)

(** C24. Crash recovery: an acceptor that starts with an empty log, handles any
    sequence of prepare, accept, decide and commit requests and is then killed
    comes back from its log file with the same state: the same promises, the
    same accepted proposal and the same decided values. *)
Theorem acceptor_recovers me v ops a :
  Forall valid_op ops ->
  acc_steps (Acceptor me (Prop_t 0 me) (Prop_t 0 me) [] 0 ∅ []) ops = Ret a ->
  exists b, acceptor_new false me v (logfile a) = Ret b /\ same_state a b.
Proof.
  intros Hops Ha.
  assert (logged (Acceptor me (Prop_t 0 me) (Prop_t 0 me) [] 0 ∅ (logfile a))
            (Acceptor me (Prop_t 0 me) (Prop_t 0 me) [] 0 ∅ [])) as Hl0.
  { exists []. split_and!; [done|constructor|by constructor|constructor]. }
  destruct (acc_steps_logged _ _ _ _ Hl0 Hops Ha) as (recs & Hl & Hwf & Hs & _).
  unfold acceptor_new.
  rewrite (logread_recs (Acceptor me (Prop_t 0 me) (Prop_t 0 me) [] 0 ∅ (logfile a)) recs Hl Hwf),
    outcome_bind_Ret.
  rewrite andb_false_r. eexists. split; [reflexivity|]. done.
Qed.
Lemma acceptor_recovers_witness :
  let ops := [OPrepare (PrepareArg 1 (Prop_t 1 (lit "n1")));
              OAccept (AcceptArg 0 (Prop_t 1 (lit "n1")) (lit "x y"));
              ODecide (DecideArg 1 (lit "x y")); OPrepare (PrepareArg 2 (Prop_t 4 (lit "n2")))] in
  let a0 := Acceptor (lit "me") (Prop_t 0 (lit "me")) (Prop_t 0 (lit "me")) [] 0 ∅ [] in
  let a := match acc_steps a0 ops with Ret a => a | _ => a0 end in
  instance_h a = 1 /\ n_h a = Prop_t 4 (lit "n2") /\
  exists b, acceptor_new false (lit "me") [] (logfile a) = Ret b /\ same_state a b.
Proof.
  intros ops a0 a. split; [vm_compute; reflexivity|]. split; [vm_compute; reflexivity|].
  apply (acceptor_recovers (lit "me") [] ops a); [|vm_compute; reflexivity].
  repeat apply Forall_cons_2; try apply Forall_nil_2;
    repeat split; try done; try (vm_compute; congruence); repeat constructor; done.
Defined.
