(* ===== verification/PaxosSafety.v ===== *)
(** * Agreement of Paxos

    The acceptor handlers of [Paxos] composed into a distributed system, for one
    instance.  Proposers run the two phases of [proposer::run]; their RPCs are
    delivered one by one, in any interleaving of any number of proposers, may be
    lost, and their replies may be ignored.  The history of the system is kept
    in ghost lists: the replies to prepare requests, the proposals made and the
    accept requests that were granted. *)
From S2P Require Import Prelude Marshall Protocols Log Paxos.
Import paxos_protocol.

Record system := System {
  accs : gmap str acceptor;
  used : list prop_t;                        (* numbers proposers have drawn *)
  replies : list (prop_t * str * prepareres);(* replies to prepare requests *)
  proposals : list (prop_t * str * list str);(* number, value, the nodes asked to accept *)
  acks : list (prop_t * str);                (* granted accept requests *)
  offered : list str;                        (* the values proposers wanted *)
}.

(** The value [v] proposed under [n] has been accepted by a majority. *)
Definition chosen (nodes : list str) (s : system) (n : prop_t) (v : str) : Prop :=
  exists Q A, (n, v, Q) ∈ proposals s /\ majority nodes A = true /\
    forall x, x ∈ A -> (n, x) ∈ acks s.

(** The loop of [prepare] over the replies it got. *)
Fixpoint collect (rs : list (str * Z * prepareres)) (c : collected) : option collected :=
  match rs with
  | [] => Some c
  | (node, ret, r) :: rs =>
      match prepare_reply node ret r c with
      | None => None
      | Some c => collect rs c
      end
  end.

Section safety.
(** The configuration and the instance that is being decided.  [ignore_late]
    says whether an accept request that reaches a node after the node has
    decided the instance goes unanswered. *)
Variables (nodes : list str) (inst : Z) (ignore_late : bool).

Inductive step : system -> system -> Prop :=
  (** A proposer draws a number nobody has used ([setn]). *)
  | step_start s n :
      n ∉ used s -> 0 < p_n n ->
      step s (System (accs s) (n :: used s) (replies s) (proposals s) (acks s) (offered s))
  (** A prepare request reaches a node. *)
  | step_prepare s n x src r0 r a a' :
      n ∈ used s -> accs s !! x = Some a ->
      preparereq src (PrepareArg inst n) r0 a = Ret (OK, r, a') ->
      step s (System (<[x := a']> (accs s)) (used s) ((n, x, r) :: replies s)
                (proposals s) (acks s) (offered s))
  (** A proposer has a majority of promises and fixes the value: the one with
      the highest number among the replies, or its own. *)
  | step_propose s n rs c newv :
      n ∈ used s -> (forall v Q, (n, v, Q) ∉ proposals s) -> newv <> [] ->
      (forall x ret r, (x, ret, r) ∈ rs -> ret = OK -> (n, x, r) ∈ replies s) ->
      collect rs (collect0 []) = Some c -> majority nodes (c_accepts c) = true ->
      step s (System (accs s) (used s) (replies s)
                ((n, if decide (c_v c = []) then newv else c_v c, c_accepts c)
                   :: proposals s) (acks s) (newv :: offered s))
  (** An accept request reaches a node the proposer has a promise of. *)
  | step_accept s n v Q x src junk r a a' :
      (n, v, Q) ∈ proposals s -> x ∈ Q -> accs s !! x = Some a ->
      (ignore_late = true -> instance_h a < inst) ->
      acceptreq src (AcceptArg junk n v) false a = Ret (OK, r, a') ->
      step s (System (<[x := a']> (accs s)) (used s) (replies s) (proposals s)
                (if r then (n, x) :: acks s else acks s) (offered s))
  (** A proposer with a majority of accepts sends a decide request. *)
  | step_decide s n v Q A x src a ret a' up :
      (n, v, Q) ∈ proposals s -> majority nodes A = true ->
      (forall y, y ∈ A -> (n, y) ∈ acks s) -> x ∈ A -> accs s !! x = Some a ->
      decidereq src (DecideArg inst v) a = Ret (ret, a', up) ->
      step s (System (<[x := a']> (accs s)) (used s) (replies s) (proposals s) (acks s)
                (offered s))
  (** A proposer learns the decision from an "oldinstance" reply and commits it
      at its own acceptor. *)
  | step_learn s n y r x a a' up :
      (n, y, r) ∈ replies s -> pr_oldinstance r = true -> accs s !! x = Some a ->
      commit inst (pr_v_a r) a = (a', up) ->
      step s (System (<[x := a']> (accs s)) (used s) (replies s) (proposals s) (acks s)
                (offered s)).

(** Acceptors that have decided everything before the instance and have seen no
    proposal for it. *)
Definition initial (s : system) : Prop :=
  (forall x a, accs s !! x = Some a ->
     instance_h a = inst - 1 /\ p_n (n_h a) = 0 /\ p_n (n_a a) = 0 /\ v_a a = []) /\
  used s = [] /\ replies s = [] /\ proposals s = [] /\ acks s = [] /\ offered s = [].

Inductive reachable : system -> Prop :=
  | reach_init s : initial s -> reachable s
  | reach_step s s' : reachable s -> step s s' -> reachable s'.

(** ** Nodes that are behind *)

(** What requests of the instances before do to an acceptor.  With [ignore_late]
    a node that has decided an instance leaves its accept requests unanswered. *)
Inductive earlier : acceptor -> acceptor -> Prop :=
  | earlier_prepare i n src r0 ret r a a' :
      i < inst -> preparereq src (PrepareArg i n) r0 a = Ret (ret, r, a') -> earlier a a'
  | earlier_accept i n v src junk r0 ret r a a' :
      i < inst -> (ignore_late = true -> instance_h a < i) ->
      acceptreq src (AcceptArg junk n v) r0 a = Ret (ret, r, a') -> earlier a a'
  | earlier_decide i v src ret a a' up :
      i < inst -> decidereq src (DecideArg i v) a = Ret (ret, a', up) -> earlier a a'
  | earlier_commit i v a a' up : i < inst -> commit i v a = (a', up) -> earlier a a'.

(** The instance begins at some nodes while others have yet to decide earlier
    ones. *)
Definition started (s : system) : Prop :=
  (forall x a, accs s !! x = Some a -> 0 <= instance_h a < inst /\
  (instance_h a = inst - 1 -> p_n (n_h a) = 0 /\ p_n (n_a a) = 0 /\ v_a a = [])) /\
  used s = [] /\ replies s = [] /\ proposals s = [] /\ acks s = [] /\ offered s = [].
(** A prepare request is answered by a node that has decided all instances
    before. *)
Definition prompt (s s' : system) : Prop := forall n x r a,
  replies s' = (n, x, r) :: replies s -> accs s !! x = Some a -> inst - 1 <= instance_h a.

(** The system with such nodes; with [early] they answer too. *)
Inductive reaches (early : bool) : system -> Prop :=
  | reaches_start s : started s -> reaches early s
  | reaches_earlier s x a a' :
      reaches early s -> accs s !! x = Some a -> earlier a a' ->
      reaches early (System (<[x := a']> (accs s)) (used s) (replies s) (proposals s) (acks s) (offered s))
  | reaches_step s s' :
      reaches early s -> step s s' -> (early = false -> prompt s s') -> reaches early s'.

(** ** The invariant *)

Record inv (s : system) : Prop := {
  (* an undecided acceptor remembers its last accept and all its promises *)
  i_open : forall x a, accs s !! x = Some a -> instance_h a <> inst ->
    instance_h a = inst - 1 /\
    (p_n (n_a a) = 0 /\ v_a a = [] /\ (forall m, (m, x) ∉ acks s) \/
     0 < p_n (n_a a) /\ (n_a a, x) ∈ acks s /\
       exists Q, (n_a a, v_a a, Q) ∈ proposals s) /\
    (forall m, (m, x) ∈ acks s -> prop_gt m (n_a a) = false) /\
    (0 < p_n (n_a a) -> prop_gt (n_a a) (n_h a) = false) /\
    (forall n r, (n, x, r) ∈ replies s -> pr_accept r = true -> prop_gt n (n_h a) = false) /\
    0 <= p_n (n_h a);
  (* a decided acceptor holds a chosen value *)
  i_closed : forall x a, accs s !! x = Some a -> instance_h a = inst ->
    exists n v, values a !! inst = Some v /\ chosen nodes s n v;
  (* a promise tells everything accepted below its number *)
  i_promise : forall n x r, (n, x, r) ∈ replies s -> pr_accept r = true ->
    pr_oldinstance r = false /\ n ∈ used s /\
    (forall m, (m, x) ∈ acks s -> prop_gt n m = true ->
       0 < p_n (pr_n_a r) /\ prop_gt m (pr_n_a r) = false) /\
    (p_n (pr_n_a r) = 0 /\ pr_v_a r = [] \/
     0 < p_n (pr_n_a r) /\ prop_gt n (pr_n_a r) = true /\
       exists Q, (pr_n_a r, pr_v_a r, Q) ∈ proposals s);
  i_old : forall n x r, (n, x, r) ∈ replies s -> pr_oldinstance r = true ->
    exists n', chosen nodes s n' (pr_v_a r);
  i_used : forall n, n ∈ used s -> 0 < p_n n;
  (* proposals: one value per number, safe at it *)
  i_prop : forall n v Q, (n, v, Q) ∈ proposals s ->
    n ∈ used s /\ v <> [] /\ v ∈ offered s /\ majority nodes Q = true /\
    (forall x, x ∈ Q -> exists r, (n, x, r) ∈ replies s /\ pr_accept r = true) /\
    ((forall x m, x ∈ Q -> (m, x) ∈ acks s -> prop_gt n m = false) \/
     (exists k Q', (k, v, Q') ∈ proposals s /\ prop_gt n k = true /\
        forall x m, x ∈ Q -> (m, x) ∈ acks s -> prop_gt n m = true -> prop_gt m k = false));
  i_fun : forall n v v' Q Q', (n, v, Q) ∈ proposals s -> (n, v', Q') ∈ proposals s -> v = v';
  i_ack : forall n x, (n, x) ∈ acks s -> exists v Q, (n, v, Q) ∈ proposals s /\ x ∈ Q;
}.

(** ** Agreement follows from the invariant *)

Definition below (s : system) (n : prop_t) : nat :=
  length (filter (fun p : prop_t * str * list str => prop_gt n p.1.1 = true) (proposals s)).

Lemma below_lt s n k v Q :
  (k, v, Q) ∈ proposals s -> prop_gt n k = true -> (below s k < below s n)%nat.
Proof.
  unfold below. intros Hin Hnk.
  assert (forall l : list (prop_t * str * list str),
    (length (filter (fun p => prop_gt k p.1.1 = true) l) <=
     length (filter (fun p => prop_gt n p.1.1 = true) l))%nat) as Hle.
  { induction l as [|p l IH]; [done|]. rewrite !filter_cons.
    destruct (decide (prop_gt k p.1.1 = true)) as [Hk|], (decide (prop_gt n p.1.1 = true))
      as [|Hn]; cbn [length]; try lia.
    destruct Hn. by apply (prop_gt_trans _ k). }
  induction (proposals s) as [|p l IH]; [by apply elem_of_nil in Hin|].
  rewrite !filter_cons. apply elem_of_cons in Hin as [<-|Hin].
  - cbn [fst]. rewrite decide_False by (by rewrite prop_gt_irrefl).
    rewrite decide_True by done. cbn [length]. specialize (Hle l). lia.
  - specialize (IH Hin).
    destruct (decide (prop_gt k p.1.1 = true)) as [Hk|], (decide (prop_gt n p.1.1 = true))
      as [|Hn]; cbn [length]; try lia.
    destruct Hn. by apply (prop_gt_trans _ k).
Qed.

Hypothesis Hnodes : Z.of_nat (length nodes) < 2 ^ 32.

(** Whatever is proposed above a chosen number is the chosen value. *)
Lemma chosen_above s n0 v0 :
  inv s -> chosen nodes s n0 v0 ->
  forall j n v Q, below s n = j -> (n, v, Q) ∈ proposals s -> prop_gt n n0 = true -> v = v0.
Proof.
  intros Hinv (Q0 & A & Hp0 & HA & Hacks).
  induction j as [j IH] using lt_wf_ind. intros n v Q Hj Hp Hgt.
  destruct (i_prop _ Hinv n v Q Hp) as (_ & _ & _ & HQ & _ & Hsafe).
  destruct (majority_intersect nodes A Q Hnodes HA HQ) as (x & HxA & HxQ).
  destruct Hsafe as [Hnone|(k & Q' & Hk & Hnk & Hbound)].
  { specialize (Hnone x n0 HxQ (Hacks x HxA)). congruence. }
  specialize (Hbound x n0 HxQ (Hacks x HxA) Hgt).
  destruct (prop_gt k n0) eqn:E.
  - apply (IH (below s k)) with k Q'; [|done..].
    rewrite <-Hj. by apply (below_lt s n k v Q').
  - assert (k = n0) as -> by (by apply prop_gt_total).
    by apply (i_fun _ Hinv n0 v v0 Q' Q0).
Qed.

Lemma chosen_unique s n1 v1 n2 v2 :
  inv s -> chosen nodes s n1 v1 -> chosen nodes s n2 v2 -> v1 = v2.
Proof.
  intros Hinv H1 H2. pose proof H1 as (Q1 & A1 & Hp1 & _). pose proof H2 as (Q2 & A2 & Hp2 & _).
  destruct (prop_gt n1 n2) eqn:E1.
  { by apply (chosen_above s n2 v2 Hinv H2 _ n1 v1 Q1 eq_refl). }
  destruct (prop_gt n2 n1) eqn:E2.
  { symmetry. by apply (chosen_above s n1 v1 Hinv H1 _ n2 v2 Q2 eq_refl). }
  assert (n1 = n2) as -> by (by apply prop_gt_total).
  by apply (i_fun _ Hinv n2 v1 v2 Q1 Q2).
Qed.

(** ** The invariant is preserved *)

Lemma chosen_mono s s' n v :
  (forall p, p ∈ proposals s -> p ∈ proposals s') -> (forall k, k ∈ acks s -> k ∈ acks s') ->
  chosen nodes s n v -> chosen nodes s' n v.
Proof. intros Hp Ha (Q & A & ? & ? & ?). exists Q, A. auto. Qed.

(** Replacing the state of node [x], with the histories only growing in
    [replies]: the new acceptor has to satisfy its part. *)
Lemma inv_start s n :
  inv s -> 0 < p_n n ->
  inv (System (accs s) (n :: used s) (replies s) (proposals s) (acks s) (offered s)).
Proof.
  intros [] Hn. constructor; cbn; try done.
  - intros n' x r H1 H2. destruct (i_promise0 n' x r H1 H2) as (? & ? & ? & ?).
    split_and!; [done|by right|done|done].
  - intros m [->|?]%elem_of_cons; auto.
  - intros n' v Q H. destruct (i_prop0 n' v Q H) as (? & ? & ? & ? & ? & ?).
    split_and!; [by right|done..].
Qed.

Lemma collect_spec rs c c' :
  collect rs c = Some c' ->
  (forall x, x ∈ c_accepts c' -> x ∈ c_accepts c \/
     exists r, (x, OK, r) ∈ rs /\ pr_accept r = true /\
       prop_gt (pr_n_a r) (c_max_n c') = false) /\
  prop_gt (c_max_n c) (c_max_n c') = false /\
  (c_max_n c' = c_max_n c /\ c_v c' = c_v c \/
   exists x r, (x, OK, r) ∈ rs /\ pr_accept r = true /\
     c_max_n c' = pr_n_a r /\ c_v c' = pr_v_a r).
Proof.
  revert c. induction rs as [|[[x ret] r] rs IH]; intros c; cbn [collect].
  { intros [= <-]. split_and!; [by left|apply prop_gt_irrefl|by left]. }
  unfold prepare_reply.
  destruct (pr_oldinstance r && (ret =? OK)); [done|].
  destruct (pr_accept r) eqn:Ea, (Z.eqb_spec ret OK) as [->|]; cbn [andb].
  1: destruct (prop_gt (pr_n_a r) (c_max_n c)) eqn:Eg.
  all: intros E; destruct (IH _ E) as (IH1 & IH2 & IH3); cbn [c_accepts c_max_n c_v] in *.
  (* a reply that does not count *)
  3-5: split_and!; [intros y Hy; destruct (IH1 y Hy) as [?|(r' & ? & ?)];
                      [by left|right; exists r'; split; [by right|done]]
                   |done
                   |destruct IH3 as [?|(y & r' & ? & ?)];
                      [by left|right; exists y, r'; split; [by right|done]]].
  - split_and!.
    + intros y Hy. destruct (IH1 y Hy) as [[?| ->%list_elem_of_singleton]%elem_of_app|(r' & ? & ?)].
      * by left.
      * right. exists r. split_and!; [by left|done|done].
      * right. exists r'. split; [by right|done].
    + destruct (prop_gt (c_max_n c) (c_max_n c')) eqn:E'; [|done].
      pose proof (prop_gt_trans _ _ _ Eg E'). congruence.
    + right. destruct IH3 as [[-> ->]|(y & r' & ? & ?)]; [exists x, r|exists y, r'];
        (split; [|done]); [by left|by right].
  - split_and!.
    + intros y Hy. destruct (IH1 y Hy) as [[?| ->%list_elem_of_singleton]%elem_of_app|(r' & ? & ?)].
      * by left.
      * right. exists r. split_and!; [by left|done|]. by apply (prop_le_trans _ (c_max_n c)).
      * right. exists r'. split; [by right|done].
    + done.
    + destruct IH3 as [?|(y & r' & ? & ?)]; [by left|right; exists y, r'; split; [by right|done]].
Qed.

(** A value computed from a majority of promises is safe at its number. *)
Lemma collect_safe s n rs c newv :
  inv s ->
  (forall x ret r, (x, ret, r) ∈ rs -> ret = OK -> (n, x, r) ∈ replies s) ->
  collect rs (collect0 []) = Some c ->
  let v := if decide (c_v c = []) then newv else c_v c in
  (forall x, x ∈ c_accepts c -> exists r, (n, x, r) ∈ replies s /\ pr_accept r = true) /\
  ((forall x m, x ∈ c_accepts c -> (m, x) ∈ acks s -> prop_gt n m = false) \/
   (c_v c <> [] /\ exists k Q', (k, v, Q') ∈ proposals s /\ prop_gt n k = true /\
      forall x m, x ∈ c_accepts c -> (m, x) ∈ acks s -> prop_gt n m = true ->
        prop_gt m k = false)).
Proof.
  intros Hinv Hrs Hc v. destruct (collect_spec _ _ _ Hc) as (Hacc & _ & Hmax).
  assert (Hreply : forall x, x ∈ c_accepts c -> exists r, (n, x, r) ∈ replies s /\
            pr_accept r = true /\ prop_gt (pr_n_a r) (c_max_n c) = false).
  { intros x Hx. destruct (Hacc x Hx) as [Hnil|(r & ? & ? & ?)]; [by apply elem_of_nil in Hnil|].
    exists r. split_and!; [by apply (Hrs x OK)|done|done]. }
  split. { intros x Hx. destruct (Hreply x Hx) as (r & ? & ? & _). eauto. }
  (* an ack below [n] forces a positive maximum *)
  assert (Hack : forall x m, x ∈ c_accepts c -> (m, x) ∈ acks s -> prop_gt n m = true ->
            0 < p_n (c_max_n c) /\ prop_gt m (c_max_n c) = false).
  { intros x m Hx Hm Hn. destruct (Hreply x Hx) as (r & Hr & Ha & Hle).
    destruct (i_promise _ Hinv n x r Hr Ha) as (_ & _ & Hbelow & _).
    destruct (Hbelow m Hm Hn) as [Hpos Hle']. split; [|by apply (prop_le_trans _ (pr_n_a r))].
    destruct (Z.le_gt_cases (p_n (c_max_n c)) 0) as [Hle0|]; [|lia]. exfalso.
    enough (prop_gt (pr_n_a r) (c_max_n c) = true) by congruence.
    apply prop_gt_spec. left. lia. }
  destruct Hmax as [[Em Ev]|(x & r & Hin & Ha & Em & Ev)].
  - left. intros x m Hx Hm. destruct (prop_gt n m) eqn:E; [|done].
    destruct (Hack x m Hx Hm E) as [Hpos _]. rewrite Em in Hpos. cbn in Hpos. lia.
  - pose proof (Hrs x OK r Hin eq_refl) as Hr.
    destruct (i_promise _ Hinv n x r Hr Ha) as (_ & _ & _ & [[H0 Hv]|(H0 & Hk & Q' & HQ')]).
    + left. intros y m Hy Hm. destruct (prop_gt n m) eqn:E; [|done].
      destruct (Hack y m Hy Hm E) as [Hpos _]. rewrite Em in Hpos. lia.
    + right. destruct (i_prop _ Hinv _ _ _ HQ') as (_ & Hne & _).
      rewrite <-Ev in Hne. split; [done|]. exists (pr_n_a r), Q'.
      unfold v. rewrite decide_False by done. rewrite Ev. split_and!; [done..|].
      intros y m Hy Hm Hn. rewrite <-Em. by apply (Hack y m).
Qed.

Lemma inv_propose s n rs c newv :
  inv s -> n ∈ used s -> (forall v Q, (n, v, Q) ∉ proposals s) -> newv <> [] ->
  (forall x ret r, (x, ret, r) ∈ rs -> ret = OK -> (n, x, r) ∈ replies s) ->
  collect rs (collect0 []) = Some c -> majority nodes (c_accepts c) = true ->
  inv (System (accs s) (used s) (replies s)
         ((n, if decide (c_v c = []) then newv else c_v c, c_accepts c) :: proposals s)
         (acks s) (newv :: offered s)).
Proof.
  intros Hinv Hn Hnew Hnewv Hrs Hc Hmaj.
  destruct (collect_safe s n rs c newv Hinv Hrs Hc) as [Hpromised Hsafe].
  set (v := if decide (c_v c = []) then newv else c_v c) in *.
  set (s' := System _ _ _ _ _ _).
  assert (Hmono : forall n' v', chosen nodes s n' v' -> chosen nodes s' n' v').
  { intros n' v'. apply chosen_mono; [|done]. intros p Hp. by right. }
  destruct Hinv. constructor; cbn [accs used replies proposals acks offered s'].
  - intros x a Ha Hi. destruct (i_open0 x a Ha Hi) as (? & Hna & ? & ? & ? & ?).
    split_and!; try done. destruct Hna as [?|(? & ? & Q & ?)]; [by left|right].
    split_and!; [done|done|]. exists Q. by right.
  - intros x a Ha Hi. destruct (i_closed0 x a Ha Hi) as (n' & v' & ? & ?). eauto.
  - intros n' x r Hr Ha. destruct (i_promise0 n' x r Hr Ha) as (? & ? & ? & Hna).
    split_and!; try done. destruct Hna as [?|(? & ? & Q & ?)]; [by left|right].
    split_and!; [done|done|]. exists Q. by right.
  - intros n' x r Hr Ho. destruct (i_old0 n' x r Hr Ho) as (n'' & ?). eauto.
  - done.
  - intros n' v' Q [[= -> -> ->]|Hin]%elem_of_cons.
    + split_and!; try done.
      * unfold v. by destruct (decide (c_v c = [])).
      * unfold v. destruct (decide (c_v c = [])) as [|Hne]; [by left|]. right.
        destruct (collect_spec _ _ _ Hc) as (_ & _ & [[_ Ev]|(y & r & Hin & Ha & _ & Ev)]).
        { by rewrite Ev in Hne. }
        destruct (i_promise0 n y r (Hrs y OK r Hin eq_refl) Ha)
          as (_ & _ & _ & [[_ Hv]|(_ & _ & Q' & HQ')]); [congruence|].
        rewrite Ev. by destruct (i_prop0 _ _ _ HQ') as (_ & _ & ? & _).
      * destruct Hsafe as [?|(_ & k & Q' & ? & ? & ?)]; [by left|right].
        exists k, Q'. split_and!; [by right|done|done].
    + destruct (i_prop0 n' v' Q Hin) as (? & ? & ? & ? & ? & Hs).
      split_and!; try done; [by right|].
      destruct Hs as [?|(k & Q' & ? & ? & ?)]; [by left|right].
      exists k, Q'. split_and!; [by right|done|done].
  - intros n' v1 v2 Q1 Q2 [H1|H1]%elem_of_cons [H2|H2]%elem_of_cons; simplify_eq.
    + done.
    + by apply Hnew in H2.
    + by apply Hnew in H1.
    + by apply (i_fun0 n' v1 v2 Q1 Q2).
  - intros n' x Hk. destruct (i_ack0 n' x Hk) as (v' & Q & ? & ?).
    exists v', Q. split; [by right|done].
Qed.

(** Closing an acceptor on a chosen value. *)
Lemma inv_close s x a' n v :
  inv s -> instance_h a' = inst -> values a' !! inst = Some v -> chosen nodes s n v ->
  inv (System (<[x := a']> (accs s)) (used s) (replies s) (proposals s) (acks s) (offered s)).
Proof.
  intros [] Hi Hv Hch. constructor; cbn [accs used replies proposals acks offered]; try done.
  - intros y b Hb Hne. destruct (decide (x = y)) as [->|Hxy].
    + rewrite lookup_insert_eq in Hb. injection Hb as <-. done.
    + rewrite lookup_insert_ne in Hb by done. by apply i_open0.
  - intros y b Hb He. destruct (decide (x = y)) as [->|Hxy].
    + rewrite lookup_insert_eq in Hb. injection Hb as <-. by exists n, v.
    + rewrite lookup_insert_ne in Hb by done. by apply i_closed0 with y.
Qed.

Lemma inv_same s x a :
  inv s -> accs s !! x = Some a ->
  inv (System (<[x := a]> (accs s)) (used s) (replies s) (proposals s) (acks s) (offered s)).
Proof. intros Hinv Ha. rewrite insert_id by done. by destruct s. Qed.

Hypothesis Hinst : 1 <= inst < 2 ^ 32.

Lemma commit_wo_closes v a :
  instance_h a < inst ->
  instance_h (commit_wo inst v a).1 = inst /\ values (commit_wo inst v a).1 !! inst = Some v.
Proof.
  intros Hi. unfold commit_wo. destruct (Z.ltb_spec (instance_h a) inst); [|lia].
  cbn. by rewrite lookup_insert_eq.
Qed.

Lemma inv_commit s x a n v :
  inv s -> accs s !! x = Some a -> chosen nodes s n v ->
  inv (System (<[x := (commit_wo inst v a).1]> (accs s)) (used s) (replies s) (proposals s)
         (acks s) (offered s)).
Proof.
  intros Hinv Ha Hch. destruct (Z.lt_ge_cases (instance_h a) inst) as [Hlt|Hge].
  - destruct (commit_wo_closes v a Hlt). by apply (inv_close s x _ n v).
  - unfold commit_wo. destruct (Z.ltb_spec (instance_h a) inst); [lia|]. by apply inv_same.
Qed.

(** The [VERIFY] of [decidereq] cannot fail: an undecided acceptor that has
    accepted a chosen proposal still holds its value. *)
Lemma decide_verified s n v Q A x a :
  inv s -> (n, v, Q) ∈ proposals s -> majority nodes A = true ->
  (forall y, y ∈ A -> (n, y) ∈ acks s) -> x ∈ A -> accs s !! x = Some a ->
  instance_h a <> inst -> v_a a = v.
Proof.
  intros Hinv Hp HA Hacks Hx Ha Hi.
  destruct (i_open _ Hinv x a Ha Hi) as (_ & [(_ & _ & Hno)|(_ & _ & Q' & HQ')] & Hle & _).
  { by apply Hacks, Hno in Hx. }
  specialize (Hle n (Hacks x Hx)).
  destruct (prop_gt (n_a a) n) eqn:E.
  - apply (chosen_above s n v Hinv) with (below s (n_a a)) (n_a a) Q'; try done.
    by exists Q, A.
  - assert (n_a a = n) as En by (by apply prop_gt_total). rewrite En in HQ'.
    by apply (i_fun _ Hinv n _ _ Q' Q).
Qed.

Lemma inv_decide s n v Q A x src a ret a' up :
  inv s -> (n, v, Q) ∈ proposals s -> majority nodes A = true ->
  (forall y, y ∈ A -> (n, y) ∈ acks s) -> x ∈ A -> accs s !! x = Some a ->
  decidereq src (DecideArg inst v) a = Ret (ret, a', up) ->
  inv (System (<[x := a']> (accs s)) (used s) (replies s) (proposals s) (acks s) (offered s)).
Proof.
  intros Hinv Hp HA Hacks Hx Ha Hd. unfold decidereq in Hd. cbn [da_instance da_v] in Hd.
  assert (chosen nodes s n v) as Hch by (by exists Q, A).
  destruct (inst =? u32 (instance_h a + 1)).
  - apply bind_Ret_inv in Hd as (? & Hv%VERIFY_Ret%bool_decide_eq_true & Hd).
    rewrite Hv in Hd. pose proof (inv_commit s x a n v Hinv Ha Hch) as Hc.
    destruct (commit_wo inst v a) as [b up']. by simplify_eq.
  - destruct (inst <=? instance_h a); [|done]. simplify_eq. by apply inv_same.
Qed.

(** What a prepare request does to an acceptor, and what its reply tells. *)
Definition prepare_effect (n : prop_t) (r : prepareres) (a a' : acceptor) : Prop :=
  (instance_h a' <> inst ->
     instance_h a' = inst - 1 /\ n_a a' = n_a a /\ v_a a' = v_a a /\
     instance_h a <> inst /\ prop_gt (n_h a) (n_h a') = false /\ 0 <= p_n (n_h a') /\
     (pr_accept r = true -> n_h a' = n)) /\
  (instance_h a' = inst -> instance_h a = inst /\ values a' !! inst = values a !! inst) /\
  (pr_accept r = true -> pr_oldinstance r = false /\ pr_n_a r = n_a a /\
     pr_v_a r = v_a a /\ prop_gt n (n_h a) = true /\ instance_h a <> inst) /\
  (pr_oldinstance r = true -> instance_h a = inst /\ values a !! inst = Some (pr_v_a r)).
Lemma preparereq_effect s n x src r0 r a a' :
  inv s -> n ∈ used s -> accs s !! x = Some a ->
  preparereq src (PrepareArg inst n) r0 a = Ret (OK, r, a') -> prepare_effect n r a a'.
Proof.
  intros Hinv Hn Ha Hr. unfold preparereq in Hr. cbn [pa_instance pa_n] in Hr.
  unfold prepare_effect.
  pose proof (i_open _ Hinv x a Ha) as Hop. pose proof (i_closed _ Hinv x a Ha) as Hcl.
  destruct (Z.leb_spec inst (instance_h a)) as [Hle|Hlt].
  - assert (instance_h a = inst) as Hi.
    { destruct (decide (instance_h a = inst)) as [|Hne]; [done|]. destruct (Hop Hne). lia. }
    destruct (Hcl Hi) as (n1 & v1 & Hv1 & _). injection Hr as <- <-.
    cbn [instance_h values set_values pr_accept pr_oldinstance pr_v_a].
    unfold std_touch, std_ref. rewrite Hv1. cbn [default from_option id].
    split_and!; [done| |done|done]. intros _. by rewrite lookup_insert_eq.
  - assert (instance_h a <> inst) as Hi by lia.
    destruct (Hop Hi) as (Hi1 & _ & _ & _ & _ & Hge).
    destruct (prop_gt n (n_h a)) eqn:Hgt; injection Hr as <- <-;
      cbn [instance_h values n_a v_a n_h set_n_h logprop log_append pr_accept pr_oldinstance
           pr_n_a pr_v_a].
    + pose proof (i_used _ Hinv n Hn).
      split_and!; try done. intros _. split_and!; try done; [|lia].
      by apply prop_gt_asym.
    + split_and!; try done. intros _. split_and!; try done. apply prop_gt_irrefl.
Qed.

Lemma inv_prepare s n x src r0 r a a' :
  inv s -> n ∈ used s -> accs s !! x = Some a ->
  preparereq src (PrepareArg inst n) r0 a = Ret (OK, r, a') ->
  inv (System (<[x := a']> (accs s)) (used s) ((n, x, r) :: replies s) (proposals s)
         (acks s) (offered s)).
Proof.
  intros Hinv Hn Ha Hr.
  destruct (preparereq_effect s n x src r0 r a a' Hinv Hn Ha Hr) as (Hopen & Hclosed & Hacc & Hold).
  set (s' := System _ _ _ _ _ _).
  assert (Hmono : forall n' v', chosen nodes s n' v' -> chosen nodes s' n' v')
    by (intros n' v'; apply chosen_mono; done).
  destruct Hinv. constructor; cbn [accs used replies proposals acks offered s'].
  - intros y b Hb Hi. destruct (decide (x = y)) as [->|Hxy].
    + rewrite lookup_insert_eq in Hb. injection Hb as <-.
      destruct (Hopen Hi) as (-> & -> & -> & Hi' & Hmon & Hge & Hset).
      destruct (i_open0 y a Ha Hi') as (_ & ? & ? & Hna & Hpr & _).
      split_and!; try done.
      * intros Hp. by apply (prop_le_trans _ (n_h a)), Hmon; auto.
      * intros n' r' [[= -> ->]|Hin]%elem_of_cons Hacc'.
        { rewrite (Hset Hacc'). apply prop_gt_irrefl. }
        by apply (prop_le_trans _ (n_h a)), Hmon; eauto.
    + rewrite lookup_insert_ne in Hb by done.
      destruct (i_open0 y b Hb Hi) as (? & ? & ? & ? & Hpr & ?). split_and!; try done.
      intros n' r' [[= -> -> ->]|Hin]%elem_of_cons; [done|by apply Hpr].
  - intros y b Hb Hi. destruct (decide (x = y)) as [->|Hxy].
    + rewrite lookup_insert_eq in Hb. injection Hb as <-. destruct (Hclosed Hi) as [Hi' ->].
      destruct (i_closed0 y a Ha Hi') as (n' & v' & ? & ?). eauto.
    + rewrite lookup_insert_ne in Hb by done.
      destruct (i_closed0 y b Hb Hi) as (n' & v' & ? & ?). eauto.
  - intros n' y r' [[= -> -> ->]|Hin]%elem_of_cons Hacc'; [|by apply i_promise0].
    destruct (Hacc Hacc') as (Ho & -> & -> & Hgt & Hi).
    destruct (i_open0 x a Ha Hi) as (_ & Hna & Hle & Hnah & _).
    split_and!; try done.
    + intros m Hm Hnm. destruct Hna as [(_ & _ & Hno)|(? & _)]; [by apply Hno in Hm|].
      split; [done|by apply Hle].
    + destruct Hna as [(? & ? & _)|(Hp & _ & HQ)]; [by left|right]. split_and!; [done| |done].
      by apply (prop_le_lt_trans _ (n_h a)); [apply Hnah|].
  - intros n' y r' [[= -> -> ->]|Hin]%elem_of_cons Ho.
    + destruct (Hold Ho) as [Hi Hv]. destruct (i_closed0 x a Ha Hi) as (n1 & v1 & Hv1 & Hch).
      rewrite Hv in Hv1. simplify_eq. eauto.
    + destruct (i_old0 n' y r' Hin Ho) as (n1 & ?). eauto.
  - done.
  - intros n' v Q Hin. destruct (i_prop0 n' v Q Hin) as (? & ? & ? & ? & Hpr & ?).
    split_and!; try done. intros y Hy. destruct (Hpr y Hy) as (r' & ? & ?).
    exists r'. split; [by right|done].
  - done.
  - done.
Qed.

Lemma inv_accept s n v Q x src junk r a a' :
  inv s -> (n, v, Q) ∈ proposals s -> x ∈ Q -> accs s !! x = Some a ->
  instance_h a < inst ->
  acceptreq src (AcceptArg junk n v) false a = Ret (OK, r, a') ->
  inv (System (<[x := a']> (accs s)) (used s) (replies s) (proposals s)
         (if r then (n, x) :: acks s else acks s) (offered s)).
Proof.
  intros Hinv Hp Hx Ha Hi Hr. unfold acceptreq in Hr. cbn [aa_n aa_v] in Hr.
  destruct (prop_ge n (n_h a)) eqn:Hge; injection Hr as <- <-; [|by apply inv_same].
  rewrite prop_ge_gt in Hge. apply negb_true_iff in Hge.
  set (s' := System _ _ _ _ _ _).
  assert (Hmono : forall n' v', chosen nodes s n' v' -> chosen nodes s' n' v').
  { intros n' v'. apply chosen_mono; [done|]. intros k Hk. by right. }
  destruct Hinv. assert (instance_h a <> inst) as Hne by lia.
  destruct (i_open0 x a Ha Hne) as (Hi1 & Hna & Hacks & Hnah & Hpr & Hnh).
  destruct (i_prop0 n v Q Hp) as (Hused & _ & _ & _ & Hprom & _).
  destruct (Hprom x Hx) as (rx & Hrx & Hax).
  assert (n_h a = n) as En by (apply prop_gt_total; [done|by apply (Hpr n rx)]).
  pose proof (i_used0 n Hused) as Hpos.
  constructor; cbn [accs used replies proposals acks offered s'].
  - intros y b Hb Hib. destruct (decide (x = y)) as [->|Hxy].
    + rewrite lookup_insert_eq in Hb. injection Hb as <-.
      cbn [instance_h n_a v_a n_h set_accepted logaccept log_append].
      split_and!; try done.
      * right. split_and!; [done|by left|by exists Q].
      * intros m [[= ->]|Hm]%elem_of_cons; [apply prop_gt_irrefl|].
        destruct Hna as [(_ & _ & Hno)|(Hp0 & _)]; [by apply Hno in Hm|].
        rewrite <-En. apply (prop_le_trans _ (n_a a)); [by apply Hacks|by apply Hnah].
      * intros _. by rewrite En, prop_gt_irrefl.
    + rewrite lookup_insert_ne in Hb by done.
      destruct (i_open0 y b Hb Hib) as (? & Hnb & Hab & ? & ? & ?). split_and!; try done.
      * destruct Hnb as [(? & ? & Hno)|(? & ? & ?)]; [left|right]; split_and!; try done.
        { intros m [[= -> ->]|Hm]%elem_of_cons; [done|by apply Hno in Hm]. }
        by right.
      * intros m [[= -> ->]|Hm]%elem_of_cons; [done|by apply Hab].
  - intros y b Hb Hib. destruct (decide (x = y)) as [->|Hxy].
    + rewrite lookup_insert_eq in Hb. injection Hb as <-. by cbn in Hib.
    + rewrite lookup_insert_ne in Hb by done.
      destruct (i_closed0 y b Hb Hib) as (n1 & v1 & ? & ?). eauto.
  - intros n1 y r1 Hin Hacc. destruct (i_promise0 n1 y r1 Hin Hacc) as (? & ? & Hb & ?).
    split_and!; try done. intros m [[= -> ->]|Hm]%elem_of_cons Hlt; [|by apply Hb].
    specialize (Hpr n1 r1 Hin Hacc). congruence.
  - intros n1 y r1 Hin Ho. destruct (i_old0 n1 y r1 Hin Ho) as (n2 & ?). eauto.
  - done.
  - intros n1 v1 Q1 Hin. destruct (i_prop0 n1 v1 Q1 Hin) as (? & ? & ? & ? & Hpr1 & Hs).
    assert (x ∈ Q1 -> prop_gt n1 n = false) as Hlow.
    { intros Hx1. destruct (Hpr1 x Hx1) as (r1 & Hr1 & Ha1). rewrite <-En.
      by apply (Hpr n1 r1). }
    split_and!; try done. destruct Hs as [Hno|(k & Q' & ? & ? & Hb)]; [left|right].
    + intros y m Hy [[= -> ->]|Hm]%elem_of_cons; [by apply Hlow|by apply (Hno y)].
    + exists k, Q'. split_and!; try done.
      intros y m Hy [[= -> ->]|Hm]%elem_of_cons Hlt; [|by apply (Hb y)].
      specialize (Hlow Hy). congruence.
  - done.
  - intros n1 y [[= -> ->]|Hk]%elem_of_cons; [by exists v, Q|].
    by apply i_ack0.
Qed.

Lemma reachable_inv s : ignore_late = true -> reachable s -> inv s.
Proof.
  intros Hig. induction 1 as [s Hi|s s' _ IH Hs].
  - destruct Hi as (Hacc & Hu & Hr & Hp & Hk & Ho). 
    constructor; rewrite ?Hu, ?Hr, ?Hp, ?Hk, ?Ho;
      try (intros; exfalso; by eapply not_elem_of_nil).
    + intros x a Ha _. destruct (Hacc x a Ha) as (-> & H1 & H2 & H3).
      split_and!; try done; try lia.
      * left. split_and!; [done|done|]. intros m. apply not_elem_of_nil.
      * intros m Hm. by apply elem_of_nil in Hm.
      * intros n r Hin. by apply elem_of_nil in Hin.
    + intros x a Ha Hi. destruct (Hacc x a Ha) as (? & _). lia.
  - destruct Hs as [| | | | |s n y r x a a' up Hin Ho Ha Hc].
    + by apply inv_start.
    + by eapply inv_prepare.
    + by eapply inv_propose.
    + eapply inv_accept; eauto.
    + by eapply inv_decide.
    + destruct (i_old _ IH n y r Hin Ho) as (n' & Hch).
      pose proof (inv_commit s x a n' (pr_v_a r) IH Ha Hch) as H.
      unfold commit in Hc. by rewrite Hc in H.
Qed.

(** ** Nodes that are behind do not matter *)

(** What the instance can tell of an acceptor; one that is behind is as good as
    one that has heard of nothing. *)
Record alike (a b : acceptor) : Prop := {
  al_me : a_me b = a_me a;
  al_n_h : n_h b = n_h a;
  al_n_a : n_a b = n_a a;
  al_v_a : v_a b = v_a a;
  al_instance : instance_h b = instance_h a;
  al_value : instance_h a = inst -> values b !! inst = values a !! inst;
}.
Definition blank (me : str) : acceptor := Acceptor me (Prop_t 0 me) (Prop_t 0 me) [] (inst - 1) ∅ [].
Definition follows (a b : acceptor) : Prop :=
  0 <= instance_h a <= inst /\
  if decide (instance_h a < inst - 1) then b = blank (a_me a) else alike a b.
Definition simulates (s t : system) : Prop :=
  reachable t /\ (forall x, option_Forall2 follows (accs s !! x) (accs t !! x)) /\
  used t = used s /\ replies t = replies s /\ proposals t = proposals s /\ acks t = acks s /\
  offered t = offered s.

Lemma alike_refl a : alike a a.
Proof. done. Qed.
Lemma follows_alike a b : 0 <= instance_h a <= inst -> inst - 1 <= instance_h a -> alike a b -> follows a b.
Proof. intros ? ? ?. split; [done|]. by rewrite decide_False by lia. Qed.
Lemma simulates_node s t x a :
  simulates s t -> accs s !! x = Some a -> exists b, accs t !! x = Some b /\ follows a b.
Proof. intros (_ & HF & _) Ha. specialize (HF x). rewrite Ha in HF. inversion HF. by eexists. Qed.
Lemma follows_insert (m m' : gmap str acceptor) x a b :
  (forall y, option_Forall2 follows (m !! y) (m' !! y)) -> follows a b ->
  forall y, option_Forall2 follows (<[x := a]> m !! y) (<[x := b]> m' !! y).
Proof.
  intros HF Hab y. destruct (decide (x = y)) as [<-|]; [rewrite !lookup_insert_eq; by constructor|].
  by rewrite !lookup_insert_ne.
Qed.
Lemma started_simulates s : started s -> exists t, simulates s t.
Proof.
  intros (Hacc & Hu & Hr & Hp & Hk & Ho).
  exists (System ((fun a => if decide (instance_h a < inst - 1) then blank (a_me a) else a) <$> accs s) [] [] [] [] []).
  split_and!; try (by rewrite ?Hu, ?Hr, ?Hp, ?Hk, ?Ho).
  - apply reach_init. split; [|done]. cbn [accs]. intros x b Hb.
    rewrite lookup_fmap in Hb. apply fmap_Some in Hb as (a & Ha & ->). destruct (Hacc x a Ha) as [Hi Hn].
    case_decide; [done|]. assert (instance_h a = inst - 1) as Hi' by lia. by split; [|apply Hn].
  - intros x. cbn [accs]. rewrite lookup_fmap. destruct (accs s !! x) as [a|] eqn:Ha; cbn; [|by constructor].
    destruct (Hacc x a Ha) as [Hi _]. constructor. split; [lia|]. by case_decide.
Qed.

(** The handlers cannot tell acceptors that are alike apart. *)
Lemma alike_prepare src n r0 a b r a' :
  alike a b -> preparereq src (PrepareArg inst n) r0 a = Ret (OK, r, a') -> instance_h a <= inst ->
  exists b', preparereq src (PrepareArg inst n) r0 b = Ret (OK, r, b') /\ alike a' b' /\ instance_h a' = instance_h a.
Proof.
  intros [] E Hi. unfold preparereq in *. cbn [pa_instance pa_n] in *. rewrite al_instance0, al_n_h0, ?al_n_a0, ?al_v_a0.
  destruct (Z.leb_spec inst (instance_h a)).
  - assert (instance_h a = inst) as Hia by lia. specialize (al_value0 Hia). injection E as <- <-.
    unfold std_ref. rewrite al_value0. eexists. split; [reflexivity|]. split; [|done]. split; try done.
    intros _. cbn [values set_values]. unfold std_touch, std_ref. by rewrite !lookup_insert_eq, al_value0.
  - destruct (prop_gt n (n_h a)); injection E as <- <-; (eexists; split;
      [cbn [n_a v_a logprop log_append set_n_h]; rewrite ?al_n_a0, ?al_v_a0; reflexivity|]); by split.
Qed.
Lemma alike_accept src junk n v a b r a' :
  alike a b -> acceptreq src (AcceptArg junk n v) false a = Ret (OK, r, a') ->
  exists b', acceptreq src (AcceptArg junk n v) false b = Ret (OK, r, b') /\ alike a' b' /\ instance_h a' = instance_h a.
Proof.
  intros Hab E. pose proof Hab as []. unfold acceptreq in *. cbn [aa_n aa_v] in *. rewrite al_n_h0.
  destruct (prop_ge n (n_h a)); injection E as <- <-; (eexists; split; [reflexivity|]); [|done].
  by split.
Qed.
(** Learning the decision makes any two acceptors alike. *)
Lemma follows_commit v a b : follows a b -> follows (commit_wo inst v a).1 (commit_wo inst v b).1.
Proof.
  intros [Hi Hab]. assert (instance_h a < inst -> instance_h b < inst /\ a_me b = a_me a) as Hlt.
  { intros ?. case_decide as Hd; [subst b; cbn; split; [lia|done]|]. destruct Hab. split; [lia|done]. }
  unfold commit_wo. destruct (Z.ltb_spec (instance_h a) inst) as [Hl|Hge].
  - destruct (Hlt Hl) as [Hlb Hme]. apply Z.ltb_lt in Hlb. rewrite Hlb. cbn [fst].
    apply follows_alike; [cbn; lia|cbn; lia|]. split; cbn; try congruence. intros _. by rewrite !lookup_insert_eq.
  - rewrite decide_False in Hab by lia. pose proof Hab as []. destruct (Z.ltb_spec (instance_h b) inst); [lia|].
    cbn [fst]. apply follows_alike; [lia|lia|done].
Qed.
Lemma follows_decide src v a b ret a' up :
  follows a b -> decidereq src (DecideArg inst v) a = Ret (ret, a', up) ->
  exists b' up', decidereq src (DecideArg inst v) b = Ret (ret, b', up') /\ follows a' b'.
Proof.
  intros Hf E. unfold decidereq in *. cbn [da_instance da_v] in *. pose proof Hf as [Hi Hab].
  case_decide as Hd.
  { destruct (Z.eqb_spec inst (u32 (instance_h a + 1))); [width|]. destruct (Z.leb_spec inst (instance_h a)); [lia|done]. }
  destruct Hab. rewrite al_instance0, al_v_a0. destruct (inst =? u32 (instance_h a + 1)).
  - apply bind_Ret_inv in E as (? & -> & E). rewrite outcome_bind_Ret. pose proof (follows_commit (v_a a) a b Hf) as Hc.
    destruct (commit_wo inst (v_a a) a) as [? ?], (commit_wo inst (v_a a) b) as [b' up']. injection E as <- <- _.
    by exists b', up'.
  - destruct (inst <=? instance_h a); [|done]. injection E as <- <- _. by exists b, [].
Qed.
(** Requests of earlier instances go unnoticed. *)
Lemma follows_earlier a a' b : ignore_late = true -> earlier a a' -> follows a b -> follows a' b.
Proof.
  intros Hig He [Hi Hab].
  assert (forall i v, i < inst -> follows (commit_wo i v a).1 b) as Hcommit.
  { intros i v Hlt. unfold commit_wo. destruct (Z.ltb_spec (instance_h a) i); [|by split].
    rewrite decide_True in Hab by lia. subst b. split; [cbn; lia|]. cbn.
    case_decide; [done|]. split; cbn; try done; lia. }
  destruct He as [i n src r0 ret r a a' Hlt E|i n v src junk r0 ret r a a' Hlt Hl E|i v src ret a a' up Hlt E|i v a a' up Hlt E].
  - unfold preparereq in E. cbn [pa_instance pa_n] in E. destruct (Z.leb_spec i (instance_h a)).
    + injection E as _ _ <-. split; [done|]. cbn [instance_h set_values a_me]. case_decide; [done|].
      destruct Hab. split; try done. intros Hia. cbn [values set_values]. unfold std_touch.
      by rewrite al_value0, lookup_insert_ne by (done || lia).
    + rewrite decide_True in Hab by lia. destruct (prop_gt n (n_h a)); injection E as _ _ <-; (split; [done|]); by rewrite decide_True by (cbn; lia).
  - specialize (Hl Hig). rewrite decide_True in Hab by lia. unfold acceptreq in E.
    destruct (prop_ge _ _); injection E as _ _ <-; (split; [done|]); by rewrite decide_True by (cbn; lia).
  - unfold decidereq in E. cbn [da_instance da_v] in E. destruct (i =? u32 (instance_h a + 1)).
    + apply bind_Ret_inv in E as (? & _ & E). specialize (Hcommit i (v_a a) Hlt).
      destruct (commit_wo i (v_a a) a). by injection E as _ <- _.
    + destruct (i <=? instance_h a); [|done]. by injection E as _ <- _.
  - specialize (Hcommit i v Hlt). unfold commit in E. by rewrite E in Hcommit.
Qed.

Lemma simulates_inv s t : ignore_late = true -> simulates s t -> inv t.
Proof. intros Hig (Hr & _). by apply reachable_inv. Qed.
(** Whoever has promised is not behind. *)
Lemma promised_prompt s t n x r a :
  ignore_late = true -> simulates s t -> (n, x, r) ∈ replies s -> pr_accept r = true -> accs s !! x = Some a ->
  inst - 1 <= instance_h a.
Proof.
  intros Hig Hsim Hin Hacc Ha. destruct (simulates_node s t x a Hsim Ha) as (b & Hb & [_ Hab]).
  case_decide; [|lia]. subst b. pose proof (simulates_inv s t Hig Hsim) as Hinv.
  destruct Hsim as (_ & _ & _ & Hrep & _). rewrite <-Hrep in Hin.
  destruct (i_promise _ Hinv n x r Hin Hacc) as (_ & Hu & _). pose proof (i_used _ Hinv n Hu) as Hpos.
  destruct (i_open _ Hinv x _ Hb) as (_ & _ & _ & _ & Hpr & _); [cbn; lia|].
  specialize (Hpr n r Hin Hacc). cbn [n_h blank] in Hpr.
  assert (prop_gt n (Prop_t 0 (a_me a)) = true) by (apply prop_gt_spec; by left). congruence.
Qed.
Lemma simulates_step s s' t :
  ignore_late = true -> simulates s t -> step s s' -> prompt s s' -> exists t', simulates s' t'.
Proof.
  intros Hig Hsim Hs Hprompt. pose proof Hsim as (Hr & HF & Hu & Hrep & Hp & Hk & Ho). destruct Hs.
  - eexists. split_and!; [eapply reach_step; [exact Hr|]; eapply (step_start t n); [by rewrite Hu|done]|cbn; first [done|congruence]..].
  - destruct (simulates_node s t x a Hsim) as (b & Hb & [Hi Hab]); [done|].
    rewrite decide_False in Hab by (specialize (Hprompt n x r a eq_refl ltac:(done)); lia).
    destruct (alike_prepare src n r0 a b r a' Hab ltac:(done) ltac:(lia)) as (b' & E & Hab' & Hi').
    eexists. split_and!; [eapply reach_step; [exact Hr|]; eapply (step_prepare t n x); [by rewrite Hu|exact Hb|exact E]|
      |cbn; first [done|congruence]..]. cbn [accs]. apply follows_insert; [done|].
    specialize (Hprompt n x r a eq_refl ltac:(done)). apply follows_alike; [lia|lia|done].
  - eexists. split_and!; [eapply reach_step; [exact Hr|]; eapply (step_propose t n rs c newv); rewrite ?Hu, ?Hp, ?Hrep; eauto|
      cbn; first [done|congruence]..].
  - destruct (simulates_node s t x a Hsim) as (b & Hb & Hf); [done|].
    assert (inst - 1 <= instance_h a) as Hge.
    { destruct (i_prop _ (simulates_inv s t Hig Hsim) n v Q) as (_ & _ & _ & _ & Hprom & _); [by rewrite Hp|].
      destruct (Hprom x ltac:(done)) as (rx & Hrx & ?). rewrite Hrep in Hrx. by eapply promised_prompt. }
    pose proof Hf as [Hi Hab]. rewrite decide_False in Hab by lia.
    destruct (alike_accept src junk n v a b r a' Hab ltac:(done)) as (b' & E & Hab' & Hi').
    eexists. split_and!; [eapply reach_step; [exact Hr|]; eapply (step_accept t n v Q x);
      [by rewrite Hp|done|exact Hb|destruct Hab as [? ? ? ? -> ?]; done|exact E]| |cbn; try first [done|congruence]..].
    + cbn [accs]. apply follows_insert; [done|]. apply follows_alike; [lia|lia|done].
    + by rewrite Hk.
  - destruct (simulates_node s t x a Hsim) as (b & Hb & Hf); [done|].
    destruct (follows_decide src v a b ret a' up Hf ltac:(done)) as (b' & up' & E & Hf').
    eexists. split_and!; [eapply reach_step; [exact Hr|]; eapply (step_decide t n v Q A x); rewrite ?Hp, ?Hk; eauto|
      |cbn; first [done|congruence]..]. cbn [accs]. by apply follows_insert.
  - destruct (simulates_node s t x a Hsim) as (b & Hb & Hf); [done|].
    pose proof (follows_commit (pr_v_a r) a b Hf) as Hf'. destruct (commit inst (pr_v_a r) b) as [b' up'] eqn:E.
    eexists. split_and!; [eapply reach_step; [exact Hr|]; eapply (step_learn t n y r x); rewrite ?Hrep; eauto|
      |cbn; first [done|congruence]..]. cbn [accs]. apply follows_insert; [done|]. unfold commit in *.
    match goal with H : commit_wo inst _ a = _ |- _ => rewrite H in Hf' end. by rewrite E in Hf'.
Qed.
Lemma reaches_simulates s : ignore_late = true -> reaches false s -> exists t, simulates s t.
Proof.
  intros Hig. induction 1 as [s Hs|s x a a' _ [t Ht] Ha He|s s' _ [t Ht] Hs Hp].
  - by apply started_simulates.
  - exists t. destruct (simulates_node s t x a Ht Ha) as (b & Hb & Hf). destruct Ht as (Hr & HF & ?).
    split_and!; try tauto. cbn [accs]. rewrite <-(insert_id (accs t) x b Hb). apply follows_insert; [done|].
    by eapply follows_earlier.
  - eapply simulates_step; eauto.
Qed.
Lemma simulates_closed s t x a :
  ignore_late = true -> simulates s t -> accs s !! x = Some a -> instance_h a = inst ->
  exists n v, values a !! inst = Some v /\ chosen nodes t n v.
Proof.
  intros Hig Ht Ha Hi. destruct (simulates_node s t x a Ht Ha) as (b & Hb & [_ Hab]).
  rewrite decide_False in Hab by lia. destruct Hab.
  rewrite <-al_value0 by done. apply (i_closed t (simulates_inv s t Hig Ht) x b Hb). congruence.
Qed.
End safety.

(** ** Three nodes *)

Definition nA : str := lit "A".
Definition nB : str := lit "B".
Definition nC : str := lit "C".
Definition three : list str := [nA; nB; nC].
Definition fresh_acceptor (me : str) : acceptor :=
  Acceptor me (Prop_t 0 me) (Prop_t 0 me) [] 1 {[ 1 := lit "v0" ]} [].
Definition three0 : system :=
  System {[ nA := fresh_acceptor nA; nB := fresh_acceptor nB; nC := fresh_acceptor nC ]}
    [] [] [] [] [].

Lemma three0_initial : initial 2 three0.
Proof.
  split; [|done]. intros x a. unfold three0; cbn [accs].
  rewrite !lookup_insert_Some, lookup_singleton_Some.
  intros [[<- <-]|[_ [[<- <-]|[_ [<- <-]]]]]; done.
Qed.

(** An executable scheduler: the events of a run, and the state they lead to. *)
Inductive event :=
  | EStart (n : prop_t)
  | EPrepare (n : prop_t) (x : str)
  | EPropose (n : prop_t) (from : list str) (newv : str)
  | EAccept (n : prop_t) (x : str)
  | EDecide (n : prop_t) (A : list str) (x : str).

Definition reply_of (s : system) (n : prop_t) (x : str) : option prepareres :=
  (snd <$> list_find (fun p : prop_t * str * prepareres => p.1.1 = n /\ p.1.2 = x) (replies s))
    ≫= fun p => Some p.2.
Definition proposal_of (s : system) (n : prop_t) : option (str * list str) :=
  (snd <$> list_find (fun p : prop_t * str * list str => p.1.1 = n) (proposals s))
    ≫= fun p => Some (p.1.2, p.2).

Definition exec (nodes : list str) (inst : Z) (late : bool) (s : system) (e : event)
  : option system :=
  match e with
  | EStart n =>
      if bool_decide (n ∉ used s /\ 0 < p_n n)
      then Some (System (accs s) (n :: used s) (replies s) (proposals s) (acks s) (offered s))
      else None
  | EPrepare n x =>
      a ← accs s !! x;
      match bool_decide (n ∈ used s), preparereq [] (PrepareArg inst n)
              (PrepareRes false false (Prop_t 0 []) []) a with
      | true, Ret (0, r, a') =>
          Some (System (<[x := a']> (accs s)) (used s) ((n, x, r) :: replies s)
                  (proposals s) (acks s) (offered s))
      | _, _ => None
      end
  | EPropose n from newv =>
      rs ← mapM (fun x => r ← reply_of s n x; Some (x, OK, r)) from;
      c ← collect rs (collect0 []);
      if bool_decide (n ∈ used s /\ proposal_of s n = None /\ newv <> [] /\
                      majority nodes (c_accepts c) = true)
      then Some (System (accs s) (used s) (replies s)
                   ((n, if decide (c_v c = []) then newv else c_v c, c_accepts c)
                      :: proposals s) (acks s) (newv :: offered s))
      else None
  | EAccept n x =>
      a ← accs s !! x;
      '(v, Q) ← proposal_of s n;
      match bool_decide (x ∈ Q /\ (late = true \/ instance_h a < inst)),
            acceptreq [] (AcceptArg 0 n v) false a with
      | true, Ret (0, r, a') =>
          Some (System (<[x := a']> (accs s)) (used s) (replies s) (proposals s)
                  (if r then (n, x) :: acks s else acks s) (offered s))
      | _, _ => None
      end
  | EDecide n A x =>
      a ← accs s !! x;
      '(v, Q) ← proposal_of s n;
      match bool_decide (majority nodes A = true /\ x ∈ A /\ Forall (fun y => (n, y) ∈ acks s) A),
            decidereq [] (DecideArg inst v) a with
      | true, Ret (_, a', _) =>
          Some (System (<[x := a']> (accs s)) (used s) (replies s) (proposals s) (acks s)
                  (offered s))
      | _, _ => None
      end
  end.

Lemma list_find_snd {A} (P : A -> Prop) `{forall x, Decision (P x)} l x :
  snd <$> list_find P l = Some x -> x ∈ l /\ P x.
Proof.
  destruct (list_find P l) as [[i y]|] eqn:E; cbn; intros [= <-].
  apply list_find_Some in E as (Hl & HP & _). split; [by apply list_elem_of_lookup_2 in Hl|done].
Qed.
Lemma reply_of_spec s n x r : reply_of s n x = Some r -> (n, x, r) ∈ replies s.
Proof.
  unfold reply_of. intros H. apply bind_Some in H as ([[n' x'] r'] & H & [= <-]).
  apply list_find_snd in H as [Hin [<- <-]]. done.
Qed.
Lemma proposal_of_spec s n v Q : proposal_of s n = Some (v, Q) -> (n, v, Q) ∈ proposals s.
Proof.
  unfold proposal_of. intros H. apply bind_Some in H as ([[n' v'] Q'] & H & [= <- <-]).
  by apply list_find_snd in H as [Hin <-].
Qed.
Lemma proposal_of_None s n v Q : proposal_of s n = None -> (n, v, Q) ∉ proposals s.
Proof.
  unfold proposal_of. intros H Hin.
  destruct (list_find _ _) as [[i [[? ?] ?]]|] eqn:E; [done|].
  apply list_find_None in E. rewrite Forall_forall in E. by apply (E _ Hin).
Qed.

Lemma exec_step nodes inst late s e s' :
  exec nodes inst late s e = Some s' -> step nodes inst (negb late) s s'.
Proof.
  destruct e as [n|n x|n from newv|n x|n A x]; cbn [exec]; intros H.
  - case_bool_decide as Hc; [|done]. destruct Hc. simplify_eq. by constructor.
  - apply bind_Some in H as (a & Ha & H). case_bool_decide as Hn; [|done].
    destruct (preparereq _ _ _ _) as [[[[] r] a']| | |] eqn:E; simplify_eq.
    by eapply step_prepare.
  - apply bind_Some in H as (rs & Hrs & H). apply bind_Some in H as (c & Hc & H).
    case_bool_decide as Hp; [|done]. destruct Hp as (? & ? & ? & ?). simplify_eq.
    eapply step_propose; try done; [intros v Q; by apply proposal_of_None|].
    intros x ret r Hin _. apply mapM_Some in Hrs.
    apply list_elem_of_lookup in Hin as [i Hi].
    destruct (Forall2_lookup_r _ _ _ _ _ Hrs Hi) as (y & _ & Hy).
    apply bind_Some in Hy as (r' & Hr' & [= <- <- <-]). by apply reply_of_spec.
  - apply bind_Some in H as (a & Ha & H). apply bind_Some in H as ([v Q] & HQ & H).
    case_bool_decide as Hc; [|done]. destruct Hc as [Hx Hl].
    destruct (acceptreq _ _ _ _) as [[[[] r] a']| | |] eqn:E; simplify_eq.
    eapply step_accept; try done; [by apply proposal_of_spec|].
    intros Hig. destruct Hl as [->|]; done.
  - apply bind_Some in H as (a & Ha & H). apply bind_Some in H as ([v Q] & HQ & H).
    case_bool_decide as Hc; [|done]. destruct Hc as (? & ? & HA).
    destruct (decidereq _ _ _) as [[[ret a'] up]| | |] eqn:E; simplify_eq.
    eapply step_decide; try done; [by apply proposal_of_spec|].
    by apply Forall_forall.
Qed.

Definition exec_all (nodes : list str) (inst : Z) (late : bool) (es : list event)
    (s : system) : option system :=
  foldl (fun s e => s ← s; exec nodes inst late s e) (Some s) es.
Lemma exec_reachable nodes inst late es s s' :
  reachable nodes inst (negb late) s -> exec_all nodes inst late es s = Some s' ->
  reachable nodes inst (negb late) s'.
Proof.
  revert s'. induction es as [|e es IH] using rev_ind; intros s' Hr;
    unfold exec_all; [by intros [= <-]|].
  rewrite foldl_app. cbn [foldl]. intros H. apply bind_Some in H as (s1 & H1 & H2).
  eapply reach_step; [by apply IH|by apply exec_step in H2].
Qed.

(** The same with nodes that are behind: [LCommit i v x] tells node [x] the value of
    an earlier instance. *)
Inductive lag_event := LEvent (e : event) | LCommit (i : Z) (v : str) (x : str).
Definition in_turn (inst : Z) (s : system) (e : event) : bool :=
  match e with
  | EPrepare _ x => match accs s !! x with Some a => inst - 1 <=? instance_h a | None => true end
  | _ => true
  end.
Definition exec_lag (nodes : list str) (inst : Z) (early : bool) (s : system) (e : lag_event) : option system :=
  match e with
  | LEvent e => if early || in_turn inst s e then exec nodes inst false s e else None
  | LCommit i v x =>
      a ← accs s !! x;
      if decide (i < inst)
      then Some (System (<[x := (commit i v a).1]> (accs s)) (used s) (replies s) (proposals s) (acks s) (offered s))
      else None
  end.
Lemma exec_prompt nodes inst s e s' :
  exec nodes inst false s e = Some s' -> in_turn inst s e = true -> prompt inst s s'.
Proof.
  intros H Ht n x r a Hrep Ha.
  assert (replies s' = replies s -> inst - 1 <= instance_h a) as Hsame.
  { intros Hs. rewrite Hs in Hrep. apply (f_equal length) in Hrep. cbn in Hrep. lia. }
  destruct e as [m|m y|m from newv|m y|m A y]; cbn [exec in_turn] in H, Ht.
  - case_bool_decide; [|done]. simplify_eq. by apply Hsame.
  - apply bind_Some in H as (b & Hb & H). rewrite Hb in Ht. case_bool_decide; [|done].
    destruct (preparereq _ _ _ _) as [[[[] r'] a']| | |]; simplify_eq. injection Hrep as <- <- <-.
    rewrite Hb in Ha. injection Ha as <-. lia.
  - apply bind_Some in H as (rs & _ & H). apply bind_Some in H as (c & _ & H).
    case_bool_decide; [|done]. simplify_eq. by apply Hsame.
  - apply bind_Some in H as (b & _ & H). apply bind_Some in H as ([v Q] & _ & H).
    case_bool_decide; [|done]. destruct (acceptreq _ _ _ _) as [[[[] r'] a']| | |]; simplify_eq. by apply Hsame.
  - apply bind_Some in H as (b & _ & H). apply bind_Some in H as ([v Q] & _ & H).
    case_bool_decide; [|done]. destruct (decidereq _ _ _) as [[[ret a'] up]| | |]; simplify_eq. by apply Hsame.
Qed.
Definition exec_lag_all (nodes : list str) (inst : Z) (early : bool) (es : list lag_event) (s : system) : option system :=
  foldl (fun s e => s ← s; exec_lag nodes inst early s e) (Some s) es.
Lemma exec_lag_reaches nodes inst early es s s' :
  reaches nodes inst true early s -> exec_lag_all nodes inst early es s = Some s' -> reaches nodes inst true early s'.
Proof.
  revert s'. induction es as [|e es IH] using rev_ind; intros s' Hr; unfold exec_lag_all; [by intros [= <-]|].
  rewrite foldl_app. cbn [foldl]. intros H. apply bind_Some in H as (s1 & H1 & H2). specialize (IH s1 Hr H1).
  destruct e as [e|i v x]; cbn [exec_lag] in H2.
  - destruct (early || in_turn inst s1 e) eqn:Et; [|done]. eapply reaches_step; [exact IH|by apply exec_step in H2|].
    intros ->. by eapply exec_prompt.
  - apply bind_Some in H2 as (a & Ha & H2). case_decide; [|done]. injection H2 as <-.
    eapply reaches_earlier; [exact IH|exact Ha|]. by eapply (earlier_commit inst true i v _ _ (commit i v a).2); [|apply surjective_pairing].
Qed.

(** Node B proposes v2 under (2, B); B and C promise, accept and decide. *)
Definition prop_A : prop_t := Prop_t 1 nA.
Definition prop_B : prop_t := Prop_t 2 nB.
Definition run_B : list event :=
  [EStart prop_B; EPrepare prop_B nB; EPrepare prop_B nC; EPropose prop_B [nB; nC] (lit "v2");
   EAccept prop_B nB; EAccept prop_B nC; EDecide prop_B [nB; nC] nB].
(** Before that, node A has the promises of A and B for v1 under (1, A)... *)
Definition run_A1 : list event :=
  [EStart prop_A; EPrepare prop_A nA; EPrepare prop_A nB; EPropose prop_A [nA; nB] (lit "v1")].
(** ... and only afterwards sends its accept and decide requests. *)
Definition run_A2 : list event :=
  [EAccept prop_A nA; EAccept prop_A nB; EDecide prop_A [nA; nB] nA].

Definition node_value (s : option system) (x : str) : option str :=
  s ← s; a ← accs s !! x; if decide (instance_h a = 2) then values a !! 2 else None.

(** ** Properties *)

(** C1. Agreement on one instance: in every reachable state of any number of
    proposers, with requests and replies delayed, lost or interleaved in any way,
    and nodes that are behind and catch up on earlier instances at any time, all
    nodes that have decided the instance hold the same value for it, and that
    value was proposed by someone.  The instance starts with nothing proposed for
    it.  There are two provisos, neither of which the code sees to: a node that
    has decided an instance does not answer its accept requests any more, and a
    node answers prepare requests only for instances up to the next it has to
    decide. *)
Theorem paxos_agreement nodes inst s x y a b :
  Z.of_nat (length nodes) < 2 ^ 32 -> 1 <= inst < 2 ^ 32 ->
  reaches nodes inst true false s ->
  accs s !! x = Some a -> accs s !! y = Some b ->
  instance_h a = inst -> instance_h b = inst ->
  exists v, values a !! inst = Some v /\ values b !! inst = Some v /\ v ∈ offered s.
Proof.
  intros Hn Hi Hr Ha Hb Hia Hib.
  destruct (reaches_simulates nodes inst true Hi s eq_refl Hr) as [t Ht].
  pose proof (simulates_inv nodes inst true Hi s t eq_refl Ht) as Hinv.
  destruct (simulates_closed nodes inst true Hi s t x a eq_refl Ht Ha Hia) as (n1 & v1 & Hv1 & Hc1).
  destruct (simulates_closed nodes inst true Hi s t y b eq_refl Ht Hb Hib) as (n2 & v2 & Hv2 & Hc2).
  assert (v1 = v2) as -> by (by eapply chosen_unique).
  destruct Hc2 as (Q & A & Hp & _). destruct Ht as (_ & _ & _ & _ & _ & _ & <-).
  exists v2. split_and!; [done|done|]. by destruct (i_prop _ _ _ Hinv _ _ _ Hp) as (_ & _ & ? & _).
Qed.

(** Node C has promised something for instance 1, which it has yet to decide. *)
Definition lag0 : system :=
  System {[ nA := fresh_acceptor nA; nB := fresh_acceptor nB;
            nC := Acceptor nC (Prop_t 7 nA) (Prop_t 0 nC) [] 0 ∅ [] ]} [] [] [] [] [].
Lemma lag0_started : started 2 lag0.
Proof.
  split; [|done]. intros x a. unfold lag0; cbn [accs].
  rewrite !lookup_insert_Some, lookup_singleton_Some.
  intros [[<- <-]|[_ [[<- <-]|[_ [<- <-]]]]]; done.
Qed.
(** Node A has promises, C decides instance 1, and B and C decide. *)
Definition run_lag : list lag_event :=
  (LEvent <$> run_A1) ++ [LCommit 1 (lit "v0") nC] ++ (LEvent <$> run_B ++ [EDecide prop_B [nB; nC] nC]).
Definition system_BC : system := default lag0 (exec_lag_all three 2 false run_lag lag0).
Definition acceptor_at (s : system) (x : str) : acceptor :=
  default (fresh_acceptor x) (accs s !! x).
Lemma system_BC_reached : reaches three 2 true false system_BC.
Proof.
  apply (exec_lag_reaches three 2 false run_lag lag0); [apply reaches_start, lag0_started|vm_compute; reflexivity].
Qed.
Lemma paxos_agreement_witness :
  exists v, values (acceptor_at system_BC nB) !! 2 = Some v /\
    values (acceptor_at system_BC nC) !! 2 = Some v /\ v ∈ offered system_BC.
Proof.
  apply (paxos_agreement three 2 system_BC nB nC); [done|done|exact system_BC_reached
    |vm_compute; reflexivity..].
Defined.

(** The second proviso is needed: here C promises (1, B) and (2, A) for instance 2
    while it has yet to decide instance 1.  When it does, [commit_wo] forgets the
    promises, so C accepts both proposals, and A decides one and B the other. *)
Definition prop_2A : prop_t := Prop_t 2 nA.
Definition prop_1B : prop_t := Prop_t 1 nB.
Definition run_early : list lag_event :=
  (LEvent <$> [EStart prop_1B; EPrepare prop_1B nB; EPrepare prop_1B nC; EPropose prop_1B [nB; nC] (lit "v1");
     EStart prop_2A; EPrepare prop_2A nA; EPrepare prop_2A nC; EPropose prop_2A [nA; nC] (lit "v2")]) ++
  [LCommit 1 (lit "v0") nC] ++
  (LEvent <$> [EAccept prop_1B nB; EAccept prop_1B nC; EAccept prop_2A nA; EAccept prop_2A nC;
     EDecide prop_1B [nB; nC] nB; EDecide prop_2A [nA; nC] nA]).
Definition lag1 : system :=
  System {[ nA := fresh_acceptor nA; nB := fresh_acceptor nB;
            nC := Acceptor nC (Prop_t 0 nC) (Prop_t 0 nC) [] 0 ∅ [] ]} [] [] [] [] [].
Lemma lag1_started : started 2 lag1.
Proof.
  split; [|done]. intros x a. unfold lag1; cbn [accs].
  rewrite !lookup_insert_Some, lookup_singleton_Some.
  intros [[<- <-]|[_ [[<- <-]|[_ [<- <-]]]]]; done.
Qed.
Lemma early_promise_disagreement :
  exists s, reaches three 2 true true s /\
    instance_h (acceptor_at s nA) = 2 /\ instance_h (acceptor_at s nB) = 2 /\
    values (acceptor_at s nA) !! 2 = Some (lit "v2") /\
    values (acceptor_at s nB) !! 2 = Some (lit "v1").
Proof.
  exists (default lag1 (exec_lag_all three 2 true run_early lag1)). split; [|vm_compute; done].
  apply (exec_lag_reaches three 2 true run_early lag1); [apply reaches_start, lag1_started|vm_compute; reflexivity].
Qed.

(** A decide request never fails its [VERIFY]: whenever a proposer has a
    majority of accepts for its proposal, [decidereq] succeeds at every node
    that accepted it, whatever that node has accepted since. *)
Theorem decidereq_never_fails nodes inst s n v Q A x src a :
  Z.of_nat (length nodes) < 2 ^ 32 -> 1 <= inst < 2 ^ 32 ->
  reachable nodes inst true s ->
  (n, v, Q) ∈ proposals s -> majority nodes A = true ->
  (forall y, y ∈ A -> (n, y) ∈ acks s) -> x ∈ A -> accs s !! x = Some a ->
  exists a' up, decidereq src (DecideArg inst v) a = Ret (OK, a', up).
Proof.
  intros Hn Hi Hr Hp HA Hacks Hx Ha. apply reachable_inv in Hr as Hinv; [|done..].
  unfold decidereq. cbn [da_instance da_v].
  destruct (decide (instance_h a = inst)) as [Hia|Hne].
  - destruct (Z.eqb_spec inst (u32 (instance_h a + 1))); [width|].
    destruct (Z.leb_spec inst (instance_h a)); [eauto|lia].
  - rewrite (decide_verified nodes inst Hn s n v Q A x a) by done.
    destruct (i_open _ _ _ Hinv x a Ha Hne) as (-> & _).
    destruct (Z.eqb_spec inst (u32 (inst - 1 + 1))); [|width].
    rewrite bool_decide_eq_true_2 by done. cbn.
    destruct (commit_wo inst v a). eauto.
Qed.
(** C decides what B proposed, after B has decided it. *)
Definition system_B : system :=
  default three0 (exec_all three 2 false (run_A1 ++ run_B) three0).
Lemma system_B_reachable : reachable three 2 true system_B.
Proof.
  apply (exec_reachable three 2 false (run_A1 ++ run_B) three0);
    [apply reach_init, three0_initial|vm_compute; reflexivity].
Qed.
Lemma decidereq_never_fails_witness :
  exists a' up, decidereq [] (DecideArg 2 (lit "v2")) (acceptor_at system_B nC)
    = Ret (OK, a', up).
Proof.
  apply (decidereq_never_fails three 2 system_B prop_B (lit "v2") [nB; nC] [nB; nC] nC);
    [done|done|exact system_B_reachable|by apply (bool_decide_unpack _); vm_compute
    |vm_compute; reflexivity| |by apply (bool_decide_unpack _); vm_compute
    |vm_compute; reflexivity].
  intros y. rewrite !elem_of_cons, elem_of_nil.
  intros [->|[->|[]]]; by apply (bool_decide_unpack _); vm_compute.
Defined.

(** C38. Without the first proviso of [paxos_agreement] agreement fails:
    [acceptreq] does not look at the instance and [commit_wo] resets [n_h], so a
    node that has decided the
    instance grants an older proposal of the same instance; the proposer then
    counts it towards its majority.  Here A decides v1 and B decides v2. *)
Theorem late_accept_disagreement :
  exists s, reachable three 2 false s /\
    instance_h (acceptor_at s nA) = 2 /\ instance_h (acceptor_at s nB) = 2 /\
    values (acceptor_at s nA) !! 2 = Some (lit "v1") /\
    values (acceptor_at s nB) !! 2 = Some (lit "v2").
Proof.
  exists (default three0 (exec_all three 2 true (run_A1 ++ run_B ++ run_A2) three0)).
  split; [|vm_compute; done].
  apply (exec_reachable three 2 true (run_A1 ++ run_B ++ run_A2) three0);
    [apply reach_init, three0_initial|vm_compute; reflexivity].
Qed.
