(* ===== verification/PaxosRun.v ===== *)
(** * [proposer::run] among acceptors

    The proposer's code of [Paxos], its calls made in a world of acceptors and a
    network that decides the fate of every call, while other proposers take steps
    of theirs between its calls.  Every run is a sequence of steps of the system
    of [PaxosSafety], for which agreement is proved.  Agreement says that two
    decisions never differ; a proposer that is alone also reaches one, even when
    it starts with a number that the acceptors refuse, because every further
    [run] draws a higher number. *)
From S2P Require Import Prelude Marshall Protocols RpcStub Log Paxos PaxosSafety.
Import paxos_protocol.

(** [safebind] fails; the call is bound and the request is lost; the request is
    handled and the reply lost or late; the call returns. *)
Inductive call_fate := Unbound | Lost | NoReply | Answered.
#[export] Instance call_fate_eq_dec : EqDecision call_fate.
Proof. solve_decision. Defined.

(** The acceptors, and the number of calls so far. *)
Abbreviation pworld := (nat * gmap str acceptor)%type.

Section calls.
(** The proposer's own node, and the fate of a call by its number and its node. *)
Variables (me : str) (fate : nat -> str -> call_fate).

Definition w_binds (x : str) (w : pworld) : bool * pworld :=
  (negb (bool_decide (fate w.1 x = Unbound)), (S w.1, w.2)).
(** The handlers fill a reply of their own; the caller's [r] is only assigned
    when the call succeeds. *)
Definition w_prepare (x : str) (arg : preparearg) (r : prepareres) (w : pworld)
  : Z * prepareres * pworld :=
  match w.2 !! x with
  | Some a =>
      match fate w.1 x, preparereq me arg (PrepareRes false false (Prop_t 0 []) []) a with
      | Answered, Ret (ret, r', a') => (ret, r', (S w.1, <[x := a']> w.2))
      | NoReply, Ret (_, _, a') => (rpc_const.timeout_failure, r, (S w.1, <[x := a']> w.2))
      | _, _ => (rpc_const.timeout_failure, r, (S w.1, w.2))
      end
  | None => (rpc_const.timeout_failure, r, (S w.1, w.2))
  end.
Definition w_accept (x : str) (arg : acceptarg) (w : pworld) : Z * bool * pworld :=
  match w.2 !! x with
  | Some a =>
      match fate w.1 x, acceptreq me arg false a with
      | Answered, Ret (ret, r, a') => (ret, r, (S w.1, <[x := a']> w.2))
      | NoReply, Ret (_, _, a') => (rpc_const.timeout_failure, false, (S w.1, <[x := a']> w.2))
      | _, _ => (rpc_const.timeout_failure, false, (S w.1, w.2))
      end
  | None => (rpc_const.timeout_failure, false, (S w.1, w.2))
  end.
(** A node whose [VERIFY] fails is gone. *)
Definition w_decide (x : str) (arg : decidearg) (w : pworld) : pworld :=
  match w.2 !! x with
  | Some a =>
      match fate w.1 x with
      | Answered | NoReply =>
          (S w.1, match decidereq me arg a with Ret (_, a', _) => <[x := a']> w.2 | _ => delete x w.2 end)
      | _ => (S w.1, w.2)
      end
  | None => (S w.1, w.2)
  end.
Definition w_commit (i : Z) (v : str) (w : pworld) : pworld :=
  (w.1, alter (fun a => (commit i v a).1) me w.2).
Definition w_n_h (w : pworld) : prop_t :=
  match w.2 !! me with Some a => n_h a | None => Prop_t 0 [] end.

Definition w_run (junk inst : Z) (nodes : list str) (newv : str)
  : proposer -> pworld -> outcome (bool * proposer * pworld) :=
  run w_binds w_prepare w_accept w_decide w_commit w_n_h junk inst nodes newv.
(** [run] up to [k] times, until it succeeds. *)
Fixpoint attempts (junk inst : Z) (nodes : list str) (newv : str) (k : nat) (p : proposer) (w : pworld)
  : outcome (bool * proposer * pworld) :=
  match k with
  | O => Ret (false, p, w)
  | S k =>
      '(r, p, w) ← w_run junk inst nodes newv p w;
      if (r : bool) then Ret (true, p, w) else attempts junk inst nodes newv k p w
  end.
End calls.

(** ** Every run is a sequence of steps *)

(** The world of a proposer among others: the state of the system, with its
    history, and the number of calls so far.  The calls are those above; after
    every one of them the others go on: [env] says what they do.  A node that has
    decided the instance leaves accept requests unanswered. *)
Section among.
Variables (me : str) (fate : nat -> str -> call_fate) (inst : Z) (env : nat -> system -> system).
Abbreviation gworld := (nat * system)%type.
Definition set_accs (s : system) (m : gmap str acceptor) : system :=
  System m (used s) (replies s) (proposals s) (acks s) (offered s).
Definition g_next (w : gworld) (s : system) : gworld := (S w.1, env w.1 s).
Definition g_binds (x : str) (w : gworld) : bool * gworld :=
  (negb (bool_decide (fate w.1 x = Unbound)), g_next w w.2).
Definition g_prepare (x : str) (arg : preparearg) (r : prepareres) (w : gworld)
  : Z * prepareres * gworld :=
  let s := w.2 in
  match accs s !! x with
  | Some a =>
      match fate w.1 x, preparereq me arg (PrepareRes false false (Prop_t 0 []) []) a with
      | Answered, Ret (ret, r', a') =>
          (ret, r', g_next w (System (<[x := a']> (accs s)) (used s) ((pa_n arg, x, r') :: replies s)
                                (proposals s) (acks s) (offered s)))
      | NoReply, Ret (_, r', a') =>
          (rpc_const.timeout_failure, r,
           g_next w (System (<[x := a']> (accs s)) (used s) ((pa_n arg, x, r') :: replies s)
                       (proposals s) (acks s) (offered s)))
      | _, _ => (rpc_const.timeout_failure, r, g_next w s)
      end
  | None => (rpc_const.timeout_failure, r, g_next w s)
  end.
Definition g_accept (x : str) (arg : acceptarg) (w : gworld) : Z * bool * gworld :=
  let s := w.2 in
  match accs s !! x with
  | Some a =>
      match (if inst <=? instance_h a then Lost else fate w.1 x), acceptreq me arg false a with
      | Answered, Ret (ret, r, a') => (ret, r, g_next w (set_accs s (<[x := a']> (accs s))))
      | NoReply, Ret (_, _, a') => (rpc_const.timeout_failure, false, g_next w (set_accs s (<[x := a']> (accs s))))
      | _, _ => (rpc_const.timeout_failure, false, g_next w s)
      end
  | None => (rpc_const.timeout_failure, false, g_next w s)
  end.
Definition g_decide (x : str) (arg : decidearg) (w : gworld) : gworld :=
  let s := w.2 in
  match accs s !! x with
  | Some a =>
      match fate w.1 x with
      | Answered | NoReply =>
          g_next w (set_accs s match decidereq me arg a with
                               | Ret (_, a', _) => <[x := a']> (accs s)
                               | _ => delete x (accs s)
                               end)
      | _ => g_next w s
      end
  | None => g_next w s
  end.
Definition g_commit (i : Z) (v : str) (w : gworld) : gworld :=
  g_next w (set_accs w.2 (alter (fun a => (commit i v a).1) me (accs w.2))).
Definition g_n_h (w : gworld) : prop_t :=
  match accs w.2 !! me with Some a => n_h a | None => Prop_t 0 [] end.
Definition g_run (junk : Z) (nodes : list str) (newv : str)
  : proposer -> gworld -> outcome (bool * proposer * gworld) :=
  run g_binds g_prepare g_accept g_decide g_commit g_n_h junk inst nodes newv.
End among.
Abbreviation gworld := (nat * system)%type.

Lemma alter_at {V} (f : V -> V) (m : gmap str V) i a : m !! i = Some a -> alter f i m = <[i := f a]> m.
Proof.
  intros E. apply map_eq. intros j. destruct (decide (i = j)) as [<-|].
  - by rewrite lookup_alter_eq, lookup_insert_eq, E.
  - by rewrite lookup_alter_ne, lookup_insert_ne.
Qed.

Section steps.
Variables (me : str) (fate : nat -> str -> call_fate) (nodes : list str) (inst junk : Z) (newv : str).
Variables (env : nat -> system -> system) (n : prop_t).
Hypotheses (Hlen : Z.of_nat (length nodes) < 2 ^ 32) (Hinst : 1 <= inst < 2 ^ 32).
Local Abbreviation stp := (step nodes inst true).
Local Abbreviation steps := (rtc stp).

(** The others take steps of the system; only this proposer proposes under [n]. *)
Definition others (s s' : system) : Prop :=
  stp s s' /\ forall v Q, (n, v, Q) ∈ proposals s' -> (n, v, Q) ∈ proposals s.
Hypothesis Henv : forall t s, rtc others s (env t s).

Lemma steps_reachable s s' : reachable nodes inst true s -> steps s s' -> reachable nodes inst true s'.
Proof. intros Hr Hs. induction Hs as [|s1 s2 s3 H1 _ IH]; [done|]. apply IH. by eapply reach_step. Qed.

Definition fresh (s : system) : Prop := forall v Q, (n, v, Q) ∉ proposals s.
(** The history only grows. *)
Definition grows (s s' : system) : Prop :=
  (forall m, m ∈ used s -> m ∈ used s') /\ (forall q, q ∈ replies s -> q ∈ replies s') /\
  (forall q, q ∈ proposals s -> q ∈ proposals s') /\ (forall k, k ∈ acks s -> k ∈ acks s').
Lemma step_grows s s' : stp s s' -> grows s s'.
Proof.
  intros []; split_and!; cbn; intros; try done; try by right. by destruct r; [right|].
Qed.
#[local] Instance grows_preorder : PreOrder grows.
Proof. split; [by intros s|]. intros s1 s2 s3 (? & ? & ? & ?) (? & ? & ? & ?). split_and!; auto. Qed.
Lemma steps_grows s s' : steps s s' -> grows s s'.
Proof. induction 1 as [|s1 s2 s3 Hs _ IH]; [done|]. etrans; [by apply step_grows|done]. Qed.
Lemma others_steps s s' : rtc others s s' -> steps s s' /\ (fresh s -> fresh s').
Proof.
  induction 1 as [|s1 s2 s3 [Hs Hn] _ [IH1 IH2]]; [done|]. split; [by eapply rtc_l|].
  intros Hf. apply IH2. intros v Q Hin. by eapply Hf, Hn.
Qed.

(** The state in the first phase: the replies it has and the nodes it counts. *)
Record preparing (s : system) (rs : list (str * Z * prepareres)) (c : collected) : Prop := {
  pg_used : n ∈ used s;
  pg_replies x ret r : (x, ret, r) ∈ rs -> ret = OK -> (n, x, r) ∈ replies s;
  pg_collect : collect rs (collect0 []) = Some c;
}.
Lemma preparing_grows s s' rs c : preparing s rs c -> grows s s' -> preparing s' rs c.
Proof. intros [Hu Hr Hc] (Hu' & Hr' & _). split; [auto|intros x ret r ? ?; by apply Hr', (Hr x ret)|done]. Qed.
Lemma collect_snoc rs c0 c x ret r :
  collect rs c0 = Some c -> collect (rs ++ [(x, ret, r)]) c0 = prepare_reply x ret r c.
Proof.
  revert c0. induction rs as [|[[y ret'] r'] rs IH]; intros c0; cbn [app collect].
  { intros [= ->]. by destruct (prepare_reply x ret r c). }
  destruct (prepare_reply y ret' r' c0); [apply IH|done].
Qed.
Lemma preparing_next s rs c x ret r c' :
  preparing s rs c -> (ret = OK -> (n, x, r) ∈ replies s) -> prepare_reply x ret r c = Some c' ->
  preparing s (rs ++ [(x, ret, r)]) c'.
Proof.
  intros [Hu Hrs Hc] Hok Hc'. split; [done| |by rewrite (collect_snoc _ _ _ _ _ _ Hc)].
  intros y ret1 r1 [Hin|[= -> -> ->]%list_elem_of_singleton]%elem_of_app; [by apply Hrs|done].
Qed.

(** A call and what the others do after it. *)
Lemma next_steps w s1 : steps w.2 s1 -> steps w.2 (g_next env w s1).2 /\ grows s1 (g_next env w s1).2 /\
  (fresh s1 -> fresh (g_next env w s1).2).
Proof.
  intros Hs. cbn. destruct (others_steps _ _ (Henv w.1 s1)) as [H1 H2].
  split_and!; [by etrans|by apply steps_grows|done].
Qed.
Lemma prepare_call x r w rs c ret r' w' :
  preparing w.2 rs c -> fresh w.2 -> g_prepare me fate env x (PrepareArg inst n) r w = (ret, r', w') ->
  steps w.2 w'.2 /\ fresh w'.2 /\ preparing w'.2 rs c /\ (ret = OK -> (n, x, r') ∈ replies w'.2).
Proof.
  intros Hp Hf E. unfold g_prepare in E.
  assert (forall s1 : system, steps w.2 s1 -> proposals s1 = proposals w.2 -> (ret = OK -> (n, x, r') ∈ replies s1) ->
    w' = g_next env w s1 -> steps w.2 w'.2 /\ fresh w'.2 /\ preparing w'.2 rs c /\ (ret = OK -> (n, x, r') ∈ replies w'.2)) as Hgo.
  { intros s1 H1 Hpr Hok ->. destruct (next_steps w s1 H1) as (Hs & Hg & Hfr). split_and!; [done| | |].
    - apply Hfr. intros v Q. rewrite Hpr. apply Hf.
    - eapply preparing_grows; [exact Hp|]. by apply steps_grows.
    - intros Hret. by apply Hg, Hok. }
  assert (ret = rpc_const.timeout_failure -> w' = g_next env w w.2 ->
    steps w.2 w'.2 /\ fresh w'.2 /\ preparing w'.2 rs c /\ (ret = OK -> (n, x, r') ∈ replies w'.2)) as Hlost
    by (intros ->; by apply Hgo).
  destruct (accs w.2 !! x) as [a|] eqn:Ea; [|injection E as <- <- <-; by apply Hlost].
  destruct (preparereq me (PrepareArg inst n) (PrepareRes false false (Prop_t 0 []) []) a)
    as [[[ret1 r1] a1]| | |] eqn:Ep; [|destruct (fate w.1 x); injection E as <- <- <-; by apply Hlost..].
  assert (ret1 = OK) as -> by (unfold preparereq in Ep; repeat case_match; by injection Ep as <- <- <-).
  pose proof (rtc_once _ _ (step_prepare nodes inst true w.2 n x me _ r1 a a1 (pg_used _ _ _ Hp) Ea Ep)) as Hstep.
  destruct (fate w.1 x); injection E as <- <- <-; try (by apply Hlost);
    (eapply Hgo; [exact Hstep|done| |done]); cbn [replies]; [done|by left].
Qed.

(** The first phase; after an "oldinstance" reply the decision is learnt. *)
Lemma prepare_steps sub : forall r c w rs o w',
  preparing w.2 rs c -> fresh w.2 ->
  prepare_loop (g_binds fate env) (g_prepare me fate env) (g_commit me env) (PrepareArg inst n) sub r c w = (o, w') ->
  steps w.2 w'.2 /\
  forall c', o = Some c' -> fresh w'.2 /\ exists rs', preparing w'.2 rs' c'.
Proof.
  induction sub as [|x sub IH]; intros r c w rs o w' Hp Hf; cbn [prepare_loop].
  { intros [= <- <-]. split; [done|]. intros c' [= <-]. split; [done|]. by exists rs. }
  unfold g_binds at 1. destruct (next_steps w w.2 (rtc_refl _ _)) as (Hs1 & Hg1 & Hf1). specialize (Hf1 Hf).
  pose proof (preparing_grows _ _ _ _ Hp Hg1) as Hp1. set (w1 := g_next env w w.2) in *.
  destruct (bool_decide (fate w.1 x = Unbound)); cbn [negb].
  { intros El. destruct (IH r c w1 rs o w' Hp1 Hf1 El) as [? ?]. split; [by etrans|done]. }
  destruct (g_prepare me fate env x (PrepareArg inst n) r w1) as [[ret r'] w2] eqn:E.
  destruct (prepare_call x r w1 rs c ret r' w2 Hp1 Hf1 E) as (Hs2 & Hf2 & Hp2 & Hok).
  destruct (prepare_reply x ret r' c) as [c1|] eqn:Ec.
  - intros El. destruct (IH r' c1 w2 _ o w' (preparing_next _ _ _ _ _ _ _ Hp2 Hok Ec) Hf2 El) as [? ?].
    split; [by do 2 (etrans; [eassumption|])|done].
  - intros [= <- <-]. split; [|done]. cbn [pa_instance]. etrans; [exact Hs1|]. etrans; [exact Hs2|].
    assert (pr_oldinstance r' = true /\ ret = OK) as [Hold Hret].
    { revert Ec. unfold prepare_reply. destruct (pr_oldinstance r'), (Z.eqb_spec ret OK); try done;
        cbn [andb]; destruct (pr_accept r'), (prop_gt _ _); done. }
    unfold g_commit. apply next_steps. destruct (accs w2.2 !! me) as [a|] eqn:Ea.
    + destruct (commit inst (pr_v_a r') a) as [a' up] eqn:Ecm.
      rewrite (alter_at _ _ _ _ Ea), Ecm. apply rtc_once.
      by apply (step_learn nodes inst true w2.2 n x r' me a a' up); [apply Hok|..].
    + rewrite alter_id by (intros a; congruence). by destruct w2 as [? []].
Qed.

(** From the proposal on the history of the system is more than what the others
    know of: it has the proposal and its acceptances too. *)
Record extends (s ŝ : system) : Prop := {
  ex_accs : accs ŝ = accs s;
  ex_used : used ŝ = used s;
  ex_replies : replies ŝ = replies s;
  ex_proposals q : q ∈ proposals s -> q ∈ proposals ŝ;
  ex_only m v Q : (m, v, Q) ∈ proposals ŝ -> m = n \/ (m, v, Q) ∈ proposals s;
  ex_acks k : k ∈ acks s -> k ∈ acks ŝ;
}.
Lemma extends_step s ŝ s' :
  extends s ŝ -> fresh s -> others s s' -> exists ŝ', stp ŝ ŝ' /\ extends s' ŝ' /\ fresh s'.
Proof.
  intros [Ha Hu Hr Hp Ho Hk] Hf [Hs Hn].
  assert (fresh s') as Hf' by (intros v Q Hin; by eapply Hf, Hn).
  destruct Hs as [s m Hm Hpos|s m x src r0 r a a' Hm Ea E|s m rs c nv Hm Hno Hnv Hrs Hc Hmaj
    |s m v Q x src junk' r a a' HQ Hx Ea Hlate E|s m v Q A x src a ret a' up HQ HA Hack Hx Ea E
    |s m y r x a a' up Hin Hold Ea E].
  - eexists. split_and!; [apply (step_start _ _ _ ŝ m); by rewrite ?Hu|split; cbn; try done; by rewrite Hu|done].
  - eexists. split_and!; [eapply (step_prepare _ _ _ ŝ m x src); [by rewrite Hu|by rewrite Ha|exact E]| |done].
    split; cbn; try done; by rewrite ?Ha, ?Hr.
  - assert (m <> n) as Hmn by (intros ->; eapply Hf, Hn; by left).
    eexists. split_and!; [eapply (step_propose _ _ _ ŝ m rs c nv); rewrite ?Hu, ?Hr; try done| |done].
    + intros v Q [?|?]%Ho; [done|]. by eapply Hno.
    + split; cbn; try done.
      * intros q [->|?]%elem_of_cons; [by left|right; auto].
      * intros m' v Q [[= -> -> ->]|[?|?]%Ho]%elem_of_cons; [by right; left|by left|by right; right].
  - eexists. split_and!; [eapply (step_accept _ _ _ ŝ m v Q x src junk'); [by apply Hp|done|by rewrite Ha|done|exact E]| |done].
    split; cbn; try done; [by rewrite Ha|]. intros k. destruct r; [|by apply Hk].
    intros [->|?]%elem_of_cons; [by left|right; auto].
  - eexists. split_and!; [eapply (step_decide _ _ _ ŝ m v Q A x src); [by apply Hp|done|auto|done|by rewrite Ha|exact E]| |done].
    split; cbn; try done; by rewrite Ha.
  - eexists. split_and!; [eapply (step_learn _ _ _ ŝ m y r x); [by rewrite Hr|done|by rewrite Ha|exact E]| |done].
    split; cbn; try done; by rewrite Ha.
Qed.
Lemma extends_steps s ŝ s' :
  extends s ŝ -> fresh s -> rtc others s s' -> exists ŝ', steps ŝ ŝ' /\ extends s' ŝ' /\ fresh s'.
Proof.
  intros Hx Hf Hs. revert ŝ Hx Hf. induction Hs as [s|s1 s2 s3 H1 _ IH]; intros ŝ Hx Hf; [by exists ŝ|].
  destruct (extends_step s1 ŝ s2 Hx Hf H1) as (ŝ2 & Hs2 & Hx2 & Hf2).
  destruct (IH ŝ2 Hx2 Hf2) as (ŝ3 & ? & ? & ?). exists ŝ3. split_and!; [by eapply rtc_l|done|done].
Qed.
(** Our own step, and what the others do after it. *)
Lemma extends_next w s1 ŝ ŝ1 :
  steps ŝ ŝ1 -> extends s1 ŝ1 -> fresh s1 ->
  exists ŝ2, steps ŝ ŝ2 /\ extends (g_next env w s1).2 ŝ2 /\ fresh (g_next env w s1).2 /\ grows ŝ1 ŝ2.
Proof.
  intros H1 Hx Hf. destruct (extends_steps s1 ŝ1 _ Hx Hf (Henv w.1 s1)) as (ŝ2 & H2 & Hx2 & Hf2).
  exists ŝ2. split_and!; [by etrans|done|done|by apply steps_grows].
Qed.

(** The second phase: every request that is handled is a step; the nodes counted
    have granted it. *)
Lemma accept_steps p v Q sub : my_n p = n -> forall acc w ŝ acc' w',
  extends w.2 ŝ -> fresh w.2 -> (n, v, Q) ∈ proposals ŝ -> (forall x, x ∈ sub -> x ∈ Q) ->
  accept (g_binds fate env) (g_accept me fate inst env) junk sub v acc p w = Ret (acc', w') ->
  exists ŝ', steps ŝ ŝ' /\ extends w'.2 ŝ' /\ fresh w'.2 /\ forall x, x ∈ acc' -> x ∈ acc \/ (n, x) ∈ acks ŝ'.
Proof.
  intros Hpn. induction sub as [|x sub IH]; intros acc w ŝ acc' w' Hx Hf HQ Hsub; cbn [accept].
  { intros [= <- <-]. exists ŝ. split_and!; try done. by left. }
  unfold g_binds at 1. destruct (extends_next w w.2 ŝ ŝ (rtc_refl _ _) Hx Hf) as (ŝ1 & H1 & Hx1 & Hf1 & Hg1).
  set (w1 := g_next env w w.2) in *. destruct (bool_decide (fate w.1 x = Unbound)); [done|].
  change (VERIFY (negb false)) with (Ret tt). rewrite outcome_bind_Ret, Hpn.
  assert (forall y, y ∈ sub -> y ∈ Q) as Hsub' by (intros y ?; apply Hsub; by right).
  assert (x ∈ Q) as HxQ by (apply Hsub; by left).
  assert ((n, v, Q) ∈ proposals ŝ1) as HQ1 by by apply Hg1.
  (* the rest of the loop *)
  assert (forall acc1 w2 ŝ2, steps ŝ ŝ2 -> extends w2.2 ŝ2 -> fresh w2.2 -> grows ŝ1 ŝ2 ->
    (forall y, y ∈ acc1 -> y ∈ acc \/ (n, y) ∈ acks ŝ2) ->
    accept (g_binds fate env) (g_accept me fate inst env) junk sub v acc1 p w2 = Ret (acc', w') ->
    exists ŝ', steps ŝ ŝ' /\ extends w'.2 ŝ' /\ fresh w'.2 /\ forall y, y ∈ acc' -> y ∈ acc \/ (n, y) ∈ acks ŝ') as Hgo.
  { intros acc1 w2 ŝ2 H2 Hx2 Hf2 Hg2 Hacc E.
    destruct (IH acc1 w2 ŝ2 acc' w' Hx2 Hf2 ltac:(by apply Hg2) Hsub' E) as (ŝ3 & H3 & Hx3 & Hf3 & Hin).
    exists ŝ3. split_and!; [by etrans|done|done|]. intros y Hy. destruct (Hin y Hy) as [Hy1|?]; [|by right].
    destruct (Hacc y Hy1) as [?|?]; [by left|right]. by apply (steps_grows _ _ H3). }
  unfold g_accept at 1. change (rpc_const.timeout_failure =? OK) with false.
  destruct (extends_next w1 w1.2 ŝ1 ŝ1 (rtc_refl _ _) Hx1 Hf1) as (ŝ2 & H2 & Hx2 & Hf2 & Hg2).
  assert (accept (g_binds fate env) (g_accept me fate inst env) junk sub v acc p (g_next env w1 w1.2) = Ret (acc', w') ->
    exists ŝ', steps ŝ ŝ' /\ extends w'.2 ŝ' /\ fresh w'.2 /\ forall y, y ∈ acc' -> y ∈ acc \/ (n, y) ∈ acks ŝ') as Hlost
    by (apply (Hgo acc _ ŝ2); [by etrans|done|done|done|by left]).
  destruct (accs w1.2 !! x) as [a|] eqn:Ea; [|exact Hlost].
  destruct (Z.leb_spec inst (instance_h a)) as [|Hlt]; [exact Hlost|].
  destruct (acceptreq me (AcceptArg junk n v) false a) as [[[ret r] a1]| | |] eqn:Er;
    try (unfold acceptreq in Er; by destruct (prop_ge _ _)).
  assert (ret = OK) as -> by (unfold acceptreq in Er; destruct (prop_ge _ _); by injection Er as <- <- <-).
  pose proof (step_accept nodes inst true ŝ1 n v Q x me junk r a a1 HQ1 HxQ
    ltac:(by rewrite (ex_accs _ _ Hx1)) (fun _ => Hlt) Er) as Hstep.
  match type of Hstep with step _ _ _ _ ?y => set (ŝ3 := y) in Hstep end.
  assert (extends (set_accs w1.2 (<[x := a1]> (accs w1.2))) ŝ3) as Hx3.
  { destruct Hx1 as [Ha Hu Hr' Hp Ho Hk]. split; cbn; try done; [by rewrite Ha|]. intros k ?. destruct r; [right|]; by apply Hk. }
  destruct (extends_next w1 _ ŝ1 ŝ3 (rtc_once _ _ Hstep) Hx3 Hf1) as (ŝ4 & H4 & Hx4 & Hf4 & Hg4).
  assert (grows ŝ1 ŝ4) as Hg14 by (etrans; [by apply step_grows|done]).
  change (OK =? OK) with true. destruct (fate w1.1 x); cbn [andb]; [exact Hlost..| |].
  - apply (Hgo acc _ ŝ4); [by etrans|done|done|done|by left].
  - rewrite andb_true_r. apply (Hgo _ _ ŝ4); [by etrans|done|done|done|]. intros y Hy. destruct r; [|by left].
    apply elem_of_app in Hy as [?| ->%list_elem_of_singleton]; [by left|right]. apply Hg4. cbn. by left.
Qed.
(** The third phase: no node fails its [VERIFY]. *)
Lemma decide_steps v Q A sub : forall w ŝ w',
  extends w.2 ŝ -> fresh w.2 -> reachable nodes inst true ŝ -> (n, v, Q) ∈ proposals ŝ -> majority nodes A = true ->
  (forall y, y ∈ A -> (n, y) ∈ acks ŝ) -> (forall y, y ∈ sub -> y ∈ A) ->
  decide_nodes (g_binds fate env) (g_decide me fate env) inst sub v w = Ret w' ->
  exists ŝ', steps ŝ ŝ' /\ extends w'.2 ŝ'.
Proof.
  induction sub as [|x sub IH]; intros w ŝ w' Hx Hf Hr HQ HA Hacks Hsub; cbn [decide_nodes].
  { intros [= <-]. by exists ŝ. }
  unfold g_binds at 1. destruct (extends_next w w.2 ŝ ŝ (rtc_refl _ _) Hx Hf) as (ŝ1 & H1 & Hx1 & Hf1 & Hg1).
  set (w1 := g_next env w w.2) in *. destruct (bool_decide (fate w.1 x = Unbound)); [done|].
  change (VERIFY (negb false)) with (Ret tt). rewrite outcome_bind_Ret.
  assert (forall y, y ∈ sub -> y ∈ A) as Hsub' by (intros y ?; apply Hsub; by right).
  assert (x ∈ A) as HxA by (apply Hsub; by left).
  pose proof (steps_reachable _ _ Hr H1) as Hr1.
  assert (forall w2 ŝ2, steps ŝ ŝ2 -> extends w2.2 ŝ2 -> fresh w2.2 -> grows ŝ1 ŝ2 ->
    decide_nodes (g_binds fate env) (g_decide me fate env) inst sub v w2 = Ret w' ->
    exists ŝ', steps ŝ ŝ' /\ extends w'.2 ŝ') as Hgo.
  { intros w2 ŝ2 H2 Hx2 Hf2 Hg2 E. assert (grows ŝ ŝ2) as Hg by by etrans.
    destruct (IH w2 ŝ2 w' Hx2 Hf2 (steps_reachable _ _ Hr H2)) as (ŝ' & ? & ?); try done;
      [by apply Hg|intros y ?; by apply Hg, Hacks|]. exists ŝ'. split; [by etrans|done]. }
  unfold g_decide at 2. destruct (extends_next w1 w1.2 ŝ1 ŝ1 (rtc_refl _ _) Hx1 Hf1) as (ŝ2 & H2 & Hx2 & Hf2 & Hg2).
  assert (decide_nodes (g_binds fate env) (g_decide me fate env) inst sub v (g_next env w1 w1.2) = Ret w' ->
    exists ŝ', steps ŝ ŝ' /\ extends w'.2 ŝ') as Hlost by (apply (Hgo _ ŝ2); [by etrans|done|done|done]).
  destruct (accs w1.2 !! x) as [a|] eqn:Ea; [|exact Hlost].
  assert (accs ŝ1 !! x = Some a) as Ea1 by by rewrite (ex_accs _ _ Hx1).
  assert ((n, v, Q) ∈ proposals ŝ1) as HQ1 by by apply Hg1.
  assert (forall y, y ∈ A -> (n, y) ∈ acks ŝ1) as Hacks1 by (intros y ?; by apply Hg1, Hacks).
  destruct (decidereq_never_fails nodes inst ŝ1 n v Q A x me a) as (a1 & up & Ed); try done. rewrite Ed.
  pose proof (step_decide nodes inst true ŝ1 n v Q A x me a OK a1 up HQ1 HA Hacks1 HxA Ea1 Ed) as Hstep.
  match type of Hstep with step _ _ _ _ ?y => set (ŝ3 := y) in Hstep end.
  assert (extends (set_accs w1.2 (<[x := a1]> (accs w1.2))) ŝ3) as Hx3.
  { destruct Hx1 as [Ha Hu Hr' Hp Ho Hk]. split; cbn; try done. by rewrite Ha. }
  destruct (extends_next w1 _ ŝ1 ŝ3 (rtc_once _ _ Hstep) Hx3 Hf1) as (ŝ4 & H4 & Hx4 & Hf4 & Hg4).
  assert (grows ŝ1 ŝ4) as Hg14 by (etrans; [by apply step_grows|done]).
  destruct (fate w1.1 x); [exact Hlost..| |]; (apply (Hgo _ ŝ4); [by etrans|done|done|done]).
Qed.

(** [run] from its majority of promises on. *)
Lemma propose_steps q w rs c r p' w' :
  my_n q = n -> newv <> [] -> reachable nodes inst true w.2 -> preparing w.2 rs c -> fresh w.2 ->
  majority nodes (c_accepts c) = true ->
  (let v := if decide (c_v c = []) then newv else c_v c in
   _ ← VERIFY (negb (break1 q));
   '(accepts, w) ← accept (g_binds fate env) (g_accept me fate inst env) junk (c_accepts c) v [] q w;
   if majority nodes accepts then
     _ ← VERIFY (negb (break2 q));
     w ← decide_nodes (g_binds fate env) (g_decide me fate env) inst accepts v w;
     Ret (true, set_stable q true, w)
   else Ret (false, set_stable q true, w)) = Ret (r, p', w') ->
  exists ŝ, steps w.2 ŝ /\ accs ŝ = accs w'.2 /\ (r = true -> exists v, chosen nodes ŝ n v).
Proof.
  intros Hq Hnv Hr [Hu Hrs Hc] Hf Hmaj. cbn zeta. set (v := if decide _ then _ else _). intros E.
  apply bind_Ret_inv in E as (? & _ & E).
  pose proof (step_propose nodes inst true w.2 n rs c newv Hu Hf Hnv Hrs Hc Hmaj) as H1.
  match type of H1 with step _ _ _ _ ?x => set (ŝ1 := x) in H1 end.
  assert (extends w.2 ŝ1) as Hx1.
  { split; cbn; try done; [by right|]. intros m v' Q [[= -> -> ->]|?]%elem_of_cons; [by left|by right]. }
  apply bind_Ret_inv in E as ([acc w2] & Ea & E).
  destruct (accept_steps q v (c_accepts c) (c_accepts c) Hq [] w ŝ1 acc w2)
    as (ŝ2 & H2 & Hx2 & Hf2 & Hin); [done|done|by left|done|exact Ea|].
  assert (steps w.2 ŝ2) as H12 by (by eapply rtc_l).
  destruct (majority nodes acc) eqn:Em;
    [|injection E as <- _ <-; exists ŝ2; split_and!; [done|by apply ex_accs|done]].
  apply bind_Ret_inv in E as (? & _ & E). apply bind_Ret_inv in E as (w3 & Ed & [= <- _ <-]).
  assert ((n, v, c_accepts c) ∈ proposals ŝ2) as HQ by (apply (steps_grows _ _ H2); by left).
  assert (forall y, y ∈ acc -> (n, y) ∈ acks ŝ2) as Hacks.
  { intros y Hy. by destruct (Hin y Hy) as [?%elem_of_nil|?]. }
  destruct (decide_steps v (c_accepts c) acc acc w2 ŝ2 w3 Hx2 Hf2 (steps_reachable _ _ Hr H12) HQ Em Hacks (fun _ H => H) Ed)
    as (ŝ3 & H3 & Hx3).
  exists ŝ3. split_and!; [by etrans|by apply ex_accs|]. intros _. exists v, (c_accepts c), acc.
  split; [by apply (steps_grows _ _ H3)|]. split; [done|]. intros y Hy. by apply (steps_grows _ _ H3), Hacks.
Qed.
End steps.

(** The system when a proposer has drawn a number. *)
Definition draw (n : prop_t) (s : system) : system :=
  System (accs s) (n :: used s) (replies s) (proposals s) (acks s) (offered s).


(** Others that follow a script. *)
Definition scripted (nodes : list str) (inst : Z) (n : prop_t) (script : nat -> option event) (t : nat) (s : system) : system :=
  match script t with
  | Some e =>
      if match e with EPropose m _ _ => bool_decide (m = n) | _ => false end then s
      else default s (exec nodes inst false s e)
  | None => s
  end.
Lemma exec_proposals nodes inst s e s' :
  exec nodes inst false s e = Some s' ->
  proposals s' = proposals s \/ exists m from nv v Q, e = EPropose m from nv /\ proposals s' = (m, v, Q) :: proposals s.
Proof.
  destruct e as [m|m x|m from nv|m x|m A x]; cbn [exec]; intros H.
  - case_bool_decide; simplify_eq. by left.
  - apply bind_Some in H as (a & _ & H). case_bool_decide; [|done].
    destruct (preparereq _ _ _ _) as [[[[] ?] ?]| | |]; simplify_eq. by left.
  - apply bind_Some in H as (rs & _ & H). apply bind_Some in H as (c & _ & H). case_bool_decide; simplify_eq.
    right. by eexists _, _, _, _, _.
  - apply bind_Some in H as (a & _ & H). apply bind_Some in H as ([v Q] & _ & H). case_bool_decide; [|done].
    destruct (acceptreq _ _ _ _) as [[[[] ?] ?]| | |]; simplify_eq. by left.
  - apply bind_Some in H as (a & _ & H). apply bind_Some in H as ([v Q] & _ & H). case_bool_decide; [|done].
    destruct (decidereq _ _ _) as [[[? ?] ?]| | |]; simplify_eq. by left.
Qed.
Lemma scripted_others nodes inst n script t s : rtc (others nodes inst n) s (scripted nodes inst n script t s).
Proof.
  unfold scripted. destruct (script t) as [e|]; [|done]. destruct (match e with EPropose _ _ _ => _ | _ => _ end) eqn:Hne; [done|].
  destruct (exec nodes inst false s e) as [s'|] eqn:E; [|done]. apply rtc_once. split; [by apply exec_step in E|].
  change (default s (Some s')) with s'. intros v Q. destruct (exec_proposals _ _ _ _ _ E) as [->|(m & from & nv & v' & Q' & -> & ->)]; [done|].
  intros [[= -> _ _]|?]%elem_of_cons; [|done]. by rewrite bool_decide_true in Hne.
Qed.

(** A run of A, whose prepare request reaches C, but not C's reply; B starts while
    it runs and gets C's promise for a higher number. *)
Definition first_fate (_ : nat) (x : str) : call_fate :=
  if bool_decide (x = nC) then NoReply else Answered.
Definition B_meanwhile (t : nat) : option event :=
  match t with 3%nat => Some (EStart prop_B) | 6%nat => Some (EPrepare prop_B nC) | _ => None end.
Definition first_env : nat -> system -> system := scripted three 2 (Prop_t 1 nA) B_meanwhile.
Definition first_run : outcome (bool * proposer * gworld) :=
  g_run nA first_fate 2 first_env 7 three (lit "v1") (proposer_new nA) (0%nat, draw (Prop_t 1 nA) three0).
Lemma first_run_succeeds : match first_run with Ret (true, _, w) => used w.2 = [prop_B; prop_A] | _ => False end.
Proof. vm_compute. reflexivity. Qed.

(** ** Progress *)

Section progress.
Variables (me : str) (up : str -> bool) (nodes : list str) (inst junk : Z) (newv : str).
Local Abbreviation world := (gmap str acceptor).

(** Some nodes answer and the others are down. *)
Definition by_node (_ : nat) (x : str) : call_fate := if up x then Answered else Unbound.

(** The nodes that answer have yet to decide the instance. *)
Definition open (w : world) : Prop :=
  forall x, x ∈ nodes -> up x = true -> exists a, w !! x = Some a /\ instance_h a = inst - 1.
(** After prepare requests numbered [n]: promises and nothing else. *)
Definition promised (n : prop_t) (w w' : world) : Prop :=
  forall x a', w' !! x = Some a' ->
    exists a, w !! x = Some a /\ v_a a' = v_a a /\ instance_h a' = instance_h a /\
      (n_h a' = n_h a \/ prop_gt n (n_h a) = true /\ n_h a' = n).

Lemma promised_refl n w : promised n w w.
Proof. intros x a H. exists a. by split_and!; [..|left]. Qed.
Lemma promised_trans n w1 w2 w3 : promised n w1 w2 -> promised n w2 w3 -> promised n w1 w3.
Proof.
  intros H1 H2 x a3 E3. destruct (H2 x a3 E3) as (a2 & E2 & V2 & I2 & N2).
  destruct (H1 x a2 E2) as (a1 & E1 & V1 & I1 & N1). exists a1.
  split_and!; [done|congruence..|].
  destruct N2 as [->|[G2 ->]]; [done|]. destruct N1 as [<-|[G1 _]]; by right.
Qed.

Lemma binds_by_node (x : str) (t : nat) (w : world) : w_binds by_node x (t, w) = (up x, (S t, w)).
Proof. unfold w_binds, by_node. cbn. by destruct (up x). Qed.

(** One prepare request. *)
Lemma prepare_one n x r (t : nat) w a :
  up x = true -> w !! x = Some a -> instance_h a = inst - 1 ->
  exists r' a',
    w_prepare me by_node x (PrepareArg inst n) r (t, w) = (OK, r', (S t, <[x := a']> w)) /\
    promised n w (<[x := a']> w) /\ instance_h a' = inst - 1 /\
    pr_oldinstance r' = false /\ pr_accept r' = prop_gt n (n_h a) /\ pr_v_a r' = v_a a /\
    (prop_gt n (n_h a) = true -> n_h a' = n).
Proof.
  intros Hu Ex Hi. unfold w_prepare, by_node. cbn [fst snd]. rewrite Ex, Hu. unfold preparereq. cbn [pa_instance pa_n].
  destruct (Z.leb_spec inst (instance_h a)); [lia|].
  destruct (prop_gt n (n_h a)) eqn:E; (eexists _, _; split; [reflexivity|]);
    (split; [|by split_and!]); intros y b; rewrite lookup_insert_Some;
    (intros [[<- <-]|[? Ey]]; [exists a|exists b]); split_and!; try done; try (by left).
  by right.
Qed.

Lemma promised_keeps n w w' x a a' :
  promised n w w' -> w !! x = Some a -> n_h a = n -> w' !! x = Some a' -> n_h a' = n.
Proof.
  intros Hp Ex Hn Ex'. destruct (Hp x a' Ex') as (a0 & Ea & _ & _ & [Hs|[_ ?]]); [|done].
  rewrite Ex in Ea. injection Ea as <-. congruence.
Qed.
Lemma open_insert w x a : open w -> instance_h a = inst - 1 -> open (<[x := a]> w).
Proof.
  intros Ho Ha y Hy Hup. destruct (decide (x = y)) as [<-|].
  - exists a. by rewrite lookup_insert_eq.
  - rewrite lookup_insert_ne by done. by apply Ho.
Qed.

(** The granted reply of a node adds it to the list. *)
Lemma reply_collected x r c :
  pr_oldinstance r = false ->
  exists c', prepare_reply x OK r c = Some c' /\
    c_accepts c' = c_accepts c ++ (if pr_accept r then [x] else []) /\
    (c_v c' = c_v c \/ c_v c' = pr_v_a r).
Proof.
  intros Ho. unfold prepare_reply. rewrite Ho. cbn [andb].
  destruct (pr_accept r); cbn [andb].
  - change (OK =? OK) with true. cbn match.
    destruct (prop_gt (pr_n_a r) (c_max_n c)); eexists; split_and!; try reflexivity; auto.
  - eexists. split_and!; [reflexivity|by rewrite app_nil_r|by left].
Qed.

(** The first phase asks every node that answers and collects exactly promises. *)
Record prepared (n : prop_t) (sub : list str) (c : collected) (w : world)
    (c' : collected) (w' : world) : Prop := {
  pp_promised : promised n w w';
  pp_open : open w';
  pp_accepts x : x ∈ c_accepts c' -> x ∈ c_accepts c \/
    (x ∈ nodes /\ up x = true /\ exists a, w' !! x = Some a /\ n_h a = n);
  pp_grows x : x ∈ c_accepts c -> x ∈ c_accepts c';
  pp_all x a : x ∈ sub -> up x = true -> w !! x = Some a -> prop_gt n (n_h a) = true ->
    x ∈ c_accepts c';
  pp_value : c_v c' = c_v c \/ exists x a, w !! x = Some a /\ v_a a = c_v c';
}.

Lemma prepare_all n sub : forall r c (t : nat) w,
  (forall x, x ∈ sub -> x ∈ nodes) -> open w ->
  exists c' t' w',
    prepare_loop (w_binds by_node) (w_prepare me by_node) (w_commit me) (PrepareArg inst n) sub r c (t, w)
      = (Some c', (t', w')) /\ prepared n sub c w c' w'.
Proof.
  induction sub as [|x sub IH]; intros r c t w Hsub Ho; cbn [prepare_loop].
  { exists c, t, w. split; [done|].
    constructor; [apply promised_refl|done|by left|done|by intros ? ? ?%elem_of_nil|by left]. }
  rewrite binds_by_node. destruct (up x) eqn:Eup.
  - destruct (Ho x) as (a & Ea & Ia); [apply Hsub; by left|done|].
    destruct (prepare_one n x r (S t) w a Eup Ea Ia) as (r' & a' & -> & Hp & Ia' & Ho' & Hacc & Hv & Hn).
    destruct (reply_collected x r' c Ho') as (c1 & -> & Hc1 & Hv1).
    destruct (IH r' c1 (S (S t)) (<[x := a']> w)) as (c' & t' & w' & -> & [Pp Po Pa Pg Pall Pv]);
      [intros y ?; apply Hsub; by right|by apply open_insert|].
    exists c', t', w'. split; [done|].
    assert (x ∈ c_accepts c1 -> ~ x ∈ c_accepts c -> prop_gt n (n_h a) = true) as Hx.
    { rewrite Hc1, Hacc. destruct (prop_gt n (n_h a)); [done|]. by rewrite app_nil_r. }
    constructor; [by eapply promised_trans|done| | | |].
    + intros y Hy. destruct (Pa y Hy) as [Hy1|?]; [|by right].
      rewrite Hc1, Hacc in Hy1. apply elem_of_app in Hy1 as [?|Hy1]; [by left|right].
      destruct (prop_gt n (n_h a)) eqn:E; [|by apply elem_of_nil in Hy1].
      apply list_elem_of_singleton in Hy1 as ->.
      destruct (Po x) as (b & Eb & _); [apply Hsub; by left|done|].
      split_and!; [apply Hsub; by left|done|]. exists b. split; [done|].
      eapply promised_keeps; [done|apply lookup_insert_eq|by apply Hn|done].
    + intros y Hy. apply Pg. rewrite Hc1. apply elem_of_app. by left.
    + intros y b Hy Hyup Eb Hgt. destruct (decide (x = y)) as [<-|Hne].
      * apply Pg. rewrite Hc1, Hacc. rewrite Ea in Eb. injection Eb as <-. rewrite Hgt.
        apply elem_of_app. right. by apply list_elem_of_singleton.
      * apply (Pall y b); try done; [by apply elem_of_cons in Hy as [?|?]|].
        by rewrite lookup_insert_ne.
    + destruct Pv as [Ev|(y & b & Eb & Evb)].
      * rewrite Ev. destruct Hv1 as [Hv1|Hv1]; [by left|right].
        exists x, a. split; [done|congruence].
      * right. destruct (Hp y b Eb) as (b0 & ? & ? & _). exists y, b0. split; [done|congruence].
  - destruct (IH r c (S t) w) as (c' & t' & w' & -> & [Pp Po Pa Pg Pall Pv]);
      [intros y ?; apply Hsub; by right|done|].
    exists c', t', w'. split; [done|]. constructor; try done.
    intros y b [->|Hy]%elem_of_cons Hyup Eb Hgt; [congruence|by apply (Pall y b)].
Qed.

(** The second phase, at nodes that have promised, is granted by all. *)
Lemma accept_all p v sub : forall acc (t : nat) w,
  (forall x, x ∈ sub -> up x = true /\
     exists a, w !! x = Some a /\ n_h a = my_n p /\ instance_h a = inst - 1) ->
  exists t' w',
    accept (w_binds by_node) (w_accept me by_node) junk sub v acc p (t, w)
      = Ret (acc ++ sub, (t', w')) /\
    (forall x a, w !! x = Some a -> x ∉ sub -> w' !! x = Some a) /\
    forall x, x ∈ sub -> exists a, w' !! x = Some a /\ v_a a = v /\ instance_h a = inst - 1.
Proof.
  induction sub as [|x sub IH]; intros acc t w Hsub; cbn [accept].
  { exists t, w. rewrite app_nil_r. split_and!; [done|done|]. by intros x ?%elem_of_nil. }
  destruct (Hsub x) as (Eup & a & Ea & Na & Ia); [by left|].
  rewrite binds_by_node, Eup. unfold VERIFY. rewrite outcome_bind_Ret.
  unfold w_accept at 1, by_node at 1. cbn [fst snd]. rewrite Ea, Eup. unfold acceptreq. cbn [aa_n aa_v].
  rewrite prop_ge_gt, Na, prop_gt_irrefl. cbn [negb]. set (a' := logaccept _ _ _).
  change (OK =? OK) with true. cbn [andb].
  destruct (IH (acc ++ [x]) (S (S t)) (<[x := a']> w)) as (t' & w' & -> & Hout & Hin).
  { intros y Hy. destruct (Hsub y) as (Yup & b & Eb & Nb & Ib); [by right|]. split; [done|].
    destruct (decide (x = y)) as [<-|].
    - rewrite lookup_insert_eq. by exists a'.
    - rewrite lookup_insert_ne by done. by exists b. }
  exists t', w'. rewrite <-app_assoc. split_and!; [done| |].
  - intros y b Eb Hy. apply not_elem_of_cons in Hy as [? ?]. apply Hout; [|done].
    by rewrite lookup_insert_ne.
  - intros y Hy. destruct (decide (y ∈ sub)) as [|Hn]; [by apply Hin|].
    apply elem_of_cons in Hy as [->|?]; [|done]. exists a'.
    split; [|done]. apply Hout; [apply lookup_insert_eq|done].
Qed.

Definition decided_at (w : world) (v x : str) : Prop :=
  exists a, w !! x = Some a /\ instance_h a = inst /\ values a !! inst = Some v.

(** The third phase: every node that accepted the value decides it. *)
Lemma decide_one x v (t : nat) w a :
  1 <= inst < 2 ^ 32 -> up x = true -> w !! x = Some a ->
  v_a a = v /\ instance_h a = inst - 1 \/ instance_h a = inst /\ values a !! inst = Some v ->
  exists a', w_decide me by_node x (DecideArg inst v) (t, w) = (S t, <[x := a']> w) /\
    instance_h a' = inst /\ values a' !! inst = Some v.
Proof.
  intros Hi Hu Ea Hcase. unfold w_decide, by_node. cbn [fst snd]. rewrite Ea, Hu. unfold decidereq. cbn [da_instance da_v].
  destruct Hcase as [[Hv Hh]|[Hh Hv]]; rewrite Hh.
  - replace (inst - 1 + 1) with inst by lia. rewrite u32_id, Z.eqb_refl by (split; lia).
    rewrite bool_decide_true by done. unfold VERIFY. rewrite outcome_bind_Ret. unfold commit_wo.
    rewrite Hh. destruct (Z.ltb_spec (inst - 1) inst); [|lia].
    eexists. split; [reflexivity|]. cbn. split; [done|]. by rewrite lookup_insert_eq, Hv.
  - assert (inst <> u32 (inst + 1)) as Hne.
    { unfold u32. destruct (decide (inst + 1 = 2 ^ 32)) as [->|]; [by rewrite Z_mod_same_full; lia|].
      rewrite Z.mod_small by lia. lia. }
    destruct (Z.eqb_spec inst (u32 (inst + 1))); [done|].
    destruct (Z.leb_spec inst inst); [|lia]. exists a. by split_and!.
Qed.
Lemma decide_all v sub : forall (t : nat) w,
  1 <= inst < 2 ^ 32 ->
  (forall x, x ∈ sub -> up x = true /\ exists a, w !! x = Some a /\
     (v_a a = v /\ instance_h a = inst - 1 \/ instance_h a = inst /\ values a !! inst = Some v)) ->
  exists t' w',
    decide_nodes (w_binds by_node) (w_decide me by_node) inst sub v (t, w) = Ret (t', w') /\
    (forall x, decided_at w v x -> decided_at w' v x) /\
    forall x, x ∈ sub -> decided_at w' v x.
Proof.
  induction sub as [|x sub IH]; intros t w Hi Hsub; cbn [decide_nodes].
  { exists t, w. split_and!; [done|done|]. by intros x ?%elem_of_nil. }
  destruct (Hsub x) as (Eup & a & Ea & Hcase); [by left|].
  rewrite binds_by_node, Eup. unfold VERIFY. rewrite outcome_bind_Ret.
  destruct (decide_one x v (S t) w a Hi Eup Ea Hcase) as (a' & -> & Hh & Hv).
  assert (decided_at (<[x := a']> w) v x) as Hx by (exists a'; by rewrite lookup_insert_eq).
  destruct (IH (S (S t)) (<[x := a']> w) Hi) as (t' & w' & -> & Hkeep & Hin).
  { intros y Hy. destruct (Hsub y) as (Yup & b & Eb & Hb); [by right|]. split; [done|].
    destruct (decide (x = y)) as [<-|]; [rewrite lookup_insert_eq; eauto|].
    rewrite lookup_insert_ne by done. eauto. }
  exists t', w'. split_and!; [done| |].
  - intros y Hd. apply Hkeep. destruct (decide (x = y)) as [<-|]; [done|].
    destruct Hd as (b & ? & ?). exists b. by rewrite lookup_insert_ne.
  - intros y [->|?]%elem_of_cons; [by apply Hkeep|by apply Hin].
Qed.

(** ** A run *)

(** The proposer is idle and no promise is numbered above [b]. *)
Record ready (b : Z) (p : proposer) (w : world) : Prop := {
  rd_open : open w;
  rd_stable : stable p = true;
  rd_break : break1 p = false /\ break2 p = false;
  rd_mine : 0 <= p_n (my_n p) <= b;
  rd_seen x a : w !! x = Some a -> 0 <= p_n (n_h a) <= b;
}.

(** What a successful run leaves: a majority has decided the proposer's value or
    one that a node had accepted before. *)
Definition decides (w w' : world) : Prop :=
  exists A v, majority nodes A = true /\ (forall x, x ∈ A -> decided_at w' v x) /\
    (v = newv \/ exists x a, w !! x = Some a /\ v_a a = v).

Lemma setn_higher b p (t : nat) w :
  ready b p w -> 0 <= b < 2 ^ 32 - 1 ->
  let n := my_n (setn (w_n_h me (t, w)) (set_stable p false)) in
  p_n (my_n p) < p_n n <= b + 1.
Proof.
  intros [_ _ _ Hm Hs] Hb n. subst n. unfold setn, set_stable. cbn [my_n p_n].
  set (h := w_n_h me (t, w)). assert (0 <= p_n h <= b) as Hh.
  { subst h. unfold w_n_h. cbn [snd]. destruct (w !! me) as [a|] eqn:E; [by apply (Hs me)|cbn; lia]. }
  rewrite !u32_id by (split; lia). destruct (Z.ltb_spec (p_n (my_n p) + 1) (p_n h + 1)); lia.
Qed.

Lemma run_round b p (t : nat) w :
  1 <= inst < 2 ^ 32 -> Z.of_nat (length nodes) < 2 ^ 32 -> 0 <= b < 2 ^ 32 - 1 ->
  majority nodes (filter (fun x => up x = true) nodes) = true -> ready b p w ->
  exists r p' t' w', w_run me by_node junk inst nodes newv p (t, w) = Ret (r, p', (t', w')) /\
    if (r : bool) then decides w w'
    else ready b p' w' /\ p_n (my_n p) < p_n (my_n p') /\
         forall x a', w' !! x = Some a' -> exists a, w !! x = Some a /\ v_a a' = v_a a.
Proof.
  intros Hi Hl Hb Hmaj Hrd. pose proof (setn_higher b p t w Hrd Hb) as Hn. cbn zeta in Hn.
  destruct Hrd as [Ho Hst [Hb1 Hb2] Hm Hs]. unfold w_run, run. rewrite Hst. cbn [negb].
  set (q := setn (w_n_h me (t, w)) (set_stable p false)) in *. unfold prepare.
  destruct (prepare_all (my_n q) nodes (PrepareRes false false (Prop_t 0 []) []) (collect0 []) t w
              (fun _ H => H) Ho) as (c & t1 & w1 & -> & [Pp Po Pa _ Pall Pv]).
  destruct (majority nodes (c_accepts c)) eqn:Ec.
  - replace (break1 q) with false by (symmetry; exact Hb1).
    change (VERIFY (negb false)) with (Ret tt). rewrite outcome_bind_Ret.
    set (v := if decide (c_v c = []) then newv else c_v c).
    assert (forall x, x ∈ c_accepts c -> up x = true /\
      exists a, w1 !! x = Some a /\ n_h a = my_n q /\ instance_h a = inst - 1) as Hprom.
    { intros x Hx. destruct (Pa x Hx) as [Hnil|(Hxn & Hup & a & Ea & Na)]; [by apply elem_of_nil in Hnil|].
      split; [done|]. destruct (Po x Hxn Hup) as (a' & Ea' & Ia). rewrite Ea in Ea'.
      injection Ea' as <-. by exists a. }
    destruct (accept_all q v (c_accepts c) [] t1 w1 Hprom) as (t2 & w2 & -> & _ & Hin).
    rewrite outcome_bind_Ret. cbn [app]. rewrite Ec.
    replace (break2 q) with false by (symmetry; exact Hb2).
    change (VERIFY (negb false)) with (Ret tt). rewrite outcome_bind_Ret.
    destruct (decide_all v (c_accepts c) t2 w2 Hi) as (t3 & w3 & -> & _ & Hdec).
    { intros x Hx. split; [by apply Hprom|]. destruct (Hin x Hx) as (a & ? & ?). eauto. }
    rewrite outcome_bind_Ret. eexists _, _, _, _. split; [reflexivity|]. cbn match.
    exists (c_accepts c), v. split_and!; [done|done|]. subst v.
    destruct (decide (c_v c = [])); [by left|]. destruct Pv as [?|?]; [done|by right].
  - eexists _, _, _, _. split; [reflexivity|]. cbn match.
    assert (p_n (my_n q) <= b) as Hqb.
    { destruct (Z.le_gt_cases (p_n (my_n q)) b) as [|Hgt]; [done|]. exfalso.
      enough (majority nodes (c_accepts c) = true) by congruence.
      refine (majority_mono _ _ _ Hl _ Hmaj). intros x Hx [Hup _]%list_elem_of_filter.
      destruct (Ho x Hx Hup) as (a & Ea & _). apply (Pall x a); try done.
      apply prop_gt_spec. left. destruct (Hs x a Ea). lia. }
    split_and!; [constructor| |]; cbn; try done.
    + change (0 <= p_n (my_n q) <= b). lia.
    + intros x a' Ea'. destruct (Pp x a' Ea') as (a & Ea & _ & _ & [->|[_ ->]]); [by apply (Hs x)|].
      lia.
    + change (p_n (my_n p) < p_n (my_n q)). lia.
    + intros x a' Ea'. destruct (Pp x a' Ea') as (a & ? & ? & _). eauto.
Qed.

(** C10. A proposer that is alone makes progress.  A majority of the nodes of the
    view answer every call, the others none; those that answer have all decided
    the instance before and not this one, and no other proposer runs.  Their
    promises, and the proposer's own number, are at most [b].  Then calling [run]
    again and again succeeds after at most [b + 1 - my_n] attempts, whatever
    promises and acceptances earlier proposers have left; a majority of the nodes
    has decided one value, the proposer's own or one that a node had already
    accepted.  No [VERIFY] fails on the way. *)
Theorem lone_proposer_decides b k : forall p (t : nat) w,
  1 <= inst < 2 ^ 32 -> Z.of_nat (length nodes) < 2 ^ 32 -> 0 <= b < 2 ^ 32 - 1 ->
  majority nodes (filter (fun x => up x = true) nodes) = true -> ready b p w ->
  b - p_n (my_n p) < Z.of_nat k ->
  exists p' t' w', attempts me by_node junk inst nodes newv k p (t, w) = Ret (true, p', (t', w')) /\
    decides w w'.
Proof.
  induction k as [|k IH]; intros p t w Hi Hl Hb Hmaj Hrd Hk.
  { destruct (rd_mine _ _ _ Hrd). lia. }
  cbn [attempts].
  destruct (run_round b p t w Hi Hl Hb Hmaj Hrd) as (r & p1 & t1 & w1 & -> & Hr).
  rewrite outcome_bind_Ret. destruct r; [by eauto|]. destruct Hr as (Hrd1 & Hlt & Hva).
  destruct (IH p1 t1 w1 Hi Hl Hb Hmaj Hrd1 ltac:(lia)) as (p' & t' & w' & -> & A & v & HA & Hd & Hv).
  exists p', t', w'. split; [done|]. exists A, v. split_and!; [done|done|].
  destruct Hv as [?|(x & a & Ea & Ev)]; [by left|right].
  destruct (Hva x a Ea) as (a0 & ? & ?). exists x, a0. split; [done|congruence].
Qed.
End progress.

(** Of three nodes [C] is down; before, it had a value accepted by [B] and then
    got a promise of [B] for a higher number than [A] has seen. *)
Definition node_at (me : str) (h a : prop_t) (v : str) : acceptor :=
  Acceptor me h a v 1 {[ 1 := lit "A B C " ]} [].
Definition left_by_C : gmap str acceptor :=
  <[lit "A" := node_at (lit "A") (Prop_t 0 (lit "A")) (Prop_t 0 (lit "A")) []]>
  (<[lit "B" := node_at (lit "B") (Prop_t 3 (lit "C")) (Prop_t 2 (lit "C")) (lit "B C ")]>
  {[lit "C" := node_at (lit "C") (Prop_t 3 (lit "C")) (Prop_t 0 (lit "C")) []]}).
Definition not_C (x : str) : bool := bool_decide (x <> lit "C").
Definition view_ABC : list str := [lit "A"; lit "B"; lit "C"].
Abbreviation tries_of_A k :=
  (attempts (lit "A") (by_node not_C) 0 2 view_ABC (lit "A B ") k (proposer_new (lit "A")) (0%nat, left_by_C)).

Lemma left_by_C_ready : ready not_C view_ABC 2 3 (proposer_new (lit "A")) left_by_C.
Proof.
  constructor; [|done|done|cbn; lia|].
  - intros x Hx. unfold not_C. rewrite bool_decide_eq_true.
    apply elem_of_cons in Hx as [->|[->|[->|[]%elem_of_nil]%elem_of_cons]%elem_of_cons]; [..|done];
      intros _; (eexists; split; [vm_compute; reflexivity|done]).
  - intros x a. unfold left_by_C. rewrite !lookup_insert_Some, lookup_singleton_Some.
    intros [[_ <-]|[_ [[_ <-]|[_ [_ <-]]]]]; cbn; lia.
Qed.
Lemma lone_proposer_decides_witness :
  (exists p w, tries_of_A 2 = Ret (false, p, w)) /\
  exists p t w, tries_of_A 4 = Ret (true, p, (t, w)) /\
    decides view_ABC 2 (lit "A B ") left_by_C w.
Proof.
  split; [eexists _, _; vm_compute; reflexivity|].
  apply (lone_proposer_decides (lit "A") not_C view_ABC 2 0 (lit "A B ") 3 4);
    [lia|cbn; lia|lia|vm_compute; reflexivity|exact left_by_C_ready|cbn; lia].
Defined.
