(* ===== verification/LockServerRsm.v ===== *)
(** * The replicated lock server

    [lock_server_cache_rsm.cc]: [acquire] and [release] as the state machine
    executes them, the two background threads one turn at a time, and the state
    transfer of [marshal_state] / [unmarshal_state].  A [CondLockCacheRSM *] in
    a queue is the key of the lock together with the generation of [map_lock_]
    it points into: [map_lock_.clear()] ends a generation. *)
From S2P Require Import Prelude Marshall Protocols RpcStub.
#[local] Obligation Tactic := idtac.

(** [CondLockCacheRSM]; [map_lock_[lid]] creates it zeroed. *)
Record lock_item := LockItem {
  is_locked : bool;
  lid : Z;
  user_id : str;
  lock_info_ : gmap str Z;
  wait_retry_queue_ : list str;
  wait_revoke_queue_ : list str;
}.
Definition lock_item_new : lock_item := LockItem false 0 [] ∅ [] [].

Record lock_server := LockServer {
  nacquire : Z;
  map_lock_ : gmap Z lock_item;
  retry_queue_ : list (Z * Z);
  revoke_queue_ : list (Z * Z);
  map_gen : Z;               (* generation of the nodes of [map_lock_] *)
  m_lock_mutex_ : bool;      (* held by a thread that has returned *)
}.
Definition lock_server_new : lock_server := LockServer 0 ∅ [] [] 0 false.

Definition set_item (st : lock_server) (l : Z) (it : lock_item) : lock_server :=
  LockServer (nacquire st) (<[l := it]> (map_lock_ st)) (retry_queue_ st)
    (revoke_queue_ st) (map_gen st) (m_lock_mutex_ st).
Definition set_info (it : lock_item) (m : gmap str Z) : lock_item :=
  LockItem (is_locked it) (lid it) (user_id it) m (wait_retry_queue_ it)
    (wait_revoke_queue_ it).
Definition enq_revoke (st : lock_server) (l : Z) : lock_server :=
  LockServer (nacquire st) (map_lock_ st) (retry_queue_ st)
    (revoke_queue_ st ++ [(map_gen st, l)]) (map_gen st) (m_lock_mutex_ st).
Definition enq_retry (st : lock_server) (l : Z) : lock_server :=
  LockServer (nacquire st) (map_lock_ st) (retry_queue_ st ++ [(map_gen st, l)])
    (revoke_queue_ st) (map_gen st) (m_lock_mutex_ st).
Definition leave_locked (st : lock_server) : lock_server :=
  LockServer (nacquire st) (map_lock_ st) (retry_queue_ st) (revoke_queue_ st)
    (map_gen st) true.

(** Every operation takes the mutex first. *)
Definition with_mutex {A} (st : lock_server) (k : outcome A) : outcome A :=
  if m_lock_mutex_ st then Hang else k.

(** [acquire]; the trace message reads [lock_info_[id]] and so creates it. *)
Definition acquire (l : Z) (id : str) (xid : Z) (r : Z) (st : lock_server)
  : outcome (Z * Z * lock_server) :=
  with_mutex st (
    let it := std_ref lock_item_new (map_lock_ st) l in
    let it := set_info it (std_touch 0 (lock_info_ it) id) in
    if std_ref 0 (lock_info_ it) id <? xid then
      if is_locked it then
        let it := LockItem (is_locked it) (lid it) (user_id it) (lock_info_ it)
                    (wait_retry_queue_ it ++ [id])
                    (wait_revoke_queue_ it ++ [user_id it]) in
        Ret (lock_protocol.OK, AcqRet.RETRY, enq_revoke (set_item st l it) l)
      else
        let it := LockItem true l id (<[id := xid]> (lock_info_ it))
                    (wait_retry_queue_ it) (wait_revoke_queue_ it) in
        Ret (lock_protocol.OK, AcqRet.OK, set_item st l it)
    else Ret (lock_protocol.RPCERR, AcqRet.RETRY, set_item st l it)).

(** [release]; the early return for an unknown lock keeps the mutex. *)
Definition release (l : Z) (id : str) (xid : Z) (r : Z) (st : lock_server)
  : outcome (Z * Z * lock_server) :=
  with_mutex st (
    match map_lock_ st !! l with
    | None => Ret (lock_protocol.OK, r, leave_locked st)
    | Some it =>
        let it := set_info it (std_touch 0 (lock_info_ it) id) in
        if (std_ref 0 (lock_info_ it) id <=? xid) && is_locked it then
          let it := if bool_decide (user_id it = id)
                    then LockItem false (lid it) (user_id it) (lock_info_ it)
                           (wait_retry_queue_ it) (wait_revoke_queue_ it)
                    else it in
          Ret (lock_protocol.OK, r, enq_retry (set_item st l it) l)
        else Ret (lock_protocol.OK, r, set_item st l it)
    end).

Definition stat (l : Z) (r : Z) (st : lock_server) : outcome (Z * Z * lock_server) :=
  Ret (lock_protocol.OK, nacquire st, st).

(** A revoke or retry RPC to a client: its name, the lock and the xid. *)
Record rlock_msg := RlockMsg { to_client : str; m_lid : Z; m_xid : Z }.

(** The lock item behind a queued pointer. *)
Definition deref (st : lock_server) (p : Z * Z) : outcome lock_item :=
  if p.1 =? map_gen st then
    match map_lock_ st !! p.2 with Some it => Ret it | None => UB end
  else UB.

(** One turn of [revoker] when its queue is not empty. *)
Definition revoker_turn (amiprimary : bool) (st : lock_server)
  : outcome (list rlock_msg * lock_server) :=
  match revoke_queue_ st with
  | [] => Ret ([], st)
  | p :: q =>
      let st := LockServer (nacquire st) (map_lock_ st) (retry_queue_ st) q (map_gen st)
                  (m_lock_mutex_ st) in
      if amiprimary then
        with_mutex st (
          it ← deref st p;
          match wait_revoke_queue_ it with
          | [] => UB
          | u :: us =>
              let xid := std_ref 0 (lock_info_ it) u in
              let it := LockItem (is_locked it) (lid it) (user_id it)
                          (std_touch 0 (lock_info_ it) u) (wait_retry_queue_ it) us in
              Ret ([RlockMsg u (lid it) xid], set_item st p.2 it)
          end)
      else Ret ([], st)
  end.

(** [retryer]: take a lock off the queue; the loop on its waiters is left when
    the node is not the primary. *)
Definition retryer_deq (amiprimary : bool) (st : lock_server)
  : option (Z * Z) * lock_server :=
  match retry_queue_ st with
  | [] => (None, st)
  | p :: q =>
      (if amiprimary then Some p else None,
       LockServer (nacquire st) (map_lock_ st) q (revoke_queue_ st) (map_gen st)
         (m_lock_mutex_ st))
  end.
(** The body of the loop, between two unlocks of the mutex: the next waiter is
    popped and told; [None] when nobody waits any more. *)
Definition retryer_next (p : Z * Z) (st : lock_server)
  : outcome (option rlock_msg * lock_server) :=
  with_mutex st (
    it ← deref st p;
    match wait_retry_queue_ it with
    | [] => Ret (None, st)
    | u :: us =>
        let xid := std_ref 0 (lock_info_ it) u in
        let it := LockItem (is_locked it) (lid it) (user_id it)
                    (std_touch 0 (lock_info_ it) u) us (wait_revoke_queue_ it) in
        Ret (Some (RlockMsg u (lid it) xid), set_item st p.2 it)
    end).
(** The loop with nothing in between; the fuel is the number of waiters + 1. *)
Fixpoint retryer_loop (fuel : nat) (p : Z * Z) (st : lock_server)
  : outcome (list rlock_msg * lock_server) :=
  match fuel with
  | O => Ret ([], st)
  | S fuel =>
      '(m, st) ← retryer_next p st;
      match m with
      | None => Ret ([], st)
      | Some m => '(ms, st) ← retryer_loop fuel p st; Ret (m :: ms, st)
      end
  end.

(** ** State transfer *)

Section transfer.
Context `{FreshMem}.

(** The fields of one lock, in the order they are sent; the map of xids and the
    two queues are a count followed by their elements. *)
Definition put_item (m : marshall) (it : lock_item) : marshall :=
  let m := c_put c_bool m (is_locked it) in
  let m := c_put c_u64 m (lid it) in
  let m := c_put c_string m (user_id it) in
  let m := c_put (c_map c_string c_u64) m (lock_info_ it) in
  let m := c_put (c_vector c_string) m (wait_retry_queue_ it) in
  c_put (c_vector c_string) m (wait_revoke_queue_ it).
Definition get_item (it : lock_item) (u : unmarshall) : outcome (lock_item * unmarshall) :=
  '(lk, u) ← c_get c_bool (is_locked it) u;
  '(l, u) ← c_get c_u64 (lid it) u;
  '(uid, u) ← c_get c_string (user_id it) u;
  '(info, u) ← c_get (c_map c_string c_u64) (lock_info_ it) u;
  '(rq, u) ← c_get (c_vector c_string) (wait_retry_queue_ it) u;
  '(vq, u) ← c_get (c_vector c_string) (wait_revoke_queue_ it) u;
  Ret (LockItem lk l uid info rq vq, u).
Definition c_item : codec lock_item := Codec put_item get_item lock_item_new.

#[global] Typeclasses Opaque c_item.
#[global] Program Instance c_item_ok : CodecOk c_item := {|
  enc it := enc c_bool (is_locked it) ++ enc c_u64 (lid it) ++ enc c_string (user_id it) ++
            enc (c_map c_string c_u64) (lock_info_ it) ++
            enc (c_vector c_string) (wait_retry_queue_ it) ++
            enc (c_vector c_string) (wait_revoke_queue_ it);
  valid it := valid c_u64 (lid it) /\ valid (c_map c_string c_u64) (lock_info_ it) /\
              valid (c_vector c_string) (wait_retry_queue_ it) /\
              valid (c_vector c_string) (wait_revoke_queue_ it) |}.
Next Obligation. put_struct. Qed.
Next Obligation.
  intros [lk l uid info rq vq] (H1 & H2 & H3 & H4). cbn [c_get c_item].
  unfold get_item. cbn [is_locked lid user_id lock_info_ wait_retry_queue_
    wait_revoke_queue_] in *. get_struct. done.
Qed.

(** The loop over the locks. *)
Definition put_locks (m : marshall) (d : gmap Z lock_item) : marshall :=
  foldl (fun m p => c_put c_item (c_put c_u64 m p.1) p.2)
    (c_put c_u32 m (u32 (Z.of_nat (size d)))) (std_iter d).
Definition marshal_state (st : lock_server) : outcome str :=
  with_mutex st (Ret (m_str (put_locks marshall_new (map_lock_ st)))).

(** [map_lock_[lockid]] is created and then read into. *)
Fixpoint get_locks (n : nat) (d : gmap Z lock_item) (u : unmarshall)
  : outcome (gmap Z lock_item * unmarshall) :=
  match n with
  | O => Ret (d, u)
  | S n =>
      '(l, u) ← c_get c_u64 0 u;
      '(it, u) ← c_get c_item (std_ref lock_item_new d l) u;
      get_locks n (<[l := it]> d) u
  end.
Definition unmarshal_state (state : str) (st : lock_server) : outcome lock_server :=
  with_mutex st (
    '(n, u) ← c_get c_u32 0 (unmarshall_string state);
    '(d, u) ← get_locks (Z.to_nat n) ∅ u;
    Ret (LockServer (nacquire st) d (retry_queue_ st) (revoke_queue_ st)
           (map_gen st + 1) (m_lock_mutex_ st))).
End transfer.

(** ** The state transfer is faithful *)

Section transfer_lemmas.
Context `{FreshMem}.

Lemma get_locks_ok (l : list (Z * lock_item)) d u rest :
  Forall (fun p => valid c_u64 p.1 /\ valid c_item p.2) l ->
  unmarshall_wf u -> u_ok u = true ->
  remaining u = (l ≫= fun p => enc c_u64 p.1 ++ enc c_item p.2) ++ rest ->
  exists u', get_locks (length l) d u = Ret (std_build d l, u').
Proof.
  intros Hv. revert d u.
  induction Hv as [|[a b] l [Ha Hb] Hv IH]; intros d u Hwf Hok Hr.
  { cbn. eauto. }
  cbn [length get_locks]. change (((a, b) :: l) ≫= fun p => enc c_u64 p.1 ++ enc c_item p.2)
    with ((enc c_u64 a ++ enc c_item b) ++ (l ≫= fun p => enc c_u64 p.1 ++ enc c_item p.2)) in Hr.
  rewrite <-!app_assoc in Hr.
  read_step Hwf Hok Hr. cbn beta iota. read_step Hwf Hok Hr. cbn beta iota.
  by apply IH.
Qed.

Lemma put_locks_carries d :
  carries (put_locks marshall_new d)
    (enc c_u32 (u32 (Z.of_nat (size d))) ++
     (std_iter d ≫= fun p => enc c_u64 p.1 ++ enc c_item p.2)).
Proof.
  apply appended_carries. unfold put_locks. pose proof marshall_new_wf as W.
  pose proof (put_ok c_u32 (u32 (Z.of_nat (size d))) marshall_new W) as P.
  eapply appended_trans; [exact P|]. apply appended_wf in P.
  generalize dependent (c_put c_u32 marshall_new (u32 (Z.of_nat (size d)))).
  induction (std_iter d) as [|[l it] ps IH]; intros m Hm; [by apply appended_nil|].
  cbn [foldl fst snd]. change (((l, it) :: ps) ≫= fun p => enc c_u64 p.1 ++ enc c_item p.2)
    with ((enc c_u64 l ++ enc c_item it) ++ (ps ≫= fun p => enc c_u64 p.1 ++ enc c_item p.2)).
  rewrite <-!app_assoc.
  pose proof (put_ok c_u64 l m Hm) as P1. eapply appended_trans; [exact P1|].
  apply appended_wf in P1.
  pose proof (put_ok c_item it _ P1) as P2. eapply appended_trans; [exact P2|].
  apply IH. by apply appended_wf in P2.
Qed.

(** The content that [marshal_state] sends for the locks [d]. *)
Definition locks_bytes (d : gmap Z lock_item) : str :=
  enc c_u32 (u32 (Z.of_nat (size d))) ++
  (std_iter d ≫= fun p => enc c_u64 p.1 ++ enc c_item p.2).

Lemma locks_transferred a b state :
  marshal_state a = Ret state -> m_lock_mutex_ b = false ->
  map_Forall (fun l it => is_u64 l /\ valid c_item it) (map_lock_ a) ->
  is_u32 (Z.of_nat (size (map_lock_ a))) ->
  Z.of_nat (length (locks_bytes (map_lock_ a))) + RPC_HEADER_SZ < 2 ^ 31 ->
  exists b', unmarshal_state state b = Ret b' /\ map_lock_ b' = map_lock_ a /\
    nacquire b' = nacquire b /\ m_lock_mutex_ b' = false.
Proof.
  unfold marshal_state, unmarshal_state, with_mutex. intros Ha Hb Hv Hsz Hlen. rewrite Hb.
  destruct (m_lock_mutex_ a); [done|]. injection Ha as <-.
  destruct (put_locks_carries (map_lock_ a)) as (_ & -> & _).
  destruct (unmarshall_string_wf _ Hlen) as [Hwf Hr].
  unfold locks_bytes in *. set (u := unmarshall_string _) in *.
  assert (Hok : u_ok u = true) by done. clearbody u.
  rewrite u32_id in * by done. read_step Hwf Hok Hr. cbn beta iota.
  rewrite <-(app_nil_r (_ ≫= _)) in Hr.
  rewrite Nat2Z.id.
  destruct (get_locks_ok (std_iter (map_lock_ a)) ∅ _ [] ltac:(apply Forall_forall;
    intros [l it] Hin%std_iter_lookup; apply (Hv l it Hin)) Hwf Hok Hr) as [u' E].
  rewrite std_iter_length in E. rewrite E, outcome_bind_Ret. eexists. split; [reflexivity|]. cbn. split_and!; [apply std_build_iter|done|done].
Qed.

(** C29. State transfer: the locks a replica unmarshals are exactly the locks
    the other replica marshalled: holders, xids and both waiting queues of
    every lock. *)
Theorem lock_state_transfer a b state :
  marshal_state a = Ret state -> m_lock_mutex_ b = false ->
  map_Forall (fun l it => is_u64 l /\ valid c_item it) (map_lock_ a) ->
  is_u32 (Z.of_nat (size (map_lock_ a))) ->
  Z.of_nat (length (locks_bytes (map_lock_ a))) + RPC_HEADER_SZ < 2 ^ 31 ->
  exists b', unmarshal_state state b = Ret b' /\ map_lock_ b' = map_lock_ a.
Proof.
  intros Hm Hb Hv Hs Hl. destruct (locks_transferred a b state Hm Hb Hv Hs Hl) as (b' & ? & ? & _).
  by exists b'.
Qed.
End transfer_lemmas.

(** ** Runs of the server *)

Definition item (st : lock_server) (l : Z) : lock_item :=
  std_ref lock_item_new (map_lock_ st) l.

(** Requests are executed and the background threads take turns, in any order.
    [h] is the history's view of who holds each lock: a client holds it from a
    granted [acquire] to a [release] of its own that is not older than its last
    grant. *)
Inductive server_run : lock_server -> gmap Z str -> Prop :=
  | run_new : server_run lock_server_new ∅
  | run_acquire st h l id xid r s res st' :
      server_run st h -> acquire l id xid r st = Ret (s, res, st') ->
      server_run st' (if res =? AcqRet.OK then <[l := id]> h else h)
  | run_release st h l id xid r s res st' :
      server_run st h -> release l id xid r st = Ret (s, res, st') ->
      server_run st' (if decide (h !! l = Some id /\
                                 std_ref 0 (lock_info_ (item st l)) id <= xid)
                      then delete l h else h)
  | run_revoker st h b ms st' :
      server_run st h -> revoker_turn b st = Ret (ms, st') -> server_run st' h
  | run_retryer_deq st h b p st' :
      server_run st h -> retryer_deq b st = (p, st') -> server_run st' h
  | run_retryer_next st h p m st' :
      server_run st h -> retryer_next p st = Ret (m, st') -> server_run st' h.

(** The server's own record of the holder. *)
Definition holder (it : lock_item) : option str :=
  if is_locked it then Some (user_id it) else None.
Definition holders_ok (st : lock_server) (h : gmap Z str) : Prop :=
  forall l, h !! l = holder (item st l).

Lemma item_set_eq st l it : item (set_item st l it) l = it.
Proof. unfold item, set_item. cbn. apply std_ref_insert_eq. Qed.
Lemma item_set_ne st l it l' : l <> l' -> item (set_item st l it) l' = item st l'.
Proof. intros. unfold item, set_item. cbn. by apply std_ref_insert_ne. Qed.

(** Changing one lock, with the holder the history expects. *)
Lemma holders_set st h l it st' :
  holders_ok st h -> map_lock_ st' = <[l := it]> (map_lock_ st) ->
  forall o, holder it = o ->
  holders_ok st' (match o with Some id => <[l := id]> h | None => delete l h end).
Proof.
  intros Hok Hm o Ho l'. unfold item. rewrite Hm.
  destruct (decide (l = l')) as [<-|Hne].
  - rewrite std_ref_insert_eq, Ho. destruct o; [apply lookup_insert_eq|apply lookup_delete_eq].
  - rewrite std_ref_insert_ne by done. fold (item st l'). rewrite <-(Hok l').
    destruct o; [by apply lookup_insert_ne|by apply lookup_delete_ne].
Qed.
Lemma holders_set_same st h l it st' :
  holders_ok st h -> map_lock_ st' = <[l := it]> (map_lock_ st) ->
  holder it = holder (item st l) -> holders_ok st' h.
Proof.
  intros Hok Hm Ho l'. unfold item. rewrite Hm.
  destruct (decide (l = l')) as [<-|Hne].
  - by rewrite std_ref_insert_eq, Ho.
  - rewrite std_ref_insert_ne by done. apply Hok.
Qed.

Lemma acquire_holders st h l id xid r s res st' :
  holders_ok st h -> acquire l id xid r st = Ret (s, res, st') ->
  holders_ok st' (if res =? AcqRet.OK then <[l := id]> h else h) /\
  (res = AcqRet.OK -> h !! l = None).
Proof.
  intros Hok. unfold acquire, with_mutex. destruct (m_lock_mutex_ st); [done|].
  fold (item st l). cbn [set_info lock_info_ is_locked].
  destruct (_ <? xid); [destruct (is_locked (item st l)) eqn:El|]; intros [= <- <- <-]; cbn [Z.eqb].
  - split; [|done]. eapply holders_set_same; [done|reflexivity|].
    unfold holder. cbn. by rewrite El.
  - split; [refine (holders_set st h l _ _ Hok _ (Some id) _); reflexivity|].
    intros _. rewrite Hok. unfold holder. by rewrite El.
  - split; [|done]. by eapply holders_set_same; [done|reflexivity|].
Qed.

Lemma release_holders st h l id xid r s res st' :
  holders_ok st h -> release l id xid r st = Ret (s, res, st') ->
  holders_ok st' (if decide (h !! l = Some id /\
                             std_ref 0 (lock_info_ (item st l)) id <= xid)
                  then delete l h else h).
Proof.
  intros Hok. unfold release, with_mutex. destruct (m_lock_mutex_ st); [done|].
  pose proof (Hok l) as Hl.
  destruct (map_lock_ st !! l) as [it|] eqn:E.
  - assert (item st l = it) as Hit by (unfold item, std_ref; by rewrite E).
    rewrite Hit in *. unfold std_touch. cbn [set_info lock_info_ is_locked].
    rewrite std_ref_insert_eq.
    assert (forall it1 st1, holder it1 = holder it ->
              map_lock_ st1 = <[l := it1]> (map_lock_ st) -> holders_ok st1 h) as Hsame.
    { intros it1 st1 Hh Hm. eapply holders_set_same; [done|exact Hm|by rewrite Hit]. }
    unfold holder in Hl.
    destruct (Z.leb_spec (std_ref 0 (lock_info_ it) id) xid) as [Hle|Hgt]; cbn [andb].
    + destruct (is_locked it) eqn:El; intros [= <- <- <-]; cbn [user_id].
      * case_bool_decide as Hu.
        -- rewrite decide_True by (split; [by rewrite Hl, Hu|done]).
           refine (holders_set st h l _ _ Hok _ None _); reflexivity.
        -- rewrite decide_False by (rewrite Hl; naive_solver).
           by eapply Hsame; [|reflexivity]; unfold holder; cbn; rewrite El.
      * rewrite decide_False by (rewrite Hl; naive_solver).
        by eapply Hsame; [|reflexivity]; unfold holder; cbn; rewrite El.
    + intros [= <- <- <-]. rewrite decide_False by (intros [_ ?]; lia).
      by eapply Hsame; [|reflexivity].
  - assert (item st l = lock_item_new) as Hit by (unfold item, std_ref; by rewrite E).
    rewrite Hit in *. intros [= <- <- <-].
    rewrite decide_False by (rewrite Hl; cbn; naive_solver). exact Hok.
Qed.

Lemma deref_item st p it : deref st p = Ret it -> item st p.2 = it.
Proof.
  unfold deref, item, std_ref. destruct (_ =? _); [|done].
  destruct (map_lock_ st !! p.2); [|done]. by intros [= <-].
Qed.

Lemma server_run_holders st h : server_run st h -> holders_ok st h.
Proof.
  induction 1 as [|st h l id xid r s res st' _ IH E|st h l id xid r s res st' _ IH E
    |st h b ms st' _ IH E|st h b p st' _ IH E|st h p m st' _ IH E].
  - intros l. unfold item, std_ref. cbn. by rewrite !lookup_empty.
  - by eapply acquire_holders.
  - by eapply release_holders.
  - unfold revoker_turn in E. destruct (revoke_queue_ st) as [|p q]; [by simplify_eq|].
    destruct b; [|by simplify_eq]. unfold with_mutex in E. cbn [m_lock_mutex_] in E.
    destruct (m_lock_mutex_ st); [done|].
    apply bind_Ret_inv in E as (it & Hd%deref_item & E).
    destruct (wait_revoke_queue_ it); [done|]. injection E as <- <-.
    eapply holders_set_same; [exact IH|reflexivity|]. by rewrite <-Hd.
  - unfold retryer_deq in E. destruct (retry_queue_ st); by simplify_eq.
  - unfold retryer_next, with_mutex in E. destruct (m_lock_mutex_ st); [done|].
    apply bind_Ret_inv in E as (it & Hd%deref_item & E).
    destruct (wait_retry_queue_ it); injection E as <- <-; [done|].
    eapply holders_set_same; [exact IH|reflexivity|]. by rewrite <-Hd.
Qed.

(** ** Properties *)

(** C11. Mutual exclusion: in every run of the lock server (requests and turns of
    the background threads in any order) a lock is granted only when no client
    holds it, and the grant makes the requester its holder. *)
Theorem lock_exclusive st h l id xid r s st' :
  server_run st h -> acquire l id xid r st = Ret (s, AcqRet.OK, st') ->
  h !! l = None /\ holder (item st' l) = Some id /\
  forall l', l' <> l -> holder (item st' l') = h !! l'.
Proof.
  intros Hrun Ha. apply server_run_holders in Hrun.
  destruct (acquire_holders _ _ _ _ _ _ _ _ _ Hrun Ha) as [Hok Hnone].
  cbn in Hok. split_and!; [by apply Hnone| |].
  - rewrite <-(Hok l). apply lookup_insert_eq.
  - intros l' Hne. rewrite <-(Hok l'). by apply lookup_insert_ne.
Qed.
Definition get_state {A B} (o : outcome (A * B * lock_server)) : lock_server :=
  match o with Ret (_, _, st) => st | _ => lock_server_new end.
Definition server1 : lock_server :=
  get_state (release 7 (lit "a") 1 0 (get_state (acquire 7 (lit "a") 1 0 lock_server_new))).
Lemma server1_run : server_run server1 ∅.
Proof.
  pose proof run_new as R.
  eapply (run_acquire _ _ 7 (lit "a") 1 0) in R; [|reflexivity].
  eapply (run_release _ _ 7 (lit "a") 1 0) in R; [|reflexivity]. exact R.
Qed.
Lemma lock_exclusive_witness :
  acquire 7 (lit "b") 5 0 server1
    = Ret (lock_protocol.OK, AcqRet.OK, get_state (acquire 7 (lit "b") 5 0 server1)) /\
  (∅ : gmap Z str) !! 7 = None /\
  holder (item (get_state (acquire 7 (lit "b") 5 0 server1)) 7) = Some (lit "b") /\
  forall l', l' <> 7 -> holder (item (get_state (acquire 7 (lit "b") 5 0 server1)) l')
                        = (∅ : gmap Z str) !! l'.
Proof.
  split; [reflexivity|].
  apply (lock_exclusive server1 ∅ 7 (lit "b") 5 0 lock_protocol.OK); [exact server1_run|reflexivity].
Defined.

(** An [acquire] that was granted and is executed again (the client resends
    it to a new primary) is refused and changes no lock. *)
Theorem acquire_replayed l id xid r s st st' r' :
  acquire l id xid r st = Ret (s, AcqRet.OK, st') ->
  exists st'', acquire l id xid r' st' = Ret (lock_protocol.RPCERR, AcqRet.RETRY, st'') /\
    map_lock_ st'' = map_lock_ st'.
Proof.
  unfold acquire, with_mutex. destruct (m_lock_mutex_ st) eqn:Em; [done|].
  fold (item st l). cbn [set_info lock_info_ is_locked].
  destruct (_ <? xid); [|done]. destruct (is_locked (item st l)); [done|].
  intros [= <- <-]. cbn [set_item m_lock_mutex_ map_lock_]. rewrite Em.
  rewrite std_ref_insert_eq. unfold std_touch. cbn [set_info lock_info_].
  rewrite !std_ref_insert_eq. rewrite Z.ltb_irrefl. eexists. split; [reflexivity|].
  cbn [set_item map_lock_ set_info is_locked lid user_id wait_retry_queue_ wait_revoke_queue_].
  by rewrite !insert_insert_eq.
Qed.
Lemma acquire_replayed_witness :
  exists st'', acquire 7 (lit "b") 5 9 (get_state (acquire 7 (lit "b") 5 0 server1))
      = Ret (lock_protocol.RPCERR, AcqRet.RETRY, st'') /\
    map_lock_ st'' = map_lock_ (get_state (acquire 7 (lit "b") 5 0 server1)).
Proof. apply (acquire_replayed 7 (lit "b") 5 0 lock_protocol.OK server1). reflexivity. Defined.

(** A freed lock wakes everybody: once the retryer has taken a lock off its
    queue, it sends one retry message to every waiting client, in the order they
    asked, with their last granted xid, and leaves the queue empty. *)
Theorem retryer_tells_all st p it :
  m_lock_mutex_ st = false -> p.1 = map_gen st -> map_lock_ st !! p.2 = Some it ->
  exists st', retryer_loop (S (length (wait_retry_queue_ it))) p st =
    Ret ((fun u => RlockMsg u (lid it) (std_ref 0 (lock_info_ it) u)) <$> wait_retry_queue_ it,
         st') /\
    wait_retry_queue_ (item st' p.2) = [] /\ holder (item st' p.2) = holder it.
Proof.
  intros Hm Hg Hit.
  assert (forall q st it', m_lock_mutex_ st = false -> p.1 = map_gen st ->
    map_lock_ st !! p.2 = Some it' -> wait_retry_queue_ it' = q -> lid it' = lid it ->
    holder it' = holder it ->
    (forall u, std_ref 0 (lock_info_ it') u = std_ref 0 (lock_info_ it) u) ->
    exists st', retryer_loop (S (length q)) p st =
      Ret ((fun u => RlockMsg u (lid it) (std_ref 0 (lock_info_ it) u)) <$> q, st') /\
      wait_retry_queue_ (item st' p.2) = [] /\ holder (item st' p.2) = holder it) as Hgen.
  { clear Hm Hg Hit st. induction q as [|u q IH]; intros st it' Hm Hg Hit Hq Hlid Hh Hinfo;
      cbn [retryer_loop]; unfold retryer_next at 1, with_mutex, deref;
      rewrite Hm, Hg, Z.eqb_refl, Hit; cbn [mbind outcome_bind]; rewrite Hq.
    - eexists. split; [reflexivity|]. unfold item, std_ref. by rewrite Hit.
    - set (it2 := LockItem _ _ _ _ _ _). set (st2 := set_item st p.2 it2).
      destruct (IH st2 it2) as (st' & E & H1 & H2); try done.
      + unfold st2. cbn. by rewrite lookup_insert_eq.
      + intros u'. unfold it2, std_touch. cbn [lock_info_].
        destruct (decide (u = u')) as [->|Hne]; [by rewrite std_ref_insert_eq|].
        by rewrite std_ref_insert_ne.
      + exists st'. cbn [length]. rewrite outcome_bind_Ret. cbn beta iota. rewrite E.
        split; [|done]. rewrite fmap_cons, <-Hinfo. unfold it2. cbn [lid]. by rewrite Hlid. }
  by apply (Hgen (wait_retry_queue_ it) st it).
Qed.
Definition server2 : lock_server :=
  let st := get_state (acquire 7 (lit "a") 1 0 lock_server_new) in
  let st := get_state (acquire 7 (lit "b") 1 0 st) in
  get_state (acquire 7 (lit "c") 4 0 st).
Lemma retryer_tells_all_witness :
  wait_retry_queue_ (item server2 7) = [lit "b"; lit "c"] /\
  exists st', retryer_loop (S (length (wait_retry_queue_ (item server2 7)))) (0, 7) server2 =
    Ret ((fun u => RlockMsg u (lid (item server2 7)) (std_ref 0 (lock_info_ (item server2 7)) u))
           <$> wait_retry_queue_ (item server2 7), st') /\
    wait_retry_queue_ (item st' 7) = [] /\ holder (item st' 7) = holder (item server2 7).
Proof.
  split; [reflexivity|]. apply (retryer_tells_all server2 (0, 7)); reflexivity.
Defined.

Section replicated.
Context `{FreshMem}.

(** The replicated lock service end to end: a client's [acquire], marshalled
    by [rsm_client::call], executed from its request string by [rsm::execute]
    with the wrapper of [rsm::reg], and unmarshalled again, returns exactly what
    the server's [acquire] returns. *)
Theorem rsm_acquire l id xid old st s res st' :
  is_u64 l -> is_u64 xid -> Z.of_nat (length id) < 2 ^ 30 ->
  acquire l id xid 0 st = Ret (s, res, st') ->
  rsm_call c_i32 (rsm_fn3 c_u64 c_string c_u64 c_i32 acquire)
    (call_req3 c_u64 c_string c_u64 l id xid) old st = Ret (s, res, st').
Proof.
  intros Hl Hx Hid Ha.
  assert (is_i32 res /\ 0 <= s < 2 ^ 31) as [Hr Hs].
  { unfold acquire, with_mutex in Ha. destruct (m_lock_mutex_ st); [done|].
    repeat case_match; simplify_eq; done. }
  apply (rsm_call_ok c_i32 _ _ (enc c_u64 l ++ enc c_string id ++ enc c_u64 xid));
    [by apply call_req3_carries|by apply rsm_fn3_answers|done|done| |].
  - rewrite !length_app. cbn [enc c_u64_ok c_string_ok]. rewrite !length_app.
    unfold RPC_HEADER_SZ. cbn [length be32]. change (2 ^ 31) with 2147483648.
    change (2 ^ 30) with 1073741824 in Hid. lia.
  - done.
Qed.
End replicated.
#[local] Existing Instance fresh_zero.
Lemma rsm_acquire_witness :
  rsm_call c_i32
    (rsm_fn3 c_u64 c_string c_u64 c_i32 acquire)
    (call_req3 c_u64 c_string c_u64 7 (lit "b") 5) 0 server1
  = Ret (lock_protocol.OK, AcqRet.OK, get_state (acquire 7 (lit "b") 5 0 server1)).
Proof.
  apply (rsm_acquire 7 (lit "b") 5 0 server1); [width|width|done|reflexivity].
Defined.

(** Releasing a lock the server has never seen returns without unlocking the
    mutex: every later request hangs. *)
Theorem release_unknown_hangs st l id xid r :
  m_lock_mutex_ st = false -> map_lock_ st !! l = None ->
  exists st', release l id xid r st = Ret (lock_protocol.OK, r, st') /\
    forall l' id' xid' r', acquire l' id' xid' r' st' = Hang /\
      release l' id' xid' r' st' = Hang.
Proof.
  intros Hm Hl. unfold release at 1, with_mutex. rewrite Hm, Hl.
  eexists. split; [reflexivity|]. intros. by split.
Qed.
Lemma release_unknown_hangs_witness :
  exists st', release 9 (lit "b") 5 0 server1 = Ret (lock_protocol.OK, 0, st') /\
    forall l' id' xid' r', acquire l' id' xid' r' st' = Hang /\
      release l' id' xid' r' st' = Hang.
Proof. apply (release_unknown_hangs server1 9); reflexivity. Defined.

(** The state of two locks, one with a waiter, sent to a fresh replica. *)
Lemma lock_state_transfer_witness :
  exists state b', marshal_state server2 = Ret state /\
    unmarshal_state state lock_server_new = Ret b' /\ map_lock_ b' = map_lock_ server2.
Proof.
  assert (exists state, marshal_state server2 = Ret state) as [state Hs] by (eexists; reflexivity).
  exists state.
  destruct (lock_state_transfer server2 lock_server_new state Hs eq_refl) as (b' & H1 & H2).
  - assert (map_lock_ server2 = {[ 7 := item server2 7 ]}) as -> by (vm_compute; reflexivity).
    apply map_Forall_singleton. split; [width|].
    split; [vm_compute; intuition congruence|]. split; [|split].
    + split; [|vm_compute; intuition congruence]. apply map_Forall_to_list.
      let l := eval vm_compute in (map_to_list (lock_info_ (item server2 7))) in
        change (map_to_list (lock_info_ (item server2 7))) with l.
      repeat apply Forall_cons_2; try apply Forall_nil_2;
        (split; [exact I|]); vm_compute; intuition congruence.
    + split; [by repeat constructor|vm_compute; intuition congruence].
    + split; [by repeat constructor|vm_compute; intuition congruence].
  - vm_compute; intuition congruence.
  - vm_compute; reflexivity.
  - exists b'. split; [exact Hs|]. split; [exact H1|exact H2].
Defined.

(** The replicas do not stay equal: [revoker] and [retryer] change the
    replicated state only on the primary, so after the same request and one turn
    of their threads a primary and a backup disagree on the waiting queue that
    [marshal_state] sends. *)
Theorem replicas_diverge :
  exists msgs p b, revoker_turn true server2 = Ret (msgs, p) /\
    revoker_turn false server2 = Ret ([], b) /\ marshal_state p <> marshal_state b.
Proof.
  eexists _, _, _. split; [reflexivity|]. split; [reflexivity|]. vm_compute. congruence.
Qed.
