(* ===== verification/LockClientRsm.v ===== *)
(** * The caching lock client of the replicated lock service

    [lock_client_cache_rsm.cc].  Every function below is what the code does
    between taking and releasing [lock_map_mutex_]; a thread in [acquire] looks
    at the lock again and again, waiting on a condition variable or calling the
    server in between.  A [ClientLockRSM *] in the release queue is the lock's
    key: the map never drops an element. *)
From S2P Require Import Prelude Marshall Protocols RpcStub LockServerRsm.
Import AcqRet.

Record client_lock := ClientLock {
  is_retried : bool;
  is_revoked : bool;
  is_finished : bool;
  status : lock_status;
  cl_lid : Z;
  cl_xid : Z;
}.
Definition client_lock_new : client_lock := ClientLock false false false NONE 0 0.

Record lock_client := LockClient {
  id : str;
  xid : Z;
  map_lock : gmap Z client_lock;
  release_queue_ : list Z;
}.
Definition lock_client_new (me : str) : lock_client := LockClient me 0 ∅ [].

Definition citem (c : lock_client) (l : Z) : client_lock := std_ref client_lock_new (map_lock c) l.
Definition set_citem (c : lock_client) (l : Z) (it : client_lock) : lock_client :=
  LockClient (id c) (xid c) (<[l := it]> (map_lock c)) (release_queue_ c).
Definition set_status (it : client_lock) (s : lock_status) : client_lock :=
  ClientLock (is_retried it) (is_revoked it) (is_finished it) s (cl_lid it) (cl_xid it).
Definition enq_release (c : lock_client) (l : Z) : lock_client :=
  LockClient (id c) (xid c) (map_lock c) (release_queue_ c ++ [l]).

(** [DealRelease]. *)
Definition DealRelease (l : Z) (c : lock_client) : lock_client :=
  let it := citem c l in
  if decide (status it = NONE) then set_citem c l it
  else if is_revoked it then enq_release (set_citem c l (set_status it RELEASING)) l
  else set_citem c l (ClientLock (is_retried it) (is_revoked it) true FREE (cl_lid it) (cl_xid it)).

(** The first half of [SendAcqToSvr]: the request that is sent. *)
Definition send_begin (l : Z) (c : lock_client) : rlock_msg * lock_client :=
  let it := citem c l in
  let x := u64 (xid c + 1) in
  (RlockMsg (id c) l x,
   LockClient (id c) x
     (<[l := ClientLock false (is_revoked it) (is_finished it) (status it) (cl_lid it) x]>
        (map_lock c)) (release_queue_ c)).
(** The second half, with the status [ret] and the answer [r] of the call. *)
Definition send_end (l : Z) (ret r : Z) (c : lock_client) : lock_client :=
  let it := citem c l in
  if negb (ret =? lock_protocol.OK) then c
  else if r =? AcqRet.OK then set_citem c l (set_status it FREE)
  else if r =? AcqRet.RETRY then set_citem c l (set_status it ACQING)
  else c.

(** What a thread in [acquire] does when it looks at the lock: it calls the
    server, takes the lock, or waits. *)
Inductive acq_action := ASend (m : rlock_msg) | AGot | AWaitFree | AWaitAcq.
Definition acquire_enter (l : Z) (c : lock_client) : lock_client :=
  let it := citem c l in
  set_citem c l (ClientLock (is_retried it) (is_revoked it) (is_finished it) (status it) l
                   (cl_xid it)).
Definition acquire_look (l : Z) (c : lock_client) : acq_action * lock_client :=
  let it := citem c l in
  match status it with
  | NONE => let '(m, c) := send_begin l c in (ASend m, c)
  | FREE => (AGot, set_citem c l (ClientLock (is_retried it) (is_revoked it) false LOCK
                                    (cl_lid it) (cl_xid it)))
  | LOCK | RELEASING => (AWaitFree, c)
  | ACQING => if is_retried it then let '(m, c) := send_begin l c in (ASend m, c)
              else (AWaitAcq, c)
  end.
(** The three-second wait of [DealWithStatusACQ] runs out. *)
Definition acquire_timeout (l : Z) (c : lock_client) : lock_client :=
  let it := citem c l in
  set_citem c l (ClientLock true (is_revoked it) (is_finished it) (status it) (cl_lid it)
                   (cl_xid it)).

Definition release (l : Z) (c : lock_client) : lock_client := DealRelease l c.

(** [releaser]: the message it sends for the next lock of its queue (after the
    upcall [dorelease]), and what it does when the call has returned. *)
Definition releaser_begin (c : lock_client) : option rlock_msg * lock_client :=
  match release_queue_ c with
  | [] => (None, c)
  | l :: q =>
      let it := citem c l in
      (Some (RlockMsg (id c) (cl_lid it) (cl_xid it)),
       LockClient (id c) (xid c) (map_lock c) q)
  end.
Definition releaser_end (l : Z) (ret : Z) (c : lock_client) : outcome lock_client :=
  _ ← VERIFY (ret =? lock_protocol.OK);
  let it := citem c l in
  Ret (set_citem c l (ClientLock (is_retried it) false false NONE (cl_lid it) (cl_xid it))).

Definition revoke_handler (l x : Z) (c : lock_client) : lock_client :=
  let it := citem c l in
  if cl_xid it =? x then
    let c := set_citem c l (ClientLock (is_retried it) true (is_finished it) (status it)
                              (cl_lid it) (cl_xid it)) in
    if is_finished it then DealRelease l c else c
  else if x <? cl_xid it then
    if decide (status it = ACQING \/ status it = NONE)
    then enq_release (set_citem c l it) l
    else set_citem c l (ClientLock (is_retried it) true (is_finished it) (status it)
                          (cl_lid it) (cl_xid it))
  else set_citem c l it.

Definition retry_handler (l x : Z) (c : lock_client) : lock_client :=
  let it := citem c l in
  if cl_xid it <=? x
  then set_citem c l (ClientLock true (is_revoked it) (is_finished it) (status it) (cl_lid it)
                        (cl_xid it))
  else set_citem c l it.

(** ** Clients and server together *)

(** The system of the server and its clients, with the requests and replies that
    are under way and the threads that hold a lock (have returned from [acquire]
    and not called [release]). *)
Record lsystem := LSystem {
  server : lock_server;
  clients : gmap str lock_client;
  requests : list rlock_msg;
  replies : list (str * Z * Z * Z);   (* client, lock, status, answer *)
  holding : list (str * Z * Z);       (* client, thread, lock *)
}.
Definition lsystem0 : lsystem := LSystem lock_server_new ∅ [] [] [].

Definition the_client (s : lsystem) (c : str) : lock_client :=
  default (lock_client_new c) (clients s !! c).
Definition set_client (s : lsystem) (c : str) (cl : lock_client) : lsystem :=
  LSystem (server s) (<[c := cl]> (clients s)) (requests s) (replies s) (holding s).

Inductive levent :=
  | VEnter (c : str) (l : Z)           (* a thread calls acquire *)
  | VLook (c : str) (t l : Z)          (* it looks at the lock *)
  | VTimeout (c : str) (l : Z)         (* its three-second wait runs out *)
  | VServe (m : rlock_msg)             (* a request runs at the server *)
  | VReply (r : str * Z * Z * Z)       (* its answer reaches the client *)
  | VRelease (c : str) (t l : Z)       (* a thread calls release *)
  | VRevoker                           (* the server's revoker delivers a revoke *)
  | VRetryer                           (* the server's retryer delivers its retries *)
  | VReleaser (c : str).               (* the client's releaser runs once *)

#[global] Instance rlock_msg_eq_dec : EqDecision rlock_msg.
Proof. solve_decision. Defined.

Definition ok {A} (o : outcome A) : option A := match o with Ret a => Some a | _ => None end.
(** One event, when it is possible. *)
Definition lstep (s : lsystem) (e : levent) : option lsystem :=
  match e with
  | VEnter c l => Some (set_client s c (acquire_enter l (the_client s c)))
  | VLook c t l =>
      match acquire_look l (the_client s c) with
      | (AGot, cl) => Some (LSystem (server s) (<[c := cl]> (clients s)) (requests s)
                              (replies s) ((c, t, l) :: holding s))
      | (ASend m, cl) => Some (LSystem (server s) (<[c := cl]> (clients s)) (m :: requests s)
                                 (replies s) (holding s))
      | (_, cl) => Some (set_client s c cl)
      end
  | VTimeout c l =>
      if decide (status (citem (the_client s c) l) = ACQING)
      then Some (set_client s c (acquire_timeout l (the_client s c))) else None
  | VServe m =>
      if decide (m ∈ requests s) then
        '(st, r, srv) ← ok (acquire (m_lid m) (to_client m) (m_xid m) 0 (server s));
        Some (LSystem srv (clients s) (filter (fun m' => m' <> m) (requests s))
                ((to_client m, m_lid m, st, r) :: replies s) (holding s))
      else None
  | VReply (c, l, st, r) =>
      if decide ((c, l, st, r) ∈ replies s) then
        Some (LSystem (server s) (<[c := send_end l st r (the_client s c)]> (clients s))
                (requests s) (filter (fun r' => r' <> (c, l, st, r)) (replies s)) (holding s))
      else None
  | VRelease c t l =>
      if decide ((c, t, l) ∈ holding s) then
        Some (LSystem (server s) (<[c := release l (the_client s c)]> (clients s)) (requests s)
                (replies s) (filter (fun h => h <> (c, t, l)) (holding s)))
      else None
  | VRevoker =>
      '(ms, srv) ← ok (revoker_turn true (server s));
      Some (foldl (fun s m => set_client s (to_client m)
                    (revoke_handler (m_lid m) (m_xid m) (the_client s (to_client m))))
              (LSystem srv (clients s) (requests s) (replies s) (holding s)) ms)
  | VRetryer =>
      let '(p, srv) := retryer_deq true (server s) in
      p ← p;
      '(ms, srv) ← ok (retryer_loop (S (length (wait_retry_queue_ (item srv p.2)))) p srv);
      Some (foldl (fun s m => set_client s (to_client m)
                    (retry_handler (m_lid m) (m_xid m) (the_client s (to_client m))))
              (LSystem srv (clients s) (requests s) (replies s) (holding s)) ms)
  | VReleaser c =>
      let '(m, cl) := releaser_begin (the_client s c) in
      m ← m;
      '(st, _, srv) ← ok (LockServerRsm.release (m_lid m) (to_client m) (m_xid m) 0 (server s));
      cl ← ok (releaser_end (m_lid m) st cl);
      Some (LSystem srv (<[c := cl]> (clients s)) (requests s) (replies s) (holding s))
  end.
Definition lrun (es : list levent) : option lsystem :=
  foldl (fun s e => s ← s; lstep s e) (Some lsystem0) es.

(** Two threads of client a and one of client b want lock 7. *)
Definition race : list levent :=
  let a := lit "a" in let b := lit "b" in
  [VEnter a 7; VLook a 1 7; VEnter a 7; VLook a 2 7;
   VServe (RlockMsg a 7 1); VReply (a, 7, 0, 0); VLook a 1 7;    (* thread 1 has the lock *)
   VServe (RlockMsg a 7 2); VReply (a, 7, 0, 1);                 (* thread 2 has to wait *)
   VRevoker; VReleaser a;                                        (* the lock is given back *)
   VEnter b 7; VLook b 1 7; VServe (RlockMsg b 7 1); VReply (b, 7, 0, 0); VLook b 1 7].

(** One thread of each client: b waits until a has released and its wait has
    run out. *)
Definition orderly : list levent :=
  let a := lit "a" in let b := lit "b" in
  [VEnter a 7; VLook a 1 7; VServe (RlockMsg a 7 1); VReply (a, 7, 0, 0); VLook a 1 7;
   VEnter b 7; VLook b 1 7; VServe (RlockMsg b 7 1); VReply (b, 7, 0, 1); VLook b 1 7;
   VRevoker; VRelease a 1 7; VReleaser a; VRetryer; VLook b 1 7; VTimeout b 7;
   VLook b 1 7; VServe (RlockMsg b 7 2); VReply (b, 7, 0, 0); VLook b 1 7].

(** ** Properties *)

(** C39. Two clients can hold one lock.  When two threads of a client ask for a
    lock it does not have, the refusal of the second request overwrites the
    status of the lock the first has just got, and the revoke that the second
    request provoked makes the client give the lock back while it is in use. *)
Theorem two_holders :
  exists s, lrun race = Some s /\ holding s = [(lit "b", 1, 7); (lit "a", 1, 7)].
Proof. eexists. split; [vm_compute; reflexivity|reflexivity]. Qed.

(** With one thread per client the lock moves from a to b. *)
Lemma orderly_handover : exists s, lrun orderly = Some s /\ holding s = [(lit "b", 1, 7)].
Proof. eexists. split; [vm_compute; reflexivity|reflexivity]. Qed.

Lemma citem_set_eq c l it : citem (set_citem c l it) l = it.
Proof. unfold citem, set_citem. cbn. apply std_ref_insert_eq. Qed.

(** A lock in use is not given back: a revoke that finds the lock held only
    marks it, nothing is queued for release, and the status stays [LOCK]; the
    [release] of the holder then queues the lock exactly once. *)
Theorem held_lock_kept l x c :
  status (citem c l) = LOCK -> is_finished (citem c l) = false -> x <= cl_xid (citem c l) ->
  let c1 := revoke_handler l x c in
  status (citem c1 l) = LOCK /\ release_queue_ c1 = release_queue_ c /\
  let c2 := release l c1 in
  status (citem c2 l) = RELEASING /\ release_queue_ c2 = release_queue_ c ++ [l].
Proof.
  intros Hs Hf Hx. unfold revoke_handler. rewrite Hf, Hs.
  destruct (Z.eqb_spec (cl_xid (citem c l)) x) as [_|Hne];
    [|destruct (Z.ltb_spec x (cl_xid (citem c l))); [|lia];
      rewrite decide_False by naive_solver];
    cbn zeta; unfold release, DealRelease; rewrite !citem_set_eq; cbn [status is_revoked];
    (rewrite decide_False by done); unfold citem, enq_release, set_citem; cbn;
    by rewrite std_ref_insert_eq.
Qed.
Lemma held_lock_kept_witness :
  let c := default (lock_client_new (lit "a"))
             (s ← lrun (take 5 orderly); clients s !! lit "a") in
  let c1 := revoke_handler 7 1 c in
  status (citem c1 7) = LOCK /\ release_queue_ c1 = release_queue_ c /\
  let c2 := release 7 c1 in
  status (citem c2 7) = RELEASING /\ release_queue_ c2 = release_queue_ c ++ [7].
Proof.
  intros c. apply (held_lock_kept 7 1 c); vm_compute; congruence.
Defined.

(** Retry messages do not wake the waiting client: when a request is
    refused, the server will send the client's last granted xid, which is older
    than the request, and [retry_handler] ignores it.  A waiting client goes on
    only when its three-second wait runs out. *)
Theorem retry_ignored l c x r srv srv' cl :
  acquire l c x r srv = Ret (lock_protocol.OK, AcqRet.RETRY, srv') ->
  cl_xid (citem cl l) = x ->
  is_retried (citem (retry_handler l (std_ref 0 (lock_info_ (item srv' l)) c) cl) l)
    = is_retried (citem cl l).
Proof.
  unfold acquire, with_mutex. destruct (m_lock_mutex_ srv); [done|].
  cbn [set_info lock_info_ LockServerRsm.is_locked].
  destruct (Z.ltb_spec (std_ref 0 (std_touch 0 (lock_info_ (std_ref lock_item_new
    (map_lock_ srv) l)) c) c) x) as [Hlt|]; [|done].
  case_match; [|done]. intros [= <-] Hx. unfold retry_handler.
  unfold item. cbn [enq_revoke set_item map_lock_]. rewrite std_ref_insert_eq.
  cbn [lock_info_]. rewrite Hx.
  apply Z.leb_gt in Hlt. rewrite Hlt. by rewrite citem_set_eq.
Qed.
Lemma retry_ignored_witness :
  let s := default lsystem0 (lrun (take 8 orderly)) in
  let s' := default lsystem0 (lrun (take 7 orderly)) in
  is_retried (citem (retry_handler 7 (std_ref 0 (lock_info_ (item (server s) 7)) (lit "b"))
                       (the_client s (lit "b"))) 7)
    = is_retried (citem (the_client s (lit "b")) 7).
Proof.
  intros s s'. apply (retry_ignored 7 (lit "b") 1 0 (server s') (server s)); vm_compute; reflexivity.
Defined.
