(* ===== verification/LockLegacy.v ===== *)
(** * The earlier lock services

    [lock_server.cc] (one blocking lock server) and the caching pair
    [lock_server_cache.cc] / [lock_client_cache.cc] that the replicated service
    replaced.  As in the other lock files, a definition is what the code does
    between taking and leaving the mutex. *)
From S2P Require Import Prelude Marshall Protocols.

(** ** [lock_server] *)

Module lock_server.
(** [CondLock::is_locked] per lock; a missing key is a lock never seen. *)
Record lsv_state := LsvState { nacquire : Z; lock_map_ : gmap Z bool }.
Definition lsv_new : lsv_state := LsvState 0 ∅.

Definition lsv_stat (clt lid r : Z) (st : lsv_state) : outcome (Z * Z * lsv_state) :=
  Ret (lock_protocol.OK, nacquire st, st).

(** [acquire_lock] when a thread gets the mutex: [None] means it waits on the
    lock's condition variable (and will look again). *)
Definition acquire_lock (lid : Z) (st : lsv_state) : option (Z * lsv_state) :=
  if std_ref false (lock_map_ st) lid then None
  else Some (lock_protocol.OK, LsvState (nacquire st) (<[lid := true]> (lock_map_ st))).

(** [release_lock]; for a lock never seen the mutex is unlocked twice, which has
    no meaning for a plain mutex. *)
Definition release_lock (lid : Z) (st : lsv_state) : outcome (Z * lsv_state) :=
  match lock_map_ st !! lid with
  | None => UB
  | Some true => Ret (lock_protocol.OK, LsvState (nacquire st) (<[lid := false]> (lock_map_ st)))
  | Some false => Ret (lock_protocol.OK, st)
  end.

(** Grants and releases, with the number of clients inside each lock. *)
Inductive run : lsv_state -> (Z -> Z) -> Prop :=
  | run_init : run lsv_new (fun _ => 0)
  | run_grant st n lid s st' :
      run st n -> acquire_lock lid st = Some (s, st') ->
      run st' (fun l => if decide (l = lid) then n l + 1 else n l)
  | run_leave st n lid s st' :
      run st n -> 0 < n lid -> release_lock lid st = Ret (s, st') ->
      run st' (fun l => if decide (l = lid) then n l - 1 else n l).

Lemma run_inv st n :
  run st n -> forall l, n l = if std_ref false (lock_map_ st) l then 1 else 0.
Proof.
  induction 1 as [|st n lid s st' _ IH E|st n lid s st' _ IH Hn E]; intros l.
  - unfold std_ref. cbn. by rewrite lookup_empty.
  - unfold acquire_lock in E. pose proof (IH lid) as Hlid.
    destruct (std_ref false (lock_map_ st) lid); simplify_eq. cbn [lock_map_].
    destruct (decide (l = lid)) as [->|Hne].
    + rewrite std_ref_insert_eq. lia.
    + rewrite std_ref_insert_ne by done. apply IH.
  - unfold release_lock in E. pose proof (IH lid) as Hlid. unfold std_ref in Hlid.
    destruct (lock_map_ st !! lid) as [[]|] eqn:El; cbn in Hlid; simplify_eq; [|lia].
    cbn [lock_map_]. destruct (decide (l = lid)) as [->|Hne].
    + rewrite std_ref_insert_eq. lia.
    + rewrite std_ref_insert_ne by done. apply IH.
Qed.
End lock_server.

(** ** [lock_server_cache] *)

Module lock_server_cache.
Record lsc_item := LscItem { is_locked : bool; user_id_ : str }.
Definition lsc_item_new : lsc_item := LscItem false [].
Record lsc_state := LscState {
  nacquire : Z;
  m_map_lock_ : gmap Z lsc_item;
  m_retry_queue_ : gmap Z (list str);
}.
Definition lsc_new : lsc_state := LscState 0 ∅ ∅.

(** RPCs to clients. *)
Inductive callback := Revoke (to : str) (lid : Z) | Retry (to : str) (lid : Z).

(** The result of [acquire]: its value, the revoke it sends, the state, and
    whether it unlocks [m_lock_mutex_] a second time when it returns: the
    refusing branch unlocks it by hand and the [ScopeLock] again. *)
Definition lsc_acquire (lid : Z) (id : str) (st : lsc_state)
  : outcome (Z * list callback * lsc_state * bool) :=
  let it := std_ref lsc_item_new (m_map_lock_ st) lid in
  if is_locked it then
    _ ← VERIFY (bool_decide (user_id_ it <> []));
    let q := std_ref [] (m_retry_queue_ st) lid in
    Ret (AcqRet.RETRY, [Revoke (user_id_ it) lid],
         LscState (nacquire st) (std_touch lsc_item_new (m_map_lock_ st) lid)
           (<[lid := q ++ [id]]> (m_retry_queue_ st)), true)
  else
    Ret (AcqRet.OK, [],
         LscState (nacquire st) (<[lid := LscItem true id]> (m_map_lock_ st))
           (m_retry_queue_ st), false).

(** [release], until it calls the first waiter: the lock is freed whoever
    asks, and the waiter that is told to retry leaves the queue. *)
Definition lsc_release (lid : Z) (id : str) (st : lsc_state)
  : Z * option callback * lsc_state :=
  let it := std_ref lsc_item_new (m_map_lock_ st) lid in
  let m := <[lid := LscItem false (user_id_ it)]> (m_map_lock_ st) in
  match std_ref [] (m_retry_queue_ st) lid with
  | [] => (lock_protocol.OK, None,
           LscState (nacquire st) m (std_touch [] (m_retry_queue_ st) lid))
  | u :: q =>
      (lock_protocol.OK, Some (Retry u lid),
       LscState (nacquire st) m (<[lid := q]> (m_retry_queue_ st)))
  end.
(** When the retry call has returned: the same client is told that the lock is
    wanted if more are waiting by then. *)
Definition lsc_release_more (lid : Z) (u : str) (st : lsc_state) : option callback :=
  if decide (std_ref [] (m_retry_queue_ st) lid = []) then None else Some (Revoke u lid).

(** [ConnectToClient::Revoke] and [Retry]: a client that does not answer ends the
    server. *)
Definition connect_call (ret r : Z) : outcome Z := _ ← VERIFY (ret =? lock_protocol.OK); Ret r.

Definition lsc_stat (lid r : Z) (st : lsc_state) : outcome (Z * Z * lsc_state) :=
  Ret (lock_protocol.OK, nacquire st, st).
End lock_server_cache.

(** ** [lock_client_cache] *)

Module lock_client_cache.
Import AcqRet.
Record client_lock := ClientLock {
  is_retried : bool; is_revoked : bool; is_finished : bool; status : lock_status
}.
Definition client_lock_new : client_lock := ClientLock false false false NONE.
Record lcc_state := LccState { m_lock_map_ : gmap Z client_lock }.
Definition lcc_new : lcc_state := LccState ∅.

Definition citem (c : lcc_state) (l : Z) : client_lock := std_ref client_lock_new (m_lock_map_ c) l.
Definition set_citem (c : lcc_state) (l : Z) (it : client_lock) : lcc_state :=
  LccState (<[l := it]> (m_lock_map_ c)).

(** [DealRelease]: [true] when the lock is given back: the status is already
    [NONE] while the cache is flushed and the release is sent, without the
    mutex. *)
Definition DealRelease (l : Z) (c : lcc_state) : bool * lcc_state :=
  let it := citem c l in
  if decide (status it = NONE) then (false, set_citem c l it)
  else if is_revoked it then (true, set_citem c l (ClientLock (is_retried it) false false NONE))
  else (false, set_citem c l (ClientLock (is_retried it) (is_revoked it) true FREE)).
(** After the release call returned. *)
Definition release_sent (ret : Z) : outcome unit := VERIFY (ret =? lock_protocol.OK).

Definition send_begin (l : Z) (c : lcc_state) : lcc_state :=
  let it := citem c l in
  set_citem c l (ClientLock false (is_revoked it) (is_finished it) (status it)).
(** [SendAcqToSvr] after the call: any other result than [OK] means waiting. *)
Definition send_end (l ret : Z) (c : lcc_state) : lcc_state :=
  let it := citem c l in
  set_citem c l (ClientLock (is_retried it) (is_revoked it) (is_finished it)
                   (if ret =? AcqRet.OK then FREE else ACQING)).

Inductive acq_action := ASend | AGot | AWaitFree | AWaitAcq.
(** A thread in [acquire] looks at the lock; [RELEASING] is not expected. *)
Definition acquire_look (l : Z) (c : lcc_state) : outcome (acq_action * lcc_state) :=
  let it := citem c l in
  match status it with
  | NONE => Ret (ASend, send_begin l c)
  | FREE => Ret (AGot, set_citem c l (ClientLock (is_retried it) (is_revoked it) false LOCK))
  | LOCK => Ret (AWaitFree, c)
  | ACQING => if is_retried it then Ret (ASend, send_begin l c) else Ret (AWaitAcq, c)
  | RELEASING => VerifyFail
  end.

Definition lcc_release (l : Z) (c : lcc_state) : bool * lcc_state := DealRelease l c.
Definition revoke_handler (l : Z) (c : lcc_state) : bool * lcc_state :=
  let it := citem c l in
  let c := set_citem c l (ClientLock (is_retried it) true (is_finished it) (status it)) in
  if is_finished it then DealRelease l c else (false, c).
Definition retry_handler (l : Z) (c : lcc_state) : lcc_state :=
  let it := citem c l in
  set_citem c l (ClientLock true (is_revoked it) (is_finished it) (status it)).

(** [RELEASING] is never entered, and an idle lock is marked finished or fresh. *)
Definition item_ok (it : client_lock) : Prop :=
  status it <> RELEASING /\ (is_finished it = true -> status it <> LOCK).
Definition state_ok (c : lcc_state) : Prop := forall l, item_ok (citem c l).

Inductive op := OLook (l : Z) | OReply (l ret : Z) | ORelease (l : Z) | ORevoke (l : Z) | ORetry (l : Z).
Definition step (c : lcc_state) (o : op) : outcome lcc_state :=
  match o with
  | OLook l => '(_, c) ← acquire_look l c; Ret c
  | OReply l ret => Ret (send_end l ret c)
  | ORelease l => Ret (lcc_release l c).2
  | ORevoke l => Ret (revoke_handler l c).2
  | ORetry l => Ret (retry_handler l c)
  end.

(** [acquire] as its thread goes through it: [away] holds what the other threads
    did while it was in a call or a wait, with the result of the call.  [true]
    when it has returned. *)
Definition others (os : list op) (c : lcc_state) : outcome lcc_state :=
  foldl (fun c o => c ← c; step c o) (Ret c) os.
Fixpoint acquire (l : Z) (away : list (Z * list op)) (c : lcc_state) : outcome (bool * lcc_state) :=
  '(act, c) ← acquire_look l c;
  match act, away with
  | AGot, _ => Ret (true, c)
  | _, [] => Ret (false, c)
  | ASend, (ret, os) :: away => c ← others os c; acquire l away (send_end l ret c)
  | _, (_, os) :: away => c ← others os c; acquire l away c
  end.
(** The destructor releases every lock; the result lists the ones it gives back. *)
Definition lcc_dtor (c : lcc_state) : list Z * lcc_state :=
  foldl (fun x l => if decide (status (citem x.2 l) = NONE) then x
                    else let '(b, c) := lcc_release l x.2 in (if b then x.1 ++ [l] else x.1, c))
    ([], c) (map_to_list (m_lock_map_ c)).*1.

Lemma set_citem_ok c l it : state_ok c -> item_ok it -> state_ok (set_citem c l it).
Proof.
  intros Hc Hit l'. unfold citem, set_citem. cbn [m_lock_map_].
  destruct (decide (l = l')) as [->|Hne].
  - by rewrite std_ref_insert_eq.
  - rewrite std_ref_insert_ne by done. apply Hc.
Qed.
Lemma citem_set c l it : citem (set_citem c l it) l = it.
Proof. apply std_ref_insert_eq. Qed.
Lemma DealRelease_ok l c : state_ok c -> state_ok (DealRelease l c).2.
Proof.
  intros Hc. unfold DealRelease. destruct (decide _); [by apply set_citem_ok|].
  case_match; by apply set_citem_ok.
Qed.
Lemma revoke_handler_ok l c : state_ok c -> state_ok (revoke_handler l c).2.
Proof.
  intros Hc. unfold revoke_handler.
  set (c' := set_citem c l _).
  assert (state_ok c') by (apply set_citem_ok; [done|]; exact (Hc l)).
  case_match; [by apply DealRelease_ok|done].
Qed.
Lemma step_ok c o : state_ok c -> exists c', step c o = Ret c' /\ state_ok c'.
Proof.
  intros Hc. destruct o as [l|l ret|l|l|l]; cbn [step].
  - unfold acquire_look. pose proof (Hc l) as [Hs Hf].
    repeat case_match; try done; cbn; eexists; (split; [reflexivity|]); try done;
      apply set_citem_ok; try done; split; cbn; congruence.
  - eexists. split; [reflexivity|]. apply set_citem_ok; [done|]. split; cbn; by case_match.
  - eexists. split; [reflexivity|]. by apply DealRelease_ok.
  - eexists. split; [reflexivity|]. by apply revoke_handler_ok.
  - eexists. split; [reflexivity|]. apply set_citem_ok; [done|]. exact (Hc l).
Qed.
Lemma others_ok os : forall c, state_ok c -> exists c', others os c = Ret c' /\ state_ok c'.
Proof.
  induction os as [|o os IH] using rev_ind; intros c Hc; [by exists c|].
  destruct (IH c Hc) as (c1 & E & H1). unfold others in *. rewrite foldl_app, E. cbn [foldl].
  rewrite outcome_bind_Ret. by apply step_ok.
Qed.
Lemma look_ok l c : state_ok c -> exists a c', acquire_look l c = Ret (a, c') /\ state_ok c' /\
  (a = AGot -> status (citem c' l) = LOCK /\ is_finished (citem c' l) = false).
Proof.
  intros Hc. pose proof (Hc l) as [Hs Hf]. unfold acquire_look.
  repeat case_match; try done; eexists _, _; (split; [reflexivity|]); split; try done;
    try (apply set_citem_ok; [done|]; split; cbn; congruence). intros _. by rewrite citem_set.
Qed.
End lock_client_cache.

(** ** Properties *)

(** Whatever the other threads and the server do meanwhile, a thread in the
    caching client's [acquire] does not fail, and when it returns the lock is
    taken and not marked for giving back. *)
Theorem cache_client_acquires l away : forall c,
  lock_client_cache.state_ok c ->
  exists b c', lock_client_cache.acquire l away c = Ret (b, c') /\ lock_client_cache.state_ok c' /\
    (b = true -> lock_client_cache.status (lock_client_cache.citem c' l) = AcqRet.LOCK /\
       lock_client_cache.is_finished (lock_client_cache.citem c' l) = false).
Proof.
  induction away as [|[ret os] away IH]; intros c Hc;
    destruct (lock_client_cache.look_ok l c Hc) as (a & c1 & E & H1 & Hgot);
    cbn [lock_client_cache.acquire]; rewrite E, outcome_bind_Ret.
  - destruct a; eexists _, c1; (split; [reflexivity|]); split; try done. intros _. by apply Hgot.
  - destruct (lock_client_cache.others_ok os c1 H1) as (c2 & -> & H2).
    destruct a; rewrite ?outcome_bind_Ret.
    + apply IH. apply lock_client_cache.set_citem_ok; [done|]. split; cbn; by case_match.
    + eexists true, c1. split; [reflexivity|]. split; [done|]. intros _. by apply Hgot.
    + by apply IH.
    + by apply IH.
Qed.
Lemma cache_client_acquires_witness :
  exists c', lock_client_cache.acquire 7 [(AcqRet.OK, [])] lock_client_cache.lcc_new = Ret (true, c') /\
    lock_client_cache.status (lock_client_cache.citem c' 7) = AcqRet.LOCK.
Proof.
  assert (lock_client_cache.state_ok lock_client_cache.lcc_new) as H0.
  { intros l. unfold lock_client_cache.citem, std_ref. cbn. by rewrite lookup_empty. }
  destruct (cache_client_acquires 7 [(AcqRet.OK, [])] _ H0) as (b & c' & E & _ & Hb).
  assert (b = true) as Hbt.
  { apply (f_equal (fun o => match o with Ret (b, _) => b | _ => true end)) in E. symmetry. exact E. }
  exists c'. rewrite Hbt in E. split; [exact E|exact (proj1 (Hb Hbt))].
Defined.

(** The destructor of the caching client gives no lock back that has not been
    revoked: [release] keeps such a lock cached, so the server goes on believing
    that the client has it. *)
Lemma dtor_keeps_locks c :
  (forall l, lock_client_cache.is_revoked (lock_client_cache.citem c l) = false) ->
  (lock_client_cache.lcc_dtor c).1 = [].
Proof.
  intros Hr. unfold lock_client_cache.lcc_dtor. set (ls := (map_to_list _).*1). clearbody ls.
  assert (forall x, x.1 = [] -> (forall l, lock_client_cache.is_revoked (lock_client_cache.citem x.2 l) = false) ->
    (foldl (fun x l => if decide (lock_client_cache.status (lock_client_cache.citem x.2 l) = AcqRet.NONE) then x
                    else let '(b, c) := lock_client_cache.lcc_release l x.2 in (if b then x.1 ++ [l] else x.1, c))
      x ls).1 = []) as Hall; [|by apply Hall].
  induction ls as [|l ls IH]; intros [sent c1] Hs Hc; [done|]. cbn [foldl fst snd] in *. apply IH.
  - case_decide; [done|]. unfold lock_client_cache.lcc_release, lock_client_cache.DealRelease.
    rewrite decide_False, Hc by done. done.
  - case_decide; [done|]. unfold lock_client_cache.lcc_release, lock_client_cache.DealRelease.
    rewrite decide_False, (Hc l) by done. intros l'. cbn. unfold lock_client_cache.citem, lock_client_cache.set_citem.
    cbn. destruct (decide (l = l')) as [<-|]; [by rewrite std_ref_insert_eq|].
    rewrite std_ref_insert_ne by done. apply Hc.
Qed.

(** The blocking lock server: at no time is more than one client inside a
    lock, whatever the order of grants and releases. *)
Theorem lock_server_exclusive st n l : lock_server.run st n -> n l <= 1.
Proof. intros H. rewrite (lock_server.run_inv st n H l). by case_match. Qed.
Lemma lock_server_exclusive_witness :
  exists st n, lock_server.run st n /\ n 4 = 1 /\ n 4 <= 1.
Proof.
  pose proof lock_server.run_init as R.
  eapply (lock_server.run_grant _ _ 4) in R; [|reflexivity].
  eexists _, _. split; [exact R|]. split; [reflexivity|].
  exact (lock_server_exclusive _ _ 4 R).
Defined.

(** The [VERIFY(false)] of the caching client's [acquire] is never reached:
    in any sequence of its operations and of the server's callbacks every step
    succeeds. *)
Theorem cache_client_no_failure os :
  exists c, foldl (fun c o => c ← c; lock_client_cache.step c o)
              (Ret lock_client_cache.lcc_new) os = Ret c /\ lock_client_cache.state_ok c.
Proof.
  induction os as [|o os (c & IH & Hc)] using rev_ind.
  { exists lock_client_cache.lcc_new. split; [done|]. intros l. unfold lock_client_cache.citem, std_ref.
    cbn. rewrite lookup_empty. done. }
  rewrite foldl_app, IH. cbn [foldl mbind outcome_bind].
  by apply lock_client_cache.step_ok.
Qed.

(** A contended [acquire] at the caching server always unlocks a mutex it
    does not hold: the refusing branch unlocks by hand what its [ScopeLock]
    unlocks again. *)
Theorem contended_acquire_double_unlock lid id id' st r cb st1 d :
  lock_server_cache.lsc_acquire lid id st = Ret (r, cb, st1, d) -> id <> [] ->
  r = AcqRet.OK ->
  exists st2, lock_server_cache.lsc_acquire lid id' st1
    = Ret (AcqRet.RETRY, [lock_server_cache.Revoke id lid], st2, true).
Proof.
  unfold lock_server_cache.lsc_acquire. intros E Hid Hr.
  destruct (lock_server_cache.is_locked _).
  { apply bind_Ret_inv in E as (? & _ & E). by simplify_eq. }
  simplify_eq. cbn [lock_server_cache.m_map_lock_]. rewrite std_ref_insert_eq.
  cbn [lock_server_cache.is_locked lock_server_cache.user_id_].
  rewrite bool_decide_eq_true_2 by done. eexists. reflexivity.
Qed.
Lemma contended_acquire_double_unlock_witness :
  exists st1, lock_server_cache.lsc_acquire 7 (lit "a") lock_server_cache.lsc_new
      = Ret (AcqRet.OK, [], st1, false) /\
  exists st2, lock_server_cache.lsc_acquire 7 (lit "b") st1
    = Ret (AcqRet.RETRY, [lock_server_cache.Revoke (lit "a") 7], st2, true).
Proof.
  eexists. split; [reflexivity|].
  eapply (contended_acquire_double_unlock 7 (lit "a") (lit "b") lock_server_cache.lsc_new);
    [reflexivity|done|reflexivity].
Defined.
