(* ===== verification/Extent.v ===== *)
(** * Extents: the extent server, its RPC client and the write-back cache

    [extent_server.cc], [extent_client.cc] and [extent_client_cache.cc].  An
    extent is a byte string with attributes.  The server keeps a map of them;
    [extent_client] sends every operation to it; [extent_client_cache], which
    [yfs_client] uses, keeps extents locally until [flush], which the lock
    client calls when it gives a lock back.

    [ExtentClient] is the interface both clients implement (the virtual
    functions of [extent_client.h]) and [ExtentClientSpec] the promise
    [YfsClient] is proved against. *)
From S2P Require Import Prelude Marshall Protocols RpcStub.

Import extent_protocol.

(** ** The server *)

Abbreviation FileContent := (attr * str)%type.

(** The fields are [file_block_], the values [time(0)] will return and the
    values [rand()] will return. *)
Record extent_server := ExtentServer {
  file_block_ : gmap Z FileContent;
  times : list Z;
  draws : list Z;
}.

Definition zero_content : FileContent := (Attr 0 0 0 0, []).

(** [time(0)], converted to [int] and stored in an [unsigned int]. *)
Definition now_of (ts : list Z) : Z := u32 (i32 (hd 0 ts)).

(** [put], [get], [getattr] and [remove] have their locks commented out; each is
    taken as one step here, which the code leaves to chance. *)
Definition server_put (id : Z) (buf : str) (r : Z) (s : extent_server)
    : outcome (Z * Z * extent_server) :=
  let now := now_of (times s) in
  let m := file_block_ s in
  let fresh := bool_decide (m !! id = None) in
  let a := (std_ref zero_content m id).1 in
  let a := if fresh then Attr now now now (size a)
           else Attr (atime a) now now (size a) in
  let a := Attr (atime a) (mtime a) (ctime a) (u32 (Z.of_nat (length buf))) in
  Ret (OK, 0, ExtentServer (<[id := (a, buf)]> m) (tl (times s)) (draws s)).

Definition server_get (id : Z) (buf : str) (s : extent_server)
    : outcome (Z * str * extent_server) :=
  let now := now_of (times s) in
  let m := file_block_ s in
  match m !! id with
  | None => Ret (NOENT, buf, ExtentServer m (tl (times s)) (draws s))
  | Some (a, content) =>
      let a := Attr now (mtime a) (ctime a) (size a) in
      Ret (OK, content,
           ExtentServer (<[id := (a, content)]> m) (tl (times s)) (draws s))
  end.

Definition server_getattr (id : Z) (a : attr) (s : extent_server)
    : outcome (Z * attr * extent_server) :=
  match file_block_ s !! id with
  | None => Ret (NOENT, a, s)
  | Some (a', _) => Ret (OK, a', s)
  end.

Definition server_remove (id : Z) (r : Z) (s : extent_server)
    : outcome (Z * Z * extent_server) :=
  match file_block_ s !! id with
  | None => Ret (NOENT, 0, s)
  | Some _ =>
      Ret (OK, 0, ExtentServer (delete id (file_block_ s)) (times s) (draws s))
  end.

Definition FILE_BIT : Z := 0x80000000.

(** The [do ... while] loop over the draws: a [continue] goes to the test. *)
Fixpoint inode_loop (is_file : Z) (m : gmap Z FileContent) (ds : list Z)
    : option (Z * list Z) :=
  match ds with
  | [] => None
  | d :: ds =>
      let ino := u64 d mod 0x80000000 in
      let ino :=
        if ino =? 1 then ino
        else if is_file =? 0 then ino else Z.lor ino FILE_BIT in
      if bool_decide (is_Some (m !! ino)) then inode_loop is_file m ds
      else Some (ino, ds)
  end.

(** [Hang]: the draws that are left are all in use, the loop goes on. *)
Definition GetInodeNum (is_file : Z) (rino : Z) (s : extent_server)
    : outcome (Z * Z * extent_server) :=
  match inode_loop is_file (file_block_ s) (draws s) with
  | None => Hang
  | Some (ino, ds) => Ret (OK, ino, ExtentServer (file_block_ s) (times s) ds)
  end.

(** The constructor creates the root. *)
Definition extent_server_new (ts ds : list Z) : outcome extent_server :=
  '(_, _, s) ← server_put 1 [] 0 (ExtentServer ∅ ts ds); Ret s.

(** ** Remote calls

    [Delivered]: the call is executed and answered.  [Failed e x]: [rpcc]
    gives up with the negative code [e]; [x] says whether the server executed
    it all the same. *)

Inductive fate := Delivered | Failed (e : Z) (executed : bool).

(** The memory an uninitialised [attr] of the server's stub holds. *)
Class JunkAttr := junk_attr : attr.

Record FileData := MkFileData {
  file_content_ : FileContent;
  is_present : bool;
  is_dirty : bool;
}.
Definition FileData_new : FileData := MkFileData zero_content false false.

(** A client process and the server: the client's cache, the values its
    [time(0)] will return, the fates of its calls, the server. *)
Record world := World {
  extent_file_cache_ : gmap Z FileData;
  client_times : list Z;
  net : list fate;
  srv : extent_server;
}.

Definition set_cache (w : world) (c : gmap Z FileData) : world :=
  World c (client_times w) (net w) (srv w).
Definition set_entry (w : world) (id : Z) (d : FileData) : world :=
  set_cache w (<[id := d]> (extent_file_cache_ w)).
Definition tick (w : world) : world :=
  World (extent_file_cache_ w) (tl (client_times w)) (net w) (srv w).
Definition after_call (w : world) (s : extent_server) : world :=
  World (extent_file_cache_ w) (client_times w) (tl (net w)) s.

(** [cl->call(proc, ..., r)]: [r0] is the reply object the server's stub
    declares, [old] the caller's [r] before the call; a negative result
    leaves it alone ([rpcc::call_m]). *)
Definition call {R} (meth : R -> extent_server -> outcome (Z * R * extent_server))
    (r0 old : R) (w : world) : outcome (Z * R * world) :=
  match hd Delivered (net w) with
  | Delivered =>
      '(b, r, s) ← meth r0 (srv w);
      Ret (b, if b <? 0 then old else r, after_call w s)
  | Failed e executed =>
      s ← (if executed then '(_, _, s) ← meth r0 (srv w); Ret s else Ret (srv w));
      Ret (e, old, after_call w s)
  end.

(** ** The interface of the extent clients *)

Class ExtentClient := {
  ec_get : Z -> str -> world -> outcome (Z * str * world);
  ec_getattr : Z -> attr -> world -> outcome (Z * attr * world);
  ec_put : Z -> str -> world -> outcome (Z * world);
  ec_remove : Z -> world -> outcome (Z * world);
  ec_getinode : Z -> Z -> world -> outcome (Z * Z * world);
}.

Section clients.
Context `{JunkAttr}.

(** *** [extent_client]: every operation is a call *)

Definition client_get (eid : Z) (buf : str) : world -> outcome (Z * str * world) :=
  call (server_get eid) [] buf.
Definition client_getattr (eid : Z) (a : attr) : world -> outcome (Z * attr * world) :=
  call (server_getattr eid) junk_attr a.
Definition client_put (eid : Z) (buf : str) (w : world) : outcome (Z * world) :=
  '(ret, _, w) ← call (server_put eid buf) 0 0 w; Ret (ret, w).
Definition client_remove (eid : Z) (w : world) : outcome (Z * world) :=
  '(ret, _, w) ← call (server_remove eid) 0 0 w; Ret (ret, w).
Definition client_getinode (ino is_file : Z) : world -> outcome (Z * Z * world) :=
  call (GetInodeNum is_file) 0 ino.

(** *** [extent_client_cache] *)

Definition entry (w : world) (eid : Z) : FileData :=
  std_ref FileData_new (extent_file_cache_ w) eid.

Definition cache_get (eid : Z) (buf : str) (w : world)
    : outcome (Z * str * world) :=
  let w := set_cache w (std_touch FileData_new (extent_file_cache_ w) eid) in
  let d := entry w eid in
  let '(a, content) := file_content_ d in
  if is_present d then
    let now := now_of (client_times w) in
    let a := Attr now (mtime a) (ctime a) (size a) in
    Ret (OK, content,
         tick (set_entry w eid (MkFileData (a, content) true (is_dirty d))))
  else
    '(_, buf, w) ← client_get eid buf w;
    '(ret, a, w) ← client_getattr eid a w;
    Ret (ret, buf, set_entry w eid (MkFileData (a, buf) true (is_dirty d))).

Definition cache_getattr (eid : Z) (a : attr) (w : world)
    : outcome (Z * attr * world) :=
  let w := set_cache w (std_touch FileData_new (extent_file_cache_ w) eid) in
  let d := entry w eid in
  if is_present d then Ret (OK, (file_content_ d).1, w)
  else client_getattr eid a w.

Definition cache_put (eid : Z) (buf : str) (w : world) : outcome (Z * world) :=
  let now := now_of (client_times w) in
  let a := (file_content_ (entry w eid)).1 in
  let at_ := if bool_decide (extent_file_cache_ w !! eid = None)
             then now else atime a in
  let a := Attr at_ now now (u32 (Z.of_nat (length buf))) in
  Ret (OK, tick (set_entry w eid (MkFileData (a, buf) true true))).

Definition cache_remove (eid : Z) (w : world) : outcome (Z * world) :=
  match extent_file_cache_ w !! eid with
  | Some _ => Ret (OK, set_cache w (delete eid (extent_file_cache_ w)))
  | None => client_remove eid w
  end.

Definition flush (eid : Z) (w : world) : outcome (Z * world) :=
  match extent_file_cache_ w !! eid with
  | None => client_remove eid w
  | Some d =>
      '(ret, w) ← (if is_dirty d then client_put eid (file_content_ d).2 w
                   else Ret (OK, w));
      Ret (ret, set_entry w eid (MkFileData (file_content_ d) false false))
  end.

Definition extent_client : ExtentClient := {|
  ec_get := client_get; ec_getattr := client_getattr; ec_put := client_put;
  ec_remove := client_remove; ec_getinode := client_getinode |}.
(** [getinode] is inherited. *)
Definition extent_client_cache : ExtentClient := {|
  ec_get := cache_get; ec_getattr := cache_getattr; ec_put := cache_put;
  ec_remove := cache_remove; ec_getinode := client_getinode |}.
End clients.

(** ** What an extent client promises

    [ec_view w id] is the content a [get] would return; [ec_sized w id] says
    that the size in the attributes is the length of the content.  The
    promises are for worlds whose network delivers every call. *)

Definition net_ok (w : world) : Prop := Forall (eq Delivered) (net w).

Definition server_view (w : world) (id : Z) : option str :=
  snd <$> file_block_ (srv w) !! id.

Definition content_sized (c : FileContent) : Prop :=
  size c.1 = u32 (Z.of_nat (length c.2)).

Class ExtentClientSpec (E : ExtentClient) := {
  ec_view : world -> Z -> option str;
  ec_sized : world -> Z -> Prop;
  (** [getinode] will find a number for this type of file. *)
  ec_live : Z -> world -> Prop;
  (** Nothing changes but the extent [id]. *)
  ec_frame (id : Z) (w w' : world) : Prop :=
    net_ok w' /\
    forall i, i <> id -> ec_view w' i = ec_view w i /\ (ec_sized w i -> ec_sized w' i);
  ec_get_some w id old s :
    net_ok w -> ec_view w id = Some s ->
    exists w', ec_get id old w = Ret (OK, s, w') /\ ec_frame id w w' /\
      ec_view w' id = Some s /\ (ec_sized w id -> ec_sized w' id) /\
      (forall f, ec_live f w -> ec_live f w');
  ec_get_none w id old :
    net_ok w -> ec_view w id = None ->
    exists s w', ec_get id old w = Ret (NOENT, s, w') /\ ec_frame id w w';
  ec_getattr_some w id old s :
    net_ok w -> ec_view w id = Some s ->
    exists a w', ec_getattr id old w = Ret (OK, a, w') /\ ec_frame id w w' /\
      ec_view w' id = Some s /\
      (ec_sized w id -> ec_sized w' id /\ size a = u32 (Z.of_nat (length s)));
  ec_getattr_none w id old :
    net_ok w -> ec_view w id = None ->
    exists a w', ec_getattr id old w = Ret (NOENT, a, w') /\ ec_frame id w w' /\
      ec_view w' id = None;
  ec_put_ok w id buf :
    net_ok w ->
    exists w', ec_put id buf w = Ret (OK, w') /\ ec_frame id w w' /\
      ec_view w' id = Some buf /\ (ec_sized w id -> ec_sized w' id);
  ec_remove_some w id s :
    net_ok w -> ec_view w id = Some s ->
    exists w', ec_remove id w = Ret (OK, w') /\ ec_frame id w w';
  ec_getinode_ok w old f b ino w' :
    net_ok w -> ec_getinode old f w = Ret (b, ino, w') ->
    b = OK /\ is_u64 ino /\ (ino <> 1 -> Z.testbit ino 31 = negb (f =? 0)) /\
    ec_frame ino w w' /\ ec_view w' ino = ec_view w ino /\
    (ec_sized w ino -> ec_sized w' ino);
  ec_getinode_live w old f :
    net_ok w -> ec_live f w ->
    exists b ino w', ec_getinode old f w = Ret (b, ino, w');
}.

(** ** The server's handlers *)

Lemma net_ok_hd w : net_ok w -> hd Delivered (net w) = Delivered.
Proof. unfold net_ok. destruct (net w); [done|]. by inversion 1. Qed.
Lemma net_ok_after w s : net_ok w -> net_ok (after_call w s).
Proof. unfold net_ok. simpl. destruct (net w); [done|]. by inversion 1. Qed.
Lemma net_ok_entry w id d : net_ok w -> net_ok (set_entry w id d).
Proof. done. Qed.

(** A call that is delivered, one that fails before it is executed. *)
Lemma call_step {R} (meth : R -> extent_server -> outcome (Z * R * extent_server))
    r0 old w b r s :
  hd Delivered (net w) = Delivered -> meth r0 (srv w) = Ret (b, r, s) -> 0 <= b ->
  call meth r0 old w = Ret (b, r, after_call w s).
Proof.
  intros Hn Hm Hb. unfold call. rewrite Hn, Hm; simpl.
  by rewrite (proj2 (Z.ltb_ge b 0)).
Qed.
Lemma call_lost {R} (meth : R -> extent_server -> outcome (Z * R * extent_server))
    r0 old w e :
  hd Delivered (net w) = Failed e false ->
  call meth r0 old w = Ret (e, old, after_call w (srv w)).
Proof. intros Hn. unfold call. by rewrite Hn. Qed.
Lemma call_delivered {R} (meth : R -> extent_server -> outcome (Z * R * extent_server))
    r0 old w b r s :
  net_ok w -> meth r0 (srv w) = Ret (b, r, s) -> 0 <= b ->
  call meth r0 old w = Ret (b, r, after_call w s).
Proof. intros Hn. apply call_step. by apply net_ok_hd. Qed.
Lemma call_delivered_inv {R} (meth : R -> extent_server -> outcome (Z * R * extent_server))
    r0 old w b r w' :
  net_ok w -> call meth r0 old w = Ret (b, r, w') ->
  exists r' s, meth r0 (srv w) = Ret (b, r', s) /\
    (0 <= b -> r = r') /\ w' = after_call w s.
Proof.
  intros Hn. unfold call. rewrite (net_ok_hd w Hn).
  destruct (meth r0 (srv w)) as [[[b' r'] s]| | |]; simpl; try done.
  intros [= -> <- <-]. exists r', s. split_and!; try done.
  intros. by rewrite (proj2 (Z.ltb_ge b 0)).
Qed.

Lemma inode_loop_spec f m ds ino ds' :
  inode_loop f m ds = Some (ino, ds') ->
  m !! ino = None /\ is_u64 ino /\ (ino <> 1 -> Z.testbit ino 31 = negb (f =? 0)).
Proof.
  induction ds as [|d ds IH]; simpl; [done|].
  pose proof (Z.mod_pos_bound (u64 d) 2147483648 ltac:(lia)) as Hb.
  case_bool_decide as Hi; [done|]. intros [= <- <-].
  split; [by apply eq_None_not_Some|].
  destruct (Z.eqb_spec (u64 d mod 2147483648) 1) as [E1|E1].
  { split; [width|done]. }
  destruct (Z.eqb_spec f 0) as [->|Hf].
  { split; [width|]. intros _. by apply (Z.mod_pow2_bits_high (u64 d) 31 31). }
  split.
  - unfold is_u64. split; [apply Z.lor_nonneg; unfold FILE_BIT; lia|].
    eapply Z.lt_le_trans; [apply (Z.log2_lt_cancel _ (2 ^ 32))|done].
    rewrite Z.log2_lor, Z.log2_pow2 by (unfold FILE_BIT; lia).
    apply Z.max_lub_lt; [|done].
    destruct (decide (u64 d mod 2147483648 = 0)) as [->|?]; [done|].
    apply Z.log2_lt_pow2; lia.
  - intros _. change (Z.testbit (Z.lor (u64 d mod 2147483648) FILE_BIT) 31 = true).
    rewrite Z.lor_spec. apply orb_true_intro. by right.
Qed.

(** The loop ends at the first draw that is not in use. *)
Lemma inode_loop_ends f m ds1 d ds2 :
  u64 d mod 0x80000000 <> 1 ->
  m !! (if f =? 0 then u64 d mod 0x80000000
        else Z.lor (u64 d mod 0x80000000) FILE_BIT) = None ->
  is_Some (inode_loop f m (ds1 ++ d :: ds2)).
Proof.
  intros Hd Hm. induction ds1 as [|d1 ds1 IH]; cbn [app inode_loop].
  - rewrite (proj2 (Z.eqb_neq _ _) Hd), Hm, bool_decide_false; [by eexists|].
    by intros [].
  - case_bool_decide; [done|by eexists].
Qed.

(** The loop only tests membership. *)
Lemma inode_loop_dom f m m' ds :
  (forall i, is_Some (m !! i) <-> is_Some (m' !! i)) ->
  inode_loop f m ds = inode_loop f m' ds.
Proof.
  intros Hd. induction ds as [|d ds IH]; [done|]. cbn [inode_loop].
  rewrite IH. rewrite (bool_decide_ext _ _ (Hd _)). done.
Qed.

(** ** The direct client *)

Definition server_live (f : Z) (w : world) : Prop :=
  is_Some (inode_loop f (file_block_ (srv w)) (draws (srv w))).

Definition server_sized (w : world) (id : Z) : Prop :=
  forall c, file_block_ (srv w) !! id = Some c -> content_sized c.

(** The call left the cache and, outside [P], the extents alone. *)
Definition remote_frame (P : Z -> Prop) (w w' : world) : Prop :=
  net_ok w' /\ extent_file_cache_ w' = extent_file_cache_ w /\
  forall i, ~ P i -> server_view w' i = server_view w i /\
                     (server_sized w i -> server_sized w' i).

Lemma remote_frame_refl P w : net_ok w -> remote_frame P w w.
Proof. intros Hn. split; [done|]. by split. Qed.
Lemma remote_frame_insert w id c m ts ds :
  m = file_block_ (srv w) -> net_ok w ->
  remote_frame (eq id) w (after_call w (ExtentServer (<[id := c]> m) ts ds)).
Proof.
  intros -> Hn. split_and!; [by apply net_ok_after|done|]. intros i Hi.
  unfold server_view, server_sized; simpl. by rewrite lookup_insert_ne.
Qed.
Lemma remote_frame_delete w id m ts ds :
  m = file_block_ (srv w) -> net_ok w ->
  remote_frame (eq id) w (after_call w (ExtentServer (delete id m) ts ds)).
Proof.
  intros -> Hn. split_and!; [by apply net_ok_after|done|]. intros i Hi.
  unfold server_view, server_sized; simpl. by rewrite lookup_delete_ne.
Qed.
Lemma remote_frame_same w m ts ds P :
  m = file_block_ (srv w) -> net_ok w ->
  remote_frame P w (after_call w (ExtentServer m ts ds)).
Proof. intros -> Hn. split_and!; [by apply net_ok_after|done|done]. Qed.
#[local] Hint Resolve remote_frame_insert remote_frame_delete remote_frame_same
  net_ok_after : yfs.

Section client_lemmas.
Context `{JunkAttr}.

Lemma server_view_None w id :
  server_view w id = None -> file_block_ (srv w) !! id = None.
Proof. unfold server_view. by destruct (_ !! id). Qed.
Lemma server_view_Some w id s :
  server_view w id = Some s -> exists a, file_block_ (srv w) !! id = Some (a, s).
Proof.
  unfold server_view. destruct (_ !! id) as [[a c]|]; simpl; [|done].
  intros [= ->]. by exists a.
Qed.

Lemma client_get_some w id old s :
  net_ok w -> server_view w id = Some s ->
  exists w', client_get id old w = Ret (OK, s, w') /\
    remote_frame (fun _ => False) w w' /\ forall f, server_live f w -> server_live f w'.
Proof.
  intros Hn (a & Ha)%server_view_Some. unfold client_get.
  set (b := Attr (now_of (times (srv w))) (mtime a) (ctime a) (size a)).
  exists (after_call w (ExtentServer (<[id := (b, s)]> (file_block_ (srv w)))
            (tl (times (srv w))) (draws (srv w)))). split.
  { apply call_delivered; [done| |done]. unfold server_get. by rewrite Ha. }
  split.
  - split_and!; [by apply net_ok_after|done|]. intros i _.
    unfold server_view, server_sized; simpl.
    destruct (decide (i = id)) as [->|Hi]; [|by rewrite lookup_insert_ne].
    rewrite lookup_insert_eq, Ha; simpl. split; [done|].
    intros Hs c [= <-]. apply (Hs _ eq_refl).
  - intros f. unfold server_live; simpl.
    rewrite (inode_loop_dom f (<[id := _]> _) (file_block_ (srv w))); [done|].
    intros i. rewrite lookup_insert_is_Some. destruct (decide (id = i)) as [->|]; [|tauto].
    rewrite Ha. split; eauto.
Qed.

Lemma client_get_none w id old :
  net_ok w -> server_view w id = None ->
  exists w', client_get id old w = Ret (NOENT, [], w') /\
    remote_frame (fun _ => False) w w' /\
    file_block_ (srv w') = file_block_ (srv w).
Proof.
  intros Hn Ha%server_view_None. unfold client_get. eexists. split.
  { apply call_delivered; [done| |done]. unfold server_get. by rewrite Ha. }
  auto with yfs.
Qed.

Lemma client_getattr_some w id old a s :
  net_ok w -> file_block_ (srv w) !! id = Some (a, s) ->
  exists w', client_getattr id old w = Ret (OK, a, w') /\
    remote_frame (fun _ => False) w w' /\
    srv w' = srv w.
Proof.
  intros Hn Ha. unfold client_getattr. eexists. split.
  { apply call_delivered; [done| |done]. unfold server_getattr. by rewrite Ha. }
  split; [|done]. split_and!; [by apply net_ok_after|done|done].
Qed.
Lemma client_getattr_none w id old :
  net_ok w -> server_view w id = None ->
  exists w', client_getattr id old w = Ret (NOENT, junk_attr, w') /\
    remote_frame (fun _ => False) w w' /\
    srv w' = srv w.
Proof.
  intros Hn Ha%server_view_None. unfold client_getattr. eexists. split.
  { apply call_delivered; [done| |done]. unfold server_getattr. by rewrite Ha. }
  split; [|done]. split_and!; [by apply net_ok_after|done|done].
Qed.

Lemma client_put_ok w id buf :
  net_ok w ->
  exists w', client_put id buf w = Ret (OK, w') /\ remote_frame (eq id) w w' /\
    server_view w' id = Some buf /\ server_sized w' id.
Proof.
  intros Hn. unfold client_put. eexists. split.
  { erewrite call_delivered; [|done|done|done]. done. }
  split; [by apply remote_frame_insert|].
  unfold server_view, server_sized; simpl. rewrite lookup_insert_eq; simpl.
  split; [done|]. by intros c [= <-].
Qed.

Lemma client_remove_some w id s :
  net_ok w -> server_view w id = Some s ->
  exists w', client_remove id w = Ret (OK, w') /\ remote_frame (eq id) w w' /\
    server_view w' id = None.
Proof.
  intros Hn (a & Ha)%server_view_Some. unfold client_remove. eexists. split.
  { erewrite call_delivered; [|done| |]; [done| |].
    - unfold server_remove. by rewrite Ha.
    - done. }
  split; [by apply remote_frame_delete|].
  unfold server_view; simpl. by rewrite lookup_delete_eq.
Qed.

Lemma client_remove_none w id :
  net_ok w -> server_view w id = None ->
  exists w', client_remove id w = Ret (NOENT, w') /\
    remote_frame (fun _ => False) w w'.
Proof.
  intros Hn Ha%server_view_None. unfold client_remove. eexists. split.
  { erewrite call_delivered; [|done| |]; [done| |].
    - unfold server_remove. by rewrite Ha.
    - done. }
  split_and!; [by apply net_ok_after|done|done].
Qed.

Lemma client_getinode_live w old f :
  net_ok w -> server_live f w ->
  exists b ino w', client_getinode old f w = Ret (b, ino, w').
Proof.
  intros Hn [[ino ds] E]. eexists _, _, _. unfold client_getinode.
  apply call_delivered; [done| |done]. unfold GetInodeNum. by rewrite E.
Qed.
Lemma client_getinode_ok w old f b ino w' :
  net_ok w -> client_getinode old f w = Ret (b, ino, w') ->
  b = OK /\ is_u64 ino /\ (ino <> 1 -> Z.testbit ino 31 = negb (f =? 0)) /\
  server_view w ino = None /\ remote_frame (fun _ => False) w w'.
Proof.
  intros Hn (r' & s & Hm & Hr & ->)%call_delivered_inv; [|done].
  unfold GetInodeNum in Hm.
  destruct (inode_loop _ _ _) as [[i ds]|] eqn:E; [|done].
  injection Hm as <- <- <-. rewrite (Hr ltac:(done)).
  apply inode_loop_spec in E as (Hnone & Hu & Hbit).
  split; [done|]. split; [done|]. split; [done|]. split.
  - unfold server_view. by rewrite Hnone.
  - split_and!; [by apply net_ok_after|done|done].
Qed.
End client_lemmas.

(** Both clients keep the promise.  First the direct one. *)
Section direct_instance.
Context `{JunkAttr}.

#[global] Program Instance extent_client_spec : ExtentClientSpec extent_client := {|
  ec_view := server_view; ec_sized := server_sized; ec_live := server_live |}.
Next Obligation.
  intros w id old s Hn Hs.
  destruct (client_get_some w id old s Hn Hs) as (w' & E & (Hn' & Hc & Hf) & Hl).
  exists w'. split; [done|]. split; [split; [done|intros i _; apply Hf; tauto]|].
  destruct (Hf id ltac:(tauto)) as [-> ?]. done.
Qed.
Next Obligation.
  intros w id old Hn Hs.
  destruct (client_get_none w id old Hn Hs) as (w' & E & (Hn' & Hc & Hf) & _).
  exists [], w'. split; [done|]. split; [done|intros i _; apply Hf; tauto].
Qed.
Next Obligation.
  intros w id old s Hn (a & Ha)%server_view_Some.
  destruct (client_getattr_some w id old a s Hn Ha) as (w' & E & (Hn' & Hc & Hf) & _).
  exists a, w'. split; [done|]. split; [split; [done|intros i _; apply Hf; tauto]|].
  destruct (Hf id ltac:(tauto)) as [-> Hz]. unfold server_view. rewrite Ha.
  split; [done|]. intros Hsz. split; [auto|]. apply (Hsz _ Ha).
Qed.
Next Obligation.
  intros w id old Hn Ha.
  destruct (client_getattr_none w id old Hn Ha) as (w' & E & (Hn' & Hc & Hf) & _).
  exists junk_attr, w'. split; [done|]. split; [split; [done|intros i _; apply Hf; tauto]|].
  by destruct (Hf id ltac:(tauto)) as [-> Hz].
Qed.
Next Obligation.
  intros w id buf Hn.
  destruct (client_put_ok w id buf Hn) as (w' & E & (Hn' & Hc & Hf) & Hv & Hz).
  exists w'. split_and!; try done. intros i Hi. by apply Hf.
Qed.
Next Obligation.
  intros w id s Hn Hs.
  destruct (client_remove_some w id s Hn Hs) as (w' & E & (Hn' & Hc & Hf) & Hv).
  exists w'. split_and!; try done. intros i Hi. by apply Hf.
Qed.
Next Obligation.
  intros w old f b ino w' Hn E.
  destruct (client_getinode_ok w old f b ino w' Hn E) as (? & ? & ? & ? & Hn' & Hc & Hf).
  split; [done|]. split; [done|]. split; [done|].
  split; [split; [done|intros i _; apply Hf; tauto]|]. apply Hf; tauto.
Qed.
Next Obligation. intros w old f Hn Hl. by apply client_getinode_live. Qed.
End direct_instance.

(** ** The cache *)

(** The entry of [id] is what the client sees, if it is present. *)
Definition cached (w : world) (id : Z) : option FileContent :=
  d ← extent_file_cache_ w !! id;
  if is_present d then Some (file_content_ d) else None.

Definition cache_view (w : world) (id : Z) : option str :=
  match cached w id with
  | Some c => Some c.2
  | None => server_view w id
  end.
Definition cache_sized (w : world) (id : Z) : Prop :=
  match cached w id with Some c => content_sized c | None => True end /\
  server_sized w id.

Definition cache_frame (id : Z) (w w' : world) : Prop :=
  net_ok w' /\
  forall i, i <> id ->
    cache_view w' i = cache_view w i /\ (cache_sized w i -> cache_sized w' i).

Lemma cached_entry w id d i :
  cached (set_entry w id d) i =
    if decide (i = id) then (if is_present d then Some (file_content_ d) else None)
    else cached w i.
Proof.
  unfold cached, set_entry, set_cache; simpl.
  destruct (decide (i = id)) as [->|Hi].
  - by rewrite lookup_insert_eq.
  - by rewrite lookup_insert_ne.
Qed.

Lemma cache_frame_trans id w1 w2 w3 :
  cache_frame id w1 w2 -> cache_frame id w2 w3 -> cache_frame id w1 w3.
Proof.
  intros [_ F1] [Hn F2]. split; [done|]. intros i Hi.
  destruct (F1 i Hi), (F2 i Hi). split; [congruence|auto].
Qed.
Lemma cache_frame_remote (P : Z -> Prop) id w w' :
  (forall i, P i -> i = id) -> remote_frame P w w' -> cache_frame id w w'.
Proof.
  intros HP (Hn & Hc & Hf). split; [done|]. intros i Hi.
  destruct (Hf i) as [Hv Hz]; [by intros ?%HP|].
  unfold cache_view, cache_sized, cached. rewrite Hc, Hv. split; [done|].
  intros []. auto.
Qed.
Lemma cache_frame_entry w id d :
  net_ok w -> cache_frame id w (set_entry w id d).
Proof.
  intros Hn. split; [done|]. intros i Hi. unfold cache_view, cache_sized.
  rewrite cached_entry, decide_False by done. done.
Qed.
#[local] Hint Resolve cache_frame_entry : yfs.
Lemma cached_tick w i : cached (tick w) i = cached w i.
Proof. done. Qed.
Lemma cached_touch w id i :
  cached (set_cache w (std_touch FileData_new (extent_file_cache_ w) id)) i = cached w i.
Proof.
  change (set_cache _ _) with (set_entry w id (entry w id)).
  rewrite cached_entry. destruct (decide (i = id)) as [->|?]; [|done].
  unfold cached, entry, std_ref. by destruct (extent_file_cache_ w !! id).
Qed.
Lemma entry_touch w id :
  entry (set_cache w (std_touch FileData_new (extent_file_cache_ w) id)) id = entry w id.
Proof. unfold entry, std_touch; simpl. by rewrite std_ref_insert_eq. Qed.
Lemma cached_entry_present w id :
  cached w id = if is_present (entry w id) then Some (file_content_ (entry w id)) else None.
Proof. unfold cached, entry, std_ref. by destruct (extent_file_cache_ w !! id). Qed.
Lemma set_entry_touch w id d :
  set_entry (set_cache w (std_touch FileData_new (extent_file_cache_ w) id)) id d =
  set_entry w id d.
Proof. unfold set_entry, set_cache, std_touch; simpl. by rewrite insert_insert_eq. Qed.

Section cache_lemmas.
Context `{JunkAttr}.
Implicit Types w : world.

(** A hit is answered from the cache and touches nothing but the access time. *)
Lemma cache_get_hit w id old a s :
  net_ok w -> cached w id = Some (a, s) ->
  exists w', cache_get id old w = Ret (OK, s, w') /\ cache_frame id w w' /\
    cached w' id = Some (Attr (now_of (client_times w)) (mtime a) (ctime a) (size a), s) /\
    srv w' = srv w.
Proof.
  intros Hn Hc. unfold cache_get. rewrite entry_touch.
  rewrite cached_entry_present in Hc.
  destruct (is_present (entry w id)) eqn:Ep; [|done]. injection Hc as ->.
  rewrite set_entry_touch. eexists. split; [done|]. split; [|split; [|done]].
  - by apply (cache_frame_entry w).
  - by rewrite cached_tick, cached_entry, decide_True.
Qed.

(** A miss fetches the content and the attributes. *)
Lemma cache_get_miss w id old s a :
  net_ok w -> cached w id = None ->
  file_block_ (srv w) !! id = Some (a, s) ->
  exists w' a', cache_get id old w = Ret (OK, s, w') /\ cache_frame id w w' /\
    cached w' id = Some (a', s) /\ server_view w' id = Some s /\
    (server_sized w id -> content_sized (a', s) /\ server_sized w' id) /\
    forall f, server_live f w -> server_live f w'.
Proof.
  intros Hn Hc Hs. unfold cache_get. rewrite entry_touch.
  change (set_cache _ _) with (set_entry w id (entry w id)).
  set (w0 := set_entry w id (entry w id)).
  rewrite cached_entry_present in Hc.
  destruct (is_present (entry w id)) eqn:Ep; [done|].
  destruct (file_content_ (entry w id)) as [a0 s0].
  destruct (client_get_some w0 id old s Hn) as (w1 & E1 & F1 & Hl1).
  { unfold server_view; simpl. by rewrite Hs. }
  pose proof F1 as (Hn1 & _ & Hf1). destruct (Hf1 id ltac:(tauto)) as [Hv1 Hz1].
  unfold server_view in Hv1 at 2; simpl in Hv1. rewrite Hs in Hv1.
  destruct (server_view_Some _ _ _ Hv1) as (a1 & Ha1).
  destruct (client_getattr_some w1 id a0 a1 s Hn1 Ha1) as (w2 & E2 & F2 & Hb2).
  rewrite E1; simpl. rewrite E2; simpl. eexists _, a1. split; [done|].
  split; [|split; [|split; [|split]]].
  - eapply cache_frame_trans; [by apply (cache_frame_entry w id (entry w id))|].
    eapply cache_frame_trans; [by eapply cache_frame_remote, F1|].
    eapply cache_frame_trans; [by eapply cache_frame_remote, F2|].
    apply cache_frame_entry, F2.
  - by rewrite cached_entry, decide_True.
  - unfold server_view; simpl. by rewrite Hb2, Ha1.
  - intros Hz. split; [apply (Hz1 Hz _ Ha1)|].
    unfold server_sized in *; simpl. rewrite Hb2. auto.
  - intros f Hf. unfold server_live; simpl. rewrite Hb2. by apply Hl1.
Qed.

(** A miss on an extent nobody has leaves an empty entry behind. *)
Lemma cache_get_absent w id old :
  net_ok w -> cached w id = None -> server_view w id = None ->
  exists w', cache_get id old w = Ret (NOENT, [], w') /\ cache_frame id w w' /\
    cached w' id = Some (junk_attr, []) /\ server_view w' id = None.
Proof.
  intros Hn Hc Hs. unfold cache_get. rewrite entry_touch.
  change (set_cache _ _) with (set_entry w id (entry w id)).
  set (w0 := set_entry w id (entry w id)).
  rewrite cached_entry_present in Hc.
  destruct (is_present (entry w id)) eqn:Ep; [done|].
  destruct (file_content_ (entry w id)) as [a0 s0].
  destruct (client_get_none w0 id old Hn Hs) as (w1 & E1 & F1 & Hb1).
  pose proof F1 as (Hn1 & _ & Hf1). destruct (Hf1 id ltac:(tauto)) as [Hv1 _].
  assert (server_view w1 id = None) as Hs1 by (rewrite Hv1; exact Hs).
  destruct (client_getattr_none w1 id a0 Hn1 Hs1) as (w2 & E2 & F2 & Hb2).
  rewrite E1; simpl. rewrite E2; simpl. eexists. split; [done|].
  split; [|split].
  - eapply cache_frame_trans; [by apply (cache_frame_entry w id (entry w id))|].
    eapply cache_frame_trans; [by eapply cache_frame_remote, F1|].
    eapply cache_frame_trans; [by eapply cache_frame_remote, F2|].
    apply cache_frame_entry, F2.
  - by rewrite cached_entry, decide_True.
  - unfold server_view in *; simpl. by rewrite Hb2.
Qed.
End cache_lemmas.

Section cache_instance.
Context `{JunkAttr}.

Lemma cache_view_cached w id c : cached w id = Some c -> cache_view w id = Some c.2.
Proof. unfold cache_view. by intros ->. Qed.
Lemma cache_view_None w id :
  cache_view w id = None -> cached w id = None /\ server_view w id = None.
Proof. unfold cache_view. by destruct (cached w id). Qed.
Lemma cache_view_touch w id i :
  let w' := set_entry w id (entry w id) in
  cached w' i = cached w i /\ cache_view w' i = cache_view w i /\
  (cache_sized w i -> cache_sized w' i).
Proof.
  intros w'. assert (cached w' i = cached w i) as E by apply cached_touch.
  unfold cache_view, cache_sized. by rewrite E.
Qed.

(** A quiet remote call after a touch changes nothing the client sees. *)
Lemma cache_view_remote w w' id :
  net_ok w ->
  remote_frame (fun _ => False) (set_entry w id (entry w id)) w' ->
  cache_frame id w w' /\ cache_view w' id = cache_view w id /\
  (cache_sized w id -> cache_sized w' id).
Proof.
  intros Hw F. pose proof F as (Hn & Hc & Hf).
  destruct (Hf id ltac:(tauto)) as [Hv Hz].
  destruct (cache_view_touch w id id) as (Tc & Tv & Tz). cbv zeta in *.
  assert (cached w' id = cached w id) as Hc'.
  { rewrite <-Tc. unfold cached. by rewrite Hc. }
  split.
  - eapply cache_frame_trans; [|by eapply cache_frame_remote, F].
    split; [done|intros i Hi; apply cache_view_touch].
  - unfold cache_view, cache_sized. rewrite Hc', Hv. split; [done|].
    intros []. split; [done|auto].
Qed.

#[global] Program Instance extent_client_cache_spec :
  ExtentClientSpec extent_client_cache := {|
  ec_view := cache_view; ec_sized := cache_sized; ec_live := server_live |}.
Next Obligation.
  intros w id old s Hn Hv. cbn [ec_get extent_client_cache].
  destruct (cached w id) as [[a c]|] eqn:Ec.
  - destruct (cache_get_hit w id old a c Hn Ec) as (w' & E & F & Hc & Hs).
    rewrite (cache_view_cached _ _ _ Ec) in Hv. injection Hv as ->.
    exists w'. split; [done|]. split; [done|].
    split; [by rewrite (cache_view_cached _ _ _ Hc)|].
    unfold cache_sized, server_sized, server_live. rewrite Ec, Hc, Hs. done.
  - unfold cache_view in Hv. rewrite Ec in Hv.
    destruct (server_view_Some _ _ _ Hv) as (a & Ha).
    destruct (cache_get_miss w id old s a Hn Ec Ha) as (w' & a' & E & F & Hc & _ & Hz & Hl).
    exists w'. split; [done|]. split; [done|].
    split; [by rewrite (cache_view_cached _ _ _ Hc)|].
    unfold cache_sized. rewrite Hc. split; [intros [_ Hsz]; by apply Hz|done].
Qed.
Next Obligation.
  intros w id old Hn [Hc Hs]%cache_view_None.
  destruct (cache_get_absent w id old Hn Hc Hs) as (w' & E & F & _). by exists [], w'.
Qed.
Next Obligation.
  intros w id old s Hn Hv. cbn [ec_getattr extent_client_cache].
  unfold cache_getattr. rewrite entry_touch.
  change (set_cache _ _) with (set_entry w id (entry w id)).
  destruct (cached w id) as [[a c]|] eqn:Ec; pose proof Ec as Ep;
    rewrite cached_entry_present in Ep;
    destruct (is_present (entry w id)); try done.
  - rewrite (cache_view_cached _ _ _ Ec) in Hv. injection Hv as ->.
    injection Ep as ->. destruct (cache_view_touch w id id) as (Tc & Tv & Tz).
    eexists _, _. split; [done|]. split.
    { split; [done|intros i Hi; apply cache_view_touch]. }
    cbv zeta in *. rewrite Tv, (cache_view_cached _ _ _ Ec). split; [done|].
    intros Hz. split; [auto|]. destruct Hz as [Hz _]. by rewrite Ec in Hz.
  - pose proof Hv as Hv'. unfold cache_view in Hv. rewrite Ec in Hv.
    destruct (server_view_Some _ _ _ Hv) as (a & Ha).
    destruct (client_getattr_some (set_entry w id (entry w id)) id old a s Hn Ha)
      as (w' & E & F & _).
    destruct (cache_view_remote w w' id Hn F) as (Fc & Hv1 & Hz1).
    exists a, w'. split; [done|]. split; [done|]. split; [congruence|].
    intros Hz. split; [auto|]. destruct Hz as [_ Hz]. apply (Hz _ Ha).
Qed.
Next Obligation.
  intros w id old Hn Hv. cbn [ec_getattr extent_client_cache].
  apply cache_view_None in Hv as [Hc Hs]. pose proof Hc as Hp.
  rewrite cached_entry_present in Hp. unfold cache_getattr. rewrite entry_touch.
  change (set_cache _ _) with (set_entry w id (entry w id)).
  destruct (is_present (entry w id)); [done|].
  destruct (client_getattr_none (set_entry w id (entry w id)) id old Hn Hs)
    as (w' & E & F & _).
  destruct (cache_view_remote w w' id Hn F) as (Fc & Hv1 & Hz1).
  exists junk_attr, w'. split; [done|]. split; [done|].
  rewrite Hv1. unfold cache_view. by rewrite Hc.
Qed.
Next Obligation.
  intros w id buf Hn. cbn [ec_put extent_client_cache]. unfold cache_put.
  eexists. split; [done|]. split; [by apply (cache_frame_entry w)|].
  unfold cache_view, cache_sized.
  rewrite cached_tick, cached_entry, decide_True by done. split; [done|].
  by intros [_ ?].
Qed.
Next Obligation.
  intros w id s Hn Hv. cbn [ec_remove extent_client_cache]. unfold cache_remove.
  destruct (extent_file_cache_ w !! id) eqn:Ec.
  - eexists. split; [done|]. split; [done|]. intros i Hi.
    unfold cache_view, cache_sized, cached; simpl. by rewrite lookup_delete_ne.
  - unfold cache_view, cached in Hv. rewrite Ec in Hv.
    destruct (client_remove_some w id s Hn Hv) as (w' & E & F & _).
    exists w'. split; [done|]. by eapply cache_frame_remote, F.
Qed.
Next Obligation.
  intros w old f b ino w' Hn E.
  destruct (client_getinode_ok w old f b ino w' Hn E) as (? & ? & ? & ? & F).
  split; [done|]. split; [done|]. split; [done|].
  split; [by eapply cache_frame_remote, F|].
  pose proof F as (Hn' & Hc & Hf). destruct (Hf ino ltac:(tauto)) as [Hv Hz].
  unfold cache_view, cache_sized, cached. rewrite Hc, Hv. split; [done|].
  intros []. auto.
Qed.
Next Obligation. intros w old f Hn Hl. by apply client_getinode_live. Qed.
End cache_instance.

(** ** The cache as a write-back store

    The operations a client makes between acquiring and giving back locks,
    and the store they implement: [mine] is what this client reads,
    [published] what the server has and another client would read, [touched]
    the extents with an entry, [gone] those removed here and not yet flushed.
    [abs_step] is undefined where the caller breaks the rules: it reads an
    extent that does not exist or that it removed, or flushes one that it
    neither used nor removed. *)

Inductive op :=
  | Get (id : Z) | Getattr (id : Z) | Put (id : Z) (buf : str) | Remove (id : Z) | Flush (id : Z).

Record store := Store {
  mine : gmap Z str;
  published : gmap Z str;
  touched : gset Z;
  gone : gset Z;
}.

Definition abs_step (o : op) (a : store) : option ((Z * str) * store) :=
  let '(Store m p t g) := a in
  match o with
  | Get id =>
      if bool_decide (id ∈ g) then None
      else s ← m !! id; Some ((OK, s), Store m p ({[id]} ∪ t) g)
  | Getattr id =>
      if bool_decide (id ∈ g) then None
      else _ ← m !! id; Some ((OK, []), Store m p ({[id]} ∪ t) g)
  | Put id buf =>
      if bool_decide (id ∈ g) then None
      else Some ((OK, []), Store (<[id := buf]> m) p ({[id]} ∪ t) g)
  | Remove id =>
      if bool_decide (id ∈ t) then
        Some ((OK, []), Store (delete id m) p (t ∖ {[id]}) ({[id]} ∪ g))
      else if bool_decide (id ∈ g) then None
      else _ ← p !! id; Some ((OK, []), Store (delete id m) (delete id p) t g)
  | Flush id =>
      if bool_decide (id ∈ t) then
        s ← m !! id; Some ((OK, []), Store m (<[id := s]> p) t g)
      else if bool_decide (id ∈ g) then
        Some ((if p !! id then OK else NOENT, []),
              Store m (delete id p) t (g ∖ {[id]}))
      else None
  end.

Fixpoint abs_run (os : list op) (a : store) : option (list (Z * str) * store) :=
  match os with
  | [] => Some ([], a)
  | o :: os =>
      '(r, a) ← abs_step o a; '(rs, a) ← abs_run os a; Some (r :: rs, a)
  end.

Section write_back.
Context `{JunkAttr}.

Definition run_op (o : op) (w : world) : outcome ((Z * str) * world) :=
  match o with
  | Get id => '(ret, buf, w) ← cache_get id [] w; Ret ((ret, buf), w)
  | Getattr id => '(ret, _, w) ← cache_getattr id zero_content.1 w; Ret ((ret, []), w)
  | Put id buf => '(ret, w) ← cache_put id buf w; Ret ((ret, []), w)
  | Remove id => '(ret, w) ← cache_remove id w; Ret ((ret, []), w)
  | Flush id => '(ret, w) ← flush id w; Ret ((ret, []), w)
  end.
Fixpoint run_ops (os : list op) (w : world) : outcome (list (Z * str) * world) :=
  match os with
  | [] => Ret ([], w)
  | o :: os => '(r, w) ← run_op o w; '(rs, w) ← run_ops os w; Ret (r :: rs, w)
  end.

(** What the cache and the server hold for one extent, against the store. *)
Definition sim_at (a : store) (w : world) (id : Z) : Prop :=
  server_view w id = published a !! id /\
  match extent_file_cache_ w !! id with
  | None =>
      id ∉ touched a /\
      (if bool_decide (id ∈ gone a) then mine a !! id = None
       else mine a !! id = published a !! id)
  | Some d =>
      id ∈ touched a /\ id ∉ gone a /\
      mine a !! id = (if is_present d then Some (file_content_ d).2
                      else published a !! id) /\
      (if is_dirty d then is_present d = true
       else mine a !! id = published a !! id)
  end.
Definition sim (a : store) (w : world) : Prop :=
  net_ok w /\ forall id, sim_at a w id.

(** Every operation replaces at most one entry and one extent. *)
Lemma sim_update a w a' w' id :
  sim a w -> net_ok w' ->
  (forall i, i <> id -> extent_file_cache_ w' !! i = extent_file_cache_ w !! i) ->
  (forall i, i <> id -> server_view w' i = server_view w i) ->
  (forall i, i <> id ->
    mine a' !! i = mine a !! i /\ published a' !! i = published a !! i /\
    (i ∈ touched a' <-> i ∈ touched a) /\ (i ∈ gone a' <-> i ∈ gone a)) ->
  sim_at a' w' id ->
  sim a' w'.
Proof.
  intros [_ Hs] Hn Hc Hv Ha Hid. split; [done|]. intros i.
  destruct (decide (i = id)) as [->|Hi]; [done|].
  specialize (Hs i). unfold sim_at in *.
  rewrite (Hc i Hi), (Hv i Hi). destruct (Ha i Hi) as (-> & -> & Ht & Hg).
  rewrite (bool_decide_ext _ _ Hg). destruct (extent_file_cache_ w !! i); by rewrite Ht, ?Hg.
Qed.

Lemma cache_get_effect w id s :
  net_ok w -> cache_view w id = Some s ->
  exists w' a, cache_get id [] w = Ret (OK, s, w') /\ net_ok w' /\
    extent_file_cache_ w' =
      <[id := MkFileData (a, s) true (is_dirty (entry w id))]> (extent_file_cache_ w) /\
    forall i, server_view w' i = server_view w i.
Proof.
  intros Hn Hv. unfold cache_get. rewrite entry_touch.
  unfold cache_view in Hv. rewrite cached_entry_present in Hv.
  destruct (is_present (entry w id)) eqn:Ep; destruct (file_content_ (entry w id)) as [a0 s0].
  { injection Hv as ->. rewrite set_entry_touch. by eexists _, _. }
  change (set_cache _ _) with (set_entry w id (entry w id)).
  set (w0 := set_entry w id (entry w id)).
  destruct (client_get_some w0 id [] s Hn Hv) as (w1 & E1 & (Hn1 & Hc1 & Hf1) & _).
  destruct (Hf1 id ltac:(tauto)) as [Hv1 _].
  change (server_view w0 id) with (server_view w id) in Hv1. rewrite Hv in Hv1.
  destruct (server_view_Some _ _ _ Hv1) as (a1 & Ha1).
  destruct (client_getattr_some w1 id a0 a1 s Hn1 Ha1) as (w2 & E2 & (Hn2 & Hc2 & Hf2) & _).
  rewrite E1; simpl. rewrite E2; simpl. eexists _, a1. split; [done|].
  split; [done|]. split.
  - simpl. rewrite Hc2, Hc1. unfold w0; simpl. by rewrite insert_insert_eq.
  - intros i. change (server_view w2 i = server_view w i).
    destruct (Hf2 i ltac:(tauto)) as [-> _]. by destruct (Hf1 i ltac:(tauto)).
Qed.

Lemma sim_view a w id :
  sim_at a w id -> id ∉ gone a -> cache_view w id = mine a !! id.
Proof.
  unfold sim_at, cache_view, cached. intros [Hv Hs] Hg.
  destruct (extent_file_cache_ w !! id) as [d|]; simpl.
  - destruct Hs as (_ & _ & -> & _). by destruct (is_present d).
  - rewrite bool_decide_false in Hs by done. destruct Hs as [_ ->]. done.
Qed.
Lemma sim_touched a w id :
  sim_at a w id -> id ∈ touched a <-> is_Some (extent_file_cache_ w !! id).
Proof.
  unfold sim_at. intros [_ Hs].
  destruct (extent_file_cache_ w !! id); [destruct Hs; split; eauto|].
  split; [tauto|by intros []].
Qed.

Ltac other_ids := intros i Hi; simpl; rewrite ?lookup_insert_ne, ?lookup_delete_ne by done;
  try done; set_solver.

Lemma sim_get id a w r a' :
  sim a w -> abs_step (Get id) a = Some (r, a') ->
  exists w', run_op (Get id) w = Ret (r, w') /\ sim a' w'.
Proof.
  intros Hsim. pose proof Hsim as [Hn Hs]. specialize (Hs id).
  destruct a as [m p t g]; cbn [abs_step]. case_bool_decide as Hg; [done|].
  intros (s & Hm & [= <- <-])%bind_Some.
  pose proof (sim_view _ _ _ Hs Hg) as Hv; simpl in Hv. rewrite Hm in Hv.
  destruct (cache_get_effect w id s Hn Hv) as (w' & a & E & Hn' & Hc & Hsv).
  exists w'. cbn [run_op]. rewrite E. split; [done|].
  apply (sim_update (Store m p t g) w _ _ id); try done; try other_ids.
  { intros i Hi. rewrite Hc. by apply lookup_insert_ne. }
  unfold sim_at in *; simpl in *. rewrite Hsv, Hc, lookup_insert_eq; simpl.
  destruct Hs as [Hp Hs]. split; [done|].
  split; [set_solver|]. split; [done|]. split; [done|].
  unfold entry, std_ref. destruct (extent_file_cache_ w !! id) as [d|]; simpl.
  - destruct Hs as (_ & _ & _ & Hd). by destruct (is_dirty d).
  - destruct Hs as [_ Hs]. by rewrite bool_decide_false in Hs.
Qed.

Lemma sim_getattr id a w r a' :
  sim a w -> abs_step (Getattr id) a = Some (r, a') ->
  exists w', run_op (Getattr id) w = Ret (r, w') /\ sim a' w'.
Proof.
  intros Hsim. pose proof Hsim as [Hn Hs]. specialize (Hs id).
  destruct a as [m p t g]; cbn [abs_step]. case_bool_decide as Hg; [done|].
  intros (s & Hm & [= <- <-])%bind_Some.
  pose proof (sim_view _ _ _ Hs Hg) as Hv; simpl in Hv. rewrite Hm in Hv.
  cbn [run_op]. unfold cache_getattr. rewrite entry_touch.
  change (set_cache _ _) with (set_entry w id (entry w id)).
  assert (exists a w', (if is_present (entry w id)
      then Ret (OK, (file_content_ (entry w id)).1, set_entry w id (entry w id))
      else client_getattr id zero_content.1 (set_entry w id (entry w id)))
    = Ret (OK, a, w') /\ net_ok w' /\
    extent_file_cache_ w' = <[id := entry w id]> (extent_file_cache_ w) /\
    forall i, server_view w' i = server_view w i) as (at_ & w' & -> & Hn' & Hc & Hsv).
  { unfold cache_view in Hv. rewrite cached_entry_present in Hv.
    destruct (is_present (entry w id)); [by eexists _, _|].
    destruct (server_view_Some _ _ _ Hv) as (a & Ha).
    destruct (client_getattr_some (set_entry w id (entry w id)) id zero_content.1 a s Hn Ha)
      as (w' & -> & (Hn' & Hc & Hf) & _).
    exists a, w'. split_and!; try done. intros i. apply Hf; tauto. }
  exists w'. split; [done|].
  apply (sim_update (Store m p t g) w _ _ id); try done; try other_ids.
  { intros i Hi. rewrite Hc. by apply lookup_insert_ne. }
  unfold sim_at in *; simpl in *. rewrite Hsv, Hc, lookup_insert_eq; simpl.
  destruct Hs as [Hp Hs]. split; [done|].
  unfold entry, std_ref. destruct (extent_file_cache_ w !! id) as [d|]; simpl.
  - destruct Hs as (_ & ? & ? & ?). split; [set_solver|]. done.
  - destruct Hs as [_ Hs]. rewrite bool_decide_false in Hs by done.
    split; [set_solver|]. done.
Qed.

Lemma sim_put id buf a w r a' :
  sim a w -> abs_step (Put id buf) a = Some (r, a') ->
  exists w', run_op (Put id buf) w = Ret (r, w') /\ sim a' w'.
Proof.
  intros Hsim. pose proof Hsim as [Hn Hs]. specialize (Hs id).
  destruct a as [m p t g]; cbn [abs_step]. case_bool_decide as Hg; [done|].
  intros [= <- <-]. eexists. split; [done|].
  apply (sim_update (Store m p t g) w _ _ id); try done; try other_ids.
  unfold sim_at in *; simpl in *. rewrite !lookup_insert_eq; simpl.
  split; [apply Hs|]. split; [set_solver|]. done.
Qed.

Lemma sim_remove id a w r a' :
  sim a w -> abs_step (Remove id) a = Some (r, a') ->
  exists w', run_op (Remove id) w = Ret (r, w') /\ sim a' w'.
Proof.
  intros Hsim. pose proof Hsim as [Hn Hs]. specialize (Hs id).
  pose proof (sim_touched _ _ _ Hs) as Ht.
  destruct a as [m p t g]; cbn [abs_step run_op] in *. unfold cache_remove.
  simpl in Ht. case_bool_decide as Hin.
  - intros [= <- <-]. apply Ht in Hin as [d Hd]. rewrite Hd.
    eexists. split; [done|].
    apply (sim_update (Store m p t g) w _ _ id); try done; try other_ids.
    unfold sim_at in *; simpl in *. rewrite lookup_delete_eq.
    split; [apply Hs|]. split; [set_solver|].
    rewrite bool_decide_true by set_solver. apply lookup_delete_eq.
  - case_bool_decide as Hg; [done|]. intros (s & Hp & [= <- <-])%bind_Some.
    destruct (extent_file_cache_ w !! id) eqn:Hc.
    { exfalso. apply Hin, Ht. eauto. }
    assert (server_view w id = Some s) as Hv.
    { destruct Hs as [-> _]. done. }
    destruct (client_remove_some w id s Hn Hv) as (w' & -> & (Hn' & Hcc & Hf) & Hv').
    exists w'. split; [done|].
    apply (sim_update (Store m p t g) w _ _ id);
      [done|done|intros i Hi; by rewrite Hcc|intros i Hi; apply Hf; congruence
      |other_ids|].
    unfold sim_at; simpl. rewrite Hv', Hcc, Hc, !lookup_delete_eq.
    rewrite bool_decide_false by done. done.
Qed.

Lemma sim_flush id a w r a' :
  sim a w -> abs_step (Flush id) a = Some (r, a') ->
  exists w', run_op (Flush id) w = Ret (r, w') /\ sim a' w'.
Proof.
  intros Hsim. pose proof Hsim as [Hn Hs]. specialize (Hs id).
  pose proof (sim_touched _ _ _ Hs) as Ht.
  destruct a as [m p t g]; cbn [abs_step run_op] in *. unfold flush.
  simpl in Ht. case_bool_decide as Hin.
  - intros (s & Hm & [= <- <-])%bind_Some. apply Ht in Hin as [d Hd]. rewrite Hd.
    unfold sim_at in Hs. rewrite Hd in Hs. simpl in Hs.
    destruct Hs as (Hp & Hin & Hg & Hmine & Hdirty).
    assert (exists w', (if is_dirty d then client_put id (file_content_ d).2 w
        else Ret (OK, w)) = Ret (OK, w') /\ remote_frame (eq id) w w' /\
        server_view w' id = Some s) as (w' & -> & (Hn' & Hc & Hf) & Hv').
    { destruct (is_dirty d).
      - rewrite Hdirty, Hm in Hmine. injection Hmine as ->.
        destruct (client_put_ok w id (file_content_ d).2 Hn) as (w' & ? & ? & ? & ?). eauto.
      - exists w. split; [done|]. split; [by apply remote_frame_refl|].
        by rewrite Hp, <-Hdirty. }
    eexists. split; [done|].
    apply (sim_update (Store m p t g) w _ _ id);
      [done|done|intros i Hi; simpl; rewrite Hc; by apply lookup_insert_ne
      |intros i Hi; apply Hf; congruence|other_ids|].
    unfold sim_at; simpl. rewrite !lookup_insert_eq; simpl. done.
  - case_bool_decide as Hg; [|done]. intros [= <- <-].
    destruct (extent_file_cache_ w !! id) eqn:Hc.
    { exfalso. apply Hin, Ht. eauto. }
    assert (exists w', client_remove id w = Ret (if p !! id then OK else NOENT, w') /\
      remote_frame (eq id) w w' /\ server_view w' id = None)
      as (w' & -> & (Hn' & Hcc & Hf) & Hv').
    { destruct Hs as [Hp _]; simpl in Hp. rewrite <-Hp.
      destruct (server_view w id) eqn:Hv.
      - destruct (client_remove_some w id _ Hn Hv) as (w' & ? & ? & ?). eauto.
      - destruct (client_remove_none w id Hn Hv) as (w' & ? & (Hn' & Hcc & Hf)).
        exists w'. split; [done|].
        destruct (Hf id ltac:(tauto)) as [-> _]. split; [|done].
        split; [done|]. split; [done|]. intros i _. apply Hf. tauto. }
    exists w'. split; [done|].
    apply (sim_update (Store m p t g) w _ _ id);
      [done|done|intros i Hi; by rewrite Hcc|intros i Hi; apply Hf; congruence
      |other_ids|].
    unfold sim_at in *; simpl in *. rewrite Hc in Hs.
    rewrite Hv', Hcc, Hc, lookup_delete_eq, bool_decide_true in * by done.
    rewrite bool_decide_false by set_solver. split; [done|]. split; [done|apply Hs].
Qed.

Lemma sim_step o a w r a' :
  sim a w -> abs_step o a = Some (r, a') ->
  exists w', run_op o w = Ret (r, w') /\ sim a' w'.
Proof.
  destruct o; [apply sim_get|apply sim_getattr|apply sim_put|apply sim_remove|apply sim_flush].
Qed.
Lemma sim_run os a w rs a' :
  sim a w -> abs_run os a = Some (rs, a') ->
  exists w', run_ops os w = Ret (rs, w') /\ sim a' w'.
Proof.
  revert a w rs. induction os as [|o os IH]; intros a w rs Hs; simpl.
  { intros [= <- <-]. eauto. }
  intros ([r a1] & Hstep & ([rs1 a2] & Hrun & [= <- <-])%bind_Some)%bind_Some.
  destruct (sim_step o a w r a1 Hs Hstep) as (w1 & -> & Hs1); simpl.
  destruct (IH a1 w1 rs1 Hs1 Hrun) as (w2 & -> & Hs2); simpl. eauto.
Qed.
End write_back.

(** A client that starts with an empty cache agrees with the server. *)
Lemma sim_fresh `{JunkAttr} ts s :
  sim (Store (snd <$> file_block_ s) (snd <$> file_block_ s) ∅ ∅) (World ∅ ts [] s).
Proof.
  split; [constructor|]. intros id. unfold sim_at, server_view; simpl.
  rewrite lookup_empty, lookup_fmap, bool_decide_false by set_solver.
  split; [done|]. split; [set_solver|done].
Qed.

(** ** Properties *)

Section properties.
Context `{JunkAttr}.

(** C13. The caching client is a write-back store: on every sequence of [get],
    [getattr], [put], [remove] and [flush] for which the abstract store is defined
    (an extent that is read exists, one that is removed exists or is in use here,
    only [flush] follows the [remove] of an extent, and only extents that were
    used or removed are flushed), while calls are delivered, it returns what the
    abstract store returns, and afterwards a client with an empty cache reads
    exactly the published contents: what was flushed, and nothing that was removed
    and flushed. *)
Theorem cache_refines_store os a w rs a' :
  sim a w -> abs_run os a = Some (rs, a') ->
  exists w', run_ops os w = Ret (rs, w') /\ sim a' w' /\
    forall id ts, exists w'',
      cache_get id [] (World ∅ ts [] (srv w')) =
        match published a' !! id with
        | Some s => Ret (OK, s, w'')
        | None => Ret (NOENT, [], w'')
        end.
Proof.
  intros Hs Hr. destruct (sim_run os a w rs a' Hs Hr) as (w' & E & Hs').
  exists w'. split; [done|]. split; [done|]. intros id ts.
  destruct Hs' as [_ Hid]. destruct (Hid id) as [<- _].
  set (w1 := World ∅ ts [] (srv w')).
  change (server_view w' id) with (cache_view w1 id).
  assert (net_ok w1) as Hn by constructor.
  destruct (cache_view w1 id) as [s|] eqn:Ev.
  - destruct (cache_get_effect w1 id s Hn Ev) as (w'' & _ & E' & _). by exists w''.
  - apply cache_view_None in Ev as [Hc Hv].
    destruct (cache_get_absent w1 id [] Hn Hc Hv) as (w'' & E' & _). by exists w''.
Qed.

(** Reading an extent that does not exist makes it exist for this client:
    the first [get] reports [NOENT], the same [get] repeated reports [OK] with
    an empty content, although the server still has no such extent. *)
Theorem missing_get_cached w id old old' :
  net_ok w -> cache_view w id = None ->
  exists w1 w2, cache_get id old w = Ret (NOENT, [], w1) /\
    cache_get id old' w1 = Ret (OK, [], w2) /\ server_view w2 id = None.
Proof.
  intros Hn [Hc Hs]%cache_view_None.
  destruct (cache_get_absent w id old Hn Hc Hs) as (w1 & E1 & [Hn1 _] & Hc1 & Hs1).
  destruct (cache_get_hit w1 id old' _ _ Hn1 Hc1) as (w2 & E2 & _ & _ & Hsrv).
  exists w1, w2. split; [done|]. split; [done|]. unfold server_view. by rewrite Hsrv.
Qed.

(** [GetInodeNum] terminates as soon as [rand()] returns a number that is
    not in use, and the number it returns is not in use and, for a file,
    carries the file bit; it reserves nothing: the extents are unchanged. *)
Theorem GetInodeNum_fresh is_file rino s ds1 d ds2 :
  draws s = ds1 ++ d :: ds2 -> u64 d mod 0x80000000 <> 1 ->
  is_Some (file_block_ s !! 1) ->
  file_block_ s !! (if is_file =? 0 then u64 d mod 0x80000000
                    else Z.lor (u64 d mod 0x80000000) FILE_BIT) = None ->
  exists ino s', GetInodeNum is_file rino s = Ret (OK, ino, s') /\
    file_block_ s !! ino = None /\ file_block_ s' = file_block_ s /\ is_u64 ino /\
    (is_file <> 0 -> Z.testbit ino 31 = true).
Proof.
  intros Hd H1 Hroot Hfree. unfold GetInodeNum.
  destruct (inode_loop_ends is_file (file_block_ s) ds1 d ds2 H1 Hfree) as [[ino ds] E].
  rewrite Hd, E. eexists _, _. split; [done|].
  destruct (inode_loop_spec _ _ _ _ _ E) as (Hn & Hu & Hb).
  split; [done|]. split; [done|]. split; [done|]. intros Hf. rewrite Hb; [by destruct (Z.eqb_spec is_file 0)|].
  intros ->. rewrite Hn in Hroot. by destruct Hroot.
Qed.
End properties.

(** The wrappers that [extent_smain.cc] registers. *)
Definition put_handler `{FreshMem} : handler extent_server :=
  rpcs_fn2 c_u64 c_string c_i32 server_put.
Definition get_handler `{FreshMem} : handler extent_server :=
  rpcs_fn1 c_u64 c_string server_get.

(** An extent survives the wire: the bytes of a [put] marshalled by the
    client's stub, executed by the server and fetched by a [get] of any client
    are the bytes that were put, as long as the length fits the marshalling
    buffer's [int]. *)
Theorem wire_put_get `{FreshMem} h h' id buf s :
  valid_req_header h -> valid_req_header h' -> is_u64 id ->
  RPC_HEADER_SZ + 12 + Z.of_nat (length buf) < 2 ^ 31 ->
  exists s' s'',
    rpc_call c_i32 put_handler h (call_req2 c_u64 c_string id buf) 0 s = Ret (OK, 0, s') /\
    rpc_call c_string get_handler h' (call_req1 c_u64 id) [] s' = Ret (OK, buf, s'').
Proof.
  intros Hh Hh' Hid Hlen.
  assert (length (enc c_u64 id) = 8%nat) as H8 by done.
  assert (length (enc c_string buf) = 4 + length buf)%nat as H4 by done.
  unshelve eexists (ExtentServer (<[id := _]> (file_block_ s)) (tl (times s)) (draws s)).
  { exact (Attr (if bool_decide (file_block_ s !! id = None) then now_of (times s)
                 else atime (std_ref zero_content (file_block_ s) id).1)
             (now_of (times s)) (now_of (times s)) (u32 (Z.of_nat (length buf))), buf). }
  eexists. split.
  - apply (rpc_call_ok c_i32 _ _ _ (enc c_u64 id ++ enc c_string buf));
      [by apply call_req2_carries| |done|done|done|rewrite length_app; lia|].
    + apply rpcs_fn2_answers; [done|done|]. unfold server_put.
      by destruct (bool_decide _).
    + vm_compute. done.
  - apply (rpc_call_ok c_string _ _ _ (enc c_u64 id));
      [by apply call_req1_carries| |done|done|done|rewrite H8; lia|lia].
    apply rpcs_fn1_answers; [done|]. unfold server_get; simpl.
    by rewrite lookup_insert_eq.
Qed.

(** ** The properties at concrete inputs *)

Definition disk0 : extent_server :=
  ExtentServer {[ 1 := (Attr 7 7 7 0, []) ]} [100] [1; 5].
#[local] Instance junk0 : JunkAttr := Attr 1 2 3 4.

Definition ops0 : list op :=
  [Get 1; Put 2 (lit "ab"); Get 2; Flush 2; Put 2 (lit "cd"); Remove 1; Flush 1].
Definition store0 : store := Store (snd <$> file_block_ disk0) (snd <$> file_block_ disk0) ∅ ∅.
Lemma ops0_run :
  exists a', abs_run ops0 store0 =
      Some ([(0, []); (0, []); (0, lit "ab"); (0, []); (0, []); (0, []); (0, [])], a') /\
    published a' !! 2 = Some (lit "ab") /\ published a' !! 1 = None.
Proof. eexists. split; [vm_compute; reflexivity|]. by split. Qed.

Lemma cache_refines_store_witness :
  exists w' w'', run_ops ops0 (World ∅ [] [] disk0) =
      Ret ([(0, []); (0, []); (0, lit "ab"); (0, []); (0, []); (0, []); (0, [])], w') /\
    cache_get 2 [] (World ∅ [] [] (srv w')) = Ret (OK, lit "ab", w'').
Proof.
  destruct ops0_run as (a' & Hr & Hp & _).
  destruct (cache_refines_store ops0 store0 (World ∅ [] [] disk0) _ a'
              (sim_fresh _ _) Hr) as (w' & E & _ & Hc).
  destruct (Hc 2 []) as (w'' & E'). rewrite Hp in E'. exists w', w''. by split.
Defined.

Lemma missing_get_cached_witness :
  exists w1 w2, cache_get 9 [] (World ∅ [] [] disk0) = Ret (NOENT, [], w1) /\
    cache_get 9 [] w1 = Ret (OK, [], w2) /\ server_view w2 9 = None.
Proof.
  apply (missing_get_cached (World ∅ [] [] disk0) 9 [] []); [constructor|reflexivity].
Defined.

Lemma GetInodeNum_fresh_witness :
  exists ino s', GetInodeNum 1 0 disk0 = Ret (OK, ino, s') /\
    file_block_ disk0 !! ino = None /\ file_block_ s' = file_block_ disk0 /\ is_u64 ino /\
    (1 <> 0 -> Z.testbit ino 31 = true).
Proof.
  apply (GetInodeNum_fresh 1 0 disk0 [1] 5 []);
    [reflexivity|done|by exists (Attr 7 7 7 0, [])|reflexivity].
Defined.

#[local] Existing Instance fresh_zero.
Lemma wire_put_get_witness :
  exists s' s'',
    rpc_call c_i32 put_handler (ReqHeader 1 0x6001 5 6 0)
      (call_req2 c_u64 c_string 2 (lit "data")) 0 disk0 = Ret (OK, 0, s') /\
    rpc_call c_string get_handler (ReqHeader 2 0x6002 5 6 1)
      (call_req1 c_u64 2) [] s' = Ret (OK, lit "data", s'').
Proof.
  apply (wire_put_get (ReqHeader 1 0x6001 5 6 0) (ReqHeader 2 0x6002 5 6 1) 2 (lit "data") disk0);
    try done; repeat split; vm_compute; congruence.
Defined.
