(* ===== verification/InodeMap.v ===== *)
(** * The inode bit maps of [yfs_client.cc]

    [FindZeroBitPos], [FindIdelInodeNum], [SetInodeBitMap],
    [UnSetInodeBitMap], [GetAvailInumNotUse] and [RestoreInumNotUse]: an
    allocator of inode numbers in two arrays of 16384 words of 64 bits, one for
    files and one for directories.  Number [n] is bit [(n - 1) mod 64] of word
    [(n - 1) / 64]. *)
From S2P Require Import Prelude.

Definition MAX_INODE_NUM : nat := Z.to_nat 16384.
Definition FULL : Z := 0xffffffffffffffff.

(** One halving step: if the low [w] bits are all ones, skip them. *)
Definition skip (w : Z) (st : Z * Z) : Z * Z :=
  let '(bm, pos) := st in
  if Z.land bm (Z.ones w) =? Z.ones w then (Z.shiftr bm w, pos + w) else (bm, pos).

Definition FindZeroBitPos (bit_map : Z) : Z :=
  let st := (bit_map, 0) in
  let st := skip 32 st in
  let st := skip 16 st in
  let st := skip 8 st in
  let st := skip 4 st in
  let st := skip 2 st in
  let st := skip 1 st in
  st.2.

(** The loop of [FindIdelInodeNum] from index [i] on. *)
Fixpoint find_idle (i : Z) (words : list Z) : Z :=
  match words with
  | [] => 0
  | w :: words =>
      if negb (w =? FULL) then
        let ret_num := FindZeroBitPos w in
        if ret_num =? -1 then 0 else u32 (i * 64 + ret_num + 1)
      else find_idle (i + 1) words
  end.
Definition FindIdelInodeNum (bit_map : list Z) : Z :=
  find_idle 0 (take MAX_INODE_NUM bit_map).

(** The [int] section and bit of the number; the array access is undefined
    outside the array. *)
Definition SetInodeBitMap (inum : Z) (bit_map : list Z) : outcome (Z * list Z) :=
  if inum =? 0 then Ret (-1, bit_map)
  else
    let inum := u64 (inum - 1) in
    let section := i32 (inum / 64) in
    let bit_pos := i32 (inum mod 64) in
    if section <? 0 then UB
    else match bit_map !! Z.to_nat section with
    | None => UB
    | Some w =>
        if negb (Z.land w (u64 (Z.shiftl 1 bit_pos)) =? 0) then Ret (-2, bit_map)
        else Ret (0, <[Z.to_nat section := Z.lor w (u64 (Z.shiftl 1 bit_pos))]> bit_map)
    end.

Definition UnSetInodeBitMap (inum : Z) (bit_map : list Z) : outcome (Z * list Z) :=
  if inum =? 0 then Ret (-1, bit_map)
  else
    let inum := u64 (inum - 1) in
    let section := i32 (inum / 64) in
    let bit_pos := i32 (inum mod 64) in
    if section <? 0 then UB
    else match bit_map !! Z.to_nat section with
    | None => UB
    | Some w =>
        if negb (Z.land w (u64 (Z.shiftl 1 bit_pos)) =? 0) then
          Ret (0, <[Z.to_nat section :=
                      Z.land w (u64 (Z.lnot (u64 (Z.shiftl 1 bit_pos))))]> bit_map)
        else Ret (-2, bit_map)
    end.

(** The two static arrays. *)
Record inode_maps := InodeMaps {
  inode_bit_block_map_ : list Z;
  inode_bit_dir_map_ : list Z;
}.
Definition bit_map_of (is_file_type : bool) (ms : inode_maps) : list Z :=
  if is_file_type then inode_bit_block_map_ ms else inode_bit_dir_map_ ms.
Definition set_bit_map (is_file_type : bool) (m : list Z) (ms : inode_maps) : inode_maps :=
  if is_file_type then InodeMaps m (inode_bit_dir_map_ ms)
  else InodeMaps (inode_bit_block_map_ ms) m.

Definition GetAvailInumNotUse (is_file_type : bool) (ms : inode_maps)
    : outcome (Z * inode_maps) :=
  let bit_map := bit_map_of is_file_type ms in
  let inum := FindIdelInodeNum bit_map in
  if 0 <? inum then
    '(ret, bit_map) ← SetInodeBitMap inum bit_map;
    let ms := set_bit_map is_file_type bit_map ms in
    if ret =? 0 then
      Ret (if is_file_type then Z.lor inum 0x80000000 else inum, ms)
    else Ret (0, ms)
  else Ret (0, ms).

Definition RestoreInumNotUse (is_file_type : bool) (inum : Z) (ms : inode_maps)
    : outcome (Z * inode_maps) :=
  if (inum =? 0) || (inum =? 0x80000000) then Ret (-3, ms)
  else
    let bit_map := bit_map_of is_file_type ms in
    let inum := if is_file_type then Z.land inum (u64 (Z.lnot 0x80000000)) else inum in
    '(ret, bit_map) ← UnSetInodeBitMap inum bit_map;
    Ret (ret, set_bit_map is_file_type bit_map ms).

(** The static arrays are zero and the constructor marks the root in both. *)
Definition inode_maps_new : inode_maps :=
  let m := 1 :: replicate (MAX_INODE_NUM - 1) 0 in InodeMaps m m.

(** ** The first zero bit *)

(** The loop invariant of the halving: the word is [bit_map] shifted by [pos],
    the bits below [pos] are ones, and a zero is among the next [2 * w]. *)
Definition halving (bit_map w : Z) (st : Z * Z) : Prop :=
  let '(bm, pos) := st in
  0 <= pos /\ bm = Z.shiftr bit_map pos /\
  (forall i, 0 <= i < pos -> Z.testbit bit_map i = true) /\
  exists i, 0 <= i < w /\ Z.testbit bm i = false.

Lemma land_ones_full bm w :
  0 <= w ->
  Z.land bm (Z.ones w) = Z.ones w <-> forall i, 0 <= i < w -> Z.testbit bm i = true.
Proof.
  intros Hw. split.
  - intros E i Hi. assert (Z.testbit (Z.land bm (Z.ones w)) i = true) as H.
    { rewrite E. apply Z.ones_spec_low. lia. }
    rewrite Z.land_spec in H. by apply andb_true_iff in H as [H _].
  - intros Hall. apply Z.bits_inj'. intros i Hi. rewrite Z.land_spec.
    destruct (decide (i < w)).
    + rewrite Z.ones_spec_low by lia. by rewrite Hall.
    + rewrite Z.ones_spec_high by lia. apply andb_false_r.
Qed.

Lemma all_ones_full bm :
  is_u64 bm -> (forall i, 0 <= i < 64 -> Z.testbit bm i = true) -> bm = FULL.
Proof.
  intros Hb Hall. change FULL with (Z.ones 64).
  rewrite <-(proj2 (land_ones_full bm 64 ltac:(lia)) Hall).
  rewrite Z.land_ones by lia. symmetry. apply Z.mod_small, Hb.
Qed.

Lemma ones_or_zero bm w :
  0 <= w ->
  (forall i, 0 <= i < w -> Z.testbit bm i = true) \/
  exists i, 0 <= i < w /\ Z.testbit bm i = false.
Proof.
  revert w. apply natlike_ind; [left; lia|]. intros w Hw [Hall|(i & Hi & Hz)].
  - destruct (Z.testbit bm w) eqn:E.
    + left. intros i Hi. destruct (decide (i = w)) as [->|]; [done|]. apply Hall. lia.
    + right. exists w. split; [lia|done].
  - right. exists i. split; [lia|done].
Qed.

Lemma skip_halving bit_map w st :
  0 < w -> halving bit_map (2 * w) st -> halving bit_map w (skip w st).
Proof.
  destruct st as [bm pos]. intros Hw (Hp & -> & Hones & i & Hi & Hz). unfold skip.
  destruct (Z.eqb_spec (Z.land (Z.shiftr bit_map pos) (Z.ones w)) (Z.ones w)) as [E|E].
  - rewrite land_ones_full in E by lia. split; [lia|].
    split; [apply Z.shiftr_shiftr; lia|]. split.
    + intros j Hj. destruct (decide (j < pos)); [apply Hones; lia|].
      specialize (E (j - pos) ltac:(lia)). rewrite Z.shiftr_spec in E by lia.
      by replace (j - pos + pos) with j in E by lia.
    + exists (i - w). destruct (decide (i < w)) as [Hlt|].
      { rewrite E in Hz by lia. done. }
      split; [lia|]. rewrite Z.shiftr_spec by lia.
      by replace (i - w + w) with i by lia.
  - split; [done|]. split; [done|]. split; [done|].
    destruct (ones_or_zero (Z.shiftr bit_map pos) w) as [Hall|?]; [lia| |done].
    exfalso. by apply E, land_ones_full; [lia|].
Qed.

Lemma FindZeroBitPos_spec bit_map :
  is_u64 bit_map -> bit_map <> FULL ->
  let pos := FindZeroBitPos bit_map in
  0 <= pos < 64 /\ Z.testbit bit_map pos = false /\
  forall i, 0 <= i < pos -> Z.testbit bit_map i = true.
Proof.
  intros Hb Hf.
  assert (halving bit_map 64 (bit_map, 0)) as H0.
  { split; [done|]. split; [done|]. split; [lia|].
    destruct (ones_or_zero bit_map 64) as [Hall|?]; [lia| |done].
    exfalso. by apply Hf, all_ones_full. }
  apply (skip_halving _ 32) in H0; [|lia]. apply (skip_halving _ 16) in H0; [|lia].
  apply (skip_halving _ 8) in H0; [|lia]. apply (skip_halving _ 4) in H0; [|lia].
  apply (skip_halving _ 2) in H0; [|lia]. apply (skip_halving _ 1) in H0; [|lia].
  unfold FindZeroBitPos. destruct (skip 1 _) as [bm pos]; simpl.
  destruct H0 as (Hp & -> & Hones & i & Hi & Hz).
  assert (i = 0) as -> by lia. rewrite Z.shiftr_spec in Hz by lia.
  rewrite Z.add_0_l in Hz. split; [|by split].
  split; [done|]. destruct (decide (pos < 64)); [done|]. exfalso. apply Hf.
  apply all_ones_full; [done|]. intros k Hk. apply Hones. lia.
Qed.

(** ** The bit map as a set of numbers *)

Definition MAX_INUM : Z := 16384 * 64.

Definition used (m : list Z) (n : Z) : bool :=
  match m !! Z.to_nat ((n - 1) / 64) with
  | Some w => Z.testbit w ((n - 1) mod 64)
  | None => false
  end.

Definition map_wf (m : list Z) : Prop := length m = MAX_INODE_NUM /\ Forall is_u64 m.
Definition maps_wf (ms : inode_maps) : Prop :=
  map_wf (inode_bit_block_map_ ms) /\ map_wf (inode_bit_dir_map_ ms).

Lemma bit_word w b :
  0 <= b < 64 ->
  u64 (Z.shiftl 1 b) = 2 ^ b /\ (Z.land w (2 ^ b) =? 0) = negb (Z.testbit w b).
Proof.
  intros Hb. split.
  - rewrite Z.shiftl_1_l. apply u64_id. split; [apply Z.pow_nonneg; lia|].
    apply Z.pow_lt_mono_r; lia.
  - destruct (Z.testbit w b) eqn:E; simpl.
    + apply Z.eqb_neq. intros H. assert (Z.testbit (Z.land w (2 ^ b)) b = true) as C.
      { rewrite Z.land_spec, E. apply Z.pow2_bits_true. lia. }
      by rewrite H, Z.bits_0 in C.
    + apply Z.eqb_eq, Z.bits_inj'. intros i Hi. rewrite Z.land_spec, Z.bits_0.
      rewrite Z.pow2_bits_eqb by lia. destruct (Z.eqb_spec b i) as [->|]; [by rewrite E|].
      apply andb_false_r.
Qed.

Lemma u64_bits w : (forall i, 64 <= i -> Z.testbit w i = false) -> 0 <= w -> is_u64 w.
Proof.
  intros Hb Hw. split; [done|]. destruct (decide (w = 0)) as [->|Hne]; [done|].
  apply Z.log2_lt_pow2; [lia|]. destruct (decide (Z.log2 w < 64)); [done|].
  pose proof (Z.bit_log2 w ltac:(lia)). rewrite Hb in H by lia. done.
Qed.
Lemma u64_high w i : is_u64 w -> 64 <= i -> Z.testbit w i = false.
Proof.
  intros Hw Hi. destruct (decide (w = 0)) as [->|]; [apply Z.bits_0|].
  apply Z.bits_above_log2; [apply Hw|].
  assert (Z.log2 w < 64); [|lia]. apply Z.log2_lt_pow2; [destruct Hw; lia|apply Hw].
Qed.

(** Marking a free bit, and clearing it again. *)
Lemma set_bit w b :
  is_u64 w -> 0 <= b < 64 -> Z.testbit w b = false ->
  is_u64 (Z.lor w (2 ^ b)) /\
  (forall i, 0 <= i -> Z.testbit (Z.lor w (2 ^ b)) i = Z.testbit w i || (i =? b)) /\
  Z.land (Z.lor w (2 ^ b)) (u64 (Z.lnot (2 ^ b))) = w.
Proof.
  intros Hw Hb Hz.
  assert (forall i, 0 <= i -> Z.testbit (Z.lor w (2 ^ b)) i = Z.testbit w i || (i =? b))
    as Hbits.
  { intros i Hi. rewrite Z.lor_spec, Z.pow2_bits_eqb, Z.eqb_sym by lia. done. }
  split; [|split; [done|]].
  - apply u64_bits.
    + intros i Hi. rewrite Hbits, (u64_high w i) by (done || lia). simpl.
      apply Z.eqb_neq. lia.
    + apply Z.lor_nonneg. split; [apply Hw|]. apply Z.pow_nonneg. lia.
  - apply Z.bits_inj'. intros i Hi. rewrite Z.land_spec, Hbits by done.
    destruct (decide (i < 64)).
    + unfold u64. rewrite Z.mod_pow2_bits_low by lia.
      rewrite Z.lnot_spec, Z.pow2_bits_eqb, (Z.eqb_sym b i) by lia.
      destruct (Z.eqb_spec i b) as [->|]; [by rewrite Hz|]. simpl.
      by rewrite orb_false_r, andb_true_r.
    + unfold u64. rewrite Z.mod_pow2_bits_high by lia.
      by rewrite andb_false_r, u64_high by (done || lia).
Qed.

(** Section and bit of a number in range. *)
Lemma inum_parts n :
  1 <= n <= MAX_INUM ->
  u64 (n - 1) = n - 1 /\ i32 ((n - 1) / 64) = (n - 1) / 64 /\
  i32 ((n - 1) mod 64) = (n - 1) mod 64 /\ 0 <= (n - 1) / 64 < 16384 /\
  0 <= (n - 1) mod 64 < 64.
Proof. unfold MAX_INUM. intros. split_and!; width. Qed.

Lemma word_of m n :
  map_wf m -> 1 <= n <= MAX_INUM ->
  exists w, m !! Z.to_nat ((n - 1) / 64) = Some w /\ is_u64 w /\
    used m n = Z.testbit w ((n - 1) mod 64).
Proof.
  intros [Hl Hu] Hn. destruct (inum_parts n Hn) as (_ & _ & _ & Hd & _).
  destruct (lookup_lt_is_Some_2 m (Z.to_nat ((n - 1) / 64))) as [w Hw].
  { rewrite Hl. unfold MAX_INODE_NUM. lia. }
  exists w. split; [done|]. split; [by eapply Forall_lookup_1 in Hw|].
  unfold used. by rewrite Hw.
Qed.

Lemma used_insert m n w w' k :
  1 <= n <= MAX_INUM -> 1 <= k <= MAX_INUM ->
  m !! Z.to_nat ((n - 1) / 64) = Some w ->
  (forall i, 0 <= i -> Z.testbit w' i = Z.testbit w i || (i =? (n - 1) mod 64)) ->
  used (<[Z.to_nat ((n - 1) / 64) := w']> m) k = used m k || (k =? n).
Proof.
  intros Hn Hk Hw Hbits. destruct (inum_parts n Hn) as (_ & _ & _ & Hd & Hm).
  destruct (inum_parts k Hk) as (_ & _ & _ & Hd' & Hm'). unfold used.
  destruct (decide ((k - 1) / 64 = (n - 1) / 64)) as [E|E].
  - rewrite E, list_lookup_insert_eq by (by eapply lookup_lt_Some). rewrite Hw, Hbits by lia.
    f_equal. destruct (Z.eqb_spec k n) as [->|Hne]; [apply Z.eqb_refl|].
    apply Z.eqb_neq. intros E'. apply Hne.
    pose proof (Z.div_mod (k - 1) 64). pose proof (Z.div_mod (n - 1) 64). lia.
  - rewrite list_lookup_insert_ne by lia.
    destruct (Z.eqb_spec k n) as [->|Hne]; [done|]. by rewrite orb_false_r.
Qed.

Lemma map_wf_insert m i w : map_wf m -> is_u64 w -> map_wf (<[i := w]> m).
Proof.
  intros [Hl Hu] Hw. split; [by rewrite length_insert|]. by apply Forall_insert.
Qed.

Lemma SetInodeBitMap_free m n :
  map_wf m -> 1 <= n <= MAX_INUM -> used m n = false ->
  exists m', SetInodeBitMap n m = Ret (0, m') /\ map_wf m' /\
    (forall k, 1 <= k <= MAX_INUM -> used m' k = used m k || (k =? n)) /\
    UnSetInodeBitMap n m' = Ret (0, m).
Proof.
  intros Hwf Hn Hfree. destruct (word_of m n Hwf Hn) as (w & Hw & Hu & E).
  rewrite E in Hfree. destruct (inum_parts n Hn) as (E1 & E2 & E3 & Hd & Hm).
  destruct (set_bit w _ Hu Hm Hfree) as (Hu' & Hbits & Hclear).
  destruct (bit_word w _ Hm) as (Hsh & Htest).
  exists (<[Z.to_nat ((n - 1) / 64) := Z.lor w (2 ^ ((n - 1) mod 64))]> m).
  unfold SetInodeBitMap, UnSetInodeBitMap. rewrite E1, E2, E3, Hw, Hsh, Htest, Hfree.
  rewrite (proj2 (Z.eqb_neq n 0)), (proj2 (Z.ltb_ge ((n - 1) / 64) 0)) by lia.
  split; [done|]. split; [by apply map_wf_insert|].
  split; [intros; by eapply used_insert|].
  rewrite list_lookup_insert_eq by (by eapply lookup_lt_Some).
  destruct (bit_word (Z.lor w (2 ^ ((n - 1) mod 64))) _ Hm) as (_ & ->).
  rewrite Hbits, Z.eqb_refl, orb_true_r by lia. simpl.
  rewrite Hclear, list_insert_insert_eq. by rewrite list_insert_id.
Qed.

(** The scan returns the lowest number that is not in use, or 0. *)
Lemma find_idle_spec i words :
  0 <= i -> i + Z.of_nat (length words) <= 16384 -> Forall is_u64 words ->
  (find_idle i words = 0 /\ Forall (eq FULL) words) \/
  exists (k : nat) w pos, words !! k = Some w /\ 0 <= pos < 64 /\
    Z.testbit w pos = false /\ (forall j, 0 <= j < pos -> Z.testbit w j = true) /\
    (forall k', (k' < k)%nat -> words !! k' = Some FULL) /\
    find_idle i words = (i + Z.of_nat k) * 64 + pos + 1.
Proof.
  revert i. induction words as [|w words IH]; intros i Hi Hlen Hu; simpl in *.
  { left. by split. }
  inversion_clear Hu as [|? ? Hw Hws]. destruct (Z.eqb_spec w FULL) as [->|Hne]; simpl.
  - destruct (IH (i + 1)) as [[E Hall]|(k & w & pos & Hk & Hp & Hz & Hlow & Hb & E)];
      [lia|lia|done| |].
    + left. split; [done|]. by constructor.
    + right. exists (S k), w, pos. do 4 (split; [done|]). split; [|lia].
      intros [|k'] Hk'; [done|]. apply Hb. lia.
  - destruct (FindZeroBitPos_spec w Hw Hne) as (Hp & Hz & Hlow).
    rewrite (proj2 (Z.eqb_neq (FindZeroBitPos w) (-1))) by lia.
    right. exists 0%nat, w, (FindZeroBitPos w).
    do 4 (split; [done|]). split; [lia|].
    rewrite u32_id by (unfold is_u32; lia). lia.
Qed.

Lemma FULL_bit j : 0 <= j < 64 -> Z.testbit FULL j = true.
Proof. intros. change FULL with (Z.ones 64). apply Z.ones_spec_low. lia. Qed.

Lemma FindIdelInodeNum_spec m :
  map_wf m ->
  let n := FindIdelInodeNum m in
  (n = 0 /\ forall k, 1 <= k <= MAX_INUM -> used m k = true) \/
  (1 <= n <= MAX_INUM /\ used m n = false /\ forall k, 1 <= k < n -> used m k = true).
Proof.
  intros [Hl Hu] n. subst n. unfold FindIdelInodeNum.
  rewrite take_ge by (rewrite Hl; done). unfold MAX_INODE_NUM in Hl.
  destruct (find_idle_spec 0 m ltac:(done) ltac:(lia) Hu)
    as [[-> Hall]|(k & w & pos & Hk & Hp & Hz & Hlow & Hb & ->)].
  - left. split; [done|]. intros k Hk. destruct (inum_parts k Hk) as (_ & _ & _ & Hd & Hm).
    destruct (lookup_lt_is_Some_2 m (Z.to_nat ((k - 1) / 64))) as [w Hw]; [lia|].
    unfold used. rewrite Hw. rewrite <-(Forall_lookup_1 _ _ _ _ Hall Hw). by apply FULL_bit.
  - apply lookup_lt_Some in Hk as Hlt. right. unfold MAX_INUM. split; [lia|].
    assert (forall q r, 0 <= r < 64 -> 0 <= q ->
      (q * 64 + r) / 64 = q /\ (q * 64 + r) mod 64 = r) as Hqr.
    { intros q r Hr Hq. split; width. }
    split.
    + unfold used. replace ((0 + Z.of_nat k) * 64 + pos + 1 - 1)
        with (Z.of_nat k * 64 + pos) by lia.
      destruct (Hqr (Z.of_nat k) pos) as [-> ->]; [lia|lia|]. by rewrite Nat2Z.id, Hk.
    + intros n Hn. destruct (inum_parts n) as (_ & _ & _ & Hd & Hm); [unfold MAX_INUM; lia|].
      pose proof (Z.div_mod (n - 1) 64 ltac:(lia)) as Hdm. unfold used.
      destruct (decide ((n - 1) / 64 < Z.of_nat k)) as [Hlt'|Hge].
      * rewrite Hb by lia. by apply FULL_bit.
      * assert ((n - 1) / 64 = Z.of_nat k) as Ek by lia. rewrite Ek, Nat2Z.id, Hk.
        apply Hlow. lia.
Qed.

(** ** Properties *)

(** The number the caller gets: files carry the file bit. *)
Definition tag (is_file_type : bool) (n : Z) : Z :=
  if is_file_type then Z.lor n 0x80000000 else n.

Lemma untag n :
  1 <= n <= MAX_INUM ->
  tag true n <> 0 /\ tag true n <> 0x80000000 /\
  Z.land (tag true n) (u64 (Z.lnot 0x80000000)) = n.
Proof.
  intros Hn. unfold MAX_INUM in Hn.
  assert (forall i, 21 <= i -> Z.testbit n i = false) as Hhigh.
  { intros i Hi. apply Z.bits_above_log2; [lia|].
    assert (Z.log2 n < 21); [|lia]. apply Z.log2_lt_pow2; lia. }
  assert (Z.land (tag true n) (u64 (Z.lnot 0x80000000)) = n) as E.
  { unfold tag. change 0x80000000 with (2 ^ 31) at 1 2.
    destruct (set_bit n 31) as (_ & _ & ->); [split; lia|lia|apply Hhigh; lia|done]. }
  split_and!; [| |done]; intros C; rewrite C in E; vm_compute in E; lia.
Qed.

(** C27. The allocator hands out the lowest free number, marks exactly that
    one, and reports 0 only when all numbers are in use; giving the number
    back restores the maps bit for bit. *)
Theorem GetAvailInum_lowest is_file_type ms :
  maps_wf ms ->
  exists r ms', GetAvailInumNotUse is_file_type ms = Ret (r, ms') /\ maps_wf ms' /\
    ((r = 0 /\ ms' = ms /\
      forall k, 1 <= k <= MAX_INUM -> used (bit_map_of is_file_type ms) k = true) \/
     (exists n, 1 <= n <= MAX_INUM /\ r = tag is_file_type n /\
      used (bit_map_of is_file_type ms) n = false /\
      (forall k, 1 <= k < n -> used (bit_map_of is_file_type ms) k = true) /\
      (forall k, 1 <= k <= MAX_INUM ->
        used (bit_map_of is_file_type ms') k =
          used (bit_map_of is_file_type ms) k || (k =? n)) /\
      bit_map_of (negb is_file_type) ms' = bit_map_of (negb is_file_type) ms /\
      RestoreInumNotUse is_file_type r ms' = Ret (0, ms))).
Proof.
  intros [Hwf1 Hwf2].
  assert (map_wf (bit_map_of is_file_type ms)) as Hwf by by destruct is_file_type.
  unfold GetAvailInumNotUse.
  destruct (FindIdelInodeNum_spec _ Hwf) as [[-> Hall]|(Hn & Hfree & Hlow)].
  { exists 0, ms. split; [reflexivity|]. split; [by split|]. by left. }
  revert Hn Hfree Hlow. generalize (FindIdelInodeNum (bit_map_of is_file_type ms)).
  intros n Hn Hfree Hlow.
  rewrite (proj2 (Z.ltb_lt 0 n)) by lia.
  destruct (SetInodeBitMap_free _ n Hwf Hn Hfree) as (m' & -> & Hwf' & Hused & Hun). simpl.
  exists (tag is_file_type n), (set_bit_map is_file_type m' ms).
  split; [destruct is_file_type; reflexivity|].
  split; [destruct is_file_type; split; assumption|].
  right. exists n. destruct is_file_type; cbn [bit_map_of set_bit_map negb] in *.
  - do 6 (split; [done|]). unfold RestoreInumNotUse.
    destruct (untag n Hn) as (N0 & N1 & ->).
    rewrite (proj2 (Z.eqb_neq _ _) N0), (proj2 (Z.eqb_neq _ _) N1); simpl.
    rewrite Hun; simpl. by destruct ms.
  - do 6 (split; [done|]). unfold RestoreInumNotUse, tag.
    unfold MAX_INUM in Hn. rewrite (proj2 (Z.eqb_neq n 0)), (proj2 (Z.eqb_neq n 0x80000000)) by lia.
    simpl. rewrite Hun; simpl. by destruct ms.
Qed.

Lemma inode_maps_new_wf : maps_wf inode_maps_new.
Proof.
  assert (map_wf (1 :: replicate (MAX_INODE_NUM - 1) 0)) as H; [|by split].
  split; [rewrite length_cons, length_replicate; unfold MAX_INODE_NUM; lia|].
  constructor; [done|]. apply Forall_replicate. done.
Qed.

Lemma GetAvailInum_lowest_witness :
  exists r ms', GetAvailInumNotUse true inode_maps_new = Ret (r, ms') /\ maps_wf ms'.
Proof.
  destruct (GetAvailInum_lowest true inode_maps_new inode_maps_new_wf)
    as (r & ms' & E & Hwf & _). exists r, ms'. by split.
Defined.

(** A new client's first file is number 2 with the file bit. *)
Example first_file :
  match GetAvailInumNotUse true inode_maps_new with
  | Ret (r, _) => r = 0x80000002
  | _ => False
  end.
Proof. vm_compute. reflexivity. Qed.
