(* ===== verification/DirForm.v ===== *)
(** * The directory format of [yfs_client.cc]

    [DirForm::StringToDirForm] and [DirForm::DirFormToString]: a directory is
    stored in an extent as a 32-bit count followed by entries of 1024 bytes of
    name, padded with NULs, and a 64-bit inode number.  The integers are
    copied with [memcpy], so they are in the byte order of the host; the model
    is little-endian, as the machines the code runs on. *)
From S2P Require Import Prelude.

Definition MAX_ITEM_NAME_LEN : nat := Z.to_nat 1024.

(** [std::string::resize]. *)
Definition str_resize (n : nat) (s : str) : str :=
  take n s ++ replicate (n - length s) NUL.

(** The bytes behind a string's terminator, which the code can read: an
    extent that is shorter than the count it should begin with.  What they are
    is not specified. *)
Class Beyond := beyond : str -> nat -> ascii.

Section dirform.
Context `{Beyond}.

(** [data.data()[i]] *)
Definition byte_at (data : str) (i : nat) : ascii :=
  match data !! i with
  | Some c => c
  | None => if decide (i = length data) then NUL else beyond data i
  end.
Definition bytes_at (data : str) (pos n : nat) : str := byte_at data <$> seq pos n.

(** The value of bytes in memory, least significant first, and back. *)
Fixpoint le_value (bs : str) : Z :=
  match bs with
  | [] => 0
  | b :: bs => char_to_Z b + 256 * le_value bs
  end.
Fixpoint le_bytes (n : nat) (z : Z) : str :=
  match n with
  | O => []
  | S n => Z_to_char z :: le_bytes n (z / 256)
  end.

Record DirForm := MkDirForm {
  dir_block_ : gmap str Z;
  dir_item_num_ : Z;
}.

(** The loop of [StringToDirForm] after [i] entries; [fuel] bounds the
    iterations by the length of the data, which each of them advances in. *)
Fixpoint read_items (fuel : nat) (data : str) (num i : Z) (pos : nat)
    (blk : gmap str Z) : gmap str Z :=
  match fuel with
  | O => blk
  | S fuel =>
      if (i <? num) && (pos <? length data)%nat then
        let item_name := bytes_at data pos MAX_ITEM_NAME_LEN in
        let pos := (pos + MAX_ITEM_NAME_LEN)%nat in
        let item_num := le_value (bytes_at data pos 8) in
        let pos := (pos + 8)%nat in
        let blk := match blk !! item_name with
                   | Some _ => blk
                   | None => <[item_name := item_num]> blk
                   end in
        read_items fuel data num (i + 1) pos blk
      else blk
  end.

Definition StringToDirForm (data : str) (d : DirForm) : DirForm :=
  let num := i32 (le_value (bytes_at data 0 4)) in
  MkDirForm (read_items (S (length data)) data num 0 4 (dir_block_ d)) num.

Definition put_items (items : list (str * Z)) : str :=
  flat_map (fun it => str_resize MAX_ITEM_NAME_LEN it.1 ++ le_bytes 8 it.2) items.

Definition DirFormToString (d : DirForm) : str * DirForm :=
  let num := i32 (Z.of_nat (size (dir_block_ d))) in
  (le_bytes 4 (u32 num) ++ put_items (std_iter (dir_block_ d)),
   MkDirForm (dir_block_ d) num).
End dirform.

(** ** Lemmas *)

Lemma length_le_bytes n z : length (le_bytes n z) = n.
Proof. revert z. induction n as [|n IH]; intros z; simpl; [done|]. by rewrite IH. Qed.
Lemma le_value_bytes n z :
  0 <= z < 256 ^ Z.of_nat n -> le_value (le_bytes n z) = z.
Proof.
  revert z. induction n as [|n IH]; intros z Hz.
  { change (256 ^ Z.of_nat 0) with 1 in Hz. simpl. lia. }
  cbn [le_bytes le_value]. rewrite IH, char_to_Z_to_char.
  - unfold u8. change (2 ^ 8) with 256. pose proof (Z.div_mod z 256). lia.
  - rewrite Nat2Z.inj_succ, Z.pow_succ_r in Hz by lia.
    split; [apply Z.div_pos; lia|]. apply Z.div_lt_upper_bound; lia.
Qed.
Lemma length_str_resize n s : length (str_resize n s) = n.
Proof. unfold str_resize. rewrite length_app, length_take, length_replicate. lia. Qed.
Lemma str_resize_id n s : length s = n -> str_resize n s = s.
Proof.
  intros <-. unfold str_resize. rewrite take_ge, Nat.sub_diag by lia. apply app_nil_r.
Qed.

Section dirform_lemmas.
Context `{Beyond}.

Lemma bytes_at_app a b c : bytes_at (a ++ b ++ c) (length a) (length b) = b.
Proof.
  unfold bytes_at. apply list_eq_same_length with (length b); [done| |].
  { by rewrite length_fmap, length_seq. }
  intros i x y Hi Hx Hy.
  rewrite list_lookup_fmap, lookup_seq_lt in Hx by done. injection Hx as <-.
  unfold byte_at. rewrite lookup_app_r by lia.
  replace (length a + i - length a)%nat with i by lia.
  by rewrite lookup_app_l, Hy by done.
Qed.
Lemma bytes_at_app' data a b c pos n :
  data = a ++ b ++ c -> pos = length a -> n = length b -> bytes_at data pos n = b.
Proof. intros -> -> ->. apply bytes_at_app. Qed.

Definition ITEM_SZ : nat := (MAX_ITEM_NAME_LEN + 8)%nat.
Definition item_ok (it : str * Z) : Prop :=
  length it.1 = MAX_ITEM_NAME_LEN /\ is_u64 it.2.

Lemma length_put_items items :
  length (put_items items) = (length items * ITEM_SZ)%nat.
Proof.
  unfold put_items. induction items as [|it items IH]; [done|]. cbn [flat_map].
  rewrite !length_app, IH, length_str_resize, length_le_bytes. cbn [length].
  unfold ITEM_SZ. lia.
Qed.

(** Reading back the entries that were written, in their order. *)
Lemma read_items_put pre items fuel num i blk :
  Forall item_ok items -> NoDup items.*1 -> (forall it, it ∈ items -> blk !! it.1 = None) ->
  (length items < fuel)%nat -> i + Z.of_nat (length items) = num ->
  read_items fuel (pre ++ put_items items) num i (length pre) blk = std_build blk items.
Proof.
  revert pre fuel i blk. induction items as [|[nm ino] items IH];
    intros pre fuel i blk Hok Hnd Hblk Hf Hi; destruct fuel as [|fuel]; simpl in Hf; try lia.
  { cbn [read_items std_build foldl]. rewrite (proj2 (Z.ltb_ge i num)); [done|].
    simpl in Hi. lia. }
  inversion_clear Hok as [|? ? [Hnm Hino] Hok']. inversion_clear Hnd as [|? ? Hnew Hnd'].
  cbn [read_items]. rewrite (proj2 (Z.ltb_lt i num)) by (simpl in Hi; lia).
  unfold put_items. cbn [flat_map fst snd]. fold (put_items items).
  rewrite (str_resize_id _ nm) by done. simpl in Hnm, Hino.
  rewrite (proj2 (Nat.ltb_lt _ _)) by (rewrite !length_app, length_le_bytes; lia).
  cbn [andb]. rewrite (bytes_at_app' _ pre nm (le_bytes 8 ino ++ put_items items))
    by (by rewrite <-?app_assoc).
  rewrite (bytes_at_app' _ (pre ++ nm) (le_bytes 8 ino) (put_items items));
    [|by rewrite <-!app_assoc|by rewrite length_app, Hnm|by rewrite length_le_bytes].
  rewrite le_value_bytes by (destruct Hino; split; [done|]; lia).
  pose proof (Hblk (nm, ino) ltac:(left)) as Hn. cbn [fst] in Hn. rewrite Hn.
  cbn [std_build foldl fst snd].
  replace (pre ++ (nm ++ le_bytes 8 ino) ++ put_items items)
    with ((pre ++ nm ++ le_bytes 8 ino) ++ put_items items) by by rewrite <-!app_assoc.
  replace (length pre + MAX_ITEM_NAME_LEN + 8)%nat with (length (pre ++ nm ++ le_bytes 8 ino))
    by (rewrite !length_app, length_le_bytes, Hnm; lia).
  apply IH; [done|done| |lia|simpl in Hi; lia].
  intros it Hit. rewrite lookup_insert_ne.
  - apply Hblk. by right.
  - intros E. apply Hnew. simpl. rewrite E. apply list_elem_of_fmap. by exists it.
Qed.

(** The fuel of [StringToDirForm] is enough: the loop stops at its own test. *)
Lemma read_items_fuel data num f1 f2 i pos blk :
  (length data - pos < f1)%nat -> (length data - pos < f2)%nat ->
  read_items f1 data num i pos blk = read_items f2 data num i pos blk.
Proof.
  revert f2 i pos blk. induction f1 as [|f1 IH]; intros [|f2] i pos blk H1 H2; try lia.
  cbn [read_items]. destruct (i <? num); cbn [andb]; [|done].
  destruct (Nat.ltb_spec pos (length data)); [|done]. apply IH; lia.
Qed.

(** A directory whose names have the padded length the operations give them. *)
Definition dir_ok (d : gmap str Z) : Prop :=
  map_Forall (fun nm ino => length nm = MAX_ITEM_NAME_LEN /\ is_u64 ino) d /\
  Z.of_nat (base.size d) < 2 ^ 31.

Lemma StringToDirForm_short data d :
  (length data <= 4)%nat -> dir_block_ (StringToDirForm data d) = dir_block_ d.
Proof.
  intros Hl. unfold StringToDirForm. cbn [dir_block_ read_items].
  rewrite (proj2 (Nat.ltb_ge 4 (length data))) by done. by rewrite andb_false_r.
Qed.

Lemma dirform_parse_print d :
  dir_ok (dir_block_ d) ->
  StringToDirForm (DirFormToString d).1 (MkDirForm ∅ 0) =
    MkDirForm (dir_block_ d) (Z.of_nat (size (dir_block_ d))).
Proof.
  intros [Hnames Hsz]. unfold DirFormToString. cbn [fst].
  set (items := std_iter (dir_block_ d)).
  assert (length items = size (dir_block_ d)) as Hlen by apply std_iter_length.
  set (num := i32 (Z.of_nat (size (dir_block_ d)))).
  assert (num = Z.of_nat (size (dir_block_ d))) as Hnum by (apply i32_id; width).
  set (data := le_bytes 4 (u32 num) ++ put_items items).
  assert (i32 (le_value (bytes_at data 0 4)) = num) as Hhd.
  { rewrite (bytes_at_app' data [] (le_bytes 4 (u32 num)) (put_items items)) by done.
    rewrite le_value_bytes by (pose proof (u32_range num); width).
    rewrite i32_u32. rewrite Hnum. apply i32_id. width. }
  unfold StringToDirForm. rewrite Hhd. f_equal; [|done].
  cbn [dir_block_]. unfold data.
  rewrite (read_items_put (le_bytes 4 (u32 num)) items); [apply std_build_iter| | | | |].
  - apply Forall_forall. intros [nm ino] Hin. apply std_iter_lookup in Hin.
    by apply Hnames in Hin.
  - apply std_iter_NoDup.
  - intros it _. apply lookup_empty.
  - rewrite length_app, length_put_items, length_le_bytes. unfold ITEM_SZ. lia.
  - rewrite Hlen, Hnum. lia.
Qed.
End dirform_lemmas.

(** ** Properties *)

(** C26. A directory survives its extent: what [DirFormToString] writes,
    [StringToDirForm] reads back entry for entry, and the extent of a new
    directory, which is empty, reads as the empty directory whatever memory
    lies behind it; in neither case does the fuel of the loop matter. *)
Theorem dirform_roundtrip `{Beyond} d f :
  dir_ok (dir_block_ d) ->
  let data := (DirFormToString d).1 in
  (length data < f)%nat ->
  dir_block_ (StringToDirForm data (MkDirForm ∅ 0)) = dir_block_ d /\
  dir_item_num_ (StringToDirForm data (MkDirForm ∅ 0)) = Z.of_nat (size (dir_block_ d)) /\
  read_items f data (dir_item_num_ (StringToDirForm data (MkDirForm ∅ 0))) 0 4 ∅ =
    dir_block_ d /\
  dir_block_ (StringToDirForm [] (MkDirForm ∅ 0)) = ∅.
Proof.
  intros Hd data Hf. pose proof (dirform_parse_print d Hd) as E. fold data in E.
  split; [by rewrite E|]. split; [by rewrite E|].
  split; [|apply StringToDirForm_short; simpl; lia].
  transitivity (dir_block_ (StringToDirForm data (MkDirForm ∅ 0))); [|by rewrite E].
  unfold StringToDirForm. cbn [dir_block_ dir_item_num_]. apply read_items_fuel; lia.
Qed.

#[local] Instance beyond0 : Beyond := fun _ _ => "x"%char.
Definition dir0 : DirForm :=
  MkDirForm (<[str_resize MAX_ITEM_NAME_LEN (lit "a") := 0x80000002]>
            {[ str_resize MAX_ITEM_NAME_LEN (lit "b") := 7 ]}) 0.
Lemma dir0_ok : dir_ok (dir_block_ dir0).
Proof.
  split; [|vm_compute; reflexivity].
  apply map_Forall_insert_2; [by split; [apply length_str_resize|]|].
  apply map_Forall_singleton. by split; [apply length_str_resize|].
Qed.
Lemma dirform_roundtrip_witness :
  dir_block_ (StringToDirForm (DirFormToString dir0).1 (MkDirForm ∅ 0)) = dir_block_ dir0.
Proof.
  exact (proj1 (dirform_roundtrip dir0 _ dir0_ok (Nat.lt_succ_diag_r _))).
Defined.
