(* ===== verification/YfsClient.v ===== *)
(** * The file system operations: [yfs_client.cc]

    Files and directories are extents; [yfs_client] reads and writes them
    through an [extent_client] (the interface [ExtentClient], of which the
    program uses [extent_client_cache]) under locks taken with [YfsLock].

    The lock client is modelled by the trace of its calls: [Acquire] and
    [Release] events, with a [Use] event for every call to the extent client,
    so that the locking discipline is a property of the trace. *)
From S2P Require Import Prelude Marshall Protocols Extent DirForm.

Module yfs_status.
Definition OK : Z := 0.
Definition RPCERR : Z := 1.
Definition NOENT : Z := 2.
Definition IOERR : Z := 3.
Definition EXIST : Z := 4.
End yfs_status.
Import yfs_status.

Inductive event := Acquire (ino : Z) | Release (ino : Z) | Use (ino : Z).

Record yfs := Yfs {
  ew : world;
  trace : list event;
}.

(** ** A small state monad *)

Definition M (A : Type) : Type := yfs -> outcome (A * yfs).
#[global] Instance M_ret : MRet M := fun A a y => Ret (a, y).
#[global] Instance M_bind : MBind M := fun A B f m y => '(a, y) ← m y; f a y.

Definition log (e : event) : M unit :=
  fun y => Ret (tt, Yfs (ew y) (trace y ++ [e])).
(** A call to the extent client about the extent [ino]. *)
Definition extent_op {A} (ino : Z) (f : world -> outcome (A * world)) : M A :=
  fun y => '(a, w) ← f (ew y); Ret (a, Yfs w (trace y ++ [Use ino])).
(** A call about no extent in particular. *)
Definition server_op {A} (f : world -> outcome (A * world)) : M A :=
  fun y => '(a, w) ← f (ew y); Ret (a, Yfs w (trace y)).
Definition lift {A} (o : outcome A) : M A := fun y => a ← o; Ret (a, y).

(** [YfsLock yl(lc, ino);] the destructor releases when the block is left. *)
Definition YfsLock {A} (ino : Z) (body : M A) : M A :=
  log (Acquire ino);; r ← body; log (Release ino);; mret r.

(** [std::string] operations that can throw: nothing catches, the process
    dies.  [max_size] is the library's bound on a string. *)
Class MaxSize := max_size : Z.
Definition substr (s : str) (pos n : Z) : outcome str :=
  if Z.of_nat (length s) <? pos then VerifyFail
  else Ret (take (Z.to_nat n) (drop (Z.to_nat pos) s)).
Definition resize `{MaxSize} (s : str) (n : Z) : outcome str :=
  if max_size <? n then VerifyFail else Ret (str_resize (Z.to_nat n) s).
Definition append `{MaxSize} (s t : str) : outcome str :=
  if max_size <? Z.of_nat (length (s ++ t)) then VerifyFail else Ret (s ++ t).
Definition npos : Z := 2 ^ 64 - 1.

(** A C string: the bytes before the first NUL. *)
Fixpoint c_str (s : str) : str :=
  match s with
  | [] => []
  | c :: s => if decide (c = NUL) then [] else c :: c_str s
  end.

Record fileinfo := Fileinfo { fi_size : Z; fi_atime : Z; fi_mtime : Z; fi_ctime : Z }.
Record dirinfo := Dirinfo { di_atime : Z; di_mtime : Z; di_ctime : Z }.

Definition isfile (inum : Z) : bool := negb (Z.land inum 0x80000000 =? 0).
Definition isdir (inum : Z) : bool := negb (isfile inum).

Section operations.
Context `{E : ExtentClient, Beyond, MaxSize}.

(** [YfsLock(lc, inum);] as a statement creates a temporary, which is
    destroyed at once. *)
Definition lock_statement (inum : Z) : M unit := YfsLock inum (mret tt).

(** An [attr] the caller does not initialise. *)
Definition attr0 : extent_protocol.attr := zero_content.1.

Definition getfile_body (inum : Z) (fin : fileinfo) : M (Z * fileinfo) :=
  '(st, a) ← extent_op inum (ec_getattr inum attr0);
  if negb (st =? extent_protocol.OK) then mret (IOERR, fin)
  else mret (OK, Fileinfo (extent_protocol.size a) (extent_protocol.atime a)
                   (extent_protocol.mtime a) (extent_protocol.ctime a)).
Definition getfile (inum : Z) (fin : fileinfo) : M (Z * fileinfo) :=
  lock_statement inum;; getfile_body inum fin.

Definition getdir (inum : Z) (din : dirinfo) : M (Z * dirinfo) :=
  lock_statement inum;;
  '(st, a) ← extent_op inum (ec_getattr inum attr0);
  if negb (st =? extent_protocol.OK) then mret (IOERR, din)
  else mret (OK, Dirinfo (extent_protocol.atime a) (extent_protocol.mtime a)
                   (extent_protocol.ctime a)).

Definition getdata (ino : Z) (data : str) : M (Z * str) :=
  '(st, data) ← extent_op ino (ec_get ino data);
  mret (if negb (st =? extent_protocol.OK) then IOERR else OK, data).
Definition putdata (ino : Z) (data : str) : M Z :=
  st ← extent_op ino (ec_put ino data);
  mret (if negb (st =? extent_protocol.OK) then IOERR else OK).

Definition GetAvailInum (is_file_type : bool) : M Z :=
  '(st, inode) ← server_op (ec_getinode 0 (if is_file_type then 1 else 0));
  mret (if negb (st =? OK) then 0 else inode).
Definition RestoreInum (is_file_type : bool) (inum : Z) : M Z :=
  let inum := if is_file_type then Z.land inum (u64 (Z.lnot 0x80000000)) else inum in
  extent_op inum (ec_remove inum);; mret 0.

Definition read (ino size off : Z) (buf : str) : M (Z * str) :=
  YfsLock ino (
    '(ret, data) ← getdata ino [];
    if negb (ret =? OK) then mret (NOENT, buf)
    else if Z.of_nat (length data) <=? u64 off then mret (OK, [])
    else if Z.of_nat (length data) <? u64 (off + size) then
      buf ← lift (substr data (u64 off) npos); mret (OK, buf)
    else buf ← lift (substr data (u64 off) size); mret (OK, buf)).

(** [size] bytes of the caller's buffer. *)
Definition buffer (buf : str) (size : Z) : outcome str :=
  if Z.of_nat (length buf) <? size then UB else Ret (take (Z.to_nat size) buf).

Definition write (ino size off : Z) (buf : str) : M Z :=
  YfsLock ino (
    '(ret, data) ← getdata ino [];
    if negb (ret =? OK) then mret ret
    else
      data ← lift (if Z.of_nat (length data) <? u64 off then resize data (u64 off)
                   else Ret data);
      write_data ← lift (substr data 0 (u64 off));
      chunk ← lift (buffer buf size);
      write_data ←
        lift (if Z.of_nat (length data) <? u64 (off + size) then append write_data chunk
              else write_data ← append write_data chunk;
                   rest ← substr data (u64 (off + size)) npos;
                   append write_data rest);
      putdata ino write_data).

(** [create] and [mkdir] differ in the type of the inode, and in the second
    argument of [RestoreInum], which is the [bool] where the number belongs. *)
Definition create_item (is_file : bool) (parent : Z) (name : str) (ret_ino : Z)
    : M (Z * Z) :=
  let str_name := str_resize MAX_ITEM_NAME_LEN (c_str name) in
  YfsLock parent (
    '(ret, data) ← getdata parent [];
    if negb (ret =? OK) then mret (NOENT, ret_ino)
    else
      let dir_info := StringToDirForm data (MkDirForm ∅ 0) in
      if bool_decide (is_Some (dir_block_ dir_info !! str_name)) then mret (EXIST, ret_ino)
      else
        ret_ino ← GetAvailInum is_file;
        if ret_ino =? 0 then mret (NOENT, ret_ino)
        else
          let restore : M Z :=
            RestoreInum (negb (ret_ino =? 0)) (if is_file then 1 else 0) in
          let dir_info := MkDirForm (<[str_name := ret_ino]> (dir_block_ dir_info))
                            (dir_item_num_ dir_info) in
          let '(data, dir_info) := DirFormToString dir_info in
          ret ← putdata parent data;
          if negb (ret =? OK) then restore;; mret (ret, ret_ino)
          else
            ret ← putdata ret_ino [];
            if negb (ret =? OK) then restore;; mret (ret, ret_ino)
            else
              '(ret, _) ← getfile ret_ino (Fileinfo 0 0 0 0);
              if negb (ret =? OK) then restore;; mret (ret, ret_ino)
              else mret (OK, ret_ino)).
Definition create : Z -> str -> Z -> M (Z * Z) := create_item true.
Definition mkdir : Z -> str -> Z -> M (Z * Z) := create_item false.

Definition readdir (dirinfo : DirForm) (inum : Z) : M (Z * DirForm) :=
  YfsLock inum (
    '(ret, data) ← getdata inum [];
    if negb (ret =? OK) then mret (ret, dirinfo)
    else mret (OK, StringToDirForm data dirinfo)).

Definition yfs_lookup (parent : Z) (name : str) (found : bool) (imun : Z)
    : M (Z * bool * Z) :=
  let str_name := str_resize MAX_ITEM_NAME_LEN (c_str name) in
  YfsLock parent (
    '(ret, data) ← getdata parent [];
    if negb (ret =? OK) then mret (NOENT, found, imun)
    else
      let dirinfo := StringToDirForm data (MkDirForm ∅ 0) in
      match dir_block_ dirinfo !! str_name with
      | Some ino => mret (OK, true, ino)
      | None => mret (OK, found, imun)
      end).

Definition setattr (ino st_size : Z) : M Z :=
  YfsLock ino (
    '(ret, data) ← getdata ino [];
    if negb (ret =? OK) then mret ret
    else
      data ← lift (resize data (u64 st_size));
      putdata ino data).

Definition unlink (parent : Z) (name : str) : M Z :=
  let str_name := str_resize MAX_ITEM_NAME_LEN (c_str name) in
  YfsLock parent (
    '(ret, data) ← getdata parent [];
    if negb (ret =? OK) then mret NOENT
    else
      let dir_info := StringToDirForm data (MkDirForm ∅ 0) in
      match dir_block_ dir_info !! str_name with
      | None => mret NOENT
      | Some ino =>
          if negb (isfile ino) then mret NOENT
          else
            let dir_info := MkDirForm (delete str_name (dir_block_ dir_info))
                              (dir_item_num_ dir_info) in
            let '(data, dir_info) := DirFormToString dir_info in
            ret ← putdata parent data;
            if negb (ret =? OK) then mret ret
            else
              YfsLock ino (
                st ← extent_op ino (ec_remove ino);
                mret (if negb (st =? extent_protocol.OK) then NOENT else OK))
      end).
End operations.

(** ** Running the monad *)

Lemma M_bind_run {A B} (m : M A) (f : A -> M B) y a y' :
  m y = Ret (a, y') -> (m ≫= f) y = f a y'.
Proof. intros Hm. unfold mbind, M_bind. by rewrite Hm. Qed.
Lemma M_bind_inv {A B} (m : M A) (f : A -> M B) y b y2 :
  (m ≫= f) y = Ret (b, y2) -> exists a y1, m y = Ret (a, y1) /\ f a y1 = Ret (b, y2).
Proof.
  unfold mbind, M_bind. intros Hb. apply bind_Ret_inv in Hb as ([a y1] & Em & Ef). eauto.
Qed.
Lemma lift_run {A} (o : outcome A) a y : o = Ret a -> lift o y = Ret (a, y).
Proof. by intros ->. Qed.

(** The state after a lock event. *)
Definition logged (y : yfs) (e : event) : yfs := Yfs (ew y) (trace y ++ [e]).

Lemma YfsLock_run {A} ino (body : M A) y r y' :
  body (logged y (Acquire ino)) = Ret (r, y') ->
  YfsLock ino body y = Ret (r, logged y' (Release ino)).
Proof.
  intros Hb. unfold YfsLock.
  rewrite (M_bind_run (log _) _ y tt (logged y (Acquire ino)) eq_refl).
  by rewrite (M_bind_run body _ _ r y' Hb).
Qed.

Ltac run H := rewrite (M_bind_run _ _ _ _ _ H); cbv beta iota;
  rewrite ?Z.eqb_refl; cbn [negb].

(** ** What the operations do to the extents *)

Section effects.
Context {E : ExtentClient} `{S : !ExtentClientSpec E, Beyond, MaxSize}.

Definition view (y : yfs) (ino : Z) : option str := ec_view (ew y) ino.
Definition healthy (y : yfs) : Prop := net_ok (ew y).

(** Outside [P] the extents are as they were. *)
Definition keeps (P : Z -> Prop) (y y' : yfs) : Prop :=
  healthy y' /\
  forall i, ~ P i -> view y' i = view y i /\
    (ec_sized (ew y) i -> ec_sized (ew y') i).
Definition quiet (y y' : yfs) : Prop := keeps (fun _ => False) y y'.

Lemma keeps_trans P y1 y2 y3 : keeps P y1 y2 -> keeps P y2 y3 -> keeps P y1 y3.
Proof.
  intros [_ H1] [Hh H2]. split; [done|]. intros i Hi.
  destruct (H1 i Hi), (H2 i Hi). split; [congruence|auto].
Qed.
Lemma keeps_weaken (P Q : Z -> Prop) y y' :
  keeps P y y' -> (forall i, P i -> Q i) -> keeps Q y y'.
Proof. intros [Hh Hk] HPQ. split; [done|]. intros i Hi. apply Hk. auto. Qed.
Lemma quiet_keeps P y y' : quiet y y' -> keeps P y y'.
Proof. intros Hq. eapply keeps_weaken; [done|]. done. Qed.
Lemma quiet_view y y' i : quiet y y' -> view y' i = view y i.
Proof. intros [_ Hq]. apply Hq; tauto. Qed.
Lemma quiet_refl y : healthy y -> quiet y y.
Proof. intros. split; [done|auto]. Qed.
Lemma keeps_logged P y y' e : keeps P y y' -> keeps P y (logged y' e).
Proof. done. Qed.
Lemma keeps_logged_l P y y' e : keeps P (logged y e) y' -> keeps P y y'.
Proof. done. Qed.

(** An extent call that leaves everything but [ino] alone, and [ino]'s content. *)
Lemma ec_frame_quiet w w' ino t t' :
  ec_frame ino w w' -> ec_view w' ino = ec_view w ino ->
  (ec_sized w ino -> ec_sized w' ino) -> quiet (Yfs w t) (Yfs w' t').
Proof.
  intros [Hn Hf] Hv Hz. split; [done|]. intros i _. unfold view; simpl.
  destruct (decide (i = ino)) as [->|Hi]; [done|]. by apply Hf.
Qed.

Lemma getdata_some y ino old s :
  healthy y -> view y ino = Some s ->
  exists y', getdata ino old y = Ret ((OK, s), y') /\ quiet y y' /\
    (forall f, ec_live f (ew y) -> ec_live f (ew y')).
Proof.
  intros Hh Hv.
  destruct (ec_get_some (ew y) ino old s Hh Hv) as (w' & Eg & Hf & Hv' & Hz & Hl).
  exists (Yfs w' (trace y ++ [Use ino])). split; [|split].
  - unfold getdata, extent_op, mbind, M_bind. by rewrite Eg.
  - destruct y as [w t]. eapply ec_frame_quiet; [done| |done]. by rewrite Hv'.
  - done.
Qed.
Lemma getdata_none y ino old :
  healthy y -> view y ino = None ->
  exists s y', getdata ino old y = Ret ((IOERR, s), y') /\ keeps (eq ino) y y'.
Proof.
  intros Hh Hv.
  destruct (ec_get_none (ew y) ino old Hh Hv) as (s & w' & Eg & Hn & Hf).
  exists s, (Yfs w' (trace y ++ [Use ino])). split.
  - unfold getdata, extent_op, mbind, M_bind. by rewrite Eg.
  - split; [done|]. intros i Hi. apply Hf. congruence.
Qed.
Lemma putdata_ok y ino data :
  healthy y ->
  exists y', putdata ino data y = Ret (OK, y') /\ keeps (eq ino) y y' /\
    view y' ino = Some data /\ (ec_sized (ew y) ino -> ec_sized (ew y') ino).
Proof.
  intros Hh. destruct (ec_put_ok (ew y) ino data Hh) as (w' & Ep & [Hn Hf] & Hv & Hz).
  exists (Yfs w' (trace y ++ [Use ino])). split; [|split; [|done]].
  - unfold putdata, extent_op, mbind, M_bind. by rewrite Ep.
  - split; [done|]. intros i Hi. apply Hf. congruence.
Qed.
Lemma getfile_some y ino fin s :
  healthy y -> view y ino = Some s ->
  exists fi y', getfile ino fin y = Ret ((OK, fi), y') /\ quiet y y' /\
    (ec_sized (ew y) ino -> fi_size fi = u32 (Z.of_nat (length s))).
Proof.
  intros Hh Hv.
  destruct (ec_getattr_some (ew y) ino attr0 s Hh Hv) as (a & w' & Eg & Hf & Hv' & Hz).
  eexists _, (Yfs w' (((trace y ++ [Acquire ino]) ++ [Release ino]) ++ [Use ino])).
  split; [|split].
  - unfold getfile, getfile_body, lock_statement, YfsLock, extent_op, mbind, M_bind; simpl.
    rewrite Eg. done.
  - destruct y as [w t]. eapply ec_frame_quiet; [done|by rewrite Hv'|]. intros Hs. by apply Hz.
  - intros Hs. simpl. by apply Hz.
Qed.
Lemma isfile_testbit ino : isfile ino = Z.testbit ino 31.
Proof.
  unfold isfile. change 0x80000000 with (2 ^ 31).
  assert (Z.land ino (2 ^ 31) = if Z.testbit ino 31 then 2 ^ 31 else 0) as ->; [|by destruct (Z.testbit ino 31)].
  apply Z.bits_inj'. intros n Hn. rewrite Z.land_spec, Z.pow2_bits_eqb by lia.
  destruct (Z.eqb_spec 31 n) as [<-|Hne].
  - rewrite andb_true_r. by destruct (Z.testbit ino 31).
  - rewrite andb_false_r. destruct (Z.testbit ino 31); [|by rewrite Z.bits_0].
    rewrite Z.pow2_bits_false; [done|lia].
Qed.
Lemma GetAvailInum_ok y (is_file : bool) :
  healthy y -> ec_live (if is_file then 1 else 0) (ew y) ->
  exists ino y', GetAvailInum is_file y = Ret (ino, y') /\ quiet y y' /\ is_u64 ino /\
    (ino <> 1 -> isfile ino = is_file).
Proof.
  intros Hh Hl. destruct (ec_getinode_live (ew y) 0 _ Hh Hl) as (b & ino & w' & Eg).
  destruct (ec_getinode_ok _ _ _ _ _ _ Hh Eg) as (-> & Hu & Hbit & Hf & Hv & Hz).
  exists ino, (Yfs w' (trace y)). split; [|split; [|split; [done|]]].
  - unfold GetAvailInum, server_op, mbind, M_bind. by rewrite Eg.
  - destruct y as [w t]. by eapply ec_frame_quiet.
  - intros Hne. rewrite isfile_testbit, Hbit by done. by destruct is_file.
Qed.
End effects.

(** ** Files: reading and writing ranges of bytes *)

(** The bytes from [off], at most [size] of them. *)
Definition slice (s : str) (off size : Z) : str :=
  take (Z.to_nat size) (drop (Z.to_nat off) s).
(** [buf] written over [s] at [off]; a gap is filled with NULs. *)
Definition overwrite (s : str) (off : Z) (buf : str) : str :=
  str_resize (Z.to_nat off) s ++ buf ++ drop (Z.to_nat off + length buf) s.

Lemma str_resize_lookup n s i :
  str_resize n s !! i =
    if decide (i < n)%nat then Some (default NUL (s !! i)) else None.
Proof.
  unfold str_resize. destruct (decide (i < n)%nat) as [Hi|Hi].
  - destruct (decide (i < length s)%nat) as [Hl|Hl].
    + rewrite lookup_app_l by (rewrite length_take; lia).
      rewrite lookup_take_lt by done.
      by destruct (lookup_lt_is_Some_2 s i Hl) as [c ->].
    + rewrite lookup_app_r by (rewrite length_take; lia).
      rewrite lookup_replicate_2 by (rewrite length_take; lia).
      by rewrite (lookup_ge_None_2 s) by lia.
  - apply lookup_ge_None_2. rewrite length_app, length_take, length_replicate. lia.
Qed.

(** What each byte of the result is. *)
Lemma overwrite_lookup s off buf i :
  0 <= off ->
  overwrite s off buf !! i =
    if decide (Z.of_nat i < off) then Some (default NUL (s !! i))
    else if decide (Z.of_nat i < off + Z.of_nat (length buf))
    then buf !! (i - Z.to_nat off)%nat else s !! i.
Proof.
  intros Ho. unfold overwrite. destruct (decide (Z.of_nat i < off)).
  - rewrite lookup_app_l by (rewrite length_str_resize; lia).
    rewrite str_resize_lookup, decide_True by lia. done.
  - rewrite lookup_app_r by (rewrite length_str_resize; lia). rewrite length_str_resize.
    destruct (decide (Z.of_nat i < off + Z.of_nat (length buf))).
    + by rewrite lookup_app_l by lia.
    + rewrite lookup_app_r by lia. rewrite lookup_drop. f_equal. lia.
Qed.
Lemma length_overwrite s off buf :
  0 <= off ->
  Z.of_nat (length (overwrite s off buf)) =
    Z.max (Z.of_nat (length s)) (off + Z.of_nat (length buf)).
Proof.
  intros. unfold overwrite. rewrite !length_app, length_str_resize, length_drop. lia.
Qed.

Lemma slice_overwrite s off buf :
  0 <= off -> slice (overwrite s off buf) off (Z.of_nat (length buf)) = buf.
Proof.
  intros. unfold slice, overwrite. rewrite Nat2Z.id.
  rewrite drop_app_length' by by rewrite length_str_resize.
  by rewrite take_app_length.
Qed.

Section files.
Context {E : ExtentClient} `{S : !ExtentClientSpec E, Beyond, MaxSize}.
Context (max_pos : 0 <= max_size < 2 ^ 63).

Lemma read_some y ino size off buf s :
  healthy y -> view y ino = Some s -> 0 <= off < 2 ^ 63 -> 0 <= size < 2 ^ 63 ->
  Z.of_nat (length s) <= max_size ->
  exists y', read ino size off buf y = Ret ((OK, slice s off size), y') /\ quiet y y'.
Proof using max_pos S.
  intros Hh Hv Ho Hs Hl.
  destruct (getdata_some (logged y (Acquire ino)) ino [] s Hh Hv) as (y1 & Eg & Q & _).
  exists (logged y1 (Release ino)). split; [|done].
  apply YfsLock_run. run Eg. unfold slice.
  rewrite (u64_id off), (u64_id (off + size)) by width.
  destruct (Z.leb_spec (Z.of_nat (length s)) off).
  { by rewrite drop_ge, take_nil by lia. }
  unfold substr. rewrite (proj2 (Z.ltb_ge _ off)) by lia. unfold npos.
  destruct (Z.ltb_spec (Z.of_nat (length s)) (off + size)); [|done].
  unfold lift, mbind, M_bind; simpl.
  rewrite !take_ge by (rewrite length_drop; width). done.
Qed.

Lemma read_none y ino size off buf :
  healthy y -> view y ino = None ->
  exists y', read ino size off buf y = Ret ((NOENT, buf), y') /\ keeps (eq ino) y y'.
Proof using S.
  intros Hh Hv.
  destruct (getdata_none (logged y (Acquire ino)) ino [] Hh Hv) as (s & y1 & Eg & Q).
  exists (logged y1 (Release ino)). split; [|done].
  apply YfsLock_run. by run Eg.
Qed.

(** The string operations of [write] compute [overwrite]. *)
Lemma write_string s size off buf :
  0 <= off -> 0 <= size <= Z.of_nat (length buf) -> off + size <= max_size ->
  Z.of_nat (length s) <= max_size ->
  (data ← (if Z.of_nat (length s) <? u64 off then resize s (u64 off) else Ret s);
   write_data ← substr data 0 (u64 off);
   chunk ← buffer buf size;
   if Z.of_nat (length data) <? u64 (off + size) then append write_data chunk
   else write_data ← append write_data chunk;
        rest ← substr data (u64 (off + size)) npos;
        append write_data rest) =
  Ret (overwrite s off (take (Z.to_nat size) buf)).
Proof using max_pos.
  intros Ho Hs Hm Hl. rewrite (u64_id off), (u64_id (off + size)) by width.
  unfold overwrite. set (chunk := take (Z.to_nat size) buf).
  assert (Z.of_nat (length chunk) = size) as Hc by (unfold chunk; rewrite length_take; lia).
  assert (buffer buf size = Ret chunk) as Hbuf.
  { unfold buffer. by rewrite (proj2 (Z.ltb_ge _ size)) by lia. }
  assert (forall a b, Z.of_nat (length (a ++ b)) <= max_size -> append a b = Ret (a ++ b)) as Happ.
  { intros a b Hab. unfold append. by rewrite (proj2 (Z.ltb_ge _ _)) by done. }
  assert (exists data, (if Z.of_nat (length s) <? off then resize s off else Ret s) = Ret data /\
    take (Z.to_nat off) data = str_resize (Z.to_nat off) s /\
    (length data = Nat.max (length s) (Z.to_nat off))%nat /\
    forall n, (Z.to_nat off <= n)%nat -> drop n data = drop n s) as (data & -> & Ht & Hd & Hdrop).
  { destruct (Z.ltb_spec (Z.of_nat (length s)) off).
    - exists (str_resize (Z.to_nat off) s). unfold resize.
      rewrite (proj2 (Z.ltb_ge _ off)) by lia. split; [done|]. rewrite length_str_resize.
      split; [by rewrite take_ge by (rewrite length_str_resize; lia)|]. split; [lia|].
      intros n Hn. rewrite !drop_ge; [done|lia|rewrite length_str_resize; lia].
    - exists s. split; [done|]. unfold str_resize.
      rewrite (proj2 (Nat.sub_0_le (Z.to_nat off) (length s))) by lia.
      split; [by rewrite app_nil_r|]. split; [lia|done]. }
  assert (substr data 0 off = Ret (str_resize (Z.to_nat off) s)) as Hsub.
  { unfold substr. rewrite (proj2 (Z.ltb_ge _ 0)) by lia. by rewrite drop_0, Ht. }
  simpl. rewrite Hsub, Hbuf. simpl.
  destruct (Z.ltb_spec (Z.of_nat (length data)) (off + size)).
  - rewrite Happ by (rewrite length_app, length_str_resize; lia).
    rewrite (drop_ge s) by lia. by rewrite app_nil_r.
  - rewrite Happ by (rewrite length_app, length_str_resize; lia). simpl.
    unfold substr. rewrite (proj2 (Z.ltb_ge _ (off + size))) by lia. simpl.
    rewrite Hdrop by lia. rewrite take_ge by (rewrite length_drop; unfold npos; width).
    replace (Z.to_nat (off + size)) with (Z.to_nat off + length chunk)%nat by lia.
    rewrite Happ; [by rewrite app_assoc|].
    rewrite !length_app, length_str_resize, length_drop. lia.
Qed.

Lemma write_some y ino size off buf s :
  healthy y -> view y ino = Some s -> 0 <= off ->
  0 <= size <= Z.of_nat (length buf) -> off + size <= max_size ->
  Z.of_nat (length s) <= max_size ->
  exists y', write ino size off buf y = Ret (OK, y') /\ keeps (eq ino) y y' /\
    view y' ino = Some (overwrite s off (take (Z.to_nat size) buf)) /\
    (ec_sized (ew y) ino -> ec_sized (ew y') ino).
Proof using max_pos S.
  intros Hh Hv Ho Hs Hm Hl.
  destruct (getdata_some (logged y (Acquire ino)) ino [] s Hh Hv) as (y1 & Eg & Q & _).
  pose proof (write_string s size off buf Ho Hs Hm Hl) as W.
  apply bind_Ret_inv in W as (data & E1 & W). apply bind_Ret_inv in W as (wd & E2 & W).
  apply bind_Ret_inv in W as (chunk & E3 & W).
  set (new := overwrite s off (take (Z.to_nat size) buf)) in *.
  destruct (putdata_ok y1 ino new (proj1 Q)) as (y2 & Ep & K & Hv' & Hz).
  exists (logged y2 (Release ino)). split.
  - apply YfsLock_run. run Eg. run (lift_run _ _ y1 E1). run (lift_run _ _ y1 E2).
    run (lift_run _ _ y1 E3). run (lift_run _ _ y1 W). done.
  - split; [|split; [done|]].
    + apply (keeps_trans _ _ y1); [by apply quiet_keeps|done].
    + intros Hsz. apply Hz. by apply Q; [tauto|].
Qed.

Lemma setattr_some y ino st_size s :
  healthy y -> view y ino = Some s -> 0 <= st_size <= max_size ->
  exists y', setattr ino st_size y = Ret (OK, y') /\ keeps (eq ino) y y' /\
    view y' ino = Some (str_resize (Z.to_nat st_size) s) /\
    (ec_sized (ew y) ino -> ec_sized (ew y') ino).
Proof using max_pos S.
  intros Hh Hv Hs.
  destruct (getdata_some (logged y (Acquire ino)) ino [] s Hh Hv) as (y1 & Eg & Q & _).
  destruct (putdata_ok y1 ino (str_resize (Z.to_nat st_size) s) (proj1 Q))
    as (y2 & Ep & K & Hv' & Hz).
  exists (logged y2 (Release ino)). split.
  - apply YfsLock_run. run Eg. rewrite (u64_id st_size) by width.
    assert (resize s st_size = Ret (str_resize (Z.to_nat st_size) s)) as Er.
    { unfold resize. by rewrite (proj2 (Z.ltb_ge _ st_size)) by lia. }
    run (lift_run _ _ y1 Er). done.
  - split; [|split; [done|]].
    + apply (keeps_trans _ _ y1); [by apply quiet_keeps|done].
    + intros Hsz. apply Hz. by apply Q; [tauto|].
Qed.
End files.

(** ** Directories *)

(** The name as it is stored: truncated or padded to 1024 bytes. *)
Definition key (name : str) : str := str_resize MAX_ITEM_NAME_LEN (c_str name).

Section directories.
Context {E : ExtentClient} `{S : !ExtentClientSpec E, Beyond, MaxSize}.

(** The extent [ino] holds the directory [d]. *)
Definition is_dir (y : yfs) (ino : Z) (d : gmap str Z) : Prop :=
  exists data, view y ino = Some data /\
    dir_block_ (StringToDirForm data (MkDirForm ∅ 0)) = d /\ dir_ok d.

Lemma is_dir_view y y' ino d : view y' ino = view y ino -> is_dir y ino d -> is_dir y' ino d.
Proof. unfold is_dir. by intros ->. Qed.
Lemma is_dir_empty y ino : view y ino = Some [] -> is_dir y ino ∅.
Proof.
  intros Hv. exists []. split; [done|]. split; [by apply StringToDirForm_short; simpl; lia|].
  split; [apply map_Forall_empty|]. vm_compute. done.
Qed.
Lemma is_dir_written y ino d :
  dir_ok (dir_block_ d) -> view y ino = Some (DirFormToString d).1 ->
  is_dir y ino (dir_block_ d).
Proof.
  intros Hd Hv. eexists. split; [done|]. by rewrite dirform_parse_print.
Qed.
Lemma dir_ok_insert d nm ino :
  dir_ok d -> is_u64 ino -> length nm = MAX_ITEM_NAME_LEN ->
  Z.of_nat (base.size d) + 1 < 2 ^ 31 -> dir_ok (<[nm := ino]> d).
Proof.
  intros [Hn Hs] Hu Hl Hsz. split; [by apply map_Forall_insert_2|].
  destruct (d !! nm) eqn:Ed.
  - by rewrite map_size_insert_Some by eauto.
  - rewrite map_size_insert_None by done. lia.
Qed.
Lemma dir_ok_delete d nm : dir_ok d -> dir_ok (delete nm d).
Proof.
  intros [Hn Hs]. split; [by apply map_Forall_delete|].
  pose proof (map_subseteq_size _ _ (delete_subseteq d nm)). lia.
Qed.

Lemma lookup_dir y parent name found imun d :
  healthy y -> is_dir y parent d ->
  exists y', yfs_lookup parent name found imun y =
    Ret (match d !! key name with
         | Some ino => (OK, true, ino)
         | None => (OK, found, imun)
         end, y') /\ quiet y y'.
Proof using S.
  intros Hh (data & Hv & Hd & _).
  destruct (getdata_some (logged y (Acquire parent)) parent [] data Hh Hv) as (y1 & Eg & Q & _).
  exists (logged y1 (Release parent)). split; [|done].
  apply YfsLock_run. run Eg. rewrite Hd. fold (key name). by destruct (d !! key name).
Qed.

Lemma readdir_dir y ino d :
  healthy y -> is_dir y ino d ->
  exists f y', readdir (MkDirForm ∅ 0) ino y = Ret ((OK, f), y') /\
    dir_block_ f = d /\ quiet y y'.
Proof using S.
  intros Hh (data & Hv & Hd & _).
  destruct (getdata_some (logged y (Acquire ino)) ino [] data Hh Hv) as (y1 & Eg & Q & _).
  exists (StringToDirForm data (MkDirForm ∅ 0)), (logged y1 (Release ino)).
  split; [|done]. apply YfsLock_run. by run Eg.
Qed.

Lemma create_exists is_file y parent name old d ino :
  healthy y -> is_dir y parent d -> d !! key name = Some ino ->
  exists y', create_item is_file parent name old y = Ret ((EXIST, old), y') /\ quiet y y'.
Proof using S.
  intros Hh (data & Hv & Hd & _) Hin.
  destruct (getdata_some (logged y (Acquire parent)) parent [] data Hh Hv) as (y1 & Eg & Q & _).
  exists (logged y1 (Release parent)). split; [|done].
  apply YfsLock_run. run Eg. rewrite Hd. fold (key name).
  rewrite bool_decide_true by (rewrite Hin; eauto). done.
Qed.

(** A new entry.  [ino] is the number the server chose; if it is the
    parent's own, the directory is overwritten. *)
Lemma create_new (is_file : bool) y parent name old d :
  healthy y -> is_dir y parent d -> d !! key name = None ->
  Z.of_nat (base.size d) + 1 < 2 ^ 31 -> ec_live (if is_file then 1 else 0) (ew y) ->
  exists ino y', is_u64 ino /\
    (ino <> 1 -> isfile ino = is_file) /\
    create_item is_file parent name old y =
      Ret (if ino =? 0 then NOENT else OK, ino, y') /\
    (ino = 0 -> quiet y y') /\
    (ino <> 0 -> healthy y' /\ view y' ino = Some [] /\
      (ino <> parent ->
       keeps (fun i => i = parent \/ i = ino) y y' /\
       is_dir y' parent (<[key name := ino]> d))).
Proof using S.
  intros Hh (data & Hv & Hd & Hok) Hnew Hsz Hlive.
  destruct (getdata_some (logged y (Acquire parent)) parent [] data Hh Hv)
    as (y1 & Eg & Q & Hl).
  destruct (GetAvailInum_ok y1 is_file (proj1 Q) (Hl _ Hlive)) as (ino & y2 & Ei & Q2 & Hu & Hf).
  exists ino. unfold create_item. fold (key name).
  destruct (decide (ino = 0)) as [->|Hne].
  { exists (logged y2 (Release parent)). split; [done|]. split; [done|].
    split; [|split; [intros _; by eapply keeps_trans|done]].
    apply YfsLock_run. run Eg. rewrite Hd, bool_decide_false by (rewrite Hnew; by intros []).
    run Ei. done. }
  set (form := MkDirForm (<[key name := ino]> d)
                 (dir_item_num_ (StringToDirForm data (MkDirForm ∅ 0)))).
  assert (dir_ok (dir_block_ form)) as Hok'.
  { apply dir_ok_insert; [done|done|apply length_str_resize|done]. }
  destruct (putdata_ok y2 parent (DirFormToString form).1 (proj1 Q2)) as (y3 & Ep & K3 & Hv3 & _).
  destruct (putdata_ok y3 ino [] (proj1 K3)) as (y4 & Ep' & K4 & Hv4 & _).
  destruct (getfile_some y4 ino (Fileinfo 0 0 0 0) [] (proj1 K4) Hv4) as (fi & y5 & Ef & Q5 & _).
  exists (logged y5 (Release parent)). split; [done|]. split; [done|]. split; [|split; [done|]].
  - rewrite (proj2 (Z.eqb_neq ino 0) Hne).
    apply YfsLock_run. run Eg. rewrite Hd, bool_decide_false by (rewrite Hnew; by intros []).
    run Ei. rewrite (proj2 (Z.eqb_neq ino 0) Hne). fold form.
    rewrite (surjective_pairing (DirFormToString form)); cbv beta iota.
    run Ep. run Ep'. run Ef. done.
  - intros _. split; [apply Q5|]. split.
    { change (view (logged y5 (Release parent)) ino) with (view y5 ino).
      by rewrite (quiet_view _ _ _ Q5). }
    intros Hpar. split.
    + apply (keeps_trans _ _ y1); [by apply quiet_keeps|].
      apply (keeps_trans _ _ y2); [by apply quiet_keeps|].
      apply (keeps_trans _ _ y3); [eapply keeps_weaken; [done|by left]|].
      apply (keeps_trans _ _ y4); [eapply keeps_weaken; [done|by right]|].
      by apply quiet_keeps.
    + apply (is_dir_written _ _ form Hok').
      change (view (logged y5 (Release parent)) parent) with (view y5 parent).
      rewrite (quiet_view _ _ _ Q5). destruct K4 as [_ K4].
      by destruct (K4 parent) as [-> _]; [congruence|].
Qed.

Lemma unlink_refused y parent name d :
  healthy y -> is_dir y parent d ->
  (forall ino, d !! key name = Some ino -> isfile ino = false) ->
  exists y', unlink parent name y = Ret (NOENT, y') /\ quiet y y'.
Proof using S.
  intros Hh (data & Hv & Hd & _) Hno.
  destruct (getdata_some (logged y (Acquire parent)) parent [] data Hh Hv) as (y1 & Eg & Q & _).
  exists (logged y1 (Release parent)). split; [|done].
  apply YfsLock_run. run Eg. rewrite Hd. fold (key name).
  destruct (d !! key name) as [ino|]; [|done]. by rewrite (Hno ino).
Qed.

Lemma unlink_file y parent name d ino s :
  healthy y -> is_dir y parent d -> d !! key name = Some ino -> isfile ino = true ->
  view y ino = Some s -> ino <> parent ->
  exists y', unlink parent name y = Ret (OK, y') /\
    keeps (fun i => i = parent \/ i = ino) y y' /\ is_dir y' parent (delete (key name) d).
Proof using S.
  intros Hh (data & Hv & Hd & Hok) Hin Hfile Hs Hpar.
  destruct (getdata_some (logged y (Acquire parent)) parent [] data Hh Hv) as (y1 & Eg & Q & _).
  set (form := MkDirForm (delete (key name) d)
                 (dir_item_num_ (StringToDirForm data (MkDirForm ∅ 0)))).
  destruct (putdata_ok y1 parent (DirFormToString form).1 (proj1 Q)) as (y2 & Ep & K2 & Hv2 & _).
  assert (view y2 ino = Some s) as Hs2.
  { destruct K2 as [_ K2]. destruct (K2 ino) as [-> _]; [congruence|].
    by rewrite (quiet_view _ _ _ Q). }
  destruct (ec_remove_some (ew y2) ino s (proj1 K2) Hs2) as (w3 & Er & Hn3 & Hf3).
  set (y3 := Yfs w3 ((trace y2 ++ [Acquire ino]) ++ [Use ino])).
  assert (keeps (eq ino) y2 y3) as K3.
  { split; [done|]. intros i Hi. apply Hf3. congruence. }
  exists (logged (logged y3 (Release ino)) (Release parent)). split; [|split].
  - apply YfsLock_run. run Eg. rewrite Hd. fold (key name). rewrite Hin, Hfile; cbn [negb].
    fold form. rewrite (surjective_pairing (DirFormToString form)); cbv beta iota.
    run Ep. apply YfsLock_run.
    unfold extent_op, mbind, M_bind. simpl. rewrite Er. done.
  - apply (keeps_trans _ _ y1); [by apply quiet_keeps|].
    apply (keeps_trans _ _ y2); [eapply keeps_weaken; [done|by left]|].
    eapply (keeps_weaken (eq ino) _ y2 y3); [done|by right].
  - apply (is_dir_written _ _ form); [by apply dir_ok_delete|].
    change (view y3 parent = Some (DirFormToString form).1).
    destruct K3 as [_ K3]. by destruct (K3 parent) as [-> _]; [congruence|].
Qed.
End directories.

(** ** The abstract file system

    A file system is a map from inode numbers to files and directories; the
    steps below are what the operations promise. *)

Inductive node := File (s : str) | Dir (d : gmap str Z).
Abbreviation fs := (gmap Z node).

Inductive fsop :=
  | OpRead (ino size off : Z)
  | OpWrite (ino off : Z) (buf : str)
  | OpSetattr (ino st_size : Z)
  | OpCreate (is_file : bool) (parent : Z) (name : str)
  | OpLookup (parent : Z) (name : str)
  | OpUnlink (parent : Z) (name : str)
  | OpReaddir (ino : Z).

Inductive fsres :=
  | RStatus (st : Z)
  | RData (st : Z) (buf : str)
  | RIno (st ino : Z)
  | RFound (st : Z) (found : bool) (ino : Z)
  | RDir (st : Z) (d : gmap str Z).

Definition new_node (is_file : bool) : node := if is_file then File [] else Dir ∅.

Inductive fs_step (F : fs) : fsop -> fsres -> fs -> Prop :=
  | step_read ino size off s :
      F !! ino = Some (File s) ->
      fs_step F (OpRead ino size off) (RData OK (slice s off size)) F
  | step_write ino off buf s :
      F !! ino = Some (File s) ->
      fs_step F (OpWrite ino off buf) (RStatus OK) (<[ino := File (overwrite s off buf)]> F)
  | step_setattr ino n s :
      F !! ino = Some (File s) ->
      fs_step F (OpSetattr ino n) (RStatus OK) (<[ino := File (str_resize (Z.to_nat n) s)]> F)
  | step_create_exists b parent name d i :
      F !! parent = Some (Dir d) -> d !! key name = Some i ->
      fs_step F (OpCreate b parent name) (RIno EXIST 0) F
  | step_create_full b parent name d :
      F !! parent = Some (Dir d) -> d !! key name = None ->
      fs_step F (OpCreate b parent name) (RIno NOENT 0) F
  | step_create b parent name d ino :
      F !! parent = Some (Dir d) -> d !! key name = None -> F !! ino = None ->
      (ino <> 1 -> isfile ino = b) ->
      fs_step F (OpCreate b parent name) (RIno OK ino)
        (<[ino := new_node b]> (<[parent := Dir (<[key name := ino]> d)]> F))
  | step_lookup parent name d :
      F !! parent = Some (Dir d) ->
      fs_step F (OpLookup parent name)
        (match d !! key name with
         | Some ino => RFound OK true ino
         | None => RFound OK false 0
         end) F
  | step_unlink parent name d ino s :
      F !! parent = Some (Dir d) -> d !! key name = Some ino -> isfile ino = true ->
      F !! ino = Some (File s) ->
      fs_step F (OpUnlink parent name) (RStatus OK)
        (delete ino (<[parent := Dir (delete (key name) d)]> F))
  | step_unlink_refused parent name d :
      F !! parent = Some (Dir d) ->
      (forall ino, d !! key name = Some ino -> isfile ino = false) ->
      fs_step F (OpUnlink parent name) (RStatus NOENT) F
  | step_readdir ino d :
      F !! ino = Some (Dir d) ->
      fs_step F (OpReaddir ino) (RDir OK d) F.

Section refinement.
Context {E : ExtentClient} `{S : !ExtentClientSpec E, Beyond, MaxSize}.

Definition run_fsop (op : fsop) : M fsres :=
  match op with
  | OpRead ino size off => '(st, buf) ← read ino size off []; mret (RData st buf)
  | OpWrite ino off buf =>
      st ← write ino (Z.of_nat (length buf)) off buf; mret (RStatus st)
  | OpSetattr ino n => st ← setattr ino n; mret (RStatus st)
  | OpCreate b parent name =>
      '(st, ino) ← create_item b parent name 0; mret (RIno st ino)
  | OpLookup parent name =>
      '(st, found, ino) ← yfs_lookup parent name false 0; mret (RFound st found ino)
  | OpUnlink parent name => st ← unlink parent name; mret (RStatus st)
  | OpReaddir ino =>
      '(st, f) ← readdir (MkDirForm ∅ 0) ino; mret (RDir st (dir_block_ f))
  end.

(** The extents hold the file system. *)
Definition represents (y : yfs) (ino : Z) (n : node) : Prop :=
  match n with
  | File s => view y ino = Some s /\ Z.of_nat (length s) <= max_size
  | Dir d => is_dir y ino d
  end.
Definition rep (F : fs) (y : yfs) : Prop := healthy y /\ map_Forall (represents y) F.

(** What the caller and the environment owe: the node exists and has the
    right type, the offsets fit, names in directories are not dangling, and
    the server will draw an inode number that is free. *)
Definition enabled (F : fs) (op : fsop) (y : yfs) : Prop :=
  match op with
  | OpRead ino size off =>
      (exists s, F !! ino = Some (File s)) /\ 0 <= off < 2 ^ 63 /\ 0 <= size < 2 ^ 63
  | OpWrite ino off buf =>
      (exists s, F !! ino = Some (File s)) /\ 0 <= off /\
      off + Z.of_nat (length buf) <= max_size
  | OpSetattr ino n => (exists s, F !! ino = Some (File s)) /\ 0 <= n <= max_size
  | OpCreate b parent name =>
      (exists d, F !! parent = Some (Dir d) /\ Z.of_nat (base.size d) + 1 < 2 ^ 31) /\
      ec_live (if b then 1 else 0) (ew y)
  | OpLookup parent _ => exists d, F !! parent = Some (Dir d)
  | OpUnlink parent name =>
      exists d, F !! parent = Some (Dir d) /\
        forall ino, d !! key name = Some ino -> isfile ino = true ->
          exists s, F !! ino = Some (File s)
  | OpReaddir ino => exists d, F !! ino = Some (Dir d)
  end.

(** The number drawn is in use by an extent the server does not know yet. *)
Definition clash (F : fs) (res : fsres) : Prop :=
  exists ino, res = RIno OK ino /\ is_Some (F !! ino).

Lemma represents_keeps (P : Z -> Prop) y y' i n :
  keeps P y y' -> ~ P i -> represents y i n -> represents y' i n.
Proof.
  intros [_ Hk] Hi. destruct (Hk i Hi) as [Hv _].
  destruct n; simpl; [by rewrite Hv|by apply is_dir_view].
Qed.
Lemma rep_quiet F y y' : rep F y -> quiet y y' -> rep F y'.
Proof.
  intros [_ HF] Q. split; [apply Q|]. intros i n Hi.
  eapply represents_keeps; [done|tauto|]. by apply HF.
Qed.
(** One node is replaced. *)
Lemma rep_insert F y y' i n :
  rep F y -> keeps (eq i) y y' -> represents y' i n -> rep (<[i := n]> F) y'.
Proof.
  intros [_ HF] K Hn. split; [apply K|]. intros j m.
  destruct (decide (i = j)) as [->|Hij].
  - rewrite lookup_insert_eq. by intros [= <-].
  - rewrite lookup_insert_ne by done. intros Hj.
    eapply represents_keeps; [done|done|]. by apply HF.
Qed.
(** A directory is replaced, and [ino] created or deleted. *)
Lemma rep_two F y y' parent d ino :
  rep F y -> keeps (fun i => i = parent \/ i = ino) y y' -> is_dir y' parent d ->
  rep (delete ino (<[parent := Dir d]> F)) y' /\
  forall n, represents y' ino n -> rep (<[ino := n]> (<[parent := Dir d]> F)) y'.
Proof.
  intros [_ HF] K Hd.
  assert (forall j m, j <> ino -> <[parent := Dir d]> F !! j = Some m -> represents y' j m) as Hj.
  { intros j m Hj. destruct (decide (parent = j)) as [->|Hp].
    - rewrite lookup_insert_eq. by intros [= <-].
    - rewrite lookup_insert_ne by done. intros Hm.
      eapply represents_keeps; [done|naive_solver|]. by apply HF. }
  split; [|intros n Hn]; (split; [apply K|]); intros j m.
  - rewrite lookup_delete_Some. intros []. by apply Hj.
  - destruct (decide (ino = j)) as [->|Hne].
    + rewrite lookup_insert_eq. by intros [= <-].
    + rewrite lookup_insert_ne by done. by apply Hj.
Qed.

(** An operation ran and the abstract file system can follow. *)
Definition follows (F : fs) (op : fsop) (y : yfs) : Prop :=
  exists res y', run_fsop op y = Ret (res, y') /\
    ((exists F', fs_step F op res F' /\ rep F' y') \/ clash F res).

Lemma run_map {A} (m : M A) (f : A -> fsres) y a y' :
  m y = Ret (a, y') -> (m ≫= fun a => mret (f a)) y = Ret (f a, y').
Proof. intros Hm. by rewrite (M_bind_run _ _ _ _ _ Hm). Qed.

Lemma follows_step F op y res y' F' :
  run_fsop op y = Ret (res, y') -> fs_step F op res F' -> rep F' y' -> follows F op y.
Proof. intros. exists res, y'. eauto. Qed.

Context (max_pos : 0 <= max_size < 2 ^ 63).

Lemma follows_read F y ino size off :
  rep F y -> enabled F (OpRead ino size off) y -> follows F (OpRead ino size off) y.
Proof using max_pos S.
  intros HR ((s & Hs) & Ho & Hsz). destruct (proj2 HR _ _ Hs) as [Hv Hl].
  destruct (read_some max_pos y ino size off [] s (proj1 HR) Hv Ho Hsz Hl) as (y' & Er & Q).
  eapply follows_step; [simpl; by run Er|by constructor|by eapply rep_quiet].
Qed.
Lemma follows_write F y ino off buf :
  rep F y -> enabled F (OpWrite ino off buf) y -> follows F (OpWrite ino off buf) y.
Proof using max_pos S.
  intros HR ((s & Hs) & Ho & Hm). destruct (proj2 HR _ _ Hs) as [Hv Hl].
  destruct (write_some max_pos y ino (Z.of_nat (length buf)) off buf s (proj1 HR) Hv Ho)
    as (y' & Er & K & Hv' & _); [lia|done|done|].
  rewrite Nat2Z.id, take_ge in Hv' by done.
  eapply follows_step; [simpl; by run Er|by constructor|].
  apply (rep_insert F y); [done|done|]. split; [done|]. rewrite length_overwrite by done. lia.
Qed.
Lemma follows_setattr F y ino n :
  rep F y -> enabled F (OpSetattr ino n) y -> follows F (OpSetattr ino n) y.
Proof using max_pos S.
  intros HR ((s & Hs) & Hn). destruct (proj2 HR _ _ Hs) as [Hv Hl].
  destruct (setattr_some max_pos y ino n s (proj1 HR) Hv Hn) as (y' & Er & K & Hv' & _).
  eapply follows_step; [simpl; by run Er|by constructor|].
  apply (rep_insert F y); [done|done|]. split; [done|]. rewrite length_str_resize. lia.
Qed.
(** [create] and [mkdir]; a new item is empty, whatever its number. *)
Lemma create_item_follows F y b parent name :
  rep F y -> enabled F (OpCreate b parent name) y ->
  exists st ino y', create_item b parent name 0 y = Ret ((st, ino), y') /\
    (st = OK -> healthy y' /\ view y' ino = Some []) /\
    ((exists F', fs_step F (OpCreate b parent name) (RIno st ino) F' /\ rep F' y') \/
     clash F (RIno st ino)).
Proof using max_pos S.
  intros HR ((d & Hd & Hsz) & Hl). pose proof (proj2 HR _ _ Hd) as Hdir; simpl in Hdir.
  destruct (d !! key name) as [i|] eqn:Hk.
  { destruct (create_exists b y parent name 0 d i (proj1 HR) Hdir Hk) as (y' & Er & Q).
    exists EXIST, 0, y'. split; [done|]. split; [done|]. left. eexists.
    split; [by econstructor|by eapply rep_quiet]. }
  destruct (create_new b y parent name 0 d (proj1 HR) Hdir Hk Hsz Hl)
    as (ino & y' & Hu & Hf & Er & Hzero & Hnew).
  destruct (Z.eqb_spec ino 0) as [->|Hne].
  { exists NOENT, 0, y'. split; [done|]. split; [done|]. left. eexists.
    split; [by econstructor|]. eapply rep_quiet; [done|by apply Hzero]. }
  destruct Hnew as (Hh' & Hv' & Hk'); [done|]. exists OK, ino, y'. split; [done|]. split; [done|].
  destruct (F !! ino) eqn:Hino; [right; exists ino; eauto|left].
  destruct Hk' as (K & Hdir'); [congruence|]. eexists. split; [by econstructor|].
  apply (rep_two F y y' parent _ ino HR K Hdir'). destruct b; simpl.
  - split; [done|]. simpl. lia.
  - by apply is_dir_empty.
Qed.
Lemma follows_create F y b parent name :
  rep F y -> enabled F (OpCreate b parent name) y -> follows F (OpCreate b parent name) y.
Proof using max_pos S.
  intros HR He. destruct (create_item_follows F y b parent name HR He) as (st & ino & y' & Er & _ & Hs).
  exists (RIno st ino), y'. split; [simpl; by run Er|done].
Qed.
Lemma follows_lookup F y parent name :
  rep F y -> enabled F (OpLookup parent name) y -> follows F (OpLookup parent name) y.
Proof using S.
  intros HR (d & Hd). pose proof (proj2 HR _ _ Hd) as Hdir; simpl in Hdir.
  destruct (lookup_dir y parent name false 0 d (proj1 HR) Hdir) as (y' & Er & Q).
  eapply follows_step; [|by econstructor|by eapply rep_quiet].
  simpl. run Er. by destruct (d !! key name).
Qed.
Lemma follows_unlink F y parent name :
  rep F y -> enabled F (OpUnlink parent name) y -> follows F (OpUnlink parent name) y.
Proof using max_pos S.
  intros HR (d & Hd & Hdang). pose proof (proj2 HR _ _ Hd) as Hdir; simpl in Hdir.
  destruct (d !! key name) as [ino|] eqn:Hk.
  - destruct (isfile ino) eqn:Hfile.
    + destruct (Hdang ino eq_refl Hfile) as (s & Hs). destruct (proj2 HR _ _ Hs) as [Hv _].
      destruct (unlink_file y parent name d ino s (proj1 HR) Hdir Hk Hfile Hv)
        as (y' & Er & K & Hdir'); [congruence|].
      eapply follows_step; [simpl; by run Er|by econstructor|].
      by apply (rep_two F y y' parent _ ino HR K Hdir').
    + destruct (unlink_refused y parent name d (proj1 HR) Hdir) as (y' & Er & Q); [naive_solver|].
      eapply follows_step; [simpl; by run Er|econstructor; naive_solver|by eapply rep_quiet].
  - destruct (unlink_refused y parent name d (proj1 HR) Hdir) as (y' & Er & Q); [naive_solver|].
    eapply follows_step; [simpl; by run Er|econstructor; naive_solver|by eapply rep_quiet].
Qed.
Lemma follows_readdir F y ino :
  rep F y -> enabled F (OpReaddir ino) y -> follows F (OpReaddir ino) y.
Proof using max_pos S.
  intros HR (d & Hd). pose proof (proj2 HR _ _ Hd) as Hdir; simpl in Hdir.
  destruct (readdir_dir y ino d (proj1 HR) Hdir) as (f & y' & Er & <- & Q).
  eapply follows_step; [simpl; by run Er|by econstructor|by eapply rep_quiet].
Qed.
End refinement.

(** ** The locking discipline *)

(** Locks are released in the reverse order and an extent is used only while
    its lock is held. *)
Fixpoint disciplined (held : list Z) (es : list event) : bool :=
  match es with
  | [] => bool_decide (held = [])
  | Acquire i :: es => disciplined (i :: held) es
  | Release i :: es =>
      match held with
      | j :: held => bool_decide (i = j) && disciplined held es
      | [] => false
      end
  | Use i :: es => bool_decide (i ∈ held) && disciplined held es
  end.

(** [m], run while [held] is held, obeys and leaves [held] held. *)
Definition obeys {A} (held : list Z) (m : M A) : Prop :=
  forall y a y', m y = Ret (a, y') ->
    exists es, trace y' = trace y ++ es /\
      forall rest, disciplined held (es ++ rest) = disciplined held rest.

Section discipline.
Context {E : ExtentClient} `{Beyond, MaxSize}.

Lemma obeys_ret {A} held (a : A) : obeys held (mret a).
Proof. intros y a' y' [= _ <-]. exists []. by rewrite app_nil_r. Qed.
Lemma obeys_lift {A} held (o : outcome A) : obeys held (lift o).
Proof.
  intros y a y'. unfold lift. destruct o; simpl; try done. intros [= _ <-].
  exists []. by rewrite app_nil_r.
Qed.
Lemma obeys_bind {A B} held (m : M A) (f : A -> M B) :
  obeys held m -> (forall a, obeys held (f a)) -> obeys held (m ≫= f).
Proof.
  intros Hm Hf y b y'. unfold mbind, M_bind.
  destruct (m y) as [[a y1]| | |] eqn:Em; simpl; try done. intros Ef.
  destruct (Hm _ _ _ Em) as (es1 & T1 & D1). destruct (Hf a _ _ _ Ef) as (es2 & T2 & D2).
  exists (es1 ++ es2). rewrite T2, T1, app_assoc. split; [done|]. intros rest.
  by rewrite <-app_assoc, D1, D2.
Qed.
Lemma obeys_use {A} held ino (f : world -> outcome (A * world)) :
  ino ∈ held -> obeys held (extent_op ino f).
Proof.
  intros Hi y a y'. unfold extent_op.
  destruct (f (ew y)) as [[a' w]| | |]; simpl; try done. intros [= _ <-].
  exists [Use ino]. split; [done|]. intros rest. simpl. by rewrite bool_decide_true.
Qed.
Lemma obeys_lock {A} held ino (body : M A) :
  obeys (ino :: held) body -> obeys held (YfsLock ino body).
Proof.
  intros Hb y a y'. unfold YfsLock, mbind, M_bind. simpl.
  destruct (body _) as [[r y1]| | |] eqn:Eb; simpl; try done. intros [= _ <-].
  destruct (Hb _ _ _ Eb) as (es & T & D). simpl in T.
  exists (Acquire ino :: es ++ [Release ino]). split.
  - simpl. rewrite T. by rewrite <-!app_assoc.
  - intros rest. simpl. rewrite <-app_assoc, D. simpl. by rewrite bool_decide_true.
Qed.
Lemma obeys_getdata held ino s : ino ∈ held -> obeys held (getdata ino s).
Proof.
  intros. apply obeys_bind; [by apply obeys_use|]. intros []. apply obeys_ret.
Qed.
Lemma obeys_putdata held ino s : ino ∈ held -> obeys held (putdata ino s).
Proof.
  intros. apply obeys_bind; [by apply obeys_use|]. intros. apply obeys_ret.
Qed.
End discipline.

(** Follow the structure of an operation. *)
Ltac obey :=
  repeat first
    [ apply obeys_ret | apply obeys_lift | apply obeys_lock
    | apply obeys_getdata; left | apply obeys_putdata; left | apply obeys_use; left
    | apply obeys_bind; [|intros ?] | case_match ].

(** ** Properties *)

Section properties.
Context {E : ExtentClient} `{S : !ExtentClientSpec E, Beyond, MaxSize}.

Lemma yfs_follows F op y :
  0 <= max_size < 2 ^ 63 -> rep F y -> enabled F op y -> follows F op y.
Proof using S.
  intros Hm HR He. destruct op.
  - by apply follows_read.
  - by apply follows_write.
  - by apply follows_setattr.
  - by apply follows_create.
  - by apply follows_lookup.
  - by apply follows_unlink.
  - by apply follows_readdir.
Qed.

(** Sequences of operations: of the code, and of the abstract file system. *)
Fixpoint run_fsops (ops : list fsop) : M (list fsres) :=
  match ops with
  | [] => mret []
  | op :: ops => res ← run_fsop op; ress ← run_fsops ops; mret (res :: ress)
  end.
Inductive fs_steps : fs -> list fsop -> list fsres -> fs -> Prop :=
  | fs_done F : fs_steps F [] [] F
  | fs_more F op res F1 ops ress F2 :
      fs_step F op res F1 -> fs_steps F1 ops ress F2 -> fs_steps F (op :: ops) (res :: ress) F2.
(** Every operation is one its caller may call then. *)
Fixpoint enabled_all (F : fs) (ops : list fsop) (y : yfs) : Prop :=
  match ops with
  | [] => True
  | op :: ops => enabled F op y /\
      forall res y' F', run_fsop op y = Ret (res, y') -> fs_step F op res F' -> enabled_all F' ops y'
  end.


(** What was written is read back: after a [write] every [read] returns
    the requested range of the new content, which is [buf] in the range that
    was written, NULs in a gap before it and the old bytes elsewhere, and the
    attributes give the new length. *)
Theorem write_read y ino off buf s :
  0 <= max_size < 2 ^ 63 -> healthy y -> view y ino = Some s -> ec_sized (ew y) ino ->
  0 <= off -> off + Z.of_nat (length buf) <= max_size ->
  Z.of_nat (length s) <= max_size ->
  exists new y1, write ino (Z.of_nat (length buf)) off buf y = Ret (OK, y1) /\
    (forall i : nat, new !! i =
      if decide (Z.of_nat i < off) then Some (default NUL (s !! i))
      else if decide (Z.of_nat i < off + Z.of_nat (length buf))
      then buf !! (i - Z.to_nat off)%nat else s !! i) /\
    (forall size off' old, 0 <= off' < 2 ^ 63 -> 0 <= size < 2 ^ 63 ->
      exists y2, read ino size off' old y1 = Ret ((OK, slice new off' size), y2)) /\
    exists fi y2, getfile ino (Fileinfo 0 0 0 0) y1 = Ret ((OK, fi), y2) /\
      fi_size fi = u32 (Z.max (Z.of_nat (length s)) (off + Z.of_nat (length buf))).
Proof using S.
  intros Hm Hh Hv Hz Ho Hb Hl.
  destruct (write_some Hm y ino (Z.of_nat (length buf)) off buf s Hh Hv Ho)
    as (y1 & Ew & K & Hv1 & Hz1); [lia|done|done|].
  rewrite Nat2Z.id, take_ge in Hv1 by done.
  exists (overwrite s off buf), y1. split; [done|].
  split; [intros i; by apply overwrite_lookup|]. split.
  - intros size off' old Ho' Hs.
    destruct (read_some Hm y1 ino size off' old _ (proj1 K) Hv1 Ho' Hs) as (y2 & Er & _);
      [rewrite length_overwrite by done; lia|]. eauto.
  - destruct (getfile_some y1 ino (Fileinfo 0 0 0 0) _ (proj1 K) Hv1) as (fi & y2 & Eg & _ & Hsz).
    exists fi, y2. split; [done|]. rewrite Hsz by auto. by rewrite length_overwrite.
Qed.
End properties.

Section discipline_property.
Context {E : ExtentClient} `{Beyond, MaxSize}.

(** The operations, those that read attributes included. *)
Inductive client_op :=
  | COp (op : fsop) | CGetfile (inum : Z) (fin : fileinfo) | CGetdir (inum : Z) (din : dirinfo).
Definition run_client (op : client_op) : M (option fsres) :=
  match op with
  | COp op => res ← run_fsop op; mret (Some res)
  | CGetfile inum fin => _ ← getfile inum fin; mret None
  | CGetdir inum din => _ ← getdir inum din; mret None
  end.

Lemma extent_op_trace {A} ino (f : world -> outcome (A * world)) y a y' :
  extent_op ino f y = Ret (a, y') -> trace y' = trace y ++ [Use ino].
Proof. unfold extent_op. intros H'. apply bind_Ret_inv in H' as ([? ?] & _ & [= _ <-]). done. Qed.
Lemma putdata_trace ino data y st y' : putdata ino data y = Ret (st, y') -> trace y' = trace y ++ [Use ino].
Proof. intros H'. apply M_bind_inv in H' as (? & ? & H' & [= _ <-]). by eapply extent_op_trace. Qed.
Lemma getdata_trace ino data y r y' : getdata ino data y = Ret (r, y') -> trace y' = trace y ++ [Use ino].
Proof. intros H'. apply M_bind_inv in H' as ([? ?] & ? & H' & [= _ <-]). by eapply extent_op_trace. Qed.
Lemma GetAvailInum_trace b y r y' : GetAvailInum b y = Ret (r, y') -> trace y' = trace y.
Proof.
  intros H'. apply M_bind_inv in H' as ([? ?] & ? & H' & [= _ <-]). unfold server_op in H'.
  apply bind_Ret_inv in H' as ([? ?] & _ & [= _ <-]). done.
Qed.
Lemma attr_trace {A B} ino (f : world -> outcome (A * world)) (g : A -> M B) y a y' :
  (forall a y b y', g a y = Ret (b, y') -> y' = y) ->
  (lock_statement ino;; (extent_op ino f ≫= g)) y = Ret (a, y') ->
  trace y' = trace y ++ [Acquire ino; Release ino; Use ino].
Proof.
  intros Hg H'. apply M_bind_inv in H' as ([] & y1 & [= <-] & H'). apply M_bind_inv in H' as (x & y2 & E2 & H').
  apply Hg in H' as ->. rewrite (extent_op_trace _ _ _ _ _ E2). cbn. by rewrite <-!app_assoc.
Qed.
Lemma getfile_trace inum fin y r y' :
  getfile inum fin y = Ret (r, y') -> trace y' = trace y ++ [Acquire inum; Release inum; Use inum].
Proof. apply attr_trace. intros [st a] ? ? ?. by destruct (st =? extent_protocol.OK); intros [= _ <-]. Qed.
Lemma getdir_trace inum din y r y' :
  getdir inum din y = Ret (r, y') -> trace y' = trace y ++ [Acquire inum; Release inum; Use inum].
Proof. apply attr_trace. intros [st a] ? ? ?. by destruct (st =? extent_protocol.OK); intros [= _ <-]. Qed.
(** A creation that succeeds writes the new extent, and asks for its attributes,
    without its lock. *)
Lemma create_trace b parent name ret0 ino y y' :
  create_item b parent name ret0 y = Ret ((OK, ino), y') ->
  trace y' = trace y ++ [Acquire parent; Use parent; Use parent; Use ino; Acquire ino; Release ino; Use ino; Release parent].
Proof.
  unfold create_item, YfsLock. intros H'. apply M_bind_inv in H' as ([] & y1 & [= <-] & H').
  apply M_bind_inv in H' as (r & y2 & Hb & H'). injection H' as -> <-.
  apply M_bind_inv in Hb as ([st data] & y3 & E3 & Hb). apply getdata_trace in E3.
  destruct (negb (st =? OK)); [by injection Hb|]. case_bool_decide; [by injection Hb|].
  apply M_bind_inv in Hb as (n & y4 & E4 & Hb). apply GetAvailInum_trace in E4.
  destruct (n =? 0); [by injection Hb|]. destruct (DirFormToString _) as [data' d'].
  apply M_bind_inv in Hb as (st5 & y5 & E5 & Hb). apply putdata_trace in E5.
  destruct (Z.eqb_spec st5 OK); cbn [negb] in Hb;
    [|apply M_bind_inv in Hb as (? & ? & _ & Hb); by injection Hb].
  apply M_bind_inv in Hb as (st6 & y6 & E6 & Hb). apply putdata_trace in E6.
  destruct (Z.eqb_spec st6 OK); cbn [negb] in Hb;
    [|apply M_bind_inv in Hb as (? & ? & _ & Hb); by injection Hb].
  apply M_bind_inv in Hb as ([st7 fi] & y7 & E7 & Hb). apply getfile_trace in E7.
  destruct (Z.eqb_spec st7 OK); cbn [negb] in Hb;
    [|apply M_bind_inv in Hb as (? & ? & _ & Hb); by injection Hb].
  injection Hb as <- <-. cbn [trace]. rewrite E7, E6, E5, E4, E3. cbn. by rewrite <-!app_assoc.
Qed.

(** Whether the locks were kept to between two states. *)
Definition kept (y y' : yfs) (b : bool) : Prop :=
  exists es, trace y' = trace y ++ es /\ disciplined [] es = b.

(** C30. Which operations use an extent only while they hold its lock: [read],
    [write], [setattr], [lookup], [unlink] and [readdir] do, and give back what
    they took in reverse order, whatever the extent client does.  [getfile] and
    [getdir] do not: they release the lock before they read the attributes.  Nor
    do a [create] or [mkdir] that succeed: they use the new extent without its
    lock. *)
Theorem lock_discipline op y res y' :
  run_client op y = Ret (res, y') ->
  match op with
  | COp (OpCreate _ parent _) => forall ino, res = Some (RIno OK ino) -> ino <> parent -> kept y y' false
  | COp _ => kept y y' true
  | CGetfile _ _ | CGetdir _ _ => kept y y' false
  end.
Proof.
  destruct op as [op|inum fin|inum din]; cbn [run_client]; intros Hrun.
  2,3: apply M_bind_inv in Hrun as (? & ? & Hg & [= _ <-]);
    (apply getfile_trace in Hg || apply getdir_trace in Hg);
    exists [Acquire inum; Release inum; Use inum]; (split; [done|]); simpl; by rewrite !bool_decide_true.
  apply M_bind_inv in Hrun as (r & y1 & Hrun & [= <- <-]).
  assert (obeys [] (run_fsop op) -> kept y y1 true) as Hob.
  { intros Hob. destruct (Hob _ _ _ Hrun) as (es & T & D). exists es. split; [done|].
    specialize (D []). by rewrite app_nil_r in D. }
  destruct op as [| | |b parent name| | |];
    try (apply Hob; cbn [run_fsop]; unfold read, write, setattr, yfs_lookup, unlink, readdir; obey).
  clear Hob. cbn [run_fsop] in Hrun. apply M_bind_inv in Hrun as ([st ino] & y2 & Hc & [= <- <-]).
  intros ? [= -> <-] Hne. eexists. split; [by eapply create_trace|]. simpl.
  by rewrite !(bool_decide_true (parent ∈ _)), bool_decide_false by set_solver.
Qed.
End discipline_property.

(** The extent calls of the operations, on any extent client. *)
Section calls.
Context {E : ExtentClient}.
Lemma getdata_run w t ino old st data w' :
  ec_get ino old w = Ret (st, data, w') ->
  getdata ino old (Yfs w t) =
    Ret ((if negb (st =? extent_protocol.OK) then IOERR else OK, data),
         Yfs w' (t ++ [Use ino])).
Proof. intros Eg. unfold getdata, extent_op, mbind, M_bind; simpl. by rewrite Eg. Qed.
Lemma putdata_run w t ino data st w' :
  ec_put ino data w = Ret (st, w') ->
  putdata ino data (Yfs w t) =
    Ret (if negb (st =? extent_protocol.OK) then IOERR else OK, Yfs w' (t ++ [Use ino])).
Proof. intros Ep. unfold putdata, extent_op, mbind, M_bind; simpl. by rewrite Ep. Qed.
Lemma GetAvailInum_run (b : bool) w t st ino w' :
  ec_getinode 0 (if b then 1 else 0) w = Ret (st, ino, w') ->
  GetAvailInum b (Yfs w t) = Ret (if negb (st =? OK) then 0 else ino, Yfs w' t).
Proof. intros Eg. unfold GetAvailInum, server_op, mbind, M_bind; simpl. by rewrite Eg. Qed.
Lemma RestoreInum_run b inum w t st w' :
  let n := if b : bool then Z.land inum (u64 (Z.lnot 0x80000000)) else inum in
  ec_remove n w = Ret (st, w') ->
  RestoreInum b inum (Yfs w t) = Ret (0, Yfs w' (t ++ [Use n])).
Proof.
  intros n Er. unfold RestoreInum, extent_op, mbind, M_bind. fold n. cbn [ew trace].
  by rewrite Er.
Qed.
End calls.

Section races.
Context `{JunkAttr, Beyond, MaxSize}.
#[local] Existing Instance extent_client_cache | 0.

(** C36. A [stat] can destroy a file.  [getfile] takes and releases the lock
    before it touches the extent; if the lock is revoked in between, the lock
    client's releaser flushes an extent the cache has no entry for, and
    [flush] takes that for a removed file and removes it from the server. *)
Theorem stat_race_loses_file y ino fin s :
  net_ok (ew y) -> extent_file_cache_ (ew y) !! ino = None ->
  server_view (ew y) ino = Some s ->
  exists y1 w2 y3,
    lock_statement ino y = Ret (tt, y1) /\
    flush ino (ew y1) = Ret (extent_protocol.OK, w2) /\
    getfile_body ino fin (Yfs w2 (trace y1)) = Ret ((IOERR, fin), y3) /\
    server_view (ew y3) ino = None.
Proof.
  intros Hn Hc Hv.
  destruct (client_remove_some (ew y) ino s Hn Hv) as (w2 & Er & (Hn2 & Hc2 & _) & Hv2).
  assert (cache_view w2 ino = None) as Hcv.
  { unfold cache_view, cached. by rewrite Hc2, Hc. }
  destruct (ec_getattr_none (ExtentClientSpec := extent_client_cache_spec) w2 ino attr0 Hn2 Hcv)
    as (a & w3 & Eg & _ & Hv3).
  exists (logged (logged y (Acquire ino)) (Release ino)), w2. eexists (Yfs w3 _).
  split; [done|]. split; [unfold flush; simpl; by rewrite Hc|]. split.
  - unfold getfile_body, extent_op, mbind, M_bind; simpl.
    cbn [ec_getattr extent_client_cache] in Eg. rewrite Eg. done.
  - by apply cache_view_None in Hv3 as [_ ?].
Qed.
End races.

Section restore.
Context `{JunkAttr, Beyond, MaxSize}.
#[local] Existing Instance extent_client | 0.

(** The four calls of a [create] whose write of the directory is lost. *)
Lemma create_failure_calls w parent data ino ds rest e s :
  server_view w parent = Some data ->
  inode_loop 1 (file_block_ (srv w)) (draws (srv w)) = Some (ino, ds) ->
  server_view w 1 = Some s ->
  net w = Delivered :: Delivered :: Failed e false :: Delivered :: rest ->
  exists w1 w2 w3 w4, client_get parent [] w = Ret (extent_protocol.OK, data, w1) /\
    client_getinode 0 1 w1 = Ret (extent_protocol.OK, ino, w2) /\
    (forall d, client_put parent d w2 = Ret (e, w3)) /\
    client_remove 1 w3 = Ret (extent_protocol.OK, w4) /\ server_view w4 1 = None.
Proof.
  intros Hd Hino Hroot Hnet. destruct (server_view_Some _ _ _ Hd) as (a & Ha).
  set (s1 := ExtentServer (<[parent := (extent_protocol.Attr (now_of (times (srv w)))
    (extent_protocol.mtime a) (extent_protocol.ctime a) (extent_protocol.size a), data)]>
    (file_block_ (srv w))) (tl (times (srv w))) (draws (srv w))).
  assert (forall i, is_Some (file_block_ s1 !! i) <-> is_Some (file_block_ (srv w) !! i)) as Hdom.
  { intros i. simpl. rewrite lookup_insert_is_Some.
    destruct (decide (parent = i)) as [->|]; [|tauto]. rewrite Ha. split; eauto. }
  destruct (proj2 (Hdom 1)) as [c Hc].
  { destruct (server_view_Some _ _ _ Hroot) as (a1 & ->). eauto. }
  set (s2 := ExtentServer (file_block_ s1) (times s1) ds).
  set (s4 := ExtentServer (delete 1 (file_block_ s2)) (times s2) (draws s2)).
  set (w2 := after_call (after_call w s1) s2). set (w3 := after_call w2 s2).
  exists (after_call w s1), w2, w3, (after_call w3 s4). split_and!.
  - apply call_step; [by rewrite Hnet| |done]. unfold server_get. by rewrite Ha.
  - apply call_step; [simpl; by rewrite Hnet| |done]. unfold GetInodeNum. simpl.
    rewrite <-(inode_loop_dom 1 _ _ _ Hdom) in Hino. simpl in Hino. by rewrite Hino.
  - intros d. unfold client_put. by rewrite (call_lost _ _ _ w2 e) by (simpl; by rewrite Hnet).
  - unfold client_remove. rewrite (call_step _ _ _ w3 extent_protocol.OK 0 s4); try done.
    + simpl. by rewrite Hnet.
    + unfold server_remove. change (file_block_ (srv w3)) with (file_block_ s1). by rewrite Hc.
  - unfold server_view; simpl. by rewrite lookup_delete_eq.
Qed.

(** When writing the directory fails, [create] removes the root.  It
    calls [RestoreInum(ret_ino, true)] with the arguments swapped, so the
    number that is given back is [true], 1, the root directory's. *)
Theorem create_failure_removes_root y parent name old data ino ds rest e s :
  server_view (ew y) parent = Some data ->
  dir_block_ (StringToDirForm data (MkDirForm ∅ 0)) !! key name = None ->
  inode_loop 1 (file_block_ (srv (ew y))) (draws (srv (ew y))) = Some (ino, ds) -> ino <> 0 ->
  server_view (ew y) 1 = Some s ->
  net (ew y) = Delivered :: Delivered :: Failed e false :: Delivered :: rest -> e < 0 ->
  exists y', create parent name old y = Ret ((IOERR, ino), y') /\
    server_view (ew y') 1 = None.
Proof.
  intros Hd Hnew Hino Hne Hroot Hnet He. destruct y as [w t]; cbn [ew] in *.
  destruct (create_failure_calls w parent data ino ds rest e s Hd Hino Hroot Hnet)
    as (w1 & w2 & w3 & w4 & E1 & E2 & E3 & E4 & Hgone).
  eexists (logged (Yfs w4 _) (Release parent)). split; [|done].
  unfold create, create_item. apply YfsLock_run. unfold logged; cbn [ew trace].
  run (getdata_run _ (t ++ [Acquire parent]) _ _ _ _ _ E1). fold (key name).
  rewrite bool_decide_false by (rewrite Hnew; by intros []).
  run (GetAvailInum_run true _ ((t ++ [Acquire parent]) ++ [Use parent]) _ _ _ E2).
  rewrite (proj2 (Z.eqb_neq ino 0) Hne). cbn [negb].
  match goal with |- context [DirFormToString ?f] => set (form := f) end.
  rewrite (surjective_pairing (DirFormToString form)); cbv beta iota.
  erewrite M_bind_run by apply (putdata_run (E := extent_client) w2 _ parent _ e _ (E3 _)).
  rewrite (proj2 (Z.eqb_neq e extent_protocol.OK)) by (unfold extent_protocol.OK; lia).
  cbn [negb]. change (IOERR =? OK) with false. cbn [negb].
  erewrite M_bind_run by apply (RestoreInum_run (E := extent_client) true 1 w3 _ _ _ E4). done.
Qed.
End restore.

(** ** The properties at concrete inputs *)

#[local] Instance junk1 : JunkAttr := extent_protocol.Attr 1 2 3 4.
#[local] Instance beyond1 : Beyond := fun _ _ => "x"%char.
#[local] Instance max_size1 : MaxSize := 2 ^ 62.
#[local] Existing Instance extent_client_cache.

(** A server with the root and one file, a client that has done nothing. *)
Definition disk1 : extent_server :=
  ExtentServer (<[0x80000005 := (extent_protocol.Attr 7 7 7 5, lit "hello")]>
                {[ 1 := (extent_protocol.Attr 7 7 7 0, []) ]}) [100] [1; 6].
Definition yfs1 : yfs := Yfs (World ∅ [] [] disk1) [].
Definition fs1 : fs := <[0x80000005 := File (lit "hello")]> {[ 1 := Dir ∅ ]}.

Lemma max_size1_ok : 0 <= max_size < 2 ^ 63.
Proof. done. Qed.
Lemma healthy1 : healthy yfs1.
Proof. constructor. Qed.
Lemma rep1 : rep fs1 yfs1.
Proof.
  split; [constructor|]. apply map_Forall_insert_2; [done|].
  apply map_Forall_singleton. by apply is_dir_empty.
Qed.
Lemma enabled1 : enabled fs1 (OpCreate true 1 (lit "a")) yfs1.
Proof. split; [by exists ∅|]. vm_compute. by eexists. Qed.

(** A file is made, and looked up. *)
Definition ops1 : list fsop := [OpCreate true 1 (lit "a"); OpLookup 1 (lit "a")].
Lemma enabled_all1 : enabled_all fs1 ops1 yfs1.
Proof.
  split; [exact enabled1|]. intros res y' F' _ Hs. split; [|done]. cbn [enabled].
  inversion Hs; subst; [by exists ∅|by exists ∅|].
  destruct (decide (ino = 1)) as [->|]; [done|]. rewrite lookup_insert_ne, lookup_insert_eq by done. eauto.
Qed.

Lemma sized1 : ec_sized (ew yfs1) 0x80000005.
Proof. split; [done|]. intros c [= <-]. done. Qed.
Lemma view1 : view yfs1 0x80000005 = Some (lit "hello").
Proof. done. Qed.
Lemma write_read_witness :
  exists (new : str) y1, write 0x80000005 2 7 (lit "xy") yfs1 = Ret (OK, y1) /\
    exists y2, read 0x80000005 9 0 [] y1 = Ret ((OK, slice new 0 9), y2).
Proof.
  destruct (write_read yfs1 0x80000005 7 (lit "xy") (lit "hello") max_size1_ok healthy1 view1
              sized1) as (new & y1 & Ew & _ & Hr & _); [done|done|done|].
  exists new, y1. split; [exact Ew|]. apply Hr; done.
Defined.

Lemma lookup1 : exists res y', run_client (COp (OpLookup 1 (lit "a"))) yfs1 = Ret (res, y').
Proof.
  destruct (follows_lookup fs1 yfs1 1 (lit "a") rep1) as (res & y' & Er & _); [by exists ∅|].
  exists (Some res), y'. cbn [run_client]. by rewrite (M_bind_run _ _ _ _ _ Er).
Qed.
Lemma lock_discipline_witness :
  exists res y', run_client (COp (OpLookup 1 (lit "a"))) yfs1 = Ret (res, y') /\ kept yfs1 y' true.
Proof.
  destruct lookup1 as (res & y' & E1). 
  exists res, y'. split; [exact E1|exact (lock_discipline _ _ _ _ E1)].
Defined.

Lemma stat_race_loses_file_witness :
  exists y1 w2 y3,
    lock_statement 0x80000005 yfs1 = Ret (tt, y1) /\
    flush 0x80000005 (ew y1) = Ret (extent_protocol.OK, w2) /\
    getfile_body 0x80000005 (Fileinfo 0 0 0 0) (Yfs w2 (trace y1)) =
      Ret ((IOERR, Fileinfo 0 0 0 0), y3) /\
    server_view (ew y3) 0x80000005 = None.
Proof. apply (stat_race_loses_file yfs1 _ _ (lit "hello")); [constructor|done|done]. Defined.

Definition yfs2 : yfs :=
  Yfs (World ∅ [] [Delivered; Delivered; Failed (-1) false; Delivered] disk1) [].
Lemma create_failure_removes_root_witness :
  exists y', create (E := extent_client) 1 (lit "a") 0 yfs2 = Ret ((IOERR, 0x80000006), y') /\
    server_view (ew y') 1 = None.
Proof.
  apply (create_failure_removes_root yfs2 1 (lit "a") 0 [] 0x80000006 [] [] (-1) []);
    [done| |reflexivity|done|done|done|done].
  rewrite StringToDirForm_short by (simpl; lia). apply lookup_empty.
Defined.
