(* ===== verification/FsTree.v ===== *)
(** * The shape of the file system

    The abstract file system of [YfsClient] is typed by its inode numbers (bit
    31 says file) and is a tree: every operation of [yfs_client.cc] keeps it
    so, and the numbers that directories hold never dangle. *)
From S2P Require Import Prelude Marshall Protocols Extent DirForm YfsClient.

(** The nodes that can be reached by names from the root. *)
Inductive reach (F : fs) : Z -> Prop :=
  | reach_root : reach F 1
  | reach_entry p d nm ino :
      reach F p -> F !! p = Some (Dir d) -> d !! nm = Some ino -> reach F ino.

Definition is_file_node (nd : node) : bool := match nd with File _ => true | Dir _ => false end.

Record fs_tree (F : fs) : Prop := {
  tr_root : exists d, F !! 1 = Some (Dir d);
  (* a number tells the type of its node *)
  tr_type : forall ino nd, F !! ino = Some nd -> isfile ino = is_file_node nd;
  (* an entry names a node, not the root *)
  tr_entry : forall p d nm ino, F !! p = Some (Dir d) -> d !! nm = Some ino ->
    is_Some (F !! ino) /\ ino <> 1;
  (* a node has one name *)
  tr_once : forall p d nm p' d' nm' ino,
    F !! p = Some (Dir d) -> d !! nm = Some ino ->
    F !! p' = Some (Dir d') -> d' !! nm' = Some ino -> p = p' /\ nm = nm';
  tr_reach : forall ino nd, F !! ino = Some nd -> reach F ino;
}.

(** ** The content of a file *)

Lemma reach_file F ino s s' i :
  F !! ino = Some (File s) -> reach F i -> reach (<[ino := File s']> F) i.
Proof.
  intros Hf. induction 1 as [|p d nm i _ IH Hp Hd]; [constructor|].
  eapply reach_entry; [done| |done]. rewrite lookup_insert_ne; [done|congruence].
Qed.
Lemma tree_file F ino s s' :
  fs_tree F -> F !! ino = Some (File s) -> fs_tree (<[ino := File s']> F).
Proof.
  intros [[d Hroot] Ht He Ho Hr] Hf.
  assert (forall p d', <[ino := File s']> F !! p = Some (Dir d') -> F !! p = Some (Dir d')) as Hdir.
  { intros p d'. rewrite lookup_insert_Some. by intros [[_ ?]|[_ ?]]. }
  constructor.
  - exists d. rewrite lookup_insert_ne; [done|congruence].
  - intros i nd [[<- <-]|[_ Hi]]%lookup_insert_Some; [by apply (Ht ino (File s))|by apply Ht].
  - intros p d' nm i Hp%Hdir Hd. destruct (He p d' nm i Hp Hd) as [Hi ?]. split; [|done].
    destruct (decide (i = ino)) as [->|]; [by rewrite lookup_insert_eq|by rewrite lookup_insert_ne].
  - intros p d1 nm p' d2 nm' i Hp%Hdir Hd Hp'%Hdir Hd'. by apply (Ho p d1 nm p' d2 nm' i).
  - intros i nd [[<- _]|[_ Hi]]%lookup_insert_Some; eapply reach_file; try done; by eapply Hr.
Qed.

(** ** A new node *)

Section create.
Context (F : fs) (b : bool) (parent ino : Z) (d : gmap str Z) (k : str).
Hypothesis (HF : fs_tree F) (Hp : F !! parent = Some (Dir d)) (Hk : d !! k = None).
Hypothesis (Hino : F !! ino = None) (Htype : ino <> 1 -> isfile ino = b).
Let F' : fs := <[ino := new_node b]> (<[parent := Dir (<[k := ino]> d)]> F).

Lemma create_ne : parent <> ino /\ ino <> 1.
Proof.
  split; [congruence|]. intros ->. destruct (tr_root F HF) as [d0 H0]. congruence.
Qed.
(** The directories afterwards. *)
Lemma create_dir p d' :
  F' !! p = Some (Dir d') ->
  p = parent /\ d' = <[k := ino]> d \/ p = ino /\ d' = ∅ \/ p <> parent /\ F !! p = Some (Dir d').
Proof.
  unfold F'. rewrite !lookup_insert_Some. intros [[<- Hn]|[_ [[<- [= <-]]|[Hne ?]]]]; [|by left|right; by right].
  right. left. destruct b; cbn in Hn; simplify_eq. done.
Qed.
(** An entry is an old one, or the new one. *)
Lemma create_entry p d' nm i :
  F' !! p = Some (Dir d') -> d' !! nm = Some i ->
  p = parent /\ nm = k /\ i = ino \/ exists d0, F !! p = Some (Dir d0) /\ d0 !! nm = Some i.
Proof.
  intros [[-> ->]|[[-> ->]|[_ Hd]]]%create_dir Hnm; [|by rewrite lookup_empty in Hnm|right; eauto].
  apply lookup_insert_Some in Hnm as [[<- <-]|[_ ?]]; [by left|right; eauto].
Qed.
Lemma create_reach i : reach F i -> reach F' i.
Proof.
  induction 1 as [|p d0 nm i _ IH Hd Hnm]; [constructor|].
  destruct (decide (p = parent)) as [->|Hne].
  - assert (d0 = d) as -> by congruence.
    eapply (reach_entry _ parent (<[k := ino]> d) nm); [done| |].
    + unfold F'. rewrite lookup_insert_ne, lookup_insert_eq by (by apply not_eq_sym, create_ne). done.
    + rewrite lookup_insert_ne; [done|congruence].
  - eapply (reach_entry _ p d0 nm); [done| |done].
    unfold F'. by rewrite !lookup_insert_ne by congruence.
Qed.
Lemma tree_create : fs_tree F'.
Proof.
  destruct create_ne as [Hpi Hi1]. pose proof HF as [[d0 Hroot] Ht He Ho Hr].
  assert (forall i, is_Some (F !! i) -> is_Some (F' !! i)) as Hin.
  { intros i Hi. unfold F'. rewrite !lookup_insert_is_Some'. tauto. }
  assert (F' !! parent = Some (Dir (<[k := ino]> d))) as Hp'.
  { unfold F'. by rewrite lookup_insert_ne, lookup_insert_eq. }
  constructor.
  - destruct (decide (parent = 1)) as [<-|Hne]; [eauto|]. exists d0.
    unfold F'. by rewrite !lookup_insert_ne.
  - intros i nd. unfold F'. rewrite !lookup_insert_Some.
    intros [[<- <-]|[_ [[<- <-]|[_ Hi]]]]; [rewrite Htype by done; by destruct b|by apply (Ht parent (Dir d))|by apply Ht].
  - intros p d' nm i Hd Hnm. destruct (create_entry p d' nm i Hd Hnm) as [(-> & -> & ->)|(d1 & Hd1 & Hn1)].
    + split; [|done]. unfold F'. rewrite lookup_insert_eq. eauto.
    + destruct (He p d1 nm i Hd1 Hn1). auto.
  - intros p d1 nm p' d2 nm' i Hd Hn Hd' Hn'.
    destruct (create_entry p d1 nm i Hd Hn) as [(-> & -> & Ei)|(e1 & He1 & Hm1)],
      (create_entry p' d2 nm' i Hd' Hn') as [(-> & -> & Ei')|(e2 & He2 & Hm2)]; subst; try done.
    + destruct (He p' e2 nm' ino He2 Hm2) as [[? ?] _]. congruence.
    + destruct (He p e1 nm ino He1 Hm1) as [[? ?] _]. congruence.
    + by apply (Ho p e1 nm p' e2 nm' i).
  - intros i nd. unfold F' at 1. rewrite !lookup_insert_Some. intros [[<- _]|[_ [[<- _]|[_ Hi]]]].
    + eapply (reach_entry _ parent _ k); [apply create_reach; by eapply Hr|exact Hp'|apply lookup_insert_eq].
    + apply create_reach. by eapply Hr.
    + apply create_reach. by eapply Hr.
Qed.
End create.

(** ** A node that is removed *)

Section unlink.
Context (F : fs) (parent ino : Z) (d : gmap str Z) (k : str) (s : str).
Hypothesis (HF : fs_tree F) (Hp : F !! parent = Some (Dir d)) (Hk : d !! k = Some ino).
Hypothesis (Hino : F !! ino = Some (File s)).
Let F' : fs := delete ino (<[parent := Dir (delete k d)]> F).

Lemma unlink_entry p d' nm i :
  F' !! p = Some (Dir d') -> d' !! nm = Some i ->
  i <> ino /\ exists d0, F !! p = Some (Dir d0) /\ d0 !! nm = Some i.
Proof.
  unfold F'. rewrite lookup_delete_Some, lookup_insert_Some.
  intros [_ [[<- [= <-]]|[Hne Hd]]] Hnm.
  - apply lookup_delete_Some in Hnm as [Hnk Hnm]. split; [|eauto]. intros ->.
    by destruct (tr_once F HF parent d nm parent d k ino Hp Hnm Hp Hk).
  - split; [|eauto]. intros ->. by destruct (tr_once F HF p d' nm parent d k ino Hd Hnm Hp Hk).
Qed.
Lemma unlink_reach i : reach F i -> i <> ino -> reach F' i.
Proof.
  induction 1 as [|p d0 nm i _ IH Hd Hnm]; [constructor|]. intros Hi.
  assert (p <> ino) as Hpi by congruence. specialize (IH Hpi).
  destruct (decide (p = parent)) as [->|Hne].
  - assert (d0 = d) as -> by congruence. eapply (reach_entry _ parent (delete k d) nm); [done| |].
    + unfold F'. by rewrite lookup_delete_ne, lookup_insert_eq.
    + rewrite lookup_delete_ne; [done|congruence].
  - eapply (reach_entry _ p d0 nm); [done| |done]. unfold F'.
    by rewrite lookup_delete_ne, lookup_insert_ne.
Qed.
Lemma tree_unlink : fs_tree F'.
Proof.
  pose proof HF as [[d0 Hroot] Ht He Ho Hr].
  assert (forall i nd, F' !! i = Some nd -> i <> ino /\ exists nd0, F !! i = Some nd0 /\
    is_file_node nd0 = is_file_node nd) as Hold.
  { intros i nd. unfold F'. rewrite lookup_delete_Some, lookup_insert_Some.
    intros [Hi [[<- <-]|[_ ?]]]; split; try done; [by exists (Dir d)|by exists nd]. }
  constructor.
  - unfold F'. rewrite lookup_delete_ne by congruence.
    destruct (decide (parent = 1)) as [->|Hne]; [rewrite lookup_insert_eq; eauto|].
    rewrite lookup_insert_ne; eauto.
  - intros i nd (_ & nd0 & Hi & <-)%Hold. by apply Ht.
  - intros p d' nm i Hd Hnm. destruct (unlink_entry p d' nm i Hd Hnm) as (Hi & d1 & Hd1 & Hn1).
    destruct (He p d1 nm i Hd1 Hn1) as [Hs ?]. split; [|done].
    unfold F'. rewrite lookup_delete_ne, lookup_insert_is_Some' by done. tauto.
  - intros p d1 nm p' d2 nm' i Hd Hn Hd' Hn'.
    destruct (unlink_entry p d1 nm i Hd Hn) as (_ & e1 & ? & ?), (unlink_entry p' d2 nm' i Hd' Hn') as (_ & e2 & ? & ?).
    by apply (Ho p e1 nm p' e2 nm' i).
  - intros i nd (Hi & nd0 & Hi0 & _)%Hold. apply unlink_reach; [by eapply Hr|done].
Qed.
End unlink.

Lemma tree_step F op res F' : fs_tree F -> fs_step F op res F' -> fs_tree F'.
Proof.
  intros HF []; try done.
  - by eapply tree_file.
  - by eapply tree_file.
  - by eapply tree_create.
  - by eapply tree_unlink.
Qed.
Lemma tree_init : fs_tree {[ 1 := Dir ∅ ]}.
Proof.
  constructor.
  - by exists ∅.
  - by intros ino nd [<- <-]%lookup_singleton_Some.
  - intros p d nm ino [_ [= <-]]%lookup_singleton_Some. by rewrite lookup_empty.
  - intros p d nm p' d' nm' ino [_ [= <-]]%lookup_singleton_Some. by rewrite lookup_empty.
  - intros ino nd [<- _]%lookup_singleton_Some. constructor.
Qed.

(** ** The operations *)

Section operations.
Context {E : ExtentClient} `{S : !ExtentClientSpec E, Beyond, MaxSize}.

(** What the caller owes in a tree: of [unlink] only that the parent is a
    directory. *)
Definition owed (F : fs) (op : fsop) (y : yfs) : Prop :=
  match op with
  | OpUnlink parent name => exists d, F !! parent = Some (Dir d)
  | _ => enabled F op y
  end.
Lemma owed_enabled F op y : fs_tree F -> owed F op y -> enabled F op y.
Proof.
  intros HF. destruct op; try done. intros [d Hd]. exists d. split; [done|].
  intros ino Hk Hf. destruct (tr_entry F HF _ _ _ _ Hd Hk) as [[nd Hi] _].
  pose proof (tr_type F HF ino nd Hi) as Ht. rewrite Hf in Ht. destruct nd as [s|]; [by exists s|done].
Qed.

End operations.

(** A fresh server, and the first file. *)
#[local] Instance junk2 : JunkAttr := extent_protocol.Attr 1 2 3 4.
#[local] Instance beyond2 : Beyond := fun _ _ => "x"%char.
#[local] Instance max_size2 : MaxSize := 2 ^ 62.
#[local] Existing Instance extent_client_cache.
Definition fresh_disk : extent_server :=
  match extent_server_new [100] [6] with Ret s => s | _ => ExtentServer ∅ [] [] end.
Definition fresh_yfs : yfs := Yfs (World ∅ [] [] fresh_disk) [].
Lemma fresh_rep : rep {[ 1 := Dir ∅ ]} fresh_yfs.
Proof. split; [constructor|]. apply map_Forall_singleton. by apply is_dir_empty. Qed.
Lemma fresh_owed : owed {[ 1 := Dir ∅ ]} (OpCreate true 1 (lit "a")) fresh_yfs.
Proof. split; [by exists ∅|]. vm_compute. by eexists. Qed.
