(* ===== verification/Fuse.v ===== *)
(** * The FUSE front end: [fuse.cc]

    The handlers that the kernel's requests arrive at, over the operations of
    [YfsClient].  A reply is a value; the bytes of a directory entry are made by
    libfuse ([fuse_add_dirent]), so they are a parameter. *)
From S2P Require Import Prelude Marshall Protocols Extent DirForm YfsClient.
Import yfs_status.

Definition ENOENT : Z := 2.
Definition EEXIST : Z := 17.
Definition ENOTDIR : Z := 20.
Definition ENOSYS : Z := 38.
Definition S_IFREG : Z := Z.shiftl 8 12.
Definition S_IFDIR : Z := Z.shiftl 4 12.
Definition FUSE_SET_ATTR_SIZE : Z := 8.

(** The fields of [struct stat] that the code sets. *)
Record stat := Stat {
  st_ino : Z; st_mode : Z; st_nlink : Z;
  st_atime : Z; st_mtime : Z; st_ctime : Z; st_size : Z;
}.
(** [struct fuse_entry_param]: timeouts and generation are always 0. *)
Record entry := Entry { e_ino : Z; e_attr : stat }.

Inductive reply :=
  | ReplyErr (e : Z) | ReplyAttr (st : stat) | ReplyBuf (b : str) | ReplyWrite (n : Z)
  | ReplyCreate (e : entry) | ReplyEntry (e : entry) | ReplyOpen
  | ReplyStatfs (namemax bsize : Z).

(** libfuse: [fuse_dirent_size] of a length, and what [fuse_add_dirent] writes
    for a name, a number and the offset of the next entry, which fills exactly
    that size. *)
Class Libfuse := {
  dirent_size : nat -> nat;
  dirent : str -> Z -> Z -> str;
  dirent_length name ino off : length (dirent name ino off) = dirent_size (length name);
}.

Section handlers.
Context `{E : ExtentClient, Beyond, MaxSize, Libfuse}.

Definition getattr (inum : Z) : M (Z * stat) :=
  if isfile inum then
    '(ret, info) ← getfile inum (Fileinfo 0 0 0 0);
    if negb (ret =? OK) then mret (ret, Stat inum 0 0 0 0 0 0)
    else mret (OK, Stat inum (Z.lor S_IFREG 438) 1 (fi_atime info) (fi_mtime info)
                     (fi_ctime info) (fi_size info))
  else
    '(ret, info) ← getdir inum (Dirinfo 0 0 0);
    if negb (ret =? OK) then mret (ret, Stat inum 0 0 0 0 0 0)
    else mret (OK, Stat inum (Z.lor S_IFDIR 511) 2 (di_atime info) (di_mtime info)
                     (di_ctime info) 0).

Definition fuseserver_getattr (ino : Z) : M reply :=
  '(ret, st) ← getattr ino;
  if negb (ret =? OK) then mret (ReplyErr ENOENT) else mret (ReplyAttr st).

Definition fuseserver_setattr (ino attr_size to_set : Z) : M reply :=
  if negb (Z.land FUSE_SET_ATTR_SIZE to_set =? 0) then
    ret ← setattr ino attr_size;
    if negb (ret =? OK) then mret (ReplyErr ENOSYS)
    else
      '(ret, st) ← getattr ino;
      if negb (ret =? OK) then mret (ReplyErr ENOSYS) else mret (ReplyAttr st)
  else mret (ReplyErr ENOSYS).

Definition fuseserver_read (ino size off : Z) : M reply :=
  '(ret, buf) ← read ino size off [];
  if negb (ret =? OK) then mret (ReplyErr ENOENT) else mret (ReplyBuf buf).

Definition fuseserver_write (ino : Z) (buf : str) (size off : Z) : M reply :=
  ret ← write ino size off buf;
  if negb (ret =? OK) then mret (ReplyErr ENOENT) else mret (ReplyWrite size).

(** The result of [getattr] is not looked at. *)
Definition fuseserver_createhelper (parent : Z) (name : str) : M (Z * option entry) :=
  '(ret, inum) ← create parent name 0;
  if negb (ret =? OK) then mret (ret, None)
  else '(_, st) ← getattr inum; mret (OK, Some (Entry inum st)).
Definition create_error (ret : Z) : reply :=
  if ret =? EXIST then ReplyErr EEXIST else ReplyErr ENOENT.
Definition fuseserver_create (parent : Z) (name : str) : M reply :=
  '(ret, e) ← fuseserver_createhelper parent name;
  mret match e with Some e => ReplyCreate e | None => create_error ret end.
Definition fuseserver_mknod (parent : Z) (name : str) : M reply :=
  '(ret, e) ← fuseserver_createhelper parent name;
  mret match e with Some e => ReplyEntry e | None => create_error ret end.

Definition fuseserver_lookup (parent : Z) (name : str) : M reply :=
  '(ret, found, ino) ← yfs_lookup parent name false 0;
  if negb (ret =? OK) then
    mret (if found : bool then ReplyEntry (Entry ino (Stat 0 0 0 0 0 0 0)) else ReplyErr ENOENT)
  else if found then '(_, st) ← getattr ino; mret (ReplyEntry (Entry ino st))
  else mret (ReplyErr ENOENT).

(** [dirbuf_add] for one entry; the C string of the name is passed. *)
Definition dirbuf_add (b name : str) (ino : Z) : str :=
  let name := c_str name in
  b ++ dirent name ino (Z.of_nat (length b + dirent_size (length name))).
Definition reply_buf_limited (buf : str) (off maxsize : Z) : reply :=
  let bufsize := Z.of_nat (length buf) in
  if u64 off <? bufsize
  then ReplyBuf (take (Z.to_nat (Z.min (bufsize - u64 off) maxsize)) (drop (Z.to_nat (u64 off)) buf))
  else ReplyBuf [].
Definition fuseserver_readdir (ino size off : Z) : M reply :=
  if negb (isdir ino) then mret (ReplyErr ENOTDIR)
  else
    '(_, dirinfo) ← readdir (MkDirForm ∅ 0) ino;
    let b := foldl (fun b it => dirbuf_add b it.1 it.2) [] (std_iter (dir_block_ dirinfo)) in
    mret (reply_buf_limited b off size).

Definition fuseserver_open (ino : Z) : M reply := mret ReplyOpen.
Definition fuseserver_mkdir (parent : Z) (name : str) : M reply :=
  '(ret, ino) ← mkdir parent name 0;
  if ret =? EXIST then mret (ReplyErr EEXIST)
  else if negb (ret =? OK) then mret (ReplyErr ENOENT)
  else
    '(ret, st) ← getattr ino;
    if negb (ret =? OK) then mret (ReplyErr ENOENT) else mret (ReplyEntry (Entry ino st)).
Definition fuseserver_unlink (parent : Z) (name : str) : M reply :=
  ret ← unlink parent name;
  if negb (ret =? OK) then mret (ReplyErr ENOENT) else mret (ReplyErr 0).
Definition fuseserver_statfs : M reply := mret (ReplyStatfs 255 512).
End handlers.

(** ** The kernel's view of the file system *)

Inductive freq :=
  | FGetattr (ino : Z)
  | FSetattr (ino attr_size to_set : Z)
  | FRead (ino size off : Z)
  | FWrite (ino : Z) (buf : str) (off : Z)
  | FCreate (parent : Z) (name : str)
  | FMknod (parent : Z) (name : str)
  | FMkdir (parent : Z) (name : str)
  | FLookup (parent : Z) (name : str)
  | FReaddir (ino size off : Z)
  | FUnlink (parent : Z) (name : str)
  | FOpen (ino : Z)
  | FStatfs.

(** The operation of the abstract file system behind a request. *)
Definition fuse_op (q : freq) : option fsop :=
  match q with
  | FGetattr _ | FOpen _ | FStatfs => None
  | FSetattr ino n to_set => if Z.land FUSE_SET_ATTR_SIZE to_set =? 0 then None else Some (OpSetattr ino n)
  | FRead ino size off => Some (OpRead ino size off)
  | FWrite ino buf off => Some (OpWrite ino off buf)
  | FCreate parent name | FMknod parent name => Some (OpCreate true parent name)
  | FMkdir parent name => Some (OpCreate false parent name)
  | FLookup parent name => Some (OpLookup parent name)
  | FReaddir ino _ _ => Some (OpReaddir ino)
  | FUnlink parent name => Some (OpUnlink parent name)
  end.

(** The attributes of a node: its type, as its number says, and, for a file
    whose size the extent client knows, its length. *)
Definition attr_of (ino : Z) (len : option Z) (st : stat) : Prop :=
  st_ino st = ino /\
  st_mode st = (if isfile ino then Z.lor S_IFREG 438 else Z.lor S_IFDIR 511) /\
  st_nlink st = (if isfile ino then 1 else 2) /\
  (forall n, len = Some n -> isfile ino = true -> st_size st = u32 n).

Section fuse_spec.
Context {E : ExtentClient} `{S : !ExtentClientSpec E, Beyond, MaxSize, Libfuse}.

Definition run_fuse (q : freq) : M reply :=
  match q with
  | FGetattr ino => fuseserver_getattr ino
  | FSetattr ino n to_set => fuseserver_setattr ino n to_set
  | FRead ino size off => fuseserver_read ino size off
  | FWrite ino buf off => fuseserver_write ino buf (Z.of_nat (length buf)) off
  | FCreate parent name => fuseserver_create parent name
  | FMknod parent name => fuseserver_mknod parent name
  | FMkdir parent name => fuseserver_mkdir parent name
  | FLookup parent name => fuseserver_lookup parent name
  | FReaddir ino size off => fuseserver_readdir ino size off
  | FUnlink parent name => fuseserver_unlink parent name
  | FOpen ino => fuseserver_open ino
  | FStatfs => fuseserver_statfs
  end.

(** The bytes of a listing: the entries in the order of their names. *)
Definition listing (d : gmap str Z) : str :=
  foldl (fun b it => dirbuf_add b it.1 it.2) [] (std_iter d).

(** How the result of the operation is told to the kernel. *)
Definition made (mk : entry -> reply) (st ino : Z) (r : reply) : Prop :=
  if st =? OK then exists a, r = mk (Entry ino a) /\ attr_of ino None a else r = create_error st.
Definition answers (q : freq) (res : fsres) (r : reply) : Prop :=
  match q, res with
  | FSetattr ino n _, RStatus st => st = OK /\ exists a, r = ReplyAttr a /\ attr_of ino None a
  | FRead _ _ _, RData st buf => st = OK /\ r = ReplyBuf buf
  | FWrite _ buf _, RStatus st => st = OK /\ r = ReplyWrite (Z.of_nat (length buf))
  | FCreate _ _, RIno st ino => made ReplyCreate st ino r
  | FMknod _ _, RIno st ino => made ReplyEntry st ino r
  | FMkdir _ _, RIno st ino => made ReplyEntry st ino r
  | FLookup _ _, RFound st found ino =>
      if found then exists a, r = ReplyEntry (Entry ino a) /\ attr_of ino None a
      else r = ReplyErr ENOENT
  | FReaddir _ size off, RDir st d =>
      st = OK /\ r = ReplyBuf (slice (listing d) off size)
  | FUnlink _ _, RStatus st => r = ReplyErr (if st =? OK then 0 else ENOENT)
  | _, _ => False
  end.

(** The requests that are about no operation, and their replies. *)
Definition plain_reply (q : freq) : option reply :=
  match q with
  | FSetattr _ _ to_set => if Z.land FUSE_SET_ATTR_SIZE to_set =? 0 then Some (ReplyErr ENOSYS) else None
  | FOpen _ => Some ReplyOpen
  | FStatfs => Some (ReplyStatfs 255 512)
  | _ => None
  end.

(** What a request needs besides what its operation needs: a directory entry
    that is looked up is not dangling, a directory's number is one, and the
    kernel's sizes are those of a buffer. *)
Definition fuse_enabled (F : fs) (q : freq) (y : yfs) : Prop :=
  (forall op, fuse_op q = Some op -> enabled F op y) /\
  match q with
  | FGetattr ino => is_Some (F !! ino)
  | FLookup parent name =>
      forall d ino, F !! parent = Some (Dir d) -> d !! key name = Some ino -> is_Some (F !! ino)
  | FReaddir ino size off => isdir ino = true /\ 0 <= off < 2 ^ 63 /\ 0 <= size
  | _ => True
  end.

(** ** Lemmas *)

Lemma getdir_some y ino din s :
  healthy y -> view y ino = Some s ->
  exists di y', getdir ino din y = Ret ((OK, di), y') /\ quiet y y'.
Proof using S.
  intros Hh Hv.
  destruct (ec_getattr_some (ew y) ino attr0 s Hh Hv) as (a & w' & Eg & Hf & Hv' & Hz).
  eexists _, (Yfs w' (((trace y ++ [Acquire ino]) ++ [Release ino]) ++ [Use ino])). split.
  - unfold getdir, lock_statement, YfsLock, extent_op, mbind, M_bind; simpl. by rewrite Eg.
  - destruct y as [w t]. eapply ec_frame_quiet; [done|by rewrite Hv'|]. intros Hs. by apply Hz.
Qed.
Lemma getattr_some y ino s :
  healthy y -> view y ino = Some s ->
  exists a y', getattr ino y = Ret ((OK, a), y') /\ quiet y y' /\
    attr_of ino None a /\
    (ec_sized (ew y) ino -> attr_of ino (Some (Z.of_nat (length s))) a).
Proof using S.
  intros Hh Hv. unfold getattr, attr_of. destruct (isfile ino).
  - destruct (getfile_some y ino (Fileinfo 0 0 0 0) s Hh Hv) as (fi & y' & Eg & Q & Hsz).
    eexists _, y'. split; [by run Eg|]. split; [done|]. split; [by split_and!|].
    intros Hz. split_and!; try done. intros n [= <-] _. by apply Hsz.
  - destruct (getdir_some y ino (Dirinfo 0 0 0) s Hh Hv) as (di & y' & Eg & Q).
    eexists _, y'. split; [by run Eg|]. split; [done|]. by split; [split_and!|intros _; split_and!].
Qed.
Lemma represents_view y ino n : represents y ino n -> exists s, view y ino = Some s.
Proof. destruct n as [s|d]; [intros [? _]|intros (data & ? & _)]; eauto. Qed.

Context (max_pos : 0 <= max_size < 2 ^ 63).


(** A request was answered and the abstract file system can follow. *)
Definition told (F : fs) (q : freq) (op : fsop) (y : yfs) : Prop :=
  exists r y' res, run_fuse q y = Ret (r, y') /\ answers q res r /\
    ((exists F', fs_step F op res F' /\ rep F' y') \/ clash F res).
Lemma told_step F q op y r y' res F' :
  run_fuse q y = Ret (r, y') -> answers q res r -> fs_step F op res F' -> rep F' y' ->
  told F q op y.
Proof. intros. exists r, y', res. eauto 6. Qed.

(** The attributes of a node that is there can be read after any operation. *)
Lemma getattr_rep F y ino n :
  rep F y -> F !! ino = Some n ->
  exists a y', getattr ino y = Ret ((OK, a), y') /\ rep F y' /\ attr_of ino None a /\
    forall s, n = File s -> ec_sized (ew y) ino -> attr_of ino (Some (Z.of_nat (length s))) a.
Proof using S.
  intros HR Hn. pose proof (proj2 HR _ _ Hn) as Hrep.
  destruct (represents_view y ino n Hrep) as (s & Hv).
  destruct (getattr_some y ino s (proj1 HR) Hv) as (a & y' & Eg & Q & Ha & Hz).
  exists a, y'. split; [done|]. split; [by eapply rep_quiet|]. split; [done|].
  intros s' -> Hsz. destruct Hrep as [Hv' _]. rewrite Hv in Hv'. injection Hv' as <-. by apply Hz.
Qed.

Lemma told_setattr F y ino n to_set :
  rep F y -> enabled F (OpSetattr ino n) y -> (Z.land FUSE_SET_ATTR_SIZE to_set =? 0) = false ->
  told F (FSetattr ino n to_set) (OpSetattr ino n) y.
Proof using max_pos S.
  intros HR ((s & Hs) & Hn) Hset. destruct (proj2 HR _ _ Hs) as [Hv Hl].
  destruct (setattr_some max_pos y ino n s (proj1 HR) Hv Hn) as (y1 & Er & K & Hv' & _).
  assert (rep (<[ino := File (str_resize (Z.to_nat n) s)]> F) y1) as HR1.
  { apply (rep_insert F y); [done|done|]. split; [done|]. rewrite length_str_resize. lia. }
  destruct (getattr_rep _ y1 ino _ HR1 (lookup_insert_eq _ _ _)) as (a & y2 & Eg & HR2 & Ha & _).
  eapply (told_step _ _ _ _ (ReplyAttr a) y2 (RStatus OK)); [|by split; [done|exists a]|by constructor|done].
  cbn [run_fuse]. unfold fuseserver_setattr. rewrite Hset. cbn [negb].
  run Er. by run Eg.
Qed.
Lemma told_make F y (b : bool) q mk parent name :
  rep F y -> enabled F (OpCreate b parent name) y ->
  (forall st ino y1, create_item b parent name 0 y = Ret ((st, ino), y1) ->
     (st <> OK -> run_fuse q y = Ret (create_error st, y1)) /\
     (st = OK -> forall a y2, getattr ino y1 = Ret ((OK, a), y2) ->
        run_fuse q y = Ret (mk (Entry ino a), y2))) ->
  (forall st ino r, answers q (RIno st ino) r <-> made mk st ino r) ->
  told F q (OpCreate b parent name) y.
Proof using max_pos S.
  intros HR He Hrun Hans.
  destruct (create_item_follows max_pos F y b parent name HR He) as (st & ino & y1 & Er & Hv & Hs).
  destruct (Hrun st ino y1 Er) as [Hbad Hgood]. destruct (Z.eqb_spec st OK) as [->|Hst].
  - destruct (Hv eq_refl) as [Hh1 Hv1].
    destruct (getattr_some y1 ino [] Hh1 Hv1) as (a & y2 & Eg & Q & Ha & _).
    exists (mk (Entry ino a)), y2, (RIno OK ino). split; [by apply Hgood|].
    split; [apply Hans; by exists a|]. destruct Hs as [(F' & Hf & HR')|Hc]; [left|by right].
    exists F'. split; [done|by eapply rep_quiet].
  - exists (create_error st), y1, (RIno st ino). split; [by apply Hbad|].
    split; [|done]. apply Hans. unfold made. by rewrite (proj2 (Z.eqb_neq _ _) Hst).
Qed.
Lemma createhelper_run parent name y st ino y1 :
  create_item true parent name 0 y = Ret ((st, ino), y1) ->
  (st <> OK -> fuseserver_createhelper parent name y = Ret ((st, None), y1)) /\
  (st = OK -> forall a y2, getattr ino y1 = Ret ((OK, a), y2) ->
     fuseserver_createhelper parent name y = Ret ((OK, Some (Entry ino a)), y2)).
Proof.
  intros Er. unfold fuseserver_createhelper, create. rewrite (M_bind_run _ _ _ _ _ Er).
  split; [intros Hst%Z.eqb_neq; by rewrite Hst|]. intros -> a y2 Eg. cbv beta iota.
  change (OK =? OK) with true. cbn [negb]. by run Eg.
Qed.
Lemma told_read F y ino size off :
  rep F y -> enabled F (OpRead ino size off) y -> told F (FRead ino size off) (OpRead ino size off) y.
Proof using max_pos S.
  intros HR ((s & Hs) & Ho & Hsz). destruct (proj2 HR _ _ Hs) as [Hv Hl].
  destruct (read_some max_pos y ino size off [] s (proj1 HR) Hv Ho Hsz Hl) as (y' & Er & Q).
  eapply (told_step _ _ _ _ _ y' (RData OK _)); [|by split|by constructor|by eapply rep_quiet].
  cbn [run_fuse]. unfold fuseserver_read. by run Er.
Qed.
Lemma told_write F y ino buf off op :
  fuse_op (FWrite ino buf off) = Some op ->
  rep F y -> enabled F op y -> told F (FWrite ino buf off) op y.
Proof using max_pos S.
  intros [= <-] HR ((s & Hs) & Ho & Hm). destruct (proj2 HR _ _ Hs) as [Hv Hl].
  destruct (write_some max_pos y ino (Z.of_nat (length buf)) off buf s (proj1 HR) Hv Ho)
    as (y' & Er & K & Hv' & _); [lia|done|done|]. rewrite Nat2Z.id, take_ge in Hv' by done.
  eapply (told_step _ _ _ _ _ y' (RStatus OK)); [|by split|by constructor|].
  - cbn [run_fuse]. unfold fuseserver_write. by run Er.
  - apply (rep_insert F y); [done|done|]. split; [done|]. rewrite length_overwrite by done. lia.
Qed.
(** [create] and [mknod] share the helper. *)
Lemma told_helper F y q mk parent name :
  rep F y -> enabled F (OpCreate true parent name) y ->
  (forall st y1, fuseserver_createhelper parent name y = Ret ((st, None), y1) ->
     run_fuse q y = Ret (create_error st, y1)) ->
  (forall st e y1, fuseserver_createhelper parent name y = Ret ((st, Some e), y1) ->
     run_fuse q y = Ret (mk e, y1)) ->
  (forall st ino r, answers q (RIno st ino) r <-> made mk st ino r) ->
  told F q (OpCreate true parent name) y.
Proof using max_pos S.
  intros HR He Hno Hyes Hans. apply (told_make F y true q mk); try done. intros st ino y1 Er.
  destruct (createhelper_run parent name y st ino y1 Er) as [Hbad Hgood].
  split; [intros Hst; eauto|intros Hst a y2 Eg; eauto].
Qed.
Lemma told_mkdir F y parent name :
  rep F y -> enabled F (OpCreate false parent name) y ->
  told F (FMkdir parent name) (OpCreate false parent name) y.
Proof using max_pos S.
  intros HR He. apply (told_make F y false _ ReplyEntry); try done. intros st ino y1 Er.
  cbn [run_fuse]. unfold fuseserver_mkdir, mkdir. rewrite (M_bind_run _ _ _ _ _ Er). cbv beta iota.
  split; [intros Hst%Z.eqb_neq|intros -> a y2 Eg].
  - unfold create_error. rewrite Hst. by destruct (st =? EXIST).
  - change (OK =? EXIST) with false. change (OK =? OK) with true. cbn [negb]. by run Eg.
Qed.
Lemma told_lookup F y parent name :
  rep F y -> fuse_enabled F (FLookup parent name) y ->
  told F (FLookup parent name) (OpLookup parent name) y.
Proof using S.
  intros HR [He Hdang]. destruct (He _ eq_refl) as (d & Hd).
  pose proof (proj2 HR _ _ Hd) as Hdir; simpl in Hdir.
  destruct (lookup_dir y parent name false 0 d (proj1 HR) Hdir) as (y1 & Er & Q).
  assert (rep F y1) as HR1 by by eapply rep_quiet.
  pose proof (step_lookup F parent name d Hd) as Hstep. destruct (d !! key name) as [ino|] eqn:Ek.
  - destruct (Hdang d ino Hd Ek) as [n Hn].
    destruct (getattr_rep F y1 ino n HR1 Hn) as (a & y2 & Eg & HR2 & Ha & _).
    eapply (told_step _ _ _ _ (ReplyEntry (Entry ino a)) y2 (RFound OK true ino)); [|by exists a|done|done].
    cbn [run_fuse]. unfold fuseserver_lookup. run Er. by run Eg.
  - eapply (told_step _ _ _ _ (ReplyErr ENOENT) y1 (RFound OK false 0)); [|done|done|done].
    cbn [run_fuse]. unfold fuseserver_lookup. by run Er.
Qed.
Lemma reply_buf_slice b off size :
  0 <= off < 2 ^ 63 -> 0 <= size -> reply_buf_limited b off size = ReplyBuf (slice b off size).
Proof.
  intros Ho Hs. unfold reply_buf_limited, slice. rewrite (u64_id off) by width.
  destruct (Z.ltb_spec off (Z.of_nat (length b))).
  - f_equal. destruct (Z.le_gt_cases (Z.of_nat (length b) - off) size).
    + rewrite Z.min_l by done. rewrite !take_ge; [done|rewrite length_drop; lia..].
    + by rewrite Z.min_r by lia.
  - by rewrite drop_ge, take_nil by lia.
Qed.

Lemma told_readdir F y ino size off op :
  fuse_op (FReaddir ino size off) = Some op ->
  rep F y -> fuse_enabled F (FReaddir ino size off) y -> told F (FReaddir ino size off) op y.
Proof using max_pos S.
  intros Hop HR [He (Hdir & Ho & Hsz)]. specialize (He op Hop). injection Hop as <-.
  destruct He as (d & Hd). pose proof (proj2 HR _ _ Hd) as Hrep; simpl in Hrep.
  destruct (readdir_dir y ino d (proj1 HR) Hrep) as (f & y' & Er & <- & Q).
  eapply (told_step _ _ _ _ (ReplyBuf (slice (listing (dir_block_ f)) off size)) y'
    (RDir OK (dir_block_ f))); [|by split|by constructor|by eapply rep_quiet].
  cbn [run_fuse]. unfold fuseserver_readdir. rewrite Hdir. cbn [negb]. run Er.
  by rewrite <-reply_buf_slice.
Qed.
Lemma told_unlink F y parent name :
  rep F y -> enabled F (OpUnlink parent name) y ->
  told F (FUnlink parent name) (OpUnlink parent name) y.
Proof using max_pos S.
  intros HR He. destruct (follows_unlink max_pos F y parent name HR He) as (res & y' & Er & Hs).
  cbn [run_fsop] in Er. apply M_bind_inv in Er as (st & y1 & Eu & Er). injection Er as <- <-.
  exists (ReplyErr (if st =? OK then 0 else ENOENT)), y1, (RStatus st). split; [|done].
  cbn [run_fuse]. unfold fuseserver_unlink. rewrite (M_bind_run _ _ _ _ _ Eu).
  by destruct (st =? OK).
Qed.

(** ** Properties *)

End fuse_spec.

(** ** The property at a concrete input *)

#[local] Existing Instance junk1.
#[local] Existing Instance beyond1.
#[local] Existing Instance max_size1.
#[local] Existing Instance extent_client_cache.
#[local] Instance libfuse1 : Libfuse := {|
  dirent_size n := n; dirent name _ _ := name; dirent_length _ _ _ := eq_refl |}.

Lemma fuse_enabled1 : fuse_enabled fs1 (FCreate 1 (lit "a")) yfs1.
Proof. split; [|done]. intros op [= <-]. exact enabled1. Qed.
