(* ===== verification/Config.v ===== *)
(** * Views: [config.cc]

    A configuration object keeps the current view, a list of members that is
    the value of the latest Paxos instance, proposes views with a member added
    or removed, and pings members to find the ones to remove.  Where the code
    leaves its mutex for an RPC or for Paxos, the definition ends and the next
    one goes on; the deleted connection handles and the upcall to the
    replicated state machine are outputs. *)
From S2P Require Import Prelude Marshall Protocols RpcStub Log Paxos.

Inductive heartbeat_t := HB_OK | HB_VIEWERR | HB_FAILURE.
#[global] Instance heartbeat_t_eq_dec : EqDecision heartbeat_t.
Proof. solve_decision. Defined.

Record config := Config {
  acc : acceptor;
  pro : proposer;
  myvid : Z;
  cfg_me : str;
  mems : list str;
}.
Definition set_acc (c : config) (a : acceptor) : config :=
  Config a (pro c) (myvid c) (cfg_me c) (mems c).
Definition set_view (c : config) (vid : Z) (m : list str) : config :=
  Config (acc c) (pro c) vid (cfg_me c) m.

(** [members]: the words of a value; every word takes a character. *)
Fixpoint members_loop (fuel : nat) (ist : istream) : list str :=
  match fuel with
  | O => []
  | S fuel =>
      let '(m, ist) := read_token [] ist in
      if s_good ist then m :: members_loop fuel ist else []
  end.
Definition members (value : str) : list str :=
  members_loop (S (length value)) (Istream value true).

Definition value (m : list str) : str := flat_map (fun n => n ++ [space]) m.

(** [get_view_wo]: [acc->value] is [values[instance]], which creates a missing
    element. *)
Definition get_view_wo (instance : Z) (c : config) : list str * config :=
  (members (std_ref [] (values (acc c)) instance),
   set_acc c (set_values (acc c) (std_touch [] (values (acc c)) instance))).

Definition reconstruct (c : config) : config :=
  if 0 <? instance_h (acc c) then
    let vid := instance_h (acc c) in
    let '(m, c) := get_view_wo vid c in
    set_view c vid m
  else c.

(** The constructor, on the log file of an earlier run; the first node of all
    starts with the view of itself. *)
Definition config_new (first me file : str) : outcome config :=
  a ← acceptor_new (bool_decide (me = first)) me me file;
  Ret (reconstruct (Config a (proposer_new me) 0 me [])).

Definition config_restore (s : str) (c : config) : outcome config :=
  a ← acceptor_restore s (acc c);
  Ret (reconstruct (set_acc c a)).

(** [paxos_commit]: the handles it deletes, the view it announces, the state. *)
Definition paxos_commit (instance : Z) (v : str) (c : config)
    : list str * Z * config :=
  let newmem := members v in
  (filter (fun m => isamember m newmem = false /\ cfg_me c <> m) (mems c),
   instance, set_view c instance newmem).

Definition ismember (m : str) (vid : Z) (c : config) : bool * config :=
  let '(v, c) := get_view_wo vid c in (isamember m v, c).

(** [add]: [None] when it returns false at once, otherwise the instance, nodes
    and value it runs Paxos with, whose result it returns. *)
Definition add (new_m : str) (vid : Z) (c : config) : option (Z * list str * str) :=
  if negb (vid =? myvid c) then None
  else Some (i32 (u32 (myvid c + 1)), mems c, value (mems c ++ [new_m])).

Definition remove_wo (m : str) (c : config) : Z * list str * str :=
  (i32 (u32 (myvid c + 1)), mems c, value (filter (fun n => n <> m) (mems c))).

(** The node with the smallest name. *)
Definition smallest (me : str) (cmems : list str) : str :=
  foldl (fun m n => if str_ltb n m then n else m) me cmems.
(** The first node of the list that does not answer. *)
Fixpoint first_failing (ping : str -> heartbeat_t) (me : str) (cmems : list str)
    : option str :=
  match cmems with
  | [] => None
  | n :: cmems =>
      if decide (n = me) then first_failing ping me cmems
      else if decide (ping n = HB_OK) then first_failing ping me cmems
      else Some n
  end.
(** One round of [heartbeater], with the results of the pings: the view it
    looked at and the node that should go. *)
Definition heartbeater_round (ping : str -> heartbeat_t) (c : config)
    : Z * option str * config :=
  let vid := myvid c in
  let '(cmems, c) := get_view_wo vid c in
  let me := cfg_me c in
  if negb (isamember me cmems) then (vid, None, c)
  else
    let m := smallest me cmems in
    if decide (m = me) then (vid, first_failing ping me cmems, c)
    else (vid, if decide (ping m = HB_OK) then None else Some m, c).
(** The end of the round, after the pings: Paxos is run unless the view has
    changed. *)
Definition heartbeater_end (vid : Z) (target : option str) (c : config)
    : option (Z * list str * str) :=
  m ← target;
  if vid =? myvid c then Some (remove_wo m c) else None.

(** The handler of heartbeats. *)
Definition heartbeat (m : str) (vid : Z) (r : Z) (c : config)
    : outcome (Z * Z * config) :=
  let r := i32 (myvid c) in
  if vid =? myvid c then Ret (paxos_protocol.OK, r, c)
  else if isrunning (pro c) then
    _ ← VERIFY ((vid =? u32 (myvid c + 1)) || (u32 (vid + 1) =? myvid c));
    Ret (paxos_protocol.OK, r, c)
  else Ret (paxos_protocol.ERR, r, c).

(** [doheartbeat], given whether the node could be bound and the result of the
    call: the verdict and whether the handle is deleted. *)
Definition doheartbeat (bound : bool) (ret : Z) : heartbeat_t * bool :=
  let ret := if bound then ret else rpc_const.timeout_failure in
  if negb (ret =? paxos_protocol.OK) then
    if (ret =? rpc_const.atmostonce_failure) || (ret =? rpc_const.oldsrv_failure)
    then (HB_OK, true)
    else if ret <? 0 then (HB_FAILURE, false) else (HB_VIEWERR, false)
  else (HB_OK, false).

(** ** Lemmas *)

Lemma members_loop_value fuel ms :
  Forall word ms -> (length (value ms) < fuel)%nat ->
  members_loop fuel (Istream (value ms) true) = ms.
Proof.
  revert fuel. induction ms as [|m ms IH]; intros [|fuel] Hw Hf; simpl in Hf; try lia; [done|].
  inversion_clear Hw as [|? ? Hm Hms]. cbn [members_loop value flat_map].
  rewrite <-app_assoc. cbn [app]. change (flat_map _ ms) with (value ms).
  rewrite (read_token_word [] m space) by done. cbn [s_good].
  f_equal. destruct fuel as [|fuel]; [rewrite !length_app in Hf; simpl in Hf; lia|].
  cbn [members_loop]. rewrite read_token_space.
  change (members_loop (S fuel) (Istream (value ms) true) = ms).
  apply IH; [done|]. rewrite !length_app in Hf. simpl in Hf. fold (value ms) in Hf. lia.
Qed.
Lemma members_value ms : Forall word ms -> members (value ms) = ms.
Proof. intros. unfold members. apply members_loop_value; [done|lia]. Qed.

Lemma isamember_elem m l : isamember m l = true <-> m ∈ l.
Proof.
  induction l as [|n l IH]; simpl; [split; [done|by intros ?%not_elem_of_nil]|].
  case_bool_decide as E.
  - subst. split; [left|done].
  - rewrite IH, elem_of_cons. naive_solver.
Qed.

Lemma smallest_in me l : smallest me l = me \/ smallest me l ∈ l.
Proof.
  revert me. induction l as [|n l IH]; intros me; [by left|]. cbn [smallest foldl].
  fold (smallest (if str_ltb n me then n else me) l). destruct (str_ltb n me).
  - destruct (IH n) as [->|?]; right; [left|by right].
  - destruct (IH me) as [->|?]; [by left|right; by right].
Qed.
Lemma smallest_le me l n :
  n ∈ me :: l -> str_ltb n (smallest me l) = false.
Proof.
  revert me n. induction l as [|k l IH]; intros me n Hn.
  { apply list_elem_of_singleton in Hn as ->. apply str_ltb_irrefl. }
  cbn [smallest foldl]. fold (smallest (if str_ltb k me then k else me) l).
  set (b := if str_ltb k me then k else me).
  destruct (decide (n ∈ b :: l)) as [Hb|Hb]; [by apply IH|].
  assert (n <> b /\ n ∉ l) as [Hnb Hnl] by (split; intros ?; apply Hb; set_solver).
  assert (str_ltb b n = true) as Hbn.
  { unfold b in *. rewrite !elem_of_cons in Hn. destruct (str_ltb k me) eqn:Ek.
    - destruct Hn as [->|[->|?]]; [done|done|done].
    - destruct Hn as [->|[->|?]]; [done| |done].
      destruct (str_ltb me k) eqn:Em; [done|].
      by rewrite (str_ltb_trichotomy _ _ Ek Em) in Hnb. }
  destruct (str_ltb n (smallest b l)) eqn:E; [|done].
  pose proof (str_ltb_trans _ _ _ Hbn E) as Hc.
  by rewrite (IH b b) in Hc by left.
Qed.

Lemma first_failing_spec ping me l m :
  first_failing ping me l = Some m -> m ∈ l /\ m <> me /\ ping m <> HB_OK.
Proof.
  induction l as [|n l IH]; simpl; [done|].
  destruct (decide (n = me)) as [->|Hne].
  { intros (?&?&?)%IH. by split; [right|]. }
  destruct (decide (ping n = HB_OK)) as [Hp|Hp].
  { intros (?&?&?)%IH. by split; [right|]. }
  intros [= ->]. by split; [left|].
Qed.

(** Members of the new view keep their handles. *)
Lemma handles_kept me old new :
  old ⊆ new -> filter (fun m => isamember m new = false /\ me <> m) old = [].
Proof.
  intros Hsub. apply elem_of_nil_inv. intros m [[Hno _] Hin]%list_elem_of_filter.
  apply Hsub, isamember_elem in Hin. congruence.
Qed.

(** ** Properties *)

(** C34. The next view is the current one with the change that was asked for:
    [add] runs Paxos among the current members, for the instance after the
    current view, with a value that, once committed, is the current view and
    the new member at its end; [remove_wo] with one that commits to the view
    without the member, and then only the handles of members that left are
    deleted. *)
Theorem config_next_view c new_m vid i nodes v m :
  Forall word (mems c) -> word new_m -> 0 <= myvid c < 2 ^ 31 - 1 ->
  add new_m vid c = Some (i, nodes, v) ->
  vid = myvid c /\ i = myvid c + 1 /\ nodes = mems c /\
  (let '(del, vid', c') := paxos_commit i v c in
   mems c' = mems c ++ [new_m] /\ vid' = i /\ del = []) /\
  (let '(i', nodes', v') := remove_wo m c in
   let '(del, _, c') := paxos_commit i' v' c in
   i' = myvid c + 1 /\ nodes' = mems c /\
   mems c' = filter (fun n => n <> m) (mems c) /\
   forall n, n ∈ del <-> n = m /\ m ∈ mems c /\ m <> cfg_me c).
Proof.
  intros Hw Hn Hv. unfold add. destruct (Z.eqb_spec vid (myvid c)) as [->|]; [|done].
  assert (i32 (u32 (myvid c + 1)) = myvid c + 1) as Ei by width. simpl. intros [= <- <- <-].
  rewrite Ei. split; [done|]. split; [done|]. split; [done|].
  assert (Forall word (mems c ++ [new_m])) as Hw' by (apply Forall_app; auto).
  assert (Forall word (filter (fun n => n <> m) (mems c))) as Hw''.
  { apply Forall_forall. intros n [_ Hin]%list_elem_of_filter.
    by eapply Forall_forall in Hw. }
  split.
  - unfold paxos_commit. cbn [mems set_view]. rewrite members_value by done.
    split; [done|]. split; [done|].
    apply handles_kept. set_solver.
  - unfold remove_wo, paxos_commit. cbn [mems set_view]. rewrite members_value by done.
    split; [done|]. split; [done|]. split; [done|]. intros n.
    rewrite list_elem_of_filter, <-not_true_iff_false, isamember_elem, list_elem_of_filter.
    destruct (decide (n = m)) as [->|]; naive_solver.
Qed.

(** The heartbeater only removes others that failed: the node it proposes
    to remove is a member of the view it looked at, not itself, and did not
    answer its ping; every member but the smallest watches the smallest. *)
Theorem heartbeater_target ping c vid m c' :
  heartbeater_round ping c = (vid, Some m, c') ->
  vid = myvid c /\
  m ∈ members (std_ref [] (values (acc c)) (myvid c)) /\ m <> cfg_me c /\
  ping m <> HB_OK /\
  (smallest (cfg_me c) (members (std_ref [] (values (acc c)) (myvid c))) <> cfg_me c ->
   forall n, n ∈ members (std_ref [] (values (acc c)) (myvid c)) -> str_ltb n m = false).
Proof.
  unfold heartbeater_round, get_view_wo. cbn [cfg_me set_acc].
  set (view := members _). destruct (negb (isamember (cfg_me c) view)); [done|].
  destruct (decide (smallest (cfg_me c) view = cfg_me c)) as [E|E].
  - destruct (first_failing ping (cfg_me c) view) as [n|] eqn:Ef; [|done].
    intros [= <- <- _]. apply first_failing_spec in Ef as (? & ? & ?). by split_and!.
  - destruct (decide (ping (smallest (cfg_me c) view) = HB_OK)); [done|].
    intros [= <- <- _]. split; [done|].
    destruct (smallest_in (cfg_me c) view) as [?|Hin]; [done|].
    split; [done|]. split; [done|]. split; [done|]. intros _ k Hk.
    apply smallest_le. by right.
Qed.

(** A heartbeat from a node that is two views behind, or ahead, ends the
    process while Paxos is running. *)
Lemma heartbeat_from_afar m vid r c :
  isrunning (pro c) = true -> is_u32 vid -> is_u32 (myvid c) ->
  1 < Z.abs (vid - myvid c) < 2 ^ 32 - 1 -> heartbeat m vid r c = VerifyFail.
Proof.
  intros Hr Hv Hm Hd. unfold heartbeat. rewrite (proj2 (Z.eqb_neq vid (myvid c))) by lia.
  rewrite Hr. rewrite (proj2 (Z.eqb_neq vid (u32 (myvid c + 1)))) by width.
  by rewrite (proj2 (Z.eqb_neq (u32 (vid + 1)) (myvid c))) by width.
Qed.

(** ** The properties at concrete inputs *)

Definition cfg3 : config :=
  Config (Acceptor (lit "3001") (paxos_protocol.Prop_t 0 []) (paxos_protocol.Prop_t 0 []) [] 2
            {[ 2 := lit "3001 3002 " ]} [])
    (proposer_new (lit "3001")) 2 (lit "3001") [lit "3001"; lit "3002"].
Lemma word_lit s :
  (match s with [] => false | _ => forallb (fun c => negb (is_space c)) s end) = true -> word s.
Proof.
  destruct s as [|c s]; [done|]. intros Hf. split; [done|]. apply Forall_forall.
  intros x Hx. apply list_elem_of_In in Hx.
  rewrite forallb_forall in Hf. by apply negb_true_iff, Hf.
Qed.
Lemma cfg3_words : Forall word (mems cfg3).
Proof. repeat constructor; by apply word_lit. Qed.

Lemma config_next_view_witness :
  exists i nodes v, add (lit "3003") 2 cfg3 = Some (i, nodes, v) /\ i = 3 /\
    nodes = mems cfg3 /\
    mems (paxos_commit i v cfg3).2 = [lit "3001"; lit "3002"; lit "3003"].
Proof.
  eexists _, _, _. split; [reflexivity|].
  destruct (config_next_view cfg3 (lit "3003") 2 _ _ _ (lit "3002") cfg3_words
    (word_lit (lit "3003") eq_refl) ltac:(split; done) eq_refl) as (_ & Hi & Hn & Hc & _).
  split; [exact Hi|]. split; [exact Hn|]. exact (proj1 Hc).
Defined.

Lemma heartbeater_target_witness :
  exists vid c', heartbeater_round (fun _ => HB_FAILURE) cfg3 = (vid, Some (lit "3002"), c') /\
    lit "3002" <> cfg_me cfg3.
Proof.
  eexists _, _. split; [reflexivity|].
  exact (proj1 (proj2 (proj2 (heartbeater_target (fun _ => HB_FAILURE) cfg3 _ _ _ eq_refl)))).
Defined.
