(* ===== verification/Rsm.v ===== *)
(** * The replicated state machine: [rsm.cc]

    A node of the replicated state machine executes the requests of its clients
    in the order of their viewstamps: the primary numbers a request, has every
    backup of the view execute it, and executes it itself.  A new view begins
    with a synchronisation in which backups fetch the primary's state.

    The service is a parameter: its handlers ([procs]), registered with
    [rsm::reg], and its [rsm_state_transfer] interface, the class
    [StateTransfer].  A handler of [rsm.cc] is a function on the node's state;
    where the code leaves [rsm_mutex] for a call to another node the definition
    ends and the next one continues, except in [client_invoke], whose calls to
    the backups are made in a world [W] and return the state the node is in when
    the mutex is taken again.  [RsmNode] puts the threads of a node together. *)
From S2P Require Import Prelude Marshall Protocols RpcStub Log Paxos Config.
Import rsm_protocol.

(** [rsm_state_transfer]. *)
Class StateTransfer (S : Type) := {
  marshal_st : S -> outcome str;
  unmarshal_st : str -> S -> outcome S;
}.
(** What the synchronisation relies on: the transferred state agrees. *)
Class StateTransferOk (S : Type) `{StateTransfer S} := {
  st_agree : S -> S -> Prop;
  st_equiv :: Equivalence st_agree;
  st_ready : S -> S -> Prop;
  st_transfer a b : st_ready a b ->
    exists m b', marshal_st a = Ret m /\ unmarshal_st m b = Ret b' /\ st_agree b' a;
}.

Record rsm (S : Type) := Rsm {
  cfg : config;
  myvs : viewstamp;
  last_myvs : viewstamp;
  primary : str;
  insync : bool;
  inviewchange : bool;
  vid_commit : Z;
  vid_insync : Z;
  backups : list str;
  service : S;
  rsm_break1 : bool;
  rsm_break2 : bool;
  dopartition : bool;
  partitioned : bool;
}.
Arguments Rsm {S}.
Arguments cfg {S}. Arguments myvs {S}. Arguments last_myvs {S}.
Arguments primary {S}. Arguments insync {S}. Arguments inviewchange {S}.
Arguments vid_commit {S}. Arguments vid_insync {S}. Arguments backups {S}.
Arguments service {S}. Arguments rsm_break1 {S}. Arguments rsm_break2 {S}.
Arguments dopartition {S}. Arguments partitioned {S}.

Section rsm.
Context `{FreshMem} {S : Type} `{StateTransfer S}.
(** The handlers that were registered, and whether [set_state_transfer] was
    called. *)
Context (procs : gmap Z (handler S)) (stf : bool).
Implicit Types r : rsm S.

Definition set_cfg r (c : config) : rsm S :=
  Rsm c (myvs r) (last_myvs r) (primary r) (insync r) (inviewchange r) (vid_commit r)
    (vid_insync r) (backups r) (service r) (rsm_break1 r) (rsm_break2 r) (dopartition r)
    (partitioned r).
Definition set_vs r (my last : viewstamp) : rsm S :=
  Rsm (cfg r) my last (primary r) (insync r) (inviewchange r) (vid_commit r)
    (vid_insync r) (backups r) (service r) (rsm_break1 r) (rsm_break2 r) (dopartition r)
    (partitioned r).
Definition set_service r (s : S) : rsm S :=
  Rsm (cfg r) (myvs r) (last_myvs r) (primary r) (insync r) (inviewchange r) (vid_commit r)
    (vid_insync r) (backups r) s (rsm_break1 r) (rsm_break2 r) (dopartition r) (partitioned r).
Definition set_view_state r (p : str) (inv : bool) (vid : Z) : rsm S :=
  Rsm (cfg r) (myvs r) (last_myvs r) p (insync r) inv vid
    (vid_insync r) (backups r) (service r) (rsm_break1 r) (rsm_break2 r) (dopartition r)
    (partitioned r).
Definition set_sync r (ins : bool) (vid : Z) (b : list str) : rsm S :=
  Rsm (cfg r) (myvs r) (last_myvs r) (primary r) ins (inviewchange r) (vid_commit r)
    vid b (service r) (rsm_break1 r) (rsm_break2 r) (dopartition r) (partitioned r).
Definition set_partition r (d p : bool) : rsm S :=
  Rsm (cfg r) (myvs r) (last_myvs r) (primary r) (insync r) (inviewchange r) (vid_commit r)
    (vid_insync r) (backups r) (service r) (rsm_break1 r) (rsm_break2 r) d p.

Definition myaddr r : str := cfg_me (cfg r).
(** [cfg->get_view] and [cfg->ismember], which can create an element of the
    acceptor's map. *)
Definition get_view (vid : Z) r : list str * rsm S :=
  let '(v, c) := get_view_wo vid (cfg r) in (v, set_cfg r c).
Definition rsm_ismember (m : str) (vid : Z) r : bool * rsm S :=
  let '(b, c) := ismember m vid (cfg r) in (b, set_cfg r c).

(** An armed breakpoint ends the process. *)
Definition breakpoint1 r : outcome unit := VERIFY (negb (rsm_break1 r)).
Definition breakpoint2 r : outcome unit := VERIFY (negb (rsm_break2 r)).

Definition execute (procno : Z) (req : str) (s : S) : outcome (str * S) :=
  match procs !! procno with
  | None => VerifyFail
  | Some h => rsm_execute h req s
  end.

(** [set_primary]: the first member of the old view that is in the new one. *)
Definition set_primary (vid : Z) r : outcome (str * rsm S) :=
  let '(c, r) := get_view vid r in
  let '(p, r) := get_view (u32 (vid - 1)) r in
  _ ← VERIFY (bool_decide (c <> []));
  if isamember (primary r) c then Ret (primary r, r)
  else
    _ ← VERIFY (bool_decide (p <> []));
    match filter (fun n => isamember n c = true) p with
    | n :: _ => Ret (n, r)
    | [] => VerifyFail
    end.

Definition commit_change_wo (vid : Z) r : outcome (rsm S) :=
  if vid <=? vid_commit r then Ret r
  else
    let r := set_view_state r (primary r) true vid in
    '(p, r) ← set_primary vid r;
    let r := set_view_state r p true vid in
    let '(m, r) := rsm_ismember (myaddr r) vid r in
    _ ← (if m then breakpoint2 r else Ret tt);
    Ret r.
Definition commit_change (vid : Z) r : outcome (rsm S) :=
  r ← commit_change_wo vid r; _ ← breakpoint2 r; Ret r.

Definition next_vs (v : viewstamp) : viewstamp := Viewstamp (vid v) (u32 (seqno v + 1)).

(** The handler of the primary's request at a backup. *)
Definition invoke (proc : Z) (vs : viewstamp) (req : str) (dummy : Z) r
    : outcome (Z * Z * rsm S) :=
  if inviewchange r || bool_decide (primary r = myaddr r) || vs_neq vs (myvs r)
  then Ret (ERR, dummy, r)
  else
    let r := set_vs r (next_vs (myvs r)) (myvs r) in
    '(_, s) ← execute proc req (service r);
    let r := set_service r s in
    _ ← breakpoint1 r;
    Ret (OK, dummy, r).

(** [net_repair_wo]: the nodes whose connections (with the node's own server)
    are made reachable or unreachable. *)
Definition net_repair_wo r : list str * rsm S :=
  let '(m, r) := get_view (vid_commit r) r in (filter (fun n => n <> myaddr r) m, r).
Definition partition1 r : option (list str) * rsm S :=
  if dopartition r then
    let '(ns, r) := net_repair_wo r in (Some ns, set_partition r false true)
  else (None, r).

(** What [client_invoke] does before its loop: a status it returns at once, or
    the view. *)
Definition client_begin r : (Z + list str) * rsm S :=
  if inviewchange r then (inl client_BUSY, r)
  else if negb (bool_decide (primary r = myaddr r)) then (inl client_NOTPRIMARY, r)
  else
    let r := set_vs r (next_vs (myvs r)) (myvs r) in
    let '(view, r) := get_view (vid_commit r) r in (inr view, r).
(** What it does after it. *)
Definition client_end (is_fail : bool) (procno : Z) (req rep : str) r
    : outcome (Z * str * rsm S) :=
  if is_fail then Ret (client_BUSY, rep, r)
  else
    '(rep, s) ← execute procno req (service r);
    Ret (client_OK, rep, set_service r s).

Section client_invoke.
Context {W : Type}.
(** [safebind] and the [rsm_protocol::invoke] call of another node, during
    which the mutex is free, and the test's cut of the network. *)
Context (binds : str -> W -> bool * W)
  (call_invoke : str -> Z -> viewstamp -> str -> rsm S -> W -> outcome (Z * rsm S * W))
  (cut : list str -> W -> W).

(** The loop over the view: [true] when a backup failed. *)
Fixpoint invoke_backups (procno : Z) (req : str) (index : nat)
    (view : list str) r (w : W) : outcome (bool * rsm S * W) :=
  match view with
  | [] => Ret (false, r, w)
  | it :: view =>
      if decide (it = primary r) then invoke_backups procno req index view r w
      else
        let '(bound, w) := binds it w in
        '(rpc_r, r, w) ←
          (if bound then call_invoke it procno (last_myvs r) req r w else Ret (ERR, r, w));
        if negb (rpc_r =? OK) then Ret (true, r, w)
        else if decide (index = 0%nat) then
          _ ← breakpoint1 r;
          let '(ns, r) := partition1 r in
          invoke_backups procno req 1 view r (from_option cut Datatypes.id ns w)
        else invoke_backups procno req (index + 1) view r w
  end.

Definition client_invoke (procno : Z) (req rep : str) r (w : W)
    : outcome (Z * str * rsm S * W) :=
  match client_begin r with
  | (inl ret, r) => Ret (ret, rep, r, w)
  | (inr view, r) =>
      '(is_fail, r, w) ← invoke_backups procno req 0 view r w;
      '(ret, rep, r) ← client_end is_fail procno req rep r;
      Ret (ret, rep, r, w)
  end.
End client_invoke.

(** The state a backup asks for. *)
Definition transferreq (src : str) (last : viewstamp) (v : Z) (res : transferres) r
    : outcome (Z * transferres * rsm S) :=
  if negb (insync r) || negb (v =? vid_insync r) then Ret (BUSY, res, r)
  else
    state ← (if stf && vs_neq last (last_myvs r) then marshal_st (service r)
             else Ret (tr_state res));
    Ret (OK, TransferRes state (last_myvs r), r).

Definition transferdonereq (m : str) (v : Z) (dummy : Z) r : outcome (Z * Z * rsm S) :=
  if negb (insync r) || negb (v =? vid_insync r) then Ret (BUSY, dummy, r)
  else Ret (OK, dummy, set_sync r (insync r) (vid_insync r)
              (filter (fun b => b <> m) (backups r))).

(** The end of [statetransfer]: whether the primary could be bound, and the
    result and reply of the call. *)
Definition statetransfer_end (bound : bool) (ret : Z) (res : transferres) r
    : outcome (bool * rsm S) :=
  if negb bound || negb (ret =? OK) then Ret (false, r)
  else
    s ← (if stf && vs_neq (last_myvs r) (tr_last res)
         then unmarshal_st (tr_state res) (service r) else Ret (service r));
    Ret (true, set_vs (set_service r s) (myvs r) (tr_last res)).
Definition statetransferdone_end (bound : bool) (ret : Z) : bool :=
  bound && (ret =? OK).

(** [sync_with_backups]: what it does before it waits, the condition it waits
    for to fail, and its end. *)
Definition sync_begin r : rsm S :=
  let '(v, r) := get_view (vid_insync r) r in
  set_sync r true (vid_insync r) (filter (fun b => b <> primary r) v).
Definition sync_waits r : bool :=
  (vid_insync r =? vid_commit r) && bool_decide (backups r <> []).
Definition sync_end r : rsm S := set_sync r false (vid_insync r) (backups r).

(** [recovery]: the start of a round of synchronisation, and its end with the
    result of the synchronisation; [false] when the round starts over. *)
Definition recovery_begin r : rsm S :=
  set_sync r (insync r) (vid_commit r) (backups r).
Definition recovery_end (ok : bool) r : bool * rsm S :=
  if negb (vid_insync r =? vid_commit r) then (false, r)
  else if ok then
    (true, set_view_state (set_vs r (Viewstamp (vid_commit r) 1) (last_myvs r))
             (primary r) false (vid_commit r))
  else (true, r).

(** The end of [join]. *)
Definition join_end (bound : bool) (ret : Z) (res : joinres) r : outcome (bool * rsm S) :=
  if negb bound || negb (ret =? OK) then Ret (false, r)
  else c ← config_restore (jr_log res) (cfg r); Ret (true, set_cfg r c).

(** [joinreq]: answered at once, or after [config::add] was run. *)
Definition joinreq_begin (m : str) (last : viewstamp) (res : joinres) r
    : option (Z * joinres) * option (Z * list str * str) * rsm S :=
  let '(b, r) := rsm_ismember m (vid_commit r) r in
  if b then (Some (OK, JoinRes (dump (acc (cfg r)))), None, r)
  else if negb (bool_decide (myaddr r = primary r)) then (Some (BUSY, res), None, r)
  else (None, add m (vid_commit r) (cfg r), r).
Definition joinreq_end (m : str) (res : joinres) r : Z * joinres * rsm S :=
  let '(b, r) := rsm_ismember m (myvid (cfg r)) r in
  if b then (OK, JoinRes (dump (acc (cfg r))), r) else (BUSY, res, r).

Definition client_members r : Z * list str * rsm S :=
  let '(m, r) := get_view (vid_commit r) r in (client_OK, m ++ [primary r], r).
Definition amiprimary r : bool := bool_decide (primary r = myaddr r) && negb (inviewchange r).
Definition get_primary r : str := primary r.

(** The handlers of the test's server; healing makes the listed nodes
    reachable. *)
Definition test_net_repairreq (heal : Z) r : Z * option (list str) * rsm S :=
  if negb (heal =? 0) then
    let '(ns, r) := net_repair_wo r in
    (OK, Some ns, set_partition r (dopartition r) false)
  else (OK, None, set_partition r true false).
Definition breakpointreq (b : Z) r : Z * rsm S :=
  if b =? 1 then
    (OK, Rsm (cfg r) (myvs r) (last_myvs r) (primary r) (insync r) (inviewchange r)
           (vid_commit r) (vid_insync r) (backups r) (service r) true (rsm_break2 r)
           (dopartition r) (partitioned r))
  else if b =? 2 then
    (OK, Rsm (cfg r) (myvs r) (last_myvs r) (primary r) (insync r) (inviewchange r)
           (vid_commit r) (vid_insync r) (backups r) (service r) (rsm_break1 r) true
           (dopartition r) (partitioned r))
  else if (b =? 3) || (b =? 4) then
    (OK, set_cfg r (Config (acc (cfg r)) (Paxos.breakpoint b (pro (cfg r)))
                     (myvid (cfg r)) (cfg_me (cfg r)) (mems (cfg r))))
  else (ERR, r).
End rsm.

(** ** The nodes together *)

(** What becomes of a primary's call to a backup: it is delivered, the node
    cannot be bound, or the call fails, executed or not. *)
Inductive rfate := RDelivered | RUnbound | RFailed (executed : bool).

Record rworld (S : Type) := RWorld {
  nodes : gmap str (rsm S);
  rfates : list rfate;
}.
Arguments RWorld {S}. Arguments nodes {S}. Arguments rfates {S}.

Section world.
Context `{FreshMem} {S : Type} `{StateTransfer S}.
Context (procs : gmap Z (handler S)).
Implicit Types (r : rsm S) (w : rworld S).

Definition binds_w (n : str) w : bool * rworld S :=
  match rfates w with
  | RUnbound :: fs => (false, RWorld (nodes w) fs)
  | _ => (true, w)
  end.
(** The handler at node [n]; a node whose handler ends the process is gone. *)
Definition at_node (n : str) (proc : Z) (vs : viewstamp) (req : str)
    (ns : gmap str (rsm S)) : Z * gmap str (rsm S) :=
  match ns !! n with
  | None => (rpc_const.timeout_failure, ns)
  | Some r =>
      match invoke procs proc vs req 0 r with
      | Ret (st, _, r) => (st, <[n := r]> ns)
      | _ => (rpc_const.timeout_failure, delete n ns)
      end
  end.
(** A call to node [n], during which nothing else happens at the primary. *)
Definition call_invoke_w (n : str) (proc : Z) (vs : viewstamp) (req : str) r w
    : outcome (Z * rsm S * rworld S) :=
  match rfates w with
  | RFailed executed :: fs =>
      let ns := if executed then (at_node n proc vs req (nodes w)).2 else nodes w in
      Ret (rpc_const.timeout_failure, r, RWorld ns fs)
  | _ =>
      let '(st, ns) := at_node n proc vs req (nodes w) in
      Ret (st, r, RWorld ns (tl (rfates w)))
  end.

(** A request of a client at the primary [r]. *)
Definition request (procno : Z) (req rep : str) r w : outcome (Z * str * rsm S * rworld S) :=
  client_invoke procs binds_w call_invoke_w (fun _ w => w) procno req rep r w.

(** A relation between states under which requests are executed alike. *)
Definition respected (A : relation S) : Prop :=
  forall proc req a b rep a', A b a -> execute procs proc req a = Ret (rep, a') ->
    exists b', execute procs proc req b = Ret (rep, b') /\ A b' a'.
Lemma respected_eq : respected eq.
Proof. intros proc req a b rep a' -> E. by exists a'. Qed.

(** A backup of [p] that expects the request [vs] next and is in a state that is
    related to [s], or in [s]. *)
Definition backup_like (A : relation S) (p : str) (vs last : viewstamp) (s : S) (n : str) r : Prop :=
  inviewchange r = false /\ primary r = p /\ myaddr r = n /\ rsm_break1 r = false /\
  myvs r = vs /\ last_myvs r = last /\ A (service r) s.
Definition backup_at := backup_like eq.

(** All replicas of the view are in step: same viewstamps, same state. *)
Definition in_step_upto (A : relation S) (s : S) r w : Prop :=
  inviewchange r = false /\ primary r = myaddr r /\ rsm_break1 r = false /\
  dopartition r = false /\ service r = s /\
  NoDup (get_view (vid_commit r) r).1 /\
  forall n, n ∈ (get_view (vid_commit r) r).1 -> n <> primary r ->
    exists b, nodes w !! n = Some b /\
      backup_like A (primary r) (myvs r) (last_myvs r) s n b.
Definition in_step := in_step_upto eq.

Definition all_delivered w : Prop := Forall (eq RDelivered) (rfates w).

Lemma invoke_ok A p vs last s n r proc req rep s' :
  respected A -> backup_like A p vs last s n r -> n <> p -> execute procs proc req s = Ret (rep, s') ->
  exists r', invoke procs proc vs req 0 r = Ret (OK, 0, r') /\
    backup_like A p (next_vs vs) vs s' n r'.
Proof.
  intros HA (Hv & Hp & Hn & Hb & Hvs & Hl & Hs) Hne He. unfold invoke.
  destruct (HA _ _ _ _ _ _ Hs He) as (sb & Heb & Hsb).
  rewrite Hv, Hp, Hn, bool_decide_eq_false_2 by done.
  assert (vs_neq vs (myvs r) = false) as ->.
  { rewrite Hvs. destruct (vs_neq vs vs) eqn:E; [|done]. by apply vs_neq_spec in E. }
  cbn [orb]. cbn [service set_vs]. rewrite Heb, outcome_bind_Ret.
  unfold breakpoint1. cbn [rsm_break1 set_service set_vs]. rewrite Hb. cbn.
  eexists. split; [reflexivity|]. rewrite Hvs. by split_and!.
Qed.

Lemma delivered_step w :
  all_delivered w ->
  (forall n, binds_w n w = (true, w)) /\
  (forall n proc vs req r, call_invoke_w n proc vs req r w =
     Ret ((at_node n proc vs req (nodes w)).1, r,
          RWorld (at_node n proc vs req (nodes w)).2 (tl (rfates w)))) /\
  (forall ns, all_delivered (RWorld ns (tl (rfates w)))).
Proof.
  unfold all_delivered, binds_w, call_invoke_w. intros Hd.
  destruct (rfates w) as [|f fs] eqn:Ef.
  - split_and!; try done. intros. by destruct (at_node _ _ _ _ _).
  - inversion_clear Hd as [|? ? Hf Hfs]. subst f.
    split_and!; try done. intros. by destruct (at_node _ _ _ _ _).
Qed.

Lemma invoke_backups_all A proc vs last req rep s s' view : forall index r w,
  respected A -> execute procs proc req s = Ret (rep, s') ->
  all_delivered w -> NoDup view -> rsm_break1 r = false -> dopartition r = false ->
  last_myvs r = vs ->
  (forall n, n ∈ view -> n <> primary r ->
    exists b, nodes w !! n = Some b /\ backup_like A (primary r) vs last s n b) ->
  exists w',
    invoke_backups binds_w call_invoke_w (fun _ w => w) proc req index view r w =
      Ret (false, r, w') /\ all_delivered w' /\
    (forall n, n ∈ view -> n <> primary r ->
      exists b, nodes w' !! n = Some b /\ backup_like A (primary r) (next_vs vs) vs s' n b) /\
    (forall n, n ∉ view -> nodes w' !! n = nodes w !! n).
Proof.
  induction view as [|it view IH]; intros index r w HA He Hd Hnd Hb Hp Hvs Hall.
  { exists w. split_and!; try done. intros n Hn. by apply not_elem_of_nil in Hn. }
  inversion_clear Hnd as [|? ? Hit Hnd']. cbn [invoke_backups].
  destruct (decide (it = primary r)) as [Epr|Hne].
  { destruct (IH index r w) as (w' & E & Hd' & Hin & Hout); try done.
    { intros n Hn. apply Hall. by right. }
    exists w'. split; [done|]. split; [done|]. split.
    - intros n [->|Hn]%elem_of_cons Hnp; [done|by apply Hin].
    - intros n Hn. apply Hout. by intros ?; apply Hn; right. }
  destruct (delivered_step w Hd) as (-> & Hcall & Hd1). rewrite Hcall, Hvs, outcome_bind_Ret.
  destruct (Hall it) as (b & Hnb & Hbk); [left|done|].
  destruct (invoke_ok A _ _ _ _ _ _ proc req rep s' HA Hbk Hne He) as (b' & Ei & Hbk').
  assert (at_node it proc vs req (nodes w) = (OK, <[it := b']> (nodes w))) as ->.
  { unfold at_node. by rewrite Hnb, Ei. }
  cbn [fst snd]. set (w1 := RWorld (<[it := b']> (nodes w)) (tl (rfates w))).
  assert (exists w', invoke_backups binds_w call_invoke_w (fun _ w => w) proc req
      (if decide (index = 0%nat) then 1 else index + 1)%nat view r w1 = Ret (false, r, w') /\
      all_delivered w' /\
      (forall n, n ∈ view -> n <> primary r -> exists b, nodes w' !! n = Some b /\
        backup_like A (primary r) (next_vs vs) vs s' n b) /\
      (forall n, n ∉ view -> nodes w' !! n = nodes w1 !! n)) as (w' & E & Hd' & Hin & Hout).
  { apply IH; [done|done|apply Hd1|done..|]. intros n Hn Hnp. unfold w1; cbn [nodes].
    rewrite lookup_insert_ne by (intros ->; done). apply Hall; [by right|done]. }
  exists w'. split; [|split; [done|split]].
  - cbn [negb Z.eqb OK]. unfold breakpoint1, partition1. rewrite Hb, Hp. cbn.
    destruct (decide (index = 0%nat)); exact E.
  - intros n [->|Hn]%elem_of_cons Hnp; [|by apply Hin].
    rewrite (Hout it Hit). unfold w1; cbn [nodes]. rewrite lookup_insert_eq. eauto.
  - intros n Hn. rewrite Hout by (intros ?; apply Hn; by right).
    unfold w1; cbn [nodes]. apply lookup_insert_ne. intros ->. apply Hn. left.
Qed.

(** Looking at a view leaves the view and the address as they are. *)
Lemma get_view_fst v r1 r2 :
  values (acc (cfg r1)) = values (acc (cfg r2)) -> (get_view v r1).1 = (get_view v r2).1.
Proof. unfold get_view, get_view_wo. cbn. by intros ->. Qed.
Lemma get_view_touch v r :
  let r' := (get_view v r).2 in
  (get_view v r').1 = (get_view v r).1 /\ r' = set_cfg r (cfg r') /\ myaddr r' = myaddr r.
Proof.
  cbv zeta. unfold get_view, get_view_wo. cbn. split; [|done].
  unfold std_touch. by rewrite std_ref_insert_eq.
Qed.

(** A request that every backup executes leaves the replicas in step. *)
Lemma request_in_step A procno req old r w s rep s' :
  respected A -> in_step_upto A s r w -> all_delivered w -> execute procs procno req s = Ret (rep, s') ->
  exists r' w', request procno req old r w = Ret (client_OK, rep, r', w') /\
    in_step_upto A s' r' w' /\ all_delivered w' /\ last_myvs r' = myvs r /\
    myvs r' = next_vs (myvs r).
Proof.
  intros HA (Hv & Hp & Hb & Hdp & Hs & Hnd & Hall) Hd He.
  unfold request, client_invoke, client_begin. rewrite Hv, bool_decide_eq_true_2 by done. cbn [negb].
  set (r1 := set_vs r (next_vs (myvs r)) (myvs r)).
  destruct (get_view_touch (vid_commit r1) r1) as (Hg1 & Hr2 & Ha2).
  rewrite (surjective_pairing (get_view (vid_commit r1) r1)).
  set (r2 := (get_view (vid_commit r1) r1).2) in *.
  assert ((get_view (vid_commit r1) r1).1 = (get_view (vid_commit r) r).1) as Hg
    by by apply get_view_fst.
  rewrite Hg in *. set (view := (get_view (vid_commit r) r).1) in *.
  destruct (invoke_backups_all A procno (myvs r) (last_myvs r) req rep s s' view 0 r2 w)
    as (w' & E & Hd' & Hin & Hout); try done.
  rewrite E, outcome_bind_Ret.
  assert (service r2 = s) as Hs2 by by rewrite Hr2.
  cbv beta iota. unfold client_end. rewrite Hs2, He, !outcome_bind_Ret.
  eexists _, w'. split; [reflexivity|].
  split; [|split; [done|by rewrite Hr2]].
  assert (vid_commit (set_service r2 s') = vid_commit r) as Hvc by by rewrite Hr2.
  split_and!; try (by rewrite Hr2).
  - rewrite Hvc. change (vid_commit r) with (vid_commit r1).
    rewrite (get_view_fst _ (set_service r2 s') r2) by done. by rewrite Hg1.
  - rewrite Hvc. change (vid_commit r) with (vid_commit r1).
    rewrite (get_view_fst _ (set_service r2 s') r2) by done. rewrite Hg1.
    intros n Hn Hnp. destruct (Hin n Hn Hnp) as (b & Hb' & Hbk). exists b. split; [done|].
    by rewrite Hr2 in Hbk |- *.
Qed.

(** Requests one after the other, and what the service does with them. *)
Fixpoint request_all (reqs : list (Z * str)) r w : outcome (list str * rsm S * rworld S) :=
  match reqs with
  | [] => Ret ([], r, w)
  | (procno, req) :: reqs =>
      '(st, rep, r, w) ← request procno req [] r w;
      _ ← VERIFY (st =? client_OK);
      '(reps, r, w) ← request_all reqs r w;
      Ret (rep :: reps, r, w)
  end.
Fixpoint execute_all (reqs : list (Z * str)) (s : S) : outcome (list str * S) :=
  match reqs with
  | [] => Ret ([], s)
  | (procno, req) :: reqs =>
      '(rep, s) ← execute procs procno req s;
      '(reps, s) ← execute_all reqs s;
      Ret (rep :: reps, s)
  end.

(** The next and the last viewstamp after requests. *)
Fixpoint stamps {A} (reqs : list A) (vs : viewstamp * viewstamp) : viewstamp * viewstamp :=
  match reqs with [] => vs | _ :: reqs => stamps reqs (next_vs vs.1, vs.1) end.
Lemma requests_in_step A reqs r w s reps s' :
  respected A -> in_step_upto A s r w -> all_delivered w -> execute_all reqs s = Ret (reps, s') ->
  exists r' w', request_all reqs r w = Ret (reps, r', w') /\ in_step_upto A s' r' w' /\
    (myvs r', last_myvs r') = stamps reqs (myvs r, last_myvs r).
Proof.
  intros HA. revert r w s reps. induction reqs as [|[procno req] reqs IH]; intros r w s reps Hi Hd He.
  { injection He as <- <-. by exists r, w. }
  cbn [execute_all request_all] in *. apply bind_Ret_inv in He as ([rep s1] & E1 & He).
  apply bind_Ret_inv in He as ([reps1 s2] & E2 & He). injection He as <- <-.
  destruct (request_in_step A procno req [] r w s rep s1 HA Hi Hd E1) as (r1 & w1 & -> & Hi1 & Hd1 & Hl1 & Hm1).
  rewrite outcome_bind_Ret. cbn [Z.eqb client_OK VERIFY]. rewrite outcome_bind_Ret.
  destruct (IH r1 w1 s1 reps1 Hi1 Hd1 E2) as (r2 & w2 & -> & Hi2 & Hvs).
  rewrite outcome_bind_Ret. exists r2, w2. split_and!; [done|done|]. by rewrite Hvs, Hl1, Hm1.
Qed.

(** The loop over two backups, the second of which answers too late. *)
Lemma invoke_backups_late proc vs last req rep s s' b1 b2 r w x1 x2 :
  execute procs proc req s = Ret (rep, s') -> rfates w = [RDelivered; RFailed true] ->
  rsm_break1 r = false -> dopartition r = false -> last_myvs r = vs ->
  b1 <> primary r -> b2 <> primary r -> b1 <> b2 ->
  nodes w !! b1 = Some x1 -> backup_at (primary r) vs last s b1 x1 ->
  nodes w !! b2 = Some x2 -> backup_at (primary r) vs last s b2 x2 ->
  exists w',
    invoke_backups binds_w call_invoke_w (fun _ w => w) proc req 0 [primary r; b1; b2] r w =
      Ret (true, r, w') /\
    forall n, n = b1 \/ n = b2 -> exists b, nodes w' !! n = Some b /\
      backup_at (primary r) (next_vs vs) vs s' n b.
Proof.
  intros He Hf Hb Hp Hvs H1 H2 H12 Hx1 Hk1 Hx2 Hk2.
  destruct (invoke_ok _ _ _ _ _ _ _ proc req rep s' respected_eq Hk1 H1 He) as (y1 & E1 & Hy1).
  destruct (invoke_ok _ _ _ _ _ _ _ proc req rep s' respected_eq Hk2 H2 He) as (y2 & E2 & Hy2).
  set (w1 := RWorld (<[b1 := y1]> (nodes w)) [RFailed true]).
  set (w2 := RWorld (<[b2 := y2]> (<[b1 := y1]> (nodes w))) []).
  assert (binds_w b1 w = (true, w)) as B1 by (unfold binds_w; by rewrite Hf).
  assert (call_invoke_w b1 proc vs req r w = Ret (OK, r, w1)) as C1.
  { unfold call_invoke_w, at_node. by rewrite Hf, Hx1, E1. }
  assert (call_invoke_w b2 proc vs req r w1 = Ret (rpc_const.timeout_failure, r, w2)) as C2.
  { unfold call_invoke_w, at_node. cbn [rfates nodes w1].
    rewrite lookup_insert_ne by done. by rewrite Hx2, E2. }
  assert (binds_w b2 w1 = (true, w1)) as B2 by done.
  exists w2. split.
  - cbn [invoke_backups]. rewrite decide_True, !decide_False by done.
    rewrite B1, Hvs, C1, outcome_bind_Ret. cbn [negb Z.eqb OK].
    rewrite decide_True by done. unfold breakpoint1, partition1. rewrite Hb, Hp. cbn [negb VERIFY].
    rewrite outcome_bind_Ret.
    cbv beta iota delta [from_option Datatypes.id]. rewrite B2. cbv beta iota. by rewrite decide_False, Hvs, C2.
  - intros n [->| ->]; unfold w2; cbn [nodes].
    + exists y1. by rewrite lookup_insert_ne, lookup_insert_eq.
    + exists y2. by rewrite lookup_insert_eq.
Qed.

(** ** Properties *)

(** One machine: while the network delivers and no view change intervenes,
    a sequence of client requests at the primary returns the replies of the
    service executed once on that sequence, and leaves every replica of the
    view in the service's final state, expecting the same next request. *)
Theorem requests_replicated reqs r w s reps s' :
  in_step s r w -> all_delivered w -> execute_all reqs s = Ret (reps, s') ->
  exists r' w', request_all reqs r w = Ret (reps, r', w') /\ in_step s' r' w'.
Proof.
  intros Hi Hd He.
  destruct (requests_in_step eq reqs r w s reps s' respected_eq Hi Hd He) as (r' & w' & ? & ? & _). eauto.
Qed.

(** C37. A slow backup makes the primary skip a request.  When the second
    backup executes a request but its answer is late, the client is told
    [BUSY] and the primary does not execute the request, although both backups
    have; all viewstamps still agree, so a later synchronisation transfers
    nothing and the states stay different. *)
Theorem busy_leaves_primary_behind procno req old r w s rep s' b1 b2 n rp v res :
  in_step s r w -> (get_view (vid_commit r) r).1 = [primary r; b1; b2] ->
  rfates w = [RDelivered; RFailed true] ->
  execute procs procno req s = Ret (rep, s') ->
  n = b1 \/ n = b2 ->
  exists r' w' b, request procno req old r w = Ret (client_BUSY, old, r', w') /\
    service r' = s /\ nodes w' !! n = Some b /\ service b = s' /\
    myvs b = myvs r' /\ last_myvs b = last_myvs r' /\
    (insync rp = true -> vid_insync rp = v -> last_myvs rp = last_myvs r' ->
     exists res' b', transferreq true n (last_myvs b) v res rp = Ret (OK, res', rp) /\
       statetransfer_end true true OK res' b = Ret (true, b') /\ service b' = s').
Proof.
  intros (Hv & Hp & Hb & Hdp & Hs & Hnd & Hall) Hview Hf He Hn.
  rewrite Hview in Hnd, Hall. apply NoDup_cons in Hnd as [Hn1 Hnd].
  apply NoDup_cons in Hnd as [Hn2 _].
  assert (b1 <> primary r /\ b2 <> primary r /\ b1 <> b2) as (H1 & H2 & H12) by set_solver.
  destruct (Hall b1) as (x1 & Hx1 & Hk1); [set_solver|done|].
  destruct (Hall b2) as (x2 & Hx2 & Hk2); [set_solver|done|].
  unfold request, client_invoke, client_begin. rewrite Hv, bool_decide_eq_true_2 by done. cbn [negb].
  set (r1 := set_vs r (next_vs (myvs r)) (myvs r)).
  destruct (get_view_touch (vid_commit r1) r1) as (_ & Hr2 & _).
  rewrite (surjective_pairing (get_view (vid_commit r1) r1)).
  rewrite (get_view_fst (vid_commit r1) r1 r eq_refl).
  change (vid_commit r1) with (vid_commit r) in *. rewrite Hview.
  set (r2 := (get_view (vid_commit r) r1).2) in *.
  destruct (invoke_backups_late procno (myvs r) (last_myvs r) req rep s s' b1 b2 r2 w x1 x2)
    as (w' & E & Hin); try done.
  change (primary r2) with (primary r) in E. rewrite E, outcome_bind_Ret.
  destruct (Hin n Hn) as (b & Hbn & Hbk). exists r2, w', b.
  destruct Hbk as (_ & _ & _ & _ & Hmy & Hlast & Hsv).
  split; [done|]. split; [done|]. split; [done|]. split; [done|].
  split; [done|]. split; [done|]. intros Hin' Hvi Hl.
  assert (forall x, vs_neq x x = false) as Hself.
  { intros x. destruct (vs_neq x x) eqn:Ex; [|done]. by apply vs_neq_spec in Ex. }
  assert (last_myvs b = last_myvs rp) as Hlb by (rewrite Hlast, Hl; done).
  unfold transferreq, statetransfer_end. rewrite Hin', Hvi, Z.eqb_refl, Hlb, Hself.
  eexists _, _. split; [reflexivity|]. cbn [negb Z.eqb OK orb tr_last]. rewrite ?Hlb, Hself.
  split; [reflexivity|done].
Qed.

(** Synchronisation: a backup that asks a primary in its round of
    synchronisation, and did not have a different state under the same
    viewstamp, ends up with the primary's state and viewstamp; it is taken off
    the primary's list, and after the round both expect request 1 of the
    view. *)
Theorem sync_brings_up_to_date `{!StateTransferOk S} rp rb n v res dummy :
  insync rp = true -> vid_insync rp = v -> vid_commit rp = v ->
  vid_insync rb = v -> vid_commit rb = v ->
  (last_myvs rb = last_myvs rp -> st_agree (service rb) (service rp)) ->
  st_ready (service rp) (service rb) ->
  exists res' rb' rp',
    transferreq true n (last_myvs rb) v res rp = Ret (OK, res', rp) /\
    statetransfer_end true true OK res' rb = Ret (true, rb') /\
    transferdonereq n v dummy rp = Ret (OK, dummy, rp') /\
    st_agree (service rb') (service rp') /\ last_myvs rb' = last_myvs rp' /\
    n ∉ backups rp' /\
    (recovery_end true rb').1 = true /\ inviewchange (recovery_end true rb').2 = false /\
    myvs (recovery_end true rb').2 = Viewstamp v 1 /\
    myvs (recovery_end true (sync_end rp')).2 = Viewstamp v 1.
Proof.
  intros Hin Hv Hvc Hbv Hbc Hag Hready. unfold transferreq, transferdonereq, statetransfer_end.
  rewrite Hin, Hv, Z.eqb_refl. cbn [negb orb andb].
  set (rp' := set_sync rp _ _ _).
  assert (n ∉ backups rp') as Hnb.
  { unfold rp'; cbn [backups set_sync]. by intros [? _]%list_elem_of_filter. }
  destruct (vs_neq (last_myvs rb) (last_myvs rp)) eqn:En.
  - destruct (st_transfer (service rp) (service rb) Hready) as (m & s' & Em & Eu & Ha).
    rewrite Em, outcome_bind_Ret. eexists _, _, rp'. split; [done|].
    cbn [negb Z.eqb OK orb tr_last tr_state]. rewrite En, Eu, outcome_bind_Ret.
    split; [done|]. split; [done|]. unfold recovery_end. cbn.
    rewrite ?Hbv, ?Hbc, ?Hv, ?Hvc, ?Z.eqb_refl. cbn. by split_and!.
  - assert (last_myvs rb = last_myvs rp) as El.
    { destruct (decide (last_myvs rb = last_myvs rp)) as [|Hne]; [done|].
      apply vs_neq_spec in Hne. congruence. }
    rewrite outcome_bind_Ret. eexists _, _, rp'. split; [done|].
    cbn [negb Z.eqb OK orb tr_last tr_state]. rewrite En, outcome_bind_Ret.
    split; [done|]. split; [done|]. unfold recovery_end. cbn.
    rewrite ?Hbv, ?Hbc, ?Hv, ?Hvc, ?Z.eqb_refl. cbn. split_and!; try done. by apply Hag.
Qed.
End world.

(** ** The properties at concrete inputs *)

#[local] Existing Instance fresh_zero.

(** A service that counts in unary, on three nodes. *)
#[local] Instance tally_transfer : StateTransfer str :=
  {| marshal_st s := Ret s; unmarshal_st m _ := Ret m |}.
#[local] Program Instance tally_transfer_ok : StateTransferOk str :=
  {| st_agree := eq; st_ready _ _ := True |}.
Next Obligation. intros a b _. by exists a, a. Qed.

Definition tally : gmap Z (handler str) :=
  {[ 1 := fun _ ret s => Ret (0, ret, s ++ lit "x") ]}.

(** Three nodes in view 1, [p] the primary, with the same state of a service. *)
Definition node_with {S} (sv : S) (me : str) : rsm S :=
  Rsm (Config (Acceptor me (paxos_protocol.Prop_t 0 []) (paxos_protocol.Prop_t 0 []) [] 1
                 {[ 1 := lit "p b c " ]} (print_rec (Done 1 (lit "p b c ")))) (proposer_new me) 1 me [lit "p"; lit "b"; lit "c"])
    (Viewstamp 1 1) (Viewstamp 0 0) (lit "p") false false 1 1 [] sv false false false false.
Definition three_with {S} (sv : S) (fs : list rfate) : rworld S :=
  RWorld (<[lit "b" := node_with sv (lit "b")]> {[ lit "c" := node_with sv (lit "c") ]}) fs.
Abbreviation node_of := (node_with (S := str) []).
Abbreviation three_nodes := (three_with (S := str) []).

Lemma view_of_p {S} (sv : S) : (get_view 1 (node_with sv (lit "p"))).1 = [lit "p"; lit "b"; lit "c"].
Proof. reflexivity. Qed.
Lemma three_in_step {S} (sv : S) fs : in_step sv (node_with sv (lit "p")) (three_with sv fs).
Proof.
  assert (forall me, backup_at (lit "p") (Viewstamp 1 1) (Viewstamp 0 0) sv me (node_with sv me)) as Hb
    by (intros me; by split_and!).
  split_and!; try done.
  - change (vid_commit (node_with sv (lit "p"))) with 1. rewrite view_of_p.
    repeat constructor; rewrite ?elem_of_cons; intros C; decompose [or] C; try done;
      by eapply not_elem_of_nil.
  - change (vid_commit (node_with sv (lit "p"))) with 1. rewrite view_of_p. intros n Hn Hnp.
    rewrite !elem_of_cons in Hn. destruct Hn as [->|[->|[->|[]%not_elem_of_nil]]]; [done| |].
    + exists (node_with sv (lit "b")). split; [reflexivity|apply Hb].
    + exists (node_with sv (lit "c")). split; [reflexivity|apply Hb].
Qed.
Lemma tally_twice :
  exists reps, execute_all tally [(1, []); (1, lit "again")] [] = Ret (reps, lit "xx").
Proof. eexists. vm_compute. reflexivity. Qed.
Lemma tally_once : exists rep, execute tally 1 [] [] = Ret (rep, lit "x").
Proof. eexists. vm_compute. reflexivity. Qed.

Lemma requests_replicated_witness :
  exists reps r' w',
    request_all tally [(1, []); (1, lit "again")] (node_of (lit "p")) (three_nodes []) =
      Ret (reps, r', w') /\ in_step (lit "xx") r' w'.
Proof.
  destruct tally_twice as (reps & E). exists reps.
  exact (requests_replicated tally _ _ _ _ _ _ (three_in_step [] []) (List.Forall_nil _) E).
Defined.

Lemma busy_leaves_primary_behind_witness :
  exists r' w' b,
    request tally 1 [] [] (node_of (lit "p")) (three_nodes [RDelivered; RFailed true]) =
      Ret (client_BUSY, [], r', w') /\
    service r' = [] /\ nodes w' !! lit "c" = Some b /\ service b = lit "x".
Proof.
  destruct tally_once as (rep & E).
  destruct (busy_leaves_primary_behind tally 1 [] [] _ _ _ _ _ (lit "b") (lit "c") (lit "c")
    (node_of (lit "p")) 1 (TransferRes [] (Viewstamp 0 0))
    (three_in_step [] [RDelivered; RFailed true]) (view_of_p []) eq_refl E (or_intror eq_refl))
    as (r' & w' & b & Hr & Hs & Hn & Hb & _).
  exists r', w', b. split_and!; assumption.
Defined.

Definition syncing : rsm str :=
  set_sync (set_service (node_of (lit "p")) (lit "xx")) true 1 [lit "b"; lit "c"].
Lemma sync_brings_up_to_date_witness :
  exists res' rb' rp',
    transferreq true (lit "b") (Viewstamp 0 7) 1 (TransferRes [] (Viewstamp 0 0)) syncing =
      Ret (OK, res', syncing) /\
    statetransfer_end true true OK res'
      (set_vs (node_of (lit "b")) (Viewstamp 1 1) (Viewstamp 0 7)) = Ret (true, rb') /\
    service rb' = service rp'.
Proof.
  destruct (sync_brings_up_to_date syncing
    (set_vs (node_of (lit "b")) (Viewstamp 1 1) (Viewstamp 0 7)) (lit "b") 1
    (TransferRes [] (Viewstamp 0 0)) 0 eq_refl eq_refl eq_refl eq_refl eq_refl
    ltac:(discriminate) I) as (res' & rb' & rp' & H1 & H2 & _ & H3 & _).
  exists res', rb', rp'. split_and!; assumption.
Defined.
