(* ===== verification/RsmNode.v ===== *)
(** * A node of the replicated state machine and its threads: [rsm.cc]

    The recovery thread of [rsm::recovery] with the places where it leaves
    [rsm_mutex], and a node whose thread runs interleaved with the handlers of
    the replicated state machine, with the Paxos acceptor of the node and with
    the upcalls that announce new views.  The definitions of the handlers are
    those of [Rsm], [Config] and [Paxos]. *)
From S2P Require Import Prelude Marshall Protocols RpcStub Log Paxos Config Rsm.
Import rsm_protocol.

(** Where the recovery thread waits with the mutex free: in the call of [join],
    in its sleep of five seconds, at the start of [sync_with_backups] and in its
    wait, in the calls of [statetransfer] and [statetransferdone], and in the
    wait at the end of a round. *)
Inductive rec_pc :=
  | PJoin | PSleep | PBackups | PBackupsWait
  | PTransfer (m : str) | PTransferDone (m : str) | PWait.

Section node.
Context `{FreshMem} {S : Type} `{StateTransfer S}.
Context (procs : gmap Z (handler S)) (stf : bool).
Implicit Types r : rsm S.

(** The constructor: [vid_insync] is not initialised. *)
Definition rsm_new (first me file : str) (garbage : Z) (s : S) : outcome (rsm S) :=
  c ← config_new first me file;
  let r := Rsm c (Viewstamp 0 1) (Viewstamp 0 0) first false true 0 garbage [] s
             false false false false in
  if decide (first = me) then commit_change 1 r else Ret r.

(** From the head of the outer loop to the next wait. *)
Definition recovery_top r : rec_pc * rsm S :=
  let '(b, r) := rsm_ismember (myaddr r) (vid_commit r) r in
  if negb b then (PJoin, r)
  else
    let r := recovery_begin r in
    if bool_decide (primary r = myaddr r) then (PBackups, r)
    else (PTransfer (primary r), r).
(** The end of a round, with the result of the synchronisation. *)
Definition recovery_finish (ok : bool) r : rec_pc * rsm S :=
  let '(b, r) := recovery_end ok r in
  if b then (PWait, r) else recovery_top r.
(** [join] has its answer. *)
Definition join_resume (bound : bool) (ret : Z) (res : joinres) r
    : outcome (rec_pc * rsm S) :=
  '(ok, r) ← join_end bound ret res r;
  if ok : bool then r ← commit_change_wo (myvid (cfg r)) r; Ret (recovery_top r)
  else Ret (PSleep, r).
(** The wait of [sync_with_backups] and what follows it. *)
Definition sync_turn r : rec_pc * rsm S :=
  if sync_waits r then (PBackupsWait, r) else recovery_finish true (sync_end r).
(** The loop of [sync_with_primary] has the answer of [statetransfer]. *)
Definition transfer_resume (m : str) (bound : bool) (ret : Z) (res : transferres) r
    : outcome (rec_pc * rsm S) :=
  '(ok, r) ← statetransfer_end stf bound ret res r;
  Ret (if negb ok && (vid_insync r =? vid_commit r) then PTransfer m else PTransferDone m, r).

(** ** Steps of the node *)

(** The value that was decided for each instance; Paxos guarantees that there
    is only one.  A log is one of a run of Paxos if the instances it says are
    done have these values. *)
Context (chosen : Z -> str).
Definition rec_chosen (x : logrec) : Prop :=
  match x with Done i v => v = chosen i | _ => True end.
Definition log_ok (s : str) : Prop :=
  exists recs, s = concat (print_rec <$> recs) /\ Forall wf_rec recs /\ Forall rec_chosen recs.

(** A turn of the recovery thread; a node joins with the log of another. *)
Inductive thread_step : rec_pc * rsm S -> rec_pc * rsm S -> Prop :=
  | t_join bound ret res r x :
      log_ok (jr_log res) -> join_resume bound ret res r = Ret x ->
      thread_step (PJoin, r) x
  | t_awake r : thread_step (PSleep, r) (recovery_top r)
  | t_backups r : thread_step (PBackups, r) (sync_turn (sync_begin r))
  | t_backups_wait r : thread_step (PBackupsWait, r) (sync_turn r)
  | t_transfer m bound ret res r x :
      transfer_resume m bound ret res r = Ret x -> thread_step (PTransfer m, r) x
  | t_done m bound ret r :
      thread_step (PTransferDone m, r)
        (recovery_finish (statetransferdone_end bound ret) r)
  | t_wake r : thread_step (PWait, r) (recovery_top r).

(** What the other threads do between taking the mutex and leaving it. *)
Inductive handler_step : rsm S -> rsm S -> Prop :=
  | h_invoke proc vs req d r x r' :
      invoke procs proc vs req d r = Ret (x, r') -> handler_step r r'
  | h_client_begin r : handler_step r (client_begin r).2
  | h_client_cut r : handler_step r (partition1 r).2
  | h_client_end b procno req rep r x r' :
      client_end procs b procno req rep r = Ret (x, r') -> handler_step r r'
  | h_transferreq src last v res r x r' :
      transferreq stf src last v res r = Ret (x, r') -> handler_step r r'
  | h_transferdone m v d r x r' :
      transferdonereq m v d r = Ret (x, r') -> handler_step r r'
  | h_join_begin m last res r : handler_step r (joinreq_begin m last res r).2
  | h_join_end m res r : handler_step r (joinreq_end m res r).2
  | h_members r : handler_step r (client_members r).2
  | h_repair heal r : handler_step r (test_net_repairreq heal r).2
  | h_break b r : handler_step r (breakpointreq b r).2
  | h_heartbeater ping r :
      handler_step r (set_cfg r (heartbeater_round ping (cfg r)).2).

(** The acceptor of the node: its handlers and the proposer's [commit]; the
    list holds the upcalls it makes. *)
Inductive acceptor_step : acceptor -> acceptor -> list (Z * str) -> Prop :=
  | a_prepare src arg res a x a' :
      preparereq src arg res a = Ret (x, a') -> acceptor_step a a' []
  | a_accept src arg b a x a' :
      acceptreq src arg b a = Ret (x, a') -> acceptor_step a a' []
  | a_decide src arg a x a' ups :
      decidereq src arg a = Ret (x, a', ups) -> acceptor_step a a' ups
  | a_commit i v a : acceptor_step a (commit_wo i v a).1 (commit_wo i v a).2.

(** A node: the place of its recovery thread, its state, the upcalls
    [paxos_commit] that are under way, and the calls [commit_change] that these
    make when they have left [cfg_mutex]. *)
Record node := Node { n_pc : rec_pc; n_rsm : rsm S; n_ups : list (Z * str); n_changes : list Z }.

Inductive node_step : node -> node -> Prop :=
  | n_thread pc r pc' r' ups ch :
      thread_step (pc, r) (pc', r') ->
      node_step (Node pc r ups ch) (Node pc' r' ups ch)
  | n_handler pc r r' ups ch :
      handler_step r r' -> node_step (Node pc r ups ch) (Node pc r' ups ch)
  | n_acceptor pc r a ups ch new :
      acceptor_step (acc (cfg r)) a new -> Forall (fun up => up.2 = chosen up.1) new ->
      node_step (Node pc r ups ch) (Node pc (set_cfg r (set_acc (cfg r) a)) (ups ++ new) ch)
  | n_upcall pc r i v ups1 ups2 ch :
      node_step (Node pc r (ups1 ++ (i, v) :: ups2) ch)
        (Node pc (set_cfg r (paxos_commit i v (cfg r)).2) (ups1 ++ ups2) (ch ++ [i]))
  | n_change pc r ups v ch1 ch2 r' :
      commit_change v r = Ret r' ->
      node_step (Node pc r ups (ch1 ++ v :: ch2)) (Node pc r' ups (ch1 ++ ch2)).

Inductive node_starts : node -> Prop :=
  | starts first me file garbage s r :
      log_ok file -> (first = me -> chosen 1 = me) -> rsm_new first me file garbage s = Ret r ->
      node_starts (Node (recovery_top r).1 (recovery_top r).2 [] []).

(** ** The invariant *)

(** The view [v] as the acceptor knows it. *)
Definition view_at (a : acceptor) (v : Z) : list str := members (std_ref [] (values a) v).
(** An acceptor knows no value but the decided one. *)
Definition agrees (a : acceptor) : Prop :=
  forall i, std_ref [] (values a) i = [] \/ std_ref [] (values a) i = chosen i.
Definition member r : Prop := myaddr r ∈ view_at (acc (cfg r)) (vid_commit r).
Definition syncing_pc (pc : rec_pc) : bool :=
  match pc with PBackups | PBackupsWait | PTransfer _ | PTransferDone _ => true | _ => false end.
Definition joining_pc (pc : rec_pc) : bool :=
  match pc with PJoin | PSleep => true | _ => false end.

Definition serving r : Prop :=
  agrees (acc (cfg r)) /\
  (inviewchange r = false -> member r /\ vid (myvs r) = vid_commit r).
Definition node_inv (pc : rec_pc) r : Prop :=
  serving r /\
  (syncing_pc pc = true ->
     vid_insync r <= vid_commit r /\ (vid_insync r = vid_commit r -> member r)) /\
  (joining_pc pc = true -> inviewchange r = true).

(** Two states that agree on all of this. *)
Definition same_acc (a a' : acceptor) : Prop :=
  forall i, std_ref [] (values a') i = std_ref [] (values a) i.
Definition same r r' : Prop :=
  inviewchange r' = inviewchange r /\ vid (myvs r') = vid (myvs r) /\
  vid_commit r' = vid_commit r /\ vid_insync r' = vid_insync r /\
  myaddr r' = myaddr r /\ same_acc (acc (cfg r)) (acc (cfg r')).

#[global] Instance same_acc_preorder : PreOrder same_acc.
Proof.
  split; [done|]. intros a b c H1 H2 i. by rewrite H2.
Qed.
#[global] Instance same_preorder : PreOrder same.
Proof.
  split; [by repeat split|].
  intros a b c (? & ? & ? & ? & ? & ?) (? & ? & ? & ? & ? & ?).
  split_and!; congruence.
Qed.

Lemma get_view_wo_eq v c :
  (get_view_wo v c).1 = view_at (acc c) v /\ same_acc (acc c) (acc (get_view_wo v c).2).
Proof. split; [done|]. intros i. apply std_ref_touch. Qed.
Lemma same_get_view v r : same r (get_view v r).2.
Proof. unfold get_view. cbn. split_and!; try done. intros i. apply std_ref_touch. Qed.
Lemma same_ismember m v r : same r (rsm_ismember m v r).2.
Proof. unfold rsm_ismember, ismember. cbn. split_and!; try done. intros i. apply std_ref_touch. Qed.
Lemma ismember_view m v r :
  (rsm_ismember m v r).1 = true <-> m ∈ view_at (acc (cfg r)) v.
Proof. unfold rsm_ismember, ismember. cbn. apply isamember_elem. Qed.

Lemma same_agrees a a' : same_acc a a' -> agrees a -> agrees a'.
Proof. intros Hv Ha i. rewrite Hv. apply Ha. Qed.
Lemma same_member r r' : same r r' -> member r -> member r'.
Proof. intros (_ & _ & Hc & _ & Ha & Hv). unfold member, view_at. by rewrite Hc, Ha, Hv. Qed.
Lemma same_serving r r' : same r r' -> serving r -> serving r'.
Proof.
  intros Hs [Ha Hserve]. pose proof Hs as (Hi & Hm & Hc & _ & _ & Hacc).
  split; [by eapply same_agrees|]. rewrite Hi, Hm, Hc. intros E. destruct (Hserve E).
  split; [by eapply same_member|done].
Qed.
Lemma same_inv pc r r' : same r r' -> node_inv pc r -> node_inv pc r'.
Proof.
  intros Hs (Hserve & Hsync & Hjoin). pose proof Hs as (Hi & _ & Hc & Hn & _).
  split_and!; [by eapply same_serving| |by rewrite Hi].
  rewrite Hn, Hc. intros E. destruct (Hsync E) as [? Hmem]. split; [done|].
  intros E'. by eapply same_member, Hmem.
Qed.

(** ** Every step keeps the invariant *)

Lemma same_handler r r' : handler_step r r' -> same r r'.
Proof.
  destruct 1 as [proc vs req d r x r' E|r|r|b procno req rep r x r' E|src last v res r x r' E
                |m v d r x r' E|m last res r|m res r|r|heal r|b r|ping r].
  - unfold invoke in E. destruct (_ || _); inv_bind; [by simplify_eq|].
    destruct a as [rep s]. inv_bind. by simplify_eq.
  - unfold client_begin. destruct (inviewchange r); [done|]. destruct (negb _); [done|].
    rewrite (surjective_pairing (get_view _ _)). cbn [snd]. by rewrite <-same_get_view.
  - unfold partition1. destruct (dopartition r); [|done]. unfold net_repair_wo.
    rewrite (surjective_pairing (get_view _ _)). exact (same_get_view (vid_commit r) r).
  - unfold client_end in E. destruct b; [by simplify_eq|]. inv_bind. destruct a as [rep' s].
    by simplify_eq.
  - unfold transferreq in E. destruct (_ || _); inv_bind; by simplify_eq.
  - unfold transferdonereq in E. destruct (_ || _); by simplify_eq.
  - unfold joinreq_begin. rewrite (surjective_pairing (rsm_ismember _ _ _)).
    destruct (_ : bool); [apply same_ismember|]. destruct (negb _); apply same_ismember.
  - unfold joinreq_end. rewrite (surjective_pairing (rsm_ismember _ _ _)).
    destruct (_ : bool); apply same_ismember.
  - unfold client_members. rewrite (surjective_pairing (get_view _ _)). apply same_get_view.
  - unfold test_net_repairreq, net_repair_wo. destruct (negb _); [|done].
    rewrite (surjective_pairing (get_view _ _)). exact (same_get_view (vid_commit r) r).
  - unfold breakpointreq. by repeat case_match.
  - unfold heartbeater_round. rewrite (surjective_pairing (get_view_wo _ _)).
    destruct (get_view_wo_eq (myvid (cfg r)) (cfg r)) as [_ Hs]. repeat case_match; by split_and!.
Qed.

(** An acceptor learns decided values only. *)
Definition grows (a a' : acceptor) : Prop :=
  forall i, std_ref [] (values a') i = std_ref [] (values a) i \/
            std_ref [] (values a') i = chosen i.
Lemma grows_same a a' : same_acc a a' -> grows a a'.
Proof. intros Hs i. left. apply Hs. Qed.
#[global] Instance grows_preorder : PreOrder grows.
Proof.
  split; [by intros a i; left|]. intros a b c H1 H2 i.
  destruct (H2 i) as [-> | ->]; [apply H1|by right].
Qed.
Lemma grows_insert a a' i :
  values a' = <[i := chosen i]> (values a) -> grows a a'.
Proof.
  intros E k. rewrite E. destruct (decide (i = k)) as [->|].
  - right. by rewrite std_ref_insert_eq.
  - left. by rewrite std_ref_insert_ne.
Qed.
Lemma grows_agrees a a' : grows a a' -> agrees a -> agrees a'.
Proof. intros Hg Ha i. destruct (Hg i) as [-> | ->]; [apply Ha|by right]. Qed.
Lemma grows_view a a' m v : agrees a -> grows a a' -> m ∈ view_at a v -> m ∈ view_at a' v.
Proof.
  unfold view_at. intros Ha Hg. destruct (Hg v) as [-> | ->]; [done|].
  destruct (Ha v) as [-> | ->]; [|done]. by intros ?%not_elem_of_nil.
Qed.

Lemma commit_wo_grows i v a :
  Forall (fun up => up.2 = chosen up.1) (commit_wo i v a).2 -> grows a (commit_wo i v a).1.
Proof.
  unfold commit_wo. destruct (_ <? _); [|done]. cbn. rewrite Forall_singleton. cbn.
  intros ->. by eapply grows_insert.
Qed.
Lemma acceptor_grows a a' ups :
  acceptor_step a a' ups -> Forall (fun up => up.2 = chosen up.1) ups -> grows a a'.
Proof.
  destruct 1 as [src arg res a x a' E|src arg b a x a' E|src arg a x a' ups E|i v a]; intros Hc.
  - apply grows_same. unfold preparereq in E. repeat case_match; simplify_eq; try done.
    intros i. apply std_ref_touch.
  - apply grows_same. unfold acceptreq in E. by repeat case_match; simplify_eq.
  - unfold decidereq in E. destruct (_ =? _).
    + inv_bind. rewrite (surjective_pairing (commit_wo _ _ _)) in E. simplify_eq.
      by apply commit_wo_grows.
    + destruct (_ <=? _); by simplify_eq.
  - by apply commit_wo_grows.
Qed.
Lemma logread_grows a a' : log_ok (logfile a) -> logread a = Ret a' -> grows a a'.
Proof.
  intros (recs & Hl & Hw & Hc). rewrite (logread_recs a recs) by done. intros [= <-].
  clear Hl Hw. revert a. induction Hc as [|x recs Hx _ IH]; intros a; [done|].
  cbn [foldl]. rewrite <-IH. destruct x as [i v|n|n v]; [|by apply grows_same..].
  cbn in Hx. subst v. by eapply grows_insert.
Qed.
Lemma reconstruct_same c : same_acc (acc c) (acc (reconstruct c)).
Proof. unfold reconstruct. destruct (_ <? _); [|done]. intros i. apply std_ref_touch. Qed.
Lemma config_restore_grows s c c' :
  log_ok s -> config_restore s c = Ret c' -> grows (acc c) (acc c') /\ cfg_me c' = cfg_me c.
Proof.
  intros Hl E. unfold config_restore in E. inv_bind. subst c'. split.
  - rewrite <-(grows_same _ _ (reconstruct_same _)). cbn.
    apply (logread_grows (restore s (acc c))) in E0; done.
  - unfold reconstruct. by destruct (_ <? _).
Qed.

(** Changes that concern the acceptor only. *)
Lemma grows_inv pc r c :
  grows (acc (cfg r)) (acc c) -> cfg_me c = cfg_me (cfg r) ->
  node_inv pc r -> node_inv pc (set_cfg r c).
Proof.
  intros Hg Hme ([Ha Hserve] & Hsync & Hjoin).
  assert (member r -> member (set_cfg r c)) as Hmem.
  { unfold member, myaddr. cbn [cfg vid_commit set_cfg]. rewrite Hme. by apply grows_view. }
  split; [split; [by eapply grows_agrees|]|split; [|done]].
  - intros E. destruct (Hserve E). split; [by apply Hmem|done].
  - intros E. destruct (Hsync E) as [? Hm]. split; [done|]. intros E'. by apply Hmem, Hm.
Qed.

Lemma recovery_top_inv r : serving r -> node_inv (recovery_top r).1 (recovery_top r).2.
Proof.
  intros Hs. unfold recovery_top. pose proof (ismember_view (myaddr r) (vid_commit r) r) as Hm.
  pose proof (same_ismember (myaddr r) (vid_commit r) r) as Hsame.
  destruct (rsm_ismember _ _ r) as [b r1]. cbn [fst snd] in *.
  assert (serving r1) as Hs1 by by eapply same_serving.
  destruct b; cbn [negb].
  - assert (member (recovery_begin r1)) as Hmem by (apply (same_member r r1 Hsame), Hm; done).
    destruct (bool_decide _); cbn [fst snd]; (split; [exact Hs1|split; [|done]]);
      intros _; (split; [apply Z.le_refl|done]).
  - split; [done|]. split; [done|]. intros _. cbn. destruct (inviewchange r1) eqn:E; [done|].
    destruct Hsame as (Hi & _). destruct Hs as [_ Hs]. destruct (Hs ltac:(congruence)) as [Hin _].
    apply Hm in Hin. done.
Qed.
Lemma recovery_finish_inv ok r :
  serving r -> (vid_insync r = vid_commit r -> member r) ->
  node_inv (recovery_finish ok r).1 (recovery_finish ok r).2.
Proof.
  intros Hs Hm. unfold recovery_finish, recovery_end.
  destruct (Z.eqb_spec (vid_insync r) (vid_commit r)) as [E|E]; cbn [negb];
    [|by apply recovery_top_inv].
  destruct ok; [|by split]. split; [|by split]. destruct Hs as [Ha _].
  split; [done|]. intros _. split; [by apply Hm|done].
Qed.
Lemma sync_turn_inv r :
  node_inv PBackupsWait r -> node_inv (sync_turn r).1 (sync_turn r).2.
Proof.
  intros Hi. unfold sync_turn. destruct (sync_waits r); [done|].
  destruct Hi as (Hs & Hsync & _). destruct (Hsync eq_refl). by apply recovery_finish_inv.
Qed.

Lemma set_primary_same v r p r' : set_primary v r = Ret (p, r') -> same r r'.
Proof.
  unfold set_primary. rewrite (surjective_pairing (get_view v r)).
  rewrite (surjective_pairing (get_view (u32 (v - 1)) _)). intros E. inv_bind.
  assert (same r (get_view (u32 (v - 1)) (get_view v r).2).2) as Hs.
  { etrans; apply same_get_view. }
  repeat case_match; inv_bind; repeat case_match; by simplify_eq.
Qed.
Lemma commit_change_wo_inv pc v r r' :
  node_inv pc r -> commit_change_wo v r = Ret r' -> node_inv pc r'.
Proof.
  intros Hinv E. unfold commit_change_wo in E.
  destruct (Z.leb_spec v (vid_commit r)) as [|Hlt]; [by simplify_eq|].
  inv_bind. destruct a as [p r1]. apply set_primary_same in E0.
  rewrite (surjective_pairing (rsm_ismember _ _ _)) in E. inv_bind. subst r'.
  refine (same_inv pc (set_view_state r1 p true v) _ (same_ismember (myaddr (set_view_state r1 p true v)) v _) _).
  destruct Hinv as ([Ha _] & Hsync & _), E0 as (_ & _ & _ & Hn & _ & Hacc).
  split; [split; [by eapply same_agrees|done]|split; [|done]].
  intros E'. destruct (Hsync E') as [Hle _]. cbn in Hn |- *. rewrite Hn. lia.
Qed.
Lemma commit_change_inv pc v r r' :
  node_inv pc r -> commit_change v r = Ret r' -> node_inv pc r'.
Proof.
  intros Hinv E. unfold commit_change in E. inv_bind. subst r'. by eapply commit_change_wo_inv.
Qed.
Lemma statetransfer_same bound ret res r b r' :
  statetransfer_end stf bound ret res r = Ret (b, r') -> same r r'.
Proof. unfold statetransfer_end. intros E. destruct (_ || _); inv_bind; by simplify_eq. Qed.

Lemma thread_inv x y :
  thread_step x y -> node_inv x.1 x.2 -> node_inv y.1 y.2.
Proof.
  destruct 1 as [bound ret res r x Hl E|r|r|r|m bound ret res r x E|m bound ret r|r];
    cbn [fst snd]; intros Hinv.
  - unfold join_resume, join_end in E. destruct (_ || _).
    { inv_bind. simplify_eq. by destruct Hinv as (? & _ & ?). }
    inv_bind. destruct a as [ok r1]. inv_bind. simplify_eq.
    inv_bind. simplify_eq. apply config_restore_grows in E1 as [Hg Hme]; [|done].
    apply recovery_top_inv. eapply commit_change_wo_inv in E0 as [? _]; [done|].
    by apply (grows_inv PJoin).
  - by apply recovery_top_inv; destruct Hinv.
  - apply sync_turn_inv. unfold sync_begin. rewrite (surjective_pairing (get_view _ _)).
    by apply (same_inv PBackups _ _ (same_get_view (vid_insync r) r)).
  - by apply sync_turn_inv.
  - unfold transfer_resume in E. inv_bind. destruct a as [ok r1]. simplify_eq.
    apply statetransfer_same in E0. destruct (negb ok && _); by eapply same_inv.
  - destruct Hinv as (Hs & Hsync & _). destruct (Hsync eq_refl). by apply recovery_finish_inv.
  - by apply recovery_top_inv; destruct Hinv.
Qed.

Lemma node_step_inv n n' :
  node_step n n' -> node_inv (n_pc n) (n_rsm n) -> node_inv (n_pc n') (n_rsm n').
Proof.
  destruct 1 as [pc r pc' r' ups ch Ht|pc r r' ups ch Hh|pc r a ups ch new Ha Hc|pc r i v u1 u2 ch
                |pc r ups v c1 c2 r' E];
    cbn [n_pc n_rsm]; intros Hinv.
  - by apply (thread_inv (pc, r) (pc', r')).
  - by eapply same_inv; [apply same_handler|].
  - apply grows_inv; [by eapply acceptor_grows|done..].
  - by apply grows_inv.
  - by eapply commit_change_inv.
Qed.

Lemma node_starts_inv n : node_starts n -> node_inv (n_pc n) (n_rsm n).
Proof.
  destruct 1 as [first me file garbage s r Hl Hfirst E]. cbn [n_pc n_rsm].
  apply recovery_top_inv. unfold rsm_new, config_new, acceptor_new in E. inv_bind.
  apply logread_grows in E2; [|done].
  assert (agrees (acc a)) as Ha.
  { subst a. eapply same_agrees; [apply reconstruct_same|]. cbn [acc].
    eapply grows_agrees; [etrans; [exact E2|]|intros i; by left].
    destruct (_ && _) eqn:Ef; inv_bind; subst a0; [|done].
    apply andb_prop in Ef as [_ Ef%bool_decide_eq_true]. eapply grows_insert with (i := 1). cbn.
    by rewrite Hfirst. }
  assert (forall r0, agrees (acc (cfg r0)) -> inviewchange r0 = true -> node_inv PWait r0) as Hi.
  { intros r0 H1 H2. split; [split; [done|congruence]|done]. }
  destruct (decide (first = me)).
  - eapply commit_change_inv in E as [? _]; [done|]. by apply Hi.
  - inv_bind. subst r. by apply (Hi (Rsm _ _ _ _ _ _ _ _ _ _ _ _ _ _)).
Qed.
Lemma node_reachable_inv n0 n :
  node_starts n0 -> rtc node_step n0 n -> node_inv (n_pc n) (n_rsm n).
Proof.
  intros Hs Hr. apply node_starts_inv in Hs.
  induction Hr as [|n1 n2 n3 Hstep _ IH]; [done|]. by eapply IH, node_step_inv.
Qed.
(** A member of a known view: the view is the decided one. *)
Lemma member_chosen r :
  agrees (acc (cfg r)) -> member r ->
  view_at (acc (cfg r)) (vid_commit r) = members (chosen (vid_commit r)).
Proof.
  intros Ha Hm. unfold member, view_at in *. destruct (Ha (vid_commit r)) as [E|E]; rewrite E in *;
    [by apply not_elem_of_nil in Hm|done].
Qed.

(** ** Properties *)

(** C14. Only members of the committed view take requests in.  Whatever the
    interleaving of a node's recovery thread with its handlers, with its Paxos
    acceptor learning decided views and with the announcements of views, a backup
    executes a request of a primary ([invoke]) only in the view it has committed,
    which is the decided value of that instance and has the node as a member; and
    a primary numbers a client's request ([client_begin]), and sends it to the
    members of that decided view, only if it is itself one of them.  What the
    primary executes when the backups have answered ([client_end]) is not covered:
    it had left its mutex and does not look at the view again
    ([primary_executes_late]). *)
Theorem serves_as_member n0 n :
  node_starts n0 -> rtc node_step n0 n ->
  let r := n_rsm n in
  (forall proc vs req d x r', invoke procs proc vs req d r = Ret (OK, x, r') ->
     vid vs = vid_commit r /\ myaddr r ∈ members (chosen (vid vs))) /\
  (forall view, (client_begin r).1 = inr view ->
     view = members (chosen (vid_commit r)) /\ myaddr r ∈ view /\
     vid (last_myvs (client_begin r).2) = vid_commit r).
Proof.
  intros Hs Hr r. destruct (node_reachable_inv n0 n Hs Hr) as ((Ha & Hserve) & _). fold r in Ha, Hserve.
  split.
  - intros proc vs req d x r' E. unfold invoke in E. destruct (inviewchange r) eqn:Ei; [done|].
    destruct (Hserve eq_refl) as [Hm Hv]. cbn [orb] in E.
    destruct (vs_neq vs (myvs r)) eqn:En; [by rewrite orb_true_r in E|].
    assert (vs = myvs r) as ->.
    { destruct (decide (vs = myvs r)) as [|Hne]; [done|]. apply vs_neq_spec in Hne. congruence. }
    split; [done|]. by rewrite Hv, <-member_chosen.
  - intros view E. unfold client_begin in *. destruct (inviewchange r) eqn:Ei; [done|].
    destruct (Hserve eq_refl) as [Hm Hv]. destruct (negb _); [done|].
    cbn in E. injection E as <-. split; [by apply member_chosen|done].
Qed.
End node.

(** ** The property at a concrete input *)

#[local] Existing Instance fresh_zero.
#[local] Instance unit_transfer : StateTransfer unit :=
  {| marshal_st _ := Ret []; unmarshal_st _ s := Ret s |}.

(** The first node of all, alone in its view, when it starts and after its
    recovery. *)
Definition node0 : rsm unit :=
  match rsm_new (lit "p") (lit "p") [] 0 tt with
  | Ret r => r
  | _ => Rsm (Config (Acceptor [] (paxos_protocol.Prop_t 0 []) (paxos_protocol.Prop_t 0 []) []
                 0 ∅ []) (proposer_new []) 0 [] [])
           (Viewstamp 0 0) (Viewstamp 0 0) [] false false 0 0 [] tt false false false false
  end.
Definition first_node : node :=
  Node PWait (sync_turn (sync_begin (recovery_top node0).2)).2 [] [].
Definition p_chosen (i : Z) : str := lit "p".

Lemma node0_starts :
  node_starts p_chosen (Node (recovery_top node0).1 (recovery_top node0).2 [] []).
Proof.
  eapply (starts _ (lit "p") (lit "p") [] 0 tt); [|done|vm_compute; reflexivity].
  exists []. by repeat constructor.
Qed.
Lemma first_node_reached :
  rtc (node_step ∅ true p_chosen) (Node (recovery_top node0).1 (recovery_top node0).2 [] []) first_node.
Proof.
  apply rtc_once. unfold first_node. apply n_thread.
  replace (recovery_top node0).1 with PBackups by (vm_compute; reflexivity).
  replace PWait with (sync_turn (sync_begin (recovery_top node0).2)).1
    by (vm_compute; reflexivity).
  rewrite <-surjective_pairing. apply t_backups.
Qed.
Lemma first_node_serves : (client_begin (n_rsm first_node)).1 = inr [lit "p"].
Proof. vm_compute. reflexivity. Qed.

Lemma serves_as_member_witness :
  (client_begin (n_rsm first_node)).1 = inr [lit "p"] /\
  [lit "p"] = members (p_chosen (vid_commit (n_rsm first_node))) /\ myaddr (n_rsm first_node) ∈ [lit "p"].
Proof.
  destruct (serves_as_member ∅ true p_chosen _ _ node0_starts first_node_reached) as [_ Hc].
  destruct (Hc [lit "p"] first_node_serves) as (Hv & Hin & _).
  exact (conj first_node_serves (conj Hv Hin)).
Defined.

(** The primary has numbered a request in view 1; while it waits for an answer it
    learns of view 2 and changes to it; and then it executes the request, in the
    middle of the change. *)
Lemma learns_view {S} `{StateTransfer S} (procs : gmap Z (handler S)) stf chosen pc (r : rsm S) i v r' :
  let '(a, ups) := commit_wo i v (acc (cfg r)) in
  let r1 := set_cfg r (set_acc (cfg r) a) in
  ups = [(i, v)] -> v = chosen i -> commit_change i (set_cfg r1 (paxos_commit i v (cfg r1)).2) = Ret r' ->
  rtc (node_step procs stf chosen) (Node pc r [] []) (Node pc r' [] []).
Proof.
  pose proof (a_commit i v (acc (cfg r))) as Ha. destruct (commit_wo i v (acc (cfg r))) as [a ups]. cbn [fst snd] in Ha.
  intros r1 -> -> Ec. subst r1. eapply rtc_l; [apply (n_acceptor procs stf chosen pc r a [] [] _ Ha); by repeat constructor|].
  eapply rtc_l; [apply (n_upcall procs stf chosen pc _ i (chosen i) [] [] [])|].
  apply rtc_once. exact (n_change procs stf chosen pc _ [] i [] [] r' Ec).
Qed.
Definition noop : gmap Z (handler unit) := {[ 1 := fun _ rep s => Ret (0, rep, s) ]}.
Definition began : rsm unit := (client_begin (n_rsm first_node)).2.
Definition changed2 : rsm unit :=
  let r := set_cfg began (set_acc (cfg began) (commit_wo 2 (lit "p") (acc (cfg began))).1) in
  match commit_change 2 (set_cfg r (paxos_commit 2 (lit "p") (cfg r)).2) with Ret r => r | _ => r end.
Lemma primary_executes_late :
  rtc (node_step noop true p_chosen) (Node PWait began [] []) (Node PWait changed2 [] []) /\
  vid (last_myvs changed2) = 1 /\ vid_commit changed2 = 2 /\ inviewchange changed2 = true /\
  exists rep r, client_end noop false 1 [] [] changed2 = Ret (client_OK, rep, r).
Proof.
  split; [|split_and!; [vm_compute; reflexivity..|eexists _, _; vm_compute; reflexivity]].
  pose proof (learns_view noop true p_chosen PWait began 2 (lit "p") changed2) as Hv.
  assert (let '(a, ups) := commit_wo 2 (lit "p") (acc (cfg began)) in
    let r1 := set_cfg began (set_acc (cfg began) a) in
    ups = [(2, lit "p")] /\ commit_change 2 (set_cfg r1 (paxos_commit 2 (lit "p") (cfg r1)).2) = Ret changed2) as Hc
    by (vm_compute; split; reflexivity).
  destruct (commit_wo 2 (lit "p") (acc (cfg began))) as [a ups]. destruct Hc as [Hu Hc]. by apply Hv.
Qed.
