(* ===== verification/Failover.v ===== *)
(** * A view change, end to end

    A node of a view crashes.  A member's heartbeats find it out, [config]
    proposes the view without it, and the proposer runs Paxos among the members of
    the old view, the crashed one included: a majority must answer.  An acceptor
    that is told the decision tells [config] and that the replicated state
    machine; the recovery threads of the nodes then synchronise: the backups ask
    the new primary for its state and report to it.  The definitions of the steps
    are those of [Paxos], [Config], [Rsm] and [RsmNode]; here the nodes that are
    up answer every call, and one proposer runs at a time. *)
From S2P Require Import Prelude Marshall Protocols RpcStub Log Paxos Config Rsm RsmNode.
Import paxos_protocol rsm_protocol.

Section failover.
Context `{FreshMem} {S : Type} `{StateTransferOk S}.
(** The handlers, whether [set_state_transfer] was called, and what the instance
    of an accept request holds, which is never assigned. *)
Context (procs : gmap Z (handler S)) (stf : bool) (junk : Z).
Implicit Types (r : rsm S) (ns : gmap str (rsm S)).

(** ** The steps *)

(** The upcall of an acceptor that has committed a value:
    [config::paxos_commit], which calls [rsm::commit_change]. *)
Definition set_acceptor r (a : acceptor) : rsm S := set_cfg r (set_acc (cfg r) a).
Definition upcall (ups : list (Z * str)) r : outcome (rsm S) :=
  match ups with
  | [] => Ret r
  | (i, x) :: _ =>
      let '(_, vid, c) := paxos_commit i x (cfg r) in
      commit_change vid (set_cfg r c)
  end.
Definition learn (v : Z) (val : str) r : outcome (rsm S) :=
  let '(a, ups) := commit v val (acc (cfg r)) in upcall ups (set_acceptor r a).

(** The calls of the proposer of node [me] to the nodes that are up; a node whose
    [VERIFY] fails is gone. *)
Section calls.
Variable me : str.
Definition n_binds (x : str) ns : bool * gmap str (rsm S) := (bool_decide (is_Some (ns !! x)), ns).
Definition n_prepare (x : str) (arg : preparearg) (res : prepareres) ns
    : Z * prepareres * gmap str (rsm S) :=
  match ns !! x with
  | Some r =>
      match preparereq me arg (PrepareRes false false (Prop_t 0 []) []) (acc (cfg r)) with
      | Ret (ret, res, a) => (ret, res, <[x := set_acceptor r a]> ns)
      | _ => (rpc_const.timeout_failure, res, delete x ns)
      end
  | None => (rpc_const.timeout_failure, res, ns)
  end.
Definition n_accept (x : str) (arg : acceptarg) ns : Z * bool * gmap str (rsm S) :=
  match ns !! x with
  | Some r =>
      match acceptreq me arg false (acc (cfg r)) with
      | Ret (ret, b, a) => (ret, b, <[x := set_acceptor r a]> ns)
      | _ => (rpc_const.timeout_failure, false, delete x ns)
      end
  | None => (rpc_const.timeout_failure, false, ns)
  end.
Definition n_decide (x : str) (arg : decidearg) ns : gmap str (rsm S) :=
  match ns !! x with
  | Some r =>
      match ('(_, a, ups) ← decidereq me arg (acc (cfg r)); upcall ups (set_acceptor r a)) with
      | Ret r => <[x := r]> ns
      | _ => delete x ns
      end
  | None => ns
  end.
Definition n_commit (i : Z) (v : str) ns : gmap str (rsm S) :=
  match ns !! me with
  | Some r => match learn i v r with Ret r => <[me := r]> ns | _ => delete me ns end
  | None => ns
  end.
Definition n_n_h ns : prop_t :=
  match ns !! me with Some r => n_h (acc (cfg r)) | None => Prop_t 0 [] end.

(** [pro->run], with the instance, the nodes and the value that [config]
    computed. *)
Definition set_pro (c : config) (p : proposer) : config := Config (acc c) p (myvid c) (cfg_me c) (mems c).
Definition propose (x : Z * list str * str) ns : outcome (bool * gmap str (rsm S)) :=
  match ns !! me with
  | Some r =>
      '(b, p, ns) ← run n_binds n_prepare n_accept n_decide n_commit n_n_h junk x.1.1 x.1.2 x.2
                      (pro (cfg r)) ns;
      Ret (b, alter (fun r => set_cfg r (set_pro (cfg r) p)) me ns)
  | None => Hang
  end.

(** A heartbeat to node [x], and a round of [heartbeater]: the proposal it makes.
    The handler only reads its node's state; it has a [VERIFY] that can fail while
    a proposer runs there, and then the call fails. *)
Definition ping (vid : Z) ns (x : str) : heartbeat_t :=
  match ns !! x with
  | Some r =>
      match heartbeat me vid 0 (cfg r) with
      | Ret (ret, _, _) => (doheartbeat true ret).1
      | _ => HB_FAILURE
      end
  | None => (doheartbeat false 0).1
  end.
Definition detect ns : outcome (option (Z * list str * str) * gmap str (rsm S)) :=
  match ns !! me with
  | Some r =>
      let '(vid, target, c) := heartbeater_round (ping (myvid (cfg r)) ns) (cfg r) in
      Ret (heartbeater_end vid target c, <[me := set_cfg r c]> ns)
  | None => Hang
  end.
End calls.

(** The recovery thread wakes up and goes on until it waits again. *)
Definition wake r : rec_pc * rsm S :=
  match recovery_top r with
  | (PBackups, r) => sync_turn (sync_begin r)
  | x => x
  end.

(** The recovery thread of node [n] makes its two calls to the primary [m]; the
    second may wake the primary's. *)
Definition sync_node (n : str) (xs : gmap str (rec_pc * rsm S)) : outcome (gmap str (rec_pc * rsm S)) :=
  match xs !! n with
  | Some (PTransfer m, rb) =>
      match xs !! m with
      | Some (pm, rp) =>
          '(st, res, rp) ← transferreq stf n (last_myvs rb) (vid_insync rb)
                             (TransferRes [] (Viewstamp 0 0)) rp;
          '(pc, rb) ← transfer_resume stf m true st res rb;
          match pc with
          | PTransferDone _ =>
              '(st, _, rp) ← transferdonereq n (vid_insync rb) 0 rp;
              let xp := match pm with PBackupsWait => sync_turn rp | _ => (pm, rp) end in
              Ret (<[n := recovery_finish (statetransferdone_end true st) rb]> (<[m := xp]> xs))
          | _ => Ret (<[n := (pc, rb)]> (<[m := (pm, rp)]> xs))
          end
      | None => Ret xs
      end
  | _ => Ret xs
  end.
Fixpoint sync_nodes (ms : list str) (xs : gmap str (rec_pc * rsm S))
  : outcome (gmap str (rec_pc * rsm S)) :=
  match ms with [] => Ret xs | n :: ms => xs ← sync_node n xs; sync_nodes ms xs end.

(** The recovery threads of the nodes that are up wake, and those of the members
    of the view [ms] synchronise. *)
Definition recover (ms : list str) (xs : gmap str (rec_pc * rsm S)) : outcome (gmap str (rsm S)) :=
  xs ← sync_nodes ms xs; Ret (Datatypes.snd <$> (xs : gmap str (rec_pc * rsm S))).
(** The heartbeater of node [k] looks for a member that does not answer, has it
    removed by Paxos, and the members of the new view synchronise. *)
Definition change_view (k : str) ns : outcome (gmap str (rsm S)) :=
  '(target, ns) ← detect k ns;
  match target with
  | None => Ret ns
  | Some x =>
      '(b, ns) ← propose k x ns;
      if b : bool then recover (members x.2) (wake <$> (ns : gmap str (rsm S))) else Ret ns
  end.

(** Requests of clients at the primary [p] of a view. *)
Definition serve (p : str) (reqs : list (Z * str)) ns : outcome (list str * gmap str (rsm S)) :=
  match ns !! p with
  | None => Hang
  | Some r =>
      '(reps, r, w) ← request_all procs reqs r (RWorld ns []);
      Ret (reps, <[p := r]> (nodes w))
  end.

(** ** The replicas of a view *)

(** A log that leaves any acceptor that reads it in a state that [P] holds of. *)
Definition log_reads (P : acceptor -> Prop) (log : str) : Prop :=
  exists recs, log = concat (print_rec <$> recs) /\ Forall wf_rec recs /\
    forall a, P (foldl apply_rec a recs).
Lemma log_reads_snoc (P Q : acceptor -> Prop) log x :
  log_reads P log -> wf_rec x -> (forall a, P a -> Q (apply_rec a x)) -> log_reads Q (log ++ print_rec x).
Proof.
  intros (recs & -> & Hwf & HP) Hx HQ. exists (recs ++ [x]). split_and!.
  - by rewrite fmap_app, concat_app, fmap_cons, fmap_nil; cbn [concat]; rewrite app_nil_r.
  - apply Forall_app. split; [done|]. by constructor.
  - intros a. rewrite foldl_app. by apply HQ, HP.
Qed.
(** The value of instance [v] is [val], and no later instance is decided; no
    proposal has been heard of since. *)
Definition at_view (v : Z) (val : str) (a : acceptor) : Prop :=
  instance_h a = v /\ std_ref [] (values a) v = val.
Definition unheard (a : acceptor) : Prop := p_n (n_h a) = 0 /\ p_n (n_a a) = 0 /\ v_a a = [].
Definition log_at (v : Z) (val : str) : str -> Prop := log_reads (at_view v val).
Lemma log_at_done v val v' val' log :
  log_at v val log -> is_u32 v' -> one_line val' ->
  log_reads (fun a => at_view v' val' a /\ unheard a) (log ++ print_rec (Done v' val')).
Proof.
  intros Hl Hv Hval. eapply log_reads_snoc; [exact Hl|done|]. intros a _. cbn. split; [|done].
  split; [done|apply std_ref_insert_eq].
Qed.
Lemma log_reads_mono (P Q : acceptor -> Prop) log : (forall a, P a -> Q a) -> log_reads P log -> log_reads Q log.
Proof. intros HPQ (recs & ? & ? & ?). exists recs. auto. Qed.

(** The proposer of node [n] is idle and has drawn numbers up to [v]; its acceptor
    has heard of no proposal. *)
Record idle_proposer (v : Z) (n : str) (p : proposer) : Prop := {
  ip_stable : stable p = true;
  ip_break1 : break1 p = false;
  ip_break2 : break2 p = false;
  ip_n : 0 <= p_n (my_n p) <= v;
  ip_m : p_m (my_n p) = n;
}.
Record quiet (v : Z) (val n : str) (c : config) : Prop := {
  qu_acc : unheard (acc c);
  qu_log : log_reads (fun a => at_view v val a /\ unheard a) (logfile (acc c));
  qu_pro : idle_proposer v n (pro c);
}.

(** What serving requests does not change at a node; [idle] when Paxos is not
    running. *)
Record view_in (idle : bool) (p : str) (v : Z) (val : str) (n : str) r : Prop := {
  vo_primary : primary r = p;
  vo_addr : myaddr r = n;
  vo_vid : vid_commit r = v;
  vo_instance : instance_h (acc (cfg r)) = v;
  vo_value : std_ref [] (values (acc (cfg r))) v = val;
  vo_myvid : myvid (cfg r) = v;
  vo_mems : mems (cfg r) = members val;
  vo_log : log_at v val (logfile (acc (cfg r)));
  vo_break1 : rsm_break1 r = false;
  vo_break2 : rsm_break2 r = false;
  vo_whole : dopartition r = false;
  vo_quiet : idle = true -> quiet v val n (cfg r);
}.
Local Abbreviation view_of := (view_in true).
(** The members of view [v], whose value is [val] and whose primary is [p], wait
    for requests in the state [s], or one that agrees with it. *)
Definition replicas (p : str) (v : Z) (val : str) (vs last : viewstamp) (s : S) ns : Prop :=
  NoDup (members val) /\ p ∈ members val /\
  forall n, n ∈ members val -> exists r, ns !! n = Some r /\ view_of p v val n r /\
    inviewchange r = false /\ myvs r = vs /\ last_myvs r = last /\ st_agree (service r) s.

Lemma replicas_in_step p v val vs last s ns r fs :
  replicas p v val vs last s ns -> ns !! p = Some r ->
  in_step_upto st_agree (service r) r (RWorld ns fs).
Proof.
  intros (Hnd & Hp & Hall) Er. destruct (Hall p Hp) as (r' & E & [] & Hiv & Hvs & Hl & Hs).
  rewrite Er in E. injection E as <-.
  assert ((get_view (vid_commit r) r).1 = members val) as Hview.
  { unfold get_view, get_view_wo. cbn. by rewrite vo_vid0, vo_value0. }
  split_and!; try done; [congruence|by rewrite Hview|]. rewrite Hview, vo_primary0.
  intros n Hn Hne. destruct (Hall n Hn) as (b & Eb & [] & ? & ? & ? & Hb). exists b. split; [done|].
  split_and!; try congruence. by rewrite Hb, Hs.
Qed.

Section requests.
Variables (p : str) (v : Z) (val : str).
Definition viewed ns : Prop := forall n r, ns !! n = Some r -> n ∈ members val -> view_of p v val n r.

Lemma viewed_insert ns n r : viewed ns -> (n ∈ members val -> view_of p v val n r) -> viewed (<[n := r]> ns).
Proof. intros Hv Hr m x [[<- <-]|[_ Hx]]%lookup_insert_Some; [done|by apply Hv]. Qed.
Lemma invoke_view n proc vs req d r x r' :
  view_of p v val n r -> invoke procs proc vs req d r = Ret (x, r') -> view_of p v val n r'.
Proof.
  unfold invoke. intros Hv E. destruct (_ || _); [by injection E as _ <-|].
  apply bind_Ret_inv in E as ([rep s] & _ & E). apply bind_Ret_inv in E as (? & _ & [= _ <-]).
  by destruct Hv.
Qed.
Lemma at_node_view n proc vs req ns : viewed ns -> viewed (at_node procs n proc vs req ns).2.
Proof.
  intros Hv. unfold at_node. destruct (ns !! n) as [r|] eqn:E; [|done].
  destruct (invoke procs proc vs req 0 r) as [[[st d] r']| | |] eqn:Ei; cbn [Datatypes.snd].
  - apply viewed_insert; [done|]. intros Hn. by eapply invoke_view; [apply (Hv n)|].
  - intros m x [_ Hx]%lookup_delete_Some. by apply Hv.
  - intros m x [_ Hx]%lookup_delete_Some. by apply Hv.
  - intros m x [_ Hx]%lookup_delete_Some. by apply Hv.
Qed.
Lemma invoke_backups_view proc req view : forall index r (w : rworld S) b r' w',
  viewed (nodes w) -> view_of p v val p r ->
  invoke_backups (binds_w) (call_invoke_w procs) (fun _ w => w) proc req index view r w = Ret (b, r', w') ->
  viewed (nodes w') /\ view_of p v val p r'.
Proof.
  induction view as [|it view IH]; intros index r w b r' w' Hw Hr; cbn [invoke_backups].
  { by intros [= _ <- <-]. }
  destruct (decide (it = primary r)); [by apply IH|].
  assert (nodes (binds_w it w).2 = nodes w) as Hb.
  { unfold binds_w. by destruct (rfates w) as [|[] ?]. }
  destruct (binds_w it w) as [bound w1]. cbn [Datatypes.snd] in Hb. rewrite <-Hb in Hw. clear Hb.
  intros E. apply bind_Ret_inv in E as ([[rpc r1] w2] & Ec & E).
  assert (r1 = r /\ viewed (nodes w2)) as [-> Hw2].
  { destruct bound; [|by injection Ec as <- <- <-]. unfold call_invoke_w in Ec.
    pose proof (at_node_view it proc (last_myvs r) req (nodes w1) Hw) as Ha.
    destruct (at_node procs it proc (last_myvs r) req (nodes w1)) as [st ns].
    destruct (rfates w1) as [|[| |[]] ?]; by injection Ec as <- <- <-. }
  destruct (negb (rpc =? OK)); [by injection E as _ <- <-|].
  destruct (decide (index = 0%nat)); [|by eapply IH].
  apply bind_Ret_inv in E as (? & _ & E). unfold partition1 in E.
  rewrite (vo_whole _ _ _ _ _ _ Hr) in E. by eapply IH.
Qed.
Lemma request_view procno req old r (w : rworld S) st rep r' w' :
  viewed (nodes w) -> view_of p v val p r ->
  request procs procno req old r w = Ret (st, rep, r', w') -> viewed (nodes w') /\ view_of p v val p r'.
Proof.
  unfold request, client_invoke, client_begin. intros Hw Hr.
  destruct (inviewchange r); [by intros [= _ _ <- <-]|].
  destruct (negb _); [by intros [= _ _ <- <-]|].
  set (r1 := set_vs r _ _). rewrite (surjective_pairing (get_view (vid_commit r1) r1)).
  assert (view_of p v val p (get_view (vid_commit r1) r1).2) as Hr1.
  { destruct Hr. constructor; try done.
    - change (std_ref [] (std_touch [] (values (acc (cfg r))) (vid_commit r)) v = val).
      by rewrite std_ref_touch.
    - intros _. destruct (vo_quiet0 eq_refl). by split. }
  intros E. apply bind_Ret_inv in E as ([[b r2] w2] & E1 & E).
  destruct (invoke_backups_view _ _ _ _ _ _ _ _ _ Hw Hr1 E1) as [Hw2 Hr2].
  apply bind_Ret_inv in E as ([[st' rep'] r3] & E2 & [= _ _ <- <-]). split; [done|].
  unfold client_end in E2. destruct b; [by injection E2 as _ _ <-|].
  apply bind_Ret_inv in E2 as ([? s] & _ & [= _ _ <-]). by destruct Hr2.
Qed.
Lemma request_all_view reqs : forall r (w : rworld S) reps r' w',
  viewed (nodes w) -> view_of p v val p r ->
  request_all procs reqs r w = Ret (reps, r', w') -> viewed (nodes w') /\ view_of p v val p r'.
Proof.
  induction reqs as [|[proc req] reqs IH]; intros r w reps r' w' Hw Hr; cbn [request_all].
  { by intros [= _ <- <-]. }
  intros E. apply bind_Ret_inv in E as ([[[st rep] r1] w1] & E1 & E).
  destruct (request_view _ _ _ _ _ _ _ _ _ Hw Hr E1) as [Hw1 Hr1].
  apply bind_Ret_inv in E as (? & _ & E). apply bind_Ret_inv in E as ([[reps1 r2] w2] & E2 & [= _ <- <-]).
  by eapply IH.
Qed.
End requests.

(** States that agree give the same replies. *)
Lemma execute_all_agree reqs : respected procs st_agree -> forall (a b : S) reps a',
  st_agree b a -> execute_all procs reqs a = Ret (reps, a') ->
  exists b', execute_all procs reqs b = Ret (reps, b') /\ st_agree b' a'.
Proof.
  intros HA. induction reqs as [|[proc req] reqs IH]; intros a b reps a' Hab; cbn [execute_all].
  { intros [= <- <-]. by exists b. }
  intros E. apply bind_Ret_inv in E as ([rep a1] & E1 & E).
  apply bind_Ret_inv in E as ([reps1 a2] & E2 & [= <- <-]).
  destruct (HA _ _ _ _ _ _ Hab E1) as (b1 & -> & Hb1). rewrite outcome_bind_Ret.
  destruct (IH _ _ _ _ Hb1 E2) as (b2 & -> & Hb2). rewrite outcome_bind_Ret. by exists b2.
Qed.

(** Requests leave the replicas of the view in step. *)
Lemma serve_replicas p v val vs last s ns reqs reps s' : respected procs st_agree ->
  replicas p v val vs last s ns -> execute_all procs reqs s = Ret (reps, s') ->
  exists ns' vs' last', serve p reqs ns = Ret (reps, ns') /\ replicas p v val vs' last' s' ns' /\
    (vs', last') = stamps reqs (vs, last).
Proof.
  intros HA Hg He. pose proof Hg as (Hnd & Hp & Hall).
  destruct (Hall p Hp) as (r & Er & Hr & _ & <- & <- & Hs0). unfold serve. rewrite Er.
  destruct (execute_all_agree reqs HA _ _ _ _ Hs0 He) as (s1 & He1 & Hs1).
  destruct (requests_in_step procs st_agree reqs r (RWorld ns []) (service r) reps s1) as (r' & w' & Eq & Hi & Hst);
    [done|by eapply replicas_in_step|by constructor|done|].
  rewrite Eq, outcome_bind_Ret.
  destruct (request_all_view p v val reqs r (RWorld ns []) reps r' w') as [Hw' Hr']; [|done|done|].
  { intros n b Eb Hn. destruct (Hall n Hn) as (b' & Eb' & ? & _). cbn [nodes] in Eb. by simplify_eq. }
  exists (<[p := r']> (nodes w')), (myvs r'), (last_myvs r'). split; [done|]. split; [|done].
  destruct Hi as (Hiv & _ & _ & _ & Hs & _ & Hb).
  assert ((get_view (vid_commit r') r').1 = members val) as Hview.
  { unfold get_view, get_view_wo. cbn. by rewrite (vo_vid _ _ _ _ _ _ Hr'), (vo_value _ _ _ _ _ _ Hr'). }
  rewrite Hview, (vo_primary _ _ _ _ _ _ Hr') in Hb.
  split_and!; [done|done|]. intros n Hn. destruct (decide (p = n)) as [<-|Hne].
  - exists r'. rewrite lookup_insert_eq, Hs. by split_and!.
  - destruct (Hb n Hn) as (b & Eb & ? & ? & ? & ? & ? & ? & Hbs); [done|]. exists b.
    rewrite lookup_insert_ne by done. split_and!; try done; [by apply (Hw' n b)|by rewrite Hbs].
Qed.

(** ** Learning the new view *)

(** Looking up views may create elements of the acceptor's map, and no more. *)
Definition touched r r' : Prop :=
  exists m, r' = set_acceptor r (set_values (acc (cfg r)) m) /\
    forall k, std_ref [] m k = std_ref [] (values (acc (cfg r))) k.
Lemma touched_trans r1 r2 r3 : touched r1 r2 -> touched r2 r3 -> touched r1 r3.
Proof. intros (m & -> & Hm) (m' & -> & Hm'). exists m'. split; [done|]. intros k. by rewrite Hm', <-Hm. Qed.
Lemma touched_get_view u r : touched r (get_view u r).2.
Proof. eexists. split; [reflexivity|]. intros k. apply std_ref_touch. Qed.
Lemma touched_ismember m u r : touched r (rsm_ismember m u r).2.
Proof. eexists. split; [reflexivity|]. intros k. apply std_ref_touch. Qed.
Lemma touched_view b p v val n r r' : touched r r' -> view_in b p v val n r -> view_in b p v val n r'.
Proof.
  intros (m & -> & Hm) []. constructor; try done.
  - cbn. by rewrite Hm.
  - intros Hb. destruct (vo_quiet0 Hb). by split.
Qed.

(** The primary of the new view [c] after a view [o] with primary [p]. *)
Definition next_primary (p : str) (o c : list str) : str :=
  if isamember p c then p else List.hd p (filter (fun n => isamember n c = true) o).
Lemma next_primary_in p o c n : n ∈ o -> n ∈ c -> next_primary p o c ∈ c.
Proof.
  intros Ho Hc. unfold next_primary. destruct (isamember p c) eqn:E; [by apply isamember_elem|].
  destruct (filter (fun m => isamember m c = true) o) as [|m l] eqn:Ef.
  - assert (n ∈ filter (fun m => isamember m c = true) o) as Hn.
    { apply list_elem_of_filter. split; [by apply isamember_elem|done]. }
    rewrite Ef in Hn. by apply elem_of_nil in Hn.
  - assert (m ∈ m :: l) as Hm by (by left). rewrite <-Ef in Hm.
    apply list_elem_of_filter in Hm as [Hm _]. by apply isamember_elem.
Qed.
Lemma set_primary_ok r p v val val' n :
  primary r = p -> 0 <= v < 2 ^ 32 - 1 ->
  std_ref [] (values (acc (cfg r))) v = val -> std_ref [] (values (acc (cfg r))) (v + 1) = val' ->
  n ∈ members val -> n ∈ members val' ->
  exists r', set_primary (v + 1) r = Ret (next_primary p (members val) (members val'), r') /\ touched r r'.
Proof.
  intros Hp Hv Hval Hval' Hn Hn'. unfold set_primary.
  pose proof (touched_get_view (v + 1) r) as T1.
  assert ((get_view (v + 1) r).1 = members val') as G1 by (unfold get_view, get_view_wo; cbn; by rewrite Hval').
  destruct (get_view (v + 1) r) as [c r1]. cbn [fst Datatypes.snd] in *. subst c.
  pose proof (touched_get_view (u32 (v + 1 - 1)) r1) as T2.
  assert ((get_view (u32 (v + 1 - 1)) r1).1 = members val) as G2.
  { destruct T1 as (m1 & -> & T1). replace (v + 1 - 1) with v by lia.
    rewrite u32_id by (split; lia). unfold get_view, get_view_wo. cbn. by rewrite T1, Hval. }
  destruct (get_view (u32 (v + 1 - 1)) r1) as [c r2]. cbn [fst Datatypes.snd] in *. subst c.
  pose proof (touched_trans _ _ _ T1 T2) as T. exists r2.
  rewrite (bool_decide_eq_true_2 (members val' <> [])) by (by eapply elem_of_not_nil).
  change (VERIFY true) with (Ret tt). rewrite outcome_bind_Ret.
  assert (primary r2 = p) as -> by (destruct T as (? & -> & _); done).
  unfold next_primary. destruct (isamember p (members val')) eqn:E; [done|].
  rewrite (bool_decide_eq_true_2 (members val <> [])) by (by eapply elem_of_not_nil).
  change (VERIFY true) with (Ret tt). rewrite outcome_bind_Ret.
  destruct (filter _ _) as [|m l] eqn:Ef; [|done].
  assert (n ∈ filter (fun m => isamember m (members val') = true) (members val)) as Hin.
  { apply list_elem_of_filter. split; [by apply isamember_elem|done]. }
  rewrite Ef in Hin. by apply elem_of_nil in Hin.
Qed.

(** A node that learns the view is through with Paxos, whatever its acceptor had
    promised and accepted. *)
Lemma learn_ok b p v val val' n m r :
  view_in b p v val n r -> 0 <= v < 2 ^ 32 - 1 -> one_line val' ->
  m ∈ members val -> m ∈ members val' ->
  exists r', learn (v + 1) val' r = Ret r' /\
    view_in false (next_primary p (members val) (members val')) (v + 1) val' n r' /\
    inviewchange r' = true /\ last_myvs r' = last_myvs r /\ service r' = service r /\
    pro (cfg r') = pro (cfg r) /\ unheard (acc (cfg r')) /\
    log_reads (fun a => at_view (v + 1) val' a /\ unheard a) (logfile (acc (cfg r'))).
Proof.
  intros Hr Hv Hline Hm Hm'. destruct Hr. unfold learn, commit, commit_wo. rewrite vo_instance0.
  destruct (Z.ltb_spec v (v + 1)); [|lia]. unfold upcall, paxos_commit. cbn match. cbn zeta.
  set (a := Acceptor _ _ _ _ _ _ _). cbn [cfg set_acceptor set_cfg]. set (c := set_view _ _ _).
  set (r0 := set_cfg (set_acceptor r _) c). unfold commit_change, commit_change_wo.
  change (vid_commit r0) with (vid_commit r). rewrite vo_vid0. destruct (Z.leb_spec (v + 1) v); [lia|].
  set (r1 := set_view_state r0 (primary r0) true (v + 1)).
  destruct (set_primary_ok r1 p v val val' m) as (r2 & -> & T); try done.
  { change (std_ref [] (<[v + 1 := val']> (values (acc (cfg r)))) v = val). by rewrite std_ref_insert_ne by lia. }
  { change (std_ref [] (<[v + 1 := val']> (values (acc (cfg r)))) (v + 1) = val'). apply std_ref_insert_eq. }
  set (q := next_primary p (members val) (members val')). rewrite outcome_bind_Ret.
  set (r3 := set_view_state r2 q true (v + 1)).
  pose proof (log_at_done v val (v + 1) val' _ vo_log0 ltac:(split; lia) Hline) as Hlog.
  assert (view_in false q (v + 1) val' n r3 /\ inviewchange r3 = true /\ last_myvs r3 = last_myvs r /\
    service r3 = service r /\ pro (cfg r3) = pro (cfg r) /\ unheard (acc (cfg r3)) /\
    log_reads (fun a => at_view (v + 1) val' a /\ unheard a) (logfile (acc (cfg r3)))) as (Hr3 & Hrest).
  { destruct T as (m2 & -> & Hvs). split_and!; try done. constructor; try done.
    - change (std_ref [] m2 (v + 1) = val'). rewrite Hvs. apply std_ref_insert_eq.
    - eapply log_reads_mono; [|exact Hlog]. by intros ? [? _]. }
  pose proof (touched_ismember (myaddr r3) (v + 1) r3) as T3.
  destruct (rsm_ismember (myaddr r3) (v + 1) r3) as [b' r4]. cbn [Datatypes.snd] in T3.
  pose proof (touched_view _ _ _ _ _ _ _ T3 Hr3) as Hr4.
  assert (breakpoint2 r4 = Ret tt) as Hbr by (unfold breakpoint2; by rewrite (vo_break2 _ _ _ _ _ _ Hr4)).
  exists r4. split; [|destruct T3 as (? & -> & _); by destruct Hrest].
  rewrite Hbr. by destruct b'; rewrite !outcome_bind_Ret, Hbr, outcome_bind_Ret.
Qed.

(** ** Synchronising *)

Section change.
(** The new view, its primary, and the primary's state and viewstamp. *)
Variables (q : str) (v : Z) (val : str) (last : viewstamp) (s : S).
Local Abbreviation bs_of ms := (filter (fun m => m <> q) ms).

(** A member that has the state of the primary; one that has learnt the view, and
    needs the state or has it; one whose recovery thread is at work, and
    has reached the wait for the nodes [bs]; one that is done. *)
Definition caught_up (n : str) r : Prop :=
  last_myvs r = last /\ st_agree (service r) s /\ (n = q -> service r = s).
Definition changing (n : str) r : Prop :=
  view_of q v val n r /\ inviewchange r = true /\
  (caught_up n r \/ n <> q /\ last_myvs r <> last /\ stf = true /\ st_ready s (service r)).
Definition recovering (n : str) r : Prop := changing n r /\ vid_insync r = v.
Definition awaiting (bs : list str) r : Prop := recovering q r /\ insync r = true /\ backups r = bs.
Definition settled (n : str) r : Prop :=
  view_of q v val n r /\ inviewchange r = false /\ myvs r = Viewstamp v 1 /\
  last_myvs r = last /\ st_agree (service r) s.

Lemma finish_settled n r :
  recovering n r -> caught_up n r ->
  exists r', recovery_finish true r = (PWait, r') /\ settled n r'.
Proof.
  intros [([] & Hi & _) Hv] (Hl & Hs & _). unfold recovery_finish, recovery_end.
  rewrite Hv, vo_vid0, Z.eqb_refl. cbn [negb]. eexists. split; [reflexivity|].
  by split_and!.
Qed.
Lemma top_member n r :
  changing n r -> n ∈ members val ->
  exists r', recovery_top r = (if decide (n = q) then PBackups else PTransfer q, r') /\ recovering n r'.
Proof.
  intros (Hr & Hi & Hc) Hn. unfold recovery_top.
  pose proof (touched_ismember (myaddr r) (vid_commit r) r) as T.
  assert ((rsm_ismember (myaddr r) (vid_commit r) r).1 = true) as Hm.
  { apply ismember_view. unfold view_at. by rewrite (vo_addr _ _ _ _ _ _ Hr), (vo_vid _ _ _ _ _ _ Hr), (vo_value _ _ _ _ _ _ Hr). }
  destruct (rsm_ismember (myaddr r) (vid_commit r) r) as [b r1]. cbn [fst Datatypes.snd] in *. subst b.
  pose proof (touched_view _ _ _ _ _ _ _ T Hr) as Hr1. cbn [negb].
  destruct T as (c & -> & _). exists (recovery_begin (set_acceptor r (set_values (acc (cfg r)) c))).
  assert (recovering n (recovery_begin (set_acceptor r (set_values (acc (cfg r)) c)))) as Hrec.
  { split; [|exact (vo_vid _ _ _ _ _ _ Hr1)]. split_and!; try done. by destruct Hr1. }
  split; [|done]. pose proof Hrec as [(Hr2 & _) _].
  rewrite (vo_primary _ _ _ _ _ _ Hr2), (vo_addr _ _ _ _ _ _ Hr2).
  destruct (decide (n = q)) as [->|]; [by rewrite bool_decide_true|by rewrite bool_decide_false].
Qed.

(** What is known of the primary's thread while the nodes [bs] are waited for. *)
Definition primary_at (bs : list str) (x : rec_pc * rsm S) : Prop :=
  bs = [] /\ (exists r, x = (PWait, r) /\ settled q r) \/
  bs <> [] /\ (exists r, x = (PBackupsWait, r) /\ awaiting bs r).

Lemma turn_primary bs r : awaiting bs r -> primary_at bs (sync_turn r).
Proof.
  intros (Hr & Hi & Hb). unfold sync_turn, sync_waits. pose proof Hr as [([] & _) Hv].
  rewrite Hv, vo_vid0, Z.eqb_refl, Hb. cbn [andb].
  destruct bs as [|b bs]; [left|right; split; [done|by exists r]]. split; [done|].
  destruct (finish_settled q (sync_end r)) as (r' & E & Hs); [| |by exists r'].
  - destruct Hr as [([] & ? & ?) ?]. split; [|done]. by split; [constructor|].
  - destruct Hr as [(_ & _ & [?|[? _]]) _]; done.
Qed.
Lemma wake_backup n r :
  changing n r -> n ∈ members val -> n <> q -> exists r', wake r = (PTransfer q, r') /\ recovering n r'.
Proof.
  intros Hr Hn Hne. destruct (top_member n r Hr Hn) as (r' & E & Hr').
  exists r'. unfold wake. rewrite E, decide_False by done. done.
Qed.
Lemma wake_primary r :
  changing q r -> q ∈ members val -> primary_at (bs_of (members val)) (wake r).
Proof.
  intros Hr Hn. destruct (top_member q r Hr Hn) as (r' & E & Hr').
  unfold wake. rewrite E, decide_True by done. apply turn_primary. unfold sync_begin.
  pose proof (touched_get_view (vid_insync r') r') as T. destruct Hr' as [(Hv & Hi & Hc) Hvi].
  assert ((get_view (vid_insync r') r').1 = members val) as Hg.
  { unfold get_view, get_view_wo. cbn. by rewrite Hvi, (vo_value _ _ _ _ _ _ Hv). }
  destruct (get_view (vid_insync r') r') as [ms r2]. cbn [fst Datatypes.snd] in *. subst ms.
  pose proof (touched_view _ _ _ _ _ _ _ T Hv) as Hv2. destruct T as (c & -> & _).
  cbn [primary set_acceptor set_cfg]. rewrite (vo_primary _ _ _ _ _ _ Hv).
  split; [|done]. split; [|done]. split_and!; try done. by destruct Hv2.
Qed.

(** A backup asks for the primary's state: it is transferred unless it has it. *)
Lemma transfer_ok n rb rp :
  recovering n rb -> recovering q rp -> insync rp = true -> n <> q ->
  exists res rb', transferreq stf n (last_myvs rb) (vid_insync rb)
      (TransferRes [] (Viewstamp 0 0)) rp = Ret (OK, res, rp) /\
    transfer_resume stf q true OK res rb = Ret (PTransferDone q, rb') /\
    recovering n rb' /\ caught_up n rb'.
Proof.
  intros [(Hvb & Hib & Hcb) Hvi] [(_ & _ & Hcp) Hvip] Hins Hne.
  destruct Hcp as [(Hlp & _ & Hsp)|[? _]]; [|done]. specialize (Hsp eq_refl).
  unfold transferreq, transfer_resume, statetransfer_end. rewrite Hins, Hvi, Hvip, Z.eqb_refl, Hlp, Hsp.
  cbn [negb orb]. change (OK =? OK) with true. cbn [negb orb].
  assert (forall sb, st_agree sb s ->
    recovering n (set_vs (set_service rb sb) (myvs rb) last) /\
    caught_up n (set_vs (set_service rb sb) (myvs rb) last)) as Hdone.
  { intros sb Hsb. assert (caught_up n (set_vs (set_service rb sb) (myvs rb) last)) by by split_and!.
    split; [|done]. split; [|done]. split_and!; [by destruct Hvb|done|by left]. }
  destruct Hcb as [(Hlb & Hsb & _)|(_ & Hlb & Hstf & Hready)].
  - assert (vs_neq last last = false) as Hself.
    { destruct (vs_neq last last) eqn:E; [|done]. by apply vs_neq_spec in E. }
    rewrite Hlb, Hself, andb_false_r, outcome_bind_Ret.
    eexists _, _. split; [reflexivity|]. cbn [tr_last].
    rewrite Hself, andb_false_r, !outcome_bind_Ret. split_and!; [reflexivity| |]; by apply Hdone.
  - apply vs_neq_spec in Hlb. destruct (st_transfer _ _ Hready) as (m & sb & -> & Hu & Hsb).
    rewrite Hlb, Hstf. cbn [andb]. rewrite outcome_bind_Ret.
    eexists _, _. split; [reflexivity|]. cbn [tr_last tr_state]. rewrite Hlb, Hu. cbn [andb].
    rewrite !outcome_bind_Ret. split_and!; [reflexivity| |]; by apply Hdone.
Qed.

(** A backup's calls: it has the primary's state afterwards, and reports. *)
Lemma sync_node_ok n rb bs rp xs :
  xs !! n = Some (PTransfer q, rb) -> recovering n rb -> n <> q ->
  xs !! q = Some (PBackupsWait, rp) -> awaiting bs rp ->
  exists rb' xp, sync_node n xs = Ret (<[n := (PWait, rb')]> (<[q := xp]> xs)) /\ settled n rb' /\
    primary_at (filter (fun b => b <> n) bs) xp.
Proof.
  intros En Hb Hne Eq (Hp & Hins & Hbs). unfold sync_node. rewrite En, Eq.
  destruct (transfer_ok n rb rp Hb Hp Hins Hne) as (res & rb1 & -> & E & Hrec & Hcu).
  rewrite outcome_bind_Ret, E, outcome_bind_Ret.
  destruct (finish_settled n rb1 Hrec Hcu) as (rb' & Ef & Hset).
  unfold transferdonereq. rewrite Hins, (proj2 Hrec), (proj2 Hp), Z.eqb_refl. cbn [negb orb].
  rewrite outcome_bind_Ret. change (statetransferdone_end true OK) with true. rewrite Ef.
  eexists rb', _. split; [reflexivity|]. split; [done|]. apply turn_primary.
  destruct Hp as [(Hvp & Hip & Hcp) Hvip].
  split; [|by rewrite Hbs]. split; [|done]. split_and!; try done. by destruct Hvp.
Qed.

(** The nodes of [ms] have yet to make their calls. *)
Record syncing (ms : list str) (xs : gmap str (rec_pc * rsm S)) : Prop := {
  sy_primary : exists bs x, xs !! q = Some x /\ primary_at bs x /\ forall m, m ∈ bs <-> m ∈ ms /\ m <> q;
  sy_backup n : n ∈ ms -> n <> q -> exists r, xs !! n = Some (PTransfer q, r) /\ recovering n r;
  sy_done n : n ∈ members val -> n ∉ ms -> n <> q -> exists r, xs !! n = Some (PWait, r) /\ settled n r;
}.
Lemma sync_nodes_ok ms : forall xs,
  NoDup ms -> syncing ms xs ->
  exists xs', sync_nodes ms xs = Ret xs' /\ syncing [] xs'.
Proof.
  induction ms as [|n ms IH]; intros xs Hnd Hsy; cbn [sync_nodes]; [by exists xs|].
  apply NoDup_cons in Hnd as [Hn Hnd]. destruct Hsy as [(bs & x & Ex & Hx & Hbs) Hb Hd].
  destruct (decide (n = q)) as [->|Hne].
  - assert (sync_node q xs = Ret xs) as ->.
    { unfold sync_node. rewrite Ex. by destruct Hx as [(_ & r & -> & _)|(_ & r & -> & _)]. }
    rewrite outcome_bind_Ret. apply IH; [done|]. constructor.
    + exists bs, x. split_and!; try done. intros m. rewrite Hbs, elem_of_cons. naive_solver.
    + intros m Hm. apply Hb. by right.
    + intros m Hm Hnm Hmq. apply Hd; try done. by apply not_elem_of_cons.
  - destruct (Hb n) as (rb & Eb & Hrb); [by left|done|].
    assert (n ∈ bs) as Hin by (apply Hbs; split; [by left|done]).
    destruct Hx as [(-> & _)|(_ & rp & -> & Hp)]; [by apply elem_of_nil in Hin|].
    destruct (sync_node_ok n rb bs rp xs Eb Hrb Hne Ex Hp) as (rb' & xp & -> & Hset & Hxp).
    rewrite outcome_bind_Ret. apply IH; [done|]. constructor.
    + exists (filter (fun b => b <> n) bs), xp.
      rewrite lookup_insert_ne, lookup_insert_eq by done. split_and!; [done|done|].
      intros m. rewrite list_elem_of_filter, Hbs, elem_of_cons. naive_solver.
    + intros m Hm Hmq. rewrite !lookup_insert_ne by congruence. apply Hb; [by right|done].
    + intros m Hm Hnm Hmq. destruct (decide (n = m)) as [<-|Hnm'].
      * exists rb'. by rewrite lookup_insert_eq.
      * rewrite !lookup_insert_ne by congruence. apply Hd; try done. by apply not_elem_of_cons.
Qed.
Lemma syncing_wake xs :
  q ∈ members val ->
  (forall n, n ∈ members val -> exists r, xs !! n = Some (wake r) /\ changing n r) ->
  syncing (members val) xs.
Proof.
  intros Hq Hall. constructor.
  - destruct (Hall q Hq) as (r & Er & Hr). exists (bs_of (members val)), (wake r).
    split_and!; [done|by apply wake_primary|].
    intros m. rewrite list_elem_of_filter. naive_solver.
  - intros n Hn Hne. destruct (Hall n Hn) as (r & Er & Hr).
    destruct (wake_backup n r Hr Hn Hne) as (r' & E & Hr'). exists r'. by rewrite Er, E.
  - by intros n Hn [].
Qed.
Lemma syncing_replicas xs :
  NoDup (members val) -> q ∈ members val -> syncing [] xs ->
  replicas q v val (Viewstamp v 1) last s (Datatypes.snd <$> xs).
Proof.
  intros Hnd Hq [(bs & x & Ex & Hx & Hbs) _ Hd]. split_and!; [done|done|]. intros n Hn.
  assert (exists r, xs !! n = Some (PWait, r) /\ settled n r) as (r & Er & ? & ? & ? & ? & ?).
  { destruct (decide (n = q)) as [->|]; [|apply Hd; [done|by apply not_elem_of_nil|done]].
    destruct Hx as [(_ & r & -> & Hr)|(Hne & _)]; [by exists r|].
    destruct bs as [|b bs]; [done|]. destruct (proj1 (Hbs b)) as [?%elem_of_nil _]; [by left|done]. }
  exists r. by rewrite lookup_fmap, Er.
Qed.
End change.

(** A member of the old view that has learnt the new one. *)
Definition learnt (q : str) (v : Z) (val : str) (last : viewstamp) (s : S) (n : str) r : Prop :=
  view_of q v val n r /\ inviewchange r = true /\ last_myvs r = last /\ st_agree (service r) s.
Lemma learnt_changing q v val last s n r rq :
  learnt q v val last s n r -> learnt q v val last s q rq -> (n = q -> r = rq) ->
  changing q v val last (service rq) n r.
Proof.
  intros (? & ? & ? & Hs) (_ & _ & _ & Hq) Heq. split_and!; [done|done|left].
  split_and!; [done|by rewrite Hs, Hq|]. by intros ->%Heq.
Qed.
Lemma replicas_agree p v val vs last s s' ns :
  st_agree s s' -> replicas p v val vs last s ns -> replicas p v val vs last s' ns.
Proof.
  intros Hs (Hnd & Hp & Hall). split_and!; [done|done|]. intros n Hn.
  destruct (Hall n Hn) as (r & ? & ? & ? & ? & ? & Hr). exists r. split_and!; try done. by rewrite Hr.
Qed.

(** ** Paxos among the nodes that are up *)

(** Promising and accepting change the acceptor's numbers and its log only. *)
Definition voted (v : Z) (val : str) r r' : Prop :=
  exists nh na va log,
    r' = set_acceptor r (Acceptor (a_me (acc (cfg r))) nh na va (instance_h (acc (cfg r))) (values (acc (cfg r))) log) /\
    (log_at v val (logfile (acc (cfg r))) -> log_at v val log).
Lemma voted_trans v val r1 r2 r3 : voted v val r1 r2 -> voted v val r2 r3 -> voted v val r1 r3.
Proof.
  intros (? & ? & ? & ? & -> & Hl) (nh & na & va & log & -> & Hl'). exists nh, na, va, log.
  split; [done|]. cbn in Hl'. auto.
Qed.
Lemma voted_view b p v val n r r' : voted v val r r' -> view_in b p v val n r -> view_in false p v val n r'.
Proof. intros (? & ? & ? & ? & -> & Hl) []. constructor; try done. cbn. auto. Qed.
Lemma voted_keeps v val r r' :
  voted v val r r' -> last_myvs r' = last_myvs r /\ service r' = service r /\ pro (cfg r') = pro (cfg r).
Proof. by intros (? & ? & ? & ? & -> & _). Qed.

Lemma filter_local {A} (P Q : A -> Prop) `{!forall x, Decision (P x), !forall x, Decision (Q x)} (l : list A) :
  (forall x, x ∈ l -> P x <-> Q x) -> filter P l = filter Q l.
Proof.
  induction l as [|x l IH]; intros HPQ; [done|]. rewrite !filter_cons.
  assert (filter P l = filter Q l) as -> by (apply IH; intros y ?; apply HPQ; by right).
  pose proof (HPQ x ltac:(by left)). by destruct (decide (P x)), (decide (Q x)); try tauto.
Qed.
Section paxos.
Variables (me p : str) (v : Z) (val val' : str) (n : prop_t).
Hypotheses (Hv : 0 <= v < 2 ^ 31 - 1) (Hn : 0 < p_n n < 2 ^ 32) (Hm : word (p_m n)) (Hline : one_line val').
Local Abbreviation up ns := (filter (fun x => is_Some (ns !! x))).

Lemma prepare_live_one x r res :
  view_of p v val x r ->
  exists a, preparereq me (PrepareArg (v + 1) n) res (acc (cfg r)) = Ret (paxos_protocol.OK, PrepareRes false true (n_a a) [], a) /\
    voted v val r (set_acceptor r a) /\ n_h a = n.
Proof.
  intros Hr. destruct (vo_quiet _ _ _ _ _ _ Hr eq_refl) as [(Hh & _ & Hva) _ _].
  unfold preparereq. cbn [pa_instance pa_n]. rewrite (vo_instance _ _ _ _ _ _ Hr).
  destruct (Z.leb_spec (v + 1) v); [lia|].
  assert (prop_gt n (n_h (acc (cfg r))) = true) as -> by (apply prop_gt_spec; left; lia).
  exists (logprop n (set_n_h (acc (cfg r)) n)). split; [cbn; by rewrite Hva|]. split; [|done].
  eexists _, _, _, _. split; [reflexivity|]. intros Hl. eapply (log_reads_snoc _ _ _ (PropSeen n)); [exact Hl| |done].
  cbn. unfold is_u32. split; [lia|done].
Qed.
Lemma reply_live x na c :
  c_v c = [] -> exists c', prepare_reply x paxos_protocol.OK (PrepareRes false true na []) c = Some c' /\
    c_v c' = [] /\ c_accepts c' = c_accepts c ++ [x].
Proof. intros Hc. unfold prepare_reply. cbn. destruct (prop_gt na (c_max_n c)); by eexists. Qed.
Lemma prepare_live sub : forall res c ns,
  NoDup sub -> c_v c = [] -> (forall x r, x ∈ sub -> ns !! x = Some r -> view_of p v val x r) ->
  exists c' ns', prepare_loop n_binds (n_prepare me) (n_commit me) (PrepareArg (v + 1) n) sub res c ns = (Some c', ns') /\
    c_v c' = [] /\ c_accepts c' = c_accepts c ++ up ns sub /\ (forall x, x ∉ sub -> ns' !! x = ns !! x) /\
    forall x r, x ∈ sub -> ns !! x = Some r ->
      exists r', ns' !! x = Some r' /\ voted v val r r' /\ n_h (acc (cfg r')) = n.
Proof.
  induction sub as [|x sub IH]; intros res c ns Hnd Hc Hall; cbn [prepare_loop].
  { exists c, ns. rewrite app_nil_r. split_and!; try done. by intros x r ?%elem_of_nil. }
  apply NoDup_cons in Hnd as [Hx Hnd]. unfold n_binds at 1. rewrite filter_cons.
  destruct (ns !! x) as [r|] eqn:Er.
  - rewrite bool_decide_eq_true_2, decide_True by done. unfold n_prepare at 1. rewrite Er.
    destruct (prepare_live_one x r (PrepareRes false false (Prop_t 0 []) [])) as (a & -> & Hvo & Hh); [by apply Hall; [left|]|].
    destruct (reply_live x (n_a a) c Hc) as (c1 & -> & Hc1 & Ha1).
    destruct (IH (PrepareRes false true (n_a a) []) c1 (<[x := set_acceptor r a]> ns) Hnd Hc1)
      as (c' & ns' & -> & Hc' & Ha' & Hout & Hin).
    { intros y b Hy. rewrite lookup_insert_ne by congruence. apply Hall. by right. }
    exists c', ns'. split_and!; [done|done| | |].
    + rewrite Ha', Ha1, <-app_assoc. cbn [app]. do 2 f_equal. apply filter_local. intros y Hy.
      by rewrite lookup_insert_ne by congruence.
    + intros y [? ?]%not_elem_of_cons. rewrite Hout, lookup_insert_ne by done. done.
    + intros y b [->|Hy]%elem_of_cons Eb.
      * rewrite Er in Eb. injection Eb as <-. rewrite Hout by done. exists (set_acceptor r a).
        by rewrite lookup_insert_eq.
      * apply Hin; [done|]. by rewrite lookup_insert_ne by congruence.
  - rewrite bool_decide_eq_false_2, decide_False by (by intros []).
    destruct (IH res c ns Hnd Hc) as (c' & ns' & -> & Hc' & Ha' & Hout & Hin); [intros y b ?; apply Hall; by right|].
    exists c', ns'. split_and!; [done..| |].
    + intros y [? ?]%not_elem_of_cons. by apply Hout.
    + intros y b [->|Hy]%elem_of_cons Eb; [congruence|by apply Hin].
Qed.
Lemma accept_live q sub : forall acc0 ns,
  my_n q = n -> NoDup sub -> (forall x, x ∈ sub -> exists r, ns !! x = Some r /\ n_h (acc (cfg r)) = n) ->
  exists ns', accept n_binds (n_accept me) junk sub val' acc0 q ns = Ret (acc0 ++ sub, ns') /\
    (forall x, x ∉ sub -> ns' !! x = ns !! x) /\
    forall x r, x ∈ sub -> ns !! x = Some r ->
      exists r', ns' !! x = Some r' /\ voted v val r r' /\ v_a (acc (cfg r')) = val'.
Proof.
  induction sub as [|x sub IH]; intros acc0 ns Hq Hnd Hall; cbn [accept].
  { exists ns. rewrite app_nil_r. split_and!; try done. by intros x r ?%elem_of_nil. }
  apply NoDup_cons in Hnd as [Hx Hnd]. destruct (Hall x) as (r & Er & Hh); [by left|].
  unfold n_binds at 1. rewrite Er, bool_decide_eq_true_2 by done.
  change (VERIFY true) with (Ret tt). rewrite outcome_bind_Ret. unfold n_accept at 1. rewrite Er, Hq.
  unfold acceptreq. cbn [aa_n aa_v]. rewrite prop_ge_gt, Hh, prop_gt_irrefl. cbn [negb].
  set (a := logaccept n val' _). cbn beta iota. change (paxos_protocol.OK =? paxos_protocol.OK) with true. cbn [andb].
  destruct (IH (acc0 ++ [x]) (<[x := set_acceptor r a]> ns)) as (ns' & -> & Hout & Hin); [done|done| |].
  { intros y Hy. rewrite lookup_insert_ne by congruence. apply Hall. by right. }
  exists ns'. rewrite <-app_assoc. split_and!; [done| |].
  - intros y [? ?]%not_elem_of_cons. by rewrite Hout, lookup_insert_ne.
  - intros y b [->|Hy]%elem_of_cons Eb; [|apply Hin; [done|by rewrite lookup_insert_ne by congruence]].
    rewrite Er in Eb. injection Eb as <-. exists (set_acceptor r a). rewrite Hout, lookup_insert_eq by done.
    split_and!; [done| |done]. eexists _, _, _, _. split; [reflexivity|]. intros Hl.
    eapply (log_reads_snoc _ _ _ (Accepted n val')); [exact Hl| |done]. cbn. unfold is_u32. split_and!; [lia..|done|done].
Qed.

(** A node that is told the decision learns the view. *)
Lemma decide_live m sub : forall ns,
  m ∈ members val -> m ∈ members val' -> NoDup sub ->
  (forall x, x ∈ sub -> exists r, ns !! x = Some r /\ view_in false p v val x r /\ v_a (acc (cfg r)) = val') ->
  exists ns', decide_nodes n_binds (n_decide me) (v + 1) sub val' ns = Ret ns' /\
    (forall x, x ∉ sub -> ns' !! x = ns !! x) /\
    forall x r, x ∈ sub -> ns !! x = Some r -> exists r', ns' !! x = Some r' /\ learn (v + 1) val' r = Ret r'.
Proof.
  induction sub as [|x sub IH]; intros ns Hm1 Hm2 Hnd Hall; cbn [decide_nodes].
  { exists ns. split_and!; try done. by intros x r ?%elem_of_nil. }
  apply NoDup_cons in Hnd as [Hx Hnd]. destruct (Hall x) as (r & Er & Hr & Hva); [by left|].
  unfold n_binds at 1. rewrite Er, bool_decide_eq_true_2 by done.
  change (VERIFY true) with (Ret tt). rewrite outcome_bind_Ret.
  destruct (learn_ok false p v val val' x m r Hr) as (r' & El & _); [lia|done..|].
  assert (n_decide me x (DecideArg (v + 1) val') ns = <[x := r']> ns) as ->.
  { unfold n_decide. rewrite Er. unfold decidereq. cbn [da_instance da_v].
    rewrite (vo_instance _ _ _ _ _ _ Hr), u32_id, Z.eqb_refl by (split; lia).
    rewrite bool_decide_eq_true_2 by done. change (VERIFY true) with (Ret tt). rewrite outcome_bind_Ret, Hva.
    unfold learn, commit in El. destruct (commit_wo (v + 1) val' (acc (cfg r))) as [a ups].
    by rewrite outcome_bind_Ret, El. }
  destruct (IH (<[x := r']> ns)) as (ns' & -> & Hout & Hin); [done..| |].
  { intros y Hy. rewrite lookup_insert_ne by congruence. apply Hall. by right. }
  exists ns'. split_and!; [done| |].
  - intros y [? ?]%not_elem_of_cons. by rewrite Hout, lookup_insert_ne.
  - intros y b [->|Hy]%elem_of_cons Eb; [|apply Hin; [done|by rewrite lookup_insert_ne by congruence]].
    rewrite Er in Eb. injection Eb as <-. exists r'. by rewrite Hout, lookup_insert_eq.
Qed.
End paxos.

(** The number the proposer draws. *)
Lemma setn_idle v n h q :
  idle_proposer v n q -> p_n h = 0 -> v < 2 ^ 31 ->
  exists k, setn h (set_stable q false) = Proposer (p_me q) false false false (Prop_t k n) /\ 0 < k <= v + 1.
Proof.
  intros [Hs H1' H2' Hn Hm] Hh Hv. unfold setn, set_stable. cbn [my_n break1 break2 stable p_me p_n p_m].
  rewrite Hh, Hm, H1', H2'. rewrite !u32_id by (split; lia). eexists. split; [reflexivity|].
  destruct (Z.ltb_spec (p_n (my_n q) + 1) (0 + 1)); lia.
Qed.
(** A node that has voted and learns the decision is through with Paxos. *)
Lemma voted_learnt p v val val' m last s x r r2 r3 q :
  view_of p v val x r -> last_myvs r = last -> st_agree (service r) s -> voted v val r r2 ->
  0 <= v < 2 ^ 31 - 1 -> one_line val' -> m ∈ members val -> m ∈ members val' ->
  learn (v + 1) val' r2 = Ret r3 -> idle_proposer (v + 1) x q ->
  learnt (next_primary p (members val) (members val')) (v + 1) val' last s x (set_cfg r3 (set_pro (cfg r3) q)).
Proof.
  intros Hr Hlast Hs V Hv Hline Hm Hm' El Hq.
  destruct (learn_ok false p v val val' x m r2 (voted_view _ _ _ _ _ _ _ V Hr) ltac:(lia) Hline Hm Hm')
    as (r3' & El' & [] & Hi & Hl & Hsv & _ & Hun & Hlog). rewrite El in El'. injection El' as <-.
  destruct (voted_keeps _ _ _ _ V) as (Hl2 & Hs2 & _). rewrite Hl2 in Hl. rewrite Hs2 in Hsv.
  split_and!; [|done|cbn; congruence|cbn; by rewrite Hsv]. constructor; try done.
Qed.
Lemma voted_learn_pro p v val val' m x r r2 r3 :
  view_of p v val x r -> voted v val r r2 -> 0 <= v < 2 ^ 31 - 1 -> one_line val' ->
  m ∈ members val -> m ∈ members val' -> learn (v + 1) val' r2 = Ret r3 ->
  idle_proposer (v + 1) x (pro (cfg r3)).
Proof.
  intros Hr V Hv Hline Hm Hm' El.
  destruct (learn_ok false p v val val' x m r2 (voted_view _ _ _ _ _ _ _ V Hr) ltac:(lia) Hline Hm Hm')
    as (r3' & El' & _ & _ & _ & _ & Hp & _). rewrite El in El'. injection El' as <-.
  destruct (voted_keeps _ _ _ _ V) as (_ & _ & Hp2). rewrite Hp, Hp2.
  destruct (vo_quiet _ _ _ _ _ _ Hr eq_refl) as [_ _ []]. split; try done. lia.
Qed.
Lemma set_pro_id r : set_cfg r (set_pro (cfg r) (pro (cfg r))) = r.
Proof. by destruct r as [[]]. Qed.
(** Node [me] proposes the value [val'], while a majority of the view answers: the
    run succeeds, and the nodes that are up learn the value. *)
Lemma propose_ok me p v val val' m last s ns :
  0 <= v < 2 ^ 31 - 1 -> one_line val' -> Forall word (members val) -> NoDup (members val) ->
  me ∈ members val -> is_Some (ns !! me) -> m ∈ members val -> m ∈ members val' ->
  (forall x r, x ∈ members val -> ns !! x = Some r ->
     view_of p v val x r /\ last_myvs r = last /\ st_agree (service r) s) ->
  majority (members val) (filter (fun x => is_Some (ns !! x)) (members val)) = true ->
  exists ns', propose me (v + 1, members val, val') ns = Ret (true, ns') /\
    (forall x, x ∉ members val -> ns' !! x = ns !! x) /\
    forall x, x ∈ members val -> is_Some (ns !! x) -> exists r, ns' !! x = Some r /\
      learnt (next_primary p (members val) (members val')) (v + 1) val' last s x r.
Proof.
  intros Hv Hline Hw Hnd Hme [rk Ek] Hm Hm' Hall Hmaj. unfold propose. rewrite Ek. cbn [fst snd].
  destruct (Hall me rk Hme Ek) as (Hrk & _). destruct (vo_quiet _ _ _ _ _ _ Hrk eq_refl) as [(Hh & _) _ Hpro].
  destruct (setn_idle v me (n_n_h me ns) (pro (cfg rk))) as (k & Hq & Hk); [done|unfold n_n_h; by rewrite Ek|lia|].
  unfold run. rewrite (ip_stable _ _ _ Hpro). cbn [negb]. rewrite Hq. set (q := Proposer _ _ _ _ _).
  unfold prepare. change (my_n q) with (Prop_t k me).
  assert (word me) as Hwme by by eapply Forall_forall in Hw.
  destruct (prepare_live me p v val (Prop_t k me) ltac:(cbn; lia) Hwme (members val)
    (PrepareRes false false (Prop_t 0 []) []) (collect0 []) ns Hnd eq_refl) as (c & ns1 & -> & Hc & Hacc & Hout1 & Hin1).
  { intros x r Hx Hr. by apply Hall. }
  cbn [app c_accepts collect0] in Hacc. rewrite Hacc, Hmaj, Hc, decide_True by done.
  change (break1 q) with false. change (break2 q) with false. change (VERIFY (negb false)) with (Ret tt).
  rewrite outcome_bind_Ret. set (A := filter _ _) in *.
  assert (forall x, x ∈ A <-> x ∈ members val /\ is_Some (ns !! x)) as HA.
  { intros x. unfold A. rewrite list_elem_of_filter. tauto. }
  assert (NoDup A) as HndA by by apply NoDup_filter.
  destruct (accept_live me v val val' (Prop_t k me) ltac:(cbn; lia) Hwme Hline q A [] ns1 eq_refl HndA)
    as (ns2 & -> & Hout2 & Hin2).
  { intros x [Hx [r Er]]%HA. destruct (Hin1 x r Hx Er) as (r1 & ? & _ & ?). by exists r1. }
  rewrite outcome_bind_Ret. cbn [app]. rewrite Hmaj, outcome_bind_Ret.
  assert (forall x r, x ∈ A -> ns !! x = Some r -> exists r2, ns2 !! x = Some r2 /\ voted v val r r2 /\
    v_a (acc (cfg r2)) = val') as Hvoted.
  { intros x r Hx Er. destruct (Hin1 x r (proj1 (proj1 (HA x) Hx)) Er) as (r1 & E1 & V1 & _).
    destruct (Hin2 x r1 Hx E1) as (r2 & E2 & V2 & Hva). exists r2. split_and!; [done| |done]. by eapply voted_trans. }
  destruct (decide_live me p v val val' Hv Hline m A ns2 Hm Hm' HndA) as (ns3 & -> & Hout3 & Hin3).
  { intros x Hx. destruct (proj1 (HA x) Hx) as [Hxm [r Er]]. destruct (Hvoted x r Hx Er) as (r2 & E2 & V & Hva).
    exists r2. split_and!; [done| |done]. eapply voted_view; [exact V|]. by apply Hall. }
  rewrite outcome_bind_Ret, outcome_bind_Ret. eexists. split; [reflexivity|]. split.
  - intros x Hx. rewrite lookup_alter_ne by (by intros <-).
    assert (x ∉ A) as HxA by (intros [? _]%HA; done). by rewrite Hout3, Hout2, Hout1.
  - intros x Hx [r Er]. assert (x ∈ A) as HxA by (apply HA; by rewrite Er).
    destruct (Hvoted x r HxA Er) as (r2 & E2 & V & _). destruct (Hin3 x r2 HxA E2) as (r3 & E3 & El).
    destruct (Hall x r Hx Er) as (Hr & Hlast & Hs).
    pose proof (voted_learn_pro p v val val' m x r r2 r3 Hr V Hv Hline Hm Hm' El) as Hq3.
    destruct (decide (me = x)) as [<-|Hne].
    + eexists. rewrite lookup_alter_eq, E3. split; [reflexivity|].
      apply (voted_learnt p v val val' m last s me r r2); try done. destruct Hpro. by split; cbn; try lia.
    + exists r3. rewrite lookup_alter_ne by done. split; [done|]. rewrite <-(set_pro_id r3).
      by apply (voted_learnt p v val val' m last s x r r2).
Qed.

(** ** The crash of a member *)

Lemma span_Forall (f : ascii -> bool) t : Forall (fun c => f c = true) (span f t).1.
Proof.
  induction t as [|c t IH]; cbn; [by constructor|]. destruct (f c) eqn:E; [|by constructor].
  destruct (span f t). by constructor.
Qed.
Lemma members_words val : Forall word (members val).
Proof.
  unfold members. generalize (Istream val true). induction (Datatypes.S (length val)) as [|fuel IH]; intros f; cbn; [by constructor|].
  unfold read_token. destruct (s_good f) eqn:Eg; cbn; [|by rewrite Eg].
  destruct (span _ _) as [[|c tok] rest] eqn:Es; cbn; [by constructor|]. constructor; [|apply IH].
  split; [done|]. pose proof (span_Forall (fun c => negb (is_space c)) (skip_space (s_rest f))) as Hf. rewrite Es in Hf.
  eapply Forall_impl; [exact Hf|]. intros x Hx. by apply negb_true_iff.
Qed.
Lemma first_failing_only (f : str -> heartbeat_t) me m l :
  m ∈ l -> m <> me -> f m <> HB_OK -> (forall x, x ∈ l -> x <> me -> x <> m -> f x = HB_OK) ->
  first_failing f me l = Some m.
Proof.
  intros Hin Hne Hm Hok. induction l as [|x l IH]; [by apply elem_of_nil in Hin|]. cbn.
  assert (m <> x -> first_failing f me l = Some m) as Hrest.
  { intros ?. apply IH; [by apply elem_of_cons in Hin as [?|?]|]. intros y ?. apply Hok. by right. }
  destruct (decide (x = me)) as [->|Hxm]; [by apply Hrest|].
  destruct (decide (x = m)) as [->|Hxm']; [by rewrite decide_False|].
  rewrite decide_True by (by apply Hok; [left|..]). by apply Hrest.
Qed.

Section crash.
Variables (p : str) (v : Z) (val : str) (last : viewstamp) (s : S) (m k : str) (ns : gmap str (rsm S)).
Hypotheses (Hv : 0 <= v < 2 ^ 31 - 1) (Hlen : 2 < Z.of_nat (length (members val)) < 2 ^ 32).
Hypotheses (Hm : m ∈ members val) (Hk : k ∈ members val) (Hkm : k <> m).
(** [k] is the node that pings all others, or [m] the one that all others ping. *)
Hypothesis Hping : smallest k (members val) = k \/ smallest k (members val) = m.
Hypothesis Hnd : NoDup (members val).
Hypothesis Hup : forall x, x ∈ members val -> x <> m -> exists r, ns !! x = Some r /\ view_of p v val x r /\
  last_myvs r = last /\ st_agree (service r) s.
Hypothesis Hdown : ns !! m = None.
Definition rest : list str := filter (fun n => n <> m) (members val).

Lemma members_rest : members (value rest) = rest.
Proof.
  apply members_value, Forall_forall. intros x [_ Hx]%list_elem_of_filter.
  by apply (proj1 (Forall_forall _ _) (members_words val)).
Qed.
Lemma elem_rest x : x ∈ rest <-> x ∈ members val /\ x <> m.
Proof. unfold rest. rewrite list_elem_of_filter. tauto. Qed.
Lemma value_one_line ms : Forall word ms -> one_line (value ms).
Proof.
  induction 1 as [|x ms Hx _ IH]; [by constructor|]. cbn [value flat_map]. fold (value ms).
  apply Forall_app. split; [|done]. apply Forall_app. split; [|by constructor].
  by apply word_one_line.
Qed.

Lemma detect_ok :
  exists rk rk', ns !! k = Some rk /\ touched rk rk' /\
    detect k ns = Ret (Some (v + 1, members val, value rest), <[k := rk']> ns).
Proof.
  destruct (Hup k Hk Hkm) as (rk & Ek & [] & _). unfold detect. rewrite Ek. unfold heartbeater_round, get_view_wo.
  rewrite vo_myvid0, vo_value0. cbn [cfg_me set_acc].
  assert (cfg_me (cfg rk) = k) as -> by exact vo_addr0. rewrite (proj2 (isamember_elem _ _) Hk). cbn [negb].
  assert (ping k v ns m = HB_FAILURE) as Hpm by (unfold ping; by rewrite Hdown).
  assert (forall x, x ∈ members val -> x <> k -> x <> m -> ping k v ns x = HB_OK) as Hpx.
  { intros x Hx _ Hxm. unfold ping. destruct (Hup x Hx Hxm) as (r & -> & [] & _). unfold heartbeat.
    by rewrite vo_myvid1, Z.eqb_refl. }
  set (c := set_acc (cfg rk) _). exists rk, (set_cfg rk c). split; [done|]. split.
  { eexists. split; [reflexivity|]. intros j. apply std_ref_touch. }
  assert ((if decide (smallest k (members val) = k) then (v, first_failing (ping k v ns) k (members val), c)
    else (v, if decide (ping k v ns (smallest k (members val)) = HB_OK) then None
             else Some (smallest k (members val)), c)) = (v, Some m, c)) as ->.
  { destruct (decide (smallest k (members val) = k)) as [_|Hne].
    - rewrite (first_failing_only _ k m); [done|done|done|by rewrite Hpm|done].
    - destruct Hping as [?|Hs]; [done|]. by rewrite Hs, Hpm. }
  unfold heartbeater_end, remove_wo. cbn [myvid mems c set_acc].
  rewrite vo_myvid0, Z.eqb_refl, vo_mems0, u32_id, i32_id by (split; lia). done.
Qed.
Lemma rest_majority ns' : (forall x, x ∈ members val -> x <> m -> is_Some (ns' !! x)) ->
  majority (members val) (filter (fun x => is_Some (ns' !! x)) (members val)) = true.
Proof.
  intros Hin. rewrite majority_eq by lia. apply bool_decide_eq_true. unfold members_in.
  assert (length (members val) <= Datatypes.S (length (filter (fun x => x ∈ filter (fun x => is_Some (ns' !! x)) (members val)) (members val))))%nat; [|lia].
  assert (members val ⊆ m :: filter (fun x => x ∈ filter (fun x => is_Some (ns' !! x)) (members val)) (members val)) as Hsub.
  { intros x Hx. rewrite elem_of_cons, !list_elem_of_filter. destruct (decide (x = m)); [by left|right]. auto. }
  exact (submseteq_length _ _ (NoDup_submseteq _ _ Hnd Hsub)).
Qed.
(** The other members change to the view without the one that crashed. *)
Lemma change_view_replicas :
  exists ns2, change_view k ns = Ret ns2 /\
    replicas (next_primary p (members val) rest) (v + 1) (value rest) (Viewstamp (v + 1) 1) last s ns2.
Proof.
  unfold change_view. destruct detect_ok as (rk & rk' & Ek & T & ->). rewrite outcome_bind_Ret. cbn [snd].
  destruct (propose_ok k p v val (value rest) k last s (<[k := rk']> ns)) as (ns' & -> & _ & Hin); try done.
  { apply value_one_line. rewrite <-members_rest. apply members_words. }
  { apply members_words. }
  { by rewrite lookup_insert_eq. }
  { rewrite members_rest. by apply elem_rest. }
  { intros x r Hx Er. destruct (decide (x = m)) as [->|Hxm].
    { rewrite lookup_insert_ne, Hdown in Er by done. done. }
    destruct (Hup x Hx Hxm) as (r0 & E0 & Hr0 & ? & ?). apply lookup_insert_Some in Er as [[<- <-]|[_ Er]]; [|by simplify_eq].
    rewrite Ek in E0. injection E0 as <-. pose proof (touched_view _ _ _ _ _ _ _ T Hr0). by destruct T as (? & -> & _). }
  { apply rest_majority. intros x Hx Hxm. destruct (decide (k = x)) as [<-|]; [by rewrite lookup_insert_eq|].
    rewrite lookup_insert_ne by done. destruct (Hup x Hx Hxm) as (r & -> & _). done. }
  rewrite outcome_bind_Ret. rewrite members_rest in Hin |- *. set (q := next_primary _ _ _) in *.
  assert (forall x, x ∈ rest -> exists r, ns' !! x = Some r /\ learnt q (v + 1) (value rest) last s x r) as Hrest.
  { intros x [Hx Hxm]%elem_rest. apply Hin; [done|]. destruct (decide (k = x)) as [<-|]; [by rewrite lookup_insert_eq|].
    rewrite lookup_insert_ne by done. destruct (Hup x Hx Hxm) as (r & -> & _). done. }
  assert (q ∈ rest) as Hq by (apply (next_primary_in p (members val) rest k); [done|by apply elem_rest]).
  destruct (Hrest q Hq) as (rq & Eq & Hrq).
  assert (NoDup rest) as Hndr by by apply NoDup_filter.
  pose proof members_rest as Hmr. unfold recover.
  assert (syncing q (v + 1) (value rest) last (service rq) (members (value rest)) (wake <$> ns')) as Hsw.
  { apply syncing_wake; rewrite Hmr; [done|]. intros x Hx. destruct (Hrest x Hx) as (r & Er & Hr).
    exists r. split; [by rewrite lookup_fmap, Er|].
    apply (learnt_changing q (v + 1) (value rest) last s x r rq Hr Hrq). intros ->. rewrite Eq in Er. by injection Er. }
  rewrite Hmr in Hsw.
  destruct (sync_nodes_ok q (v + 1) (value rest) last (service rq) rest (wake <$> ns') Hndr Hsw) as (xs & -> & Hxs).
  rewrite outcome_bind_Ret. eexists. split; [reflexivity|].
  eapply replicas_agree; [by destruct Hrq as (_ & _ & _ & ?)|]. apply syncing_replicas; by rewrite ?Hmr.
Qed.
End crash.
End failover.

(** ** Three nodes *)

Section three_nodes.
Context {S : Type} `{StateTransferOk S}.
Definition pbc (s : S) : gmap str (rsm S) :=
  <[lit "p" := node_with s (lit "p")]> (nodes (three_with s [])).
Lemma pbc_members : members (lit "p b c ") = [lit "p"; lit "b"; lit "c"].
Proof. reflexivity. Qed.
Lemma pbc_log : log_reads (fun a => at_view 1 (lit "p b c ") a /\ unheard a) (print_rec (Done 1 (lit "p b c "))).
Proof.
  exists [Done 1 (lit "p b c ")]. split_and!; [reflexivity| |].
  - constructor; [|done]. split; [done|]. by apply (bool_decide_unpack _); vm_compute.
  - intros a. split; [|done]. split; [done|apply std_ref_insert_eq].
Qed.
Lemma pbc_replicas s :
  replicas (lit "p") 1 (lit "p b c ") (Viewstamp 1 1) (Viewstamp 0 0) s (pbc s).
Proof.
  unfold replicas. rewrite pbc_members. split_and!.
  - by apply (bool_decide_unpack _); vm_compute.
  - by left.
  - intros n Hn. exists (node_with s n).
    rewrite !elem_of_cons in Hn. destruct Hn as [->|[->|[->|[]%not_elem_of_nil]]];
      (split; [vm_compute; reflexivity|]); (split; [|by repeat split]); (constructor; try done);
      first [eapply log_reads_mono; [|exact pbc_log]; by intros ? [? _]
            |intros _; split; [done|exact pbc_log|by split]].
Qed.
End three_nodes.
