(* ===== verification/Join.v ===== *)
(** * A node joins, and a history of views

    A node that is not a member of the view asks the primary to be let in: the
    primary's proposer runs Paxos among the members for the view with the node
    added, the primary answers with its Paxos log, the node restores the log, and
    the recovery threads synchronise, which transfers the primary's state to the
    new member.  With the crashes of [Failover] this gives histories: requests,
    crashes and joins in any order. *)
From S2P Require Import Prelude Marshall Protocols RpcStub Log Paxos Config Rsm RsmNode Failover.
Import rsm_protocol.

Section join.
Context `{FreshMem} {S : Type} `{StateTransferOk S}.
Context (procs : gmap Z (handler S)) (stf : bool) (junk : Z).
Implicit Types (r : rsm S) (ns : gmap str (rsm S)).

(** ** The steps *)

(** The recovery thread of node [n] calls the primary [p], which runs Paxos with
    the value of [config::add]. *)
Definition join_view (n p : str) ns : outcome (gmap str (rsm S)) :=
  match ns !! n, ns !! p with
  | Some rn, Some rp =>
      match joinreq_begin n (last_myvs rn) (JoinRes []) rp with
      | (None, Some x, rp) =>
          '(_, ns) ← propose junk p x (<[p := rp]> ns);
          match (ns : gmap str (rsm S)) !! p with
          | Some rp =>
              let '(ret, res, rp) := joinreq_end n (JoinRes []) rp in
              y ← join_resume true ret res rn;
              recover stf (members x.2) (<[n := y]> (wake <$> (<[p := rp]> ns)))
          | None => Hang
          end
      | _ => Hang
      end
  | _, _ => Hang
  end.

(** ** Joining *)

Local Abbreviation view_of := (view_in true).
(** A node that has [p] for the primary, knows no view after [v] and is not
    proposing. *)
Record newcomer (p : str) (v : Z) (n : str) r : Prop := {
  nc_primary : primary r = p;
  nc_addr : myaddr r = n;
  nc_vid : vid_commit r <= v;
  nc_break1 : rsm_break1 r = false;
  nc_break2 : rsm_break2 r = false;
  nc_whole : dopartition r = false;
  nc_pro : idle_proposer v n (pro (cfg r));
}.
(** Its state can be replaced, unless its viewstamp says that it has the state. *)
Definition admissible (last : viewstamp) (s : S) r : Prop :=
  if decide (last_myvs r = last) then st_agree (service r) s
  else stf = true /\ forall a, st_agree a s -> st_ready a (service r).

Lemma foldl_apply_log recs : forall a, logfile (foldl apply_rec a recs) = logfile a.
Proof. induction recs as [|x recs IH]; intros a; [done|]. cbn [foldl]. rewrite IH. by destruct x. Qed.

(** A primary that stays a member stays the primary. *)
Lemma set_primary_stays r v val :
  std_ref [] (values (acc (cfg r))) v = val -> primary r ∈ members val ->
  exists r', set_primary v r = Ret (primary r, r') /\ touched r r'.
Proof.
  intros Hval Hp. unfold set_primary. pose proof (touched_get_view v r) as T1.
  assert ((get_view v r).1 = members val) as G1 by (unfold get_view, get_view_wo; cbn; by rewrite Hval).
  destruct (get_view v r) as [c r1]. cbn [fst Datatypes.snd] in *. subst c.
  pose proof (touched_get_view (u32 (v - 1)) r1) as T2.
  destruct (get_view (u32 (v - 1)) r1) as [c r2]. cbn [Datatypes.snd] in *.
  pose proof (touched_trans _ _ _ T1 T2) as T. exists r2.
  rewrite (bool_decide_eq_true_2 (members val <> [])) by (by eapply elem_of_not_nil).
  change (VERIFY true) with (Ret tt). rewrite outcome_bind_Ret.
  assert (primary r2 = primary r) as -> by (destruct T as (? & -> & _); done).
  apply isamember_elem in Hp. by rewrite Hp.
Qed.

(** The new member restores the log of view [v] and commits to the view. *)
Lemma join_resume_ok p v val log n r :
  newcomer p (v - 1) n r -> 0 < v -> log_reads (fun a => at_view v val a /\ unheard a) log -> p ∈ members val ->
  exists r', join_resume true OK (JoinRes log) r = Ret (recovery_top r') /\ view_of p v val n r' /\
    inviewchange r' = true /\ last_myvs r' = last_myvs r /\ service r' = service r.
Proof.
  intros [] Hv (recs & Hlog & Hwf & Hat) Hp. unfold join_resume, join_end.
  change (OK =? OK) with true. cbn [negb orb jr_log]. unfold config_restore, acceptor_restore.
  rewrite (logread_recs (restore log (acc (cfg r))) recs Hlog Hwf), !outcome_bind_Ret.
  set (a := foldl apply_rec _ recs). destruct (Hat (restore log (acc (cfg r)))) as [[Hi Hval] Hun]. fold a in Hi, Hval, Hun.
  assert (logfile a = log) as Hl by apply foldl_apply_log. clearbody a.
  assert (reconstruct (set_acc (cfg r) a) = set_view (get_view_wo v (set_acc (cfg r) a)).2 v (members val)) as ->.
  { unfold reconstruct. change (acc (set_acc (cfg r) a)) with a. rewrite Hi.
    destruct (Z.ltb_spec 0 v); [|lia]. unfold get_view_wo.
    change (acc (set_acc (cfg r) a)) with a. by rewrite Hval. }
  set (c := set_view _ v _). unfold commit_change_wo. change (myvid (cfg (set_cfg r c))) with v.
  change (vid_commit (set_cfg r c)) with (vid_commit r).
  destruct (Z.leb_spec v (vid_commit r)); [lia|].
  set (r1 := set_view_state (set_cfg r c) (primary (set_cfg r c)) true v).
  destruct (set_primary_stays r1 v val) as (r2 & E & T).
  { change (std_ref [] (std_touch [] (values a) v) v = val). by rewrite std_ref_touch. }
  { change (primary r1) with (primary r). by rewrite nc_primary0. }
  rewrite E, outcome_bind_Ret. change (primary r1) with (primary r). rewrite nc_primary0.
  set (r3 := set_view_state r2 p true v).
  assert (view_of p v val n r3) as Hr3.
  { destruct T as (m2 & -> & Hvs). constructor; try done.
    - change (std_ref [] m2 v = val). rewrite Hvs.
      change (std_ref [] (std_touch [] (values a) v) v = val). by rewrite std_ref_touch.
    - change (log_at v val (logfile a)). rewrite Hl. exists recs. split_and!; [done..|]. intros b. by destruct (Hat b).
    - intros _. split; [done|change (log_reads (fun a => at_view v val a /\ unheard a) (logfile a)); rewrite Hl; by exists recs|].
      destruct nc_pro0. split; try done. cbn in *. lia. }
  pose proof (touched_ismember (myaddr r3) v r3) as T3.
  destruct (rsm_ismember (myaddr r3) v r3) as [b r4]. cbn [Datatypes.snd] in T3.
  pose proof (touched_view _ _ _ _ _ _ _ T3 Hr3) as Hr4.
  assert (breakpoint2 r4 = Ret tt) as Hbr by (unfold breakpoint2; by rewrite (vo_break2 _ _ _ _ _ _ Hr4)).
  assert ((if b then breakpoint2 r4 else Ret tt) = Ret tt) as Hif by (by destruct b).
  exists r4. rewrite Hif, !outcome_bind_Ret. destruct T3 as (? & -> & _), T as (? & -> & _). by split_and!.
Qed.

(** The primary's part: what it proposes, and that it answers with its log once
    it has learnt the view. *)
Lemma joinreq_begin_ok n p v val last res r :
  view_of p v val p r -> 0 <= v < 2 ^ 31 - 1 -> n ∉ members val ->
  exists r', joinreq_begin n last res r =
      (None, Some (v + 1, members val, value (members val ++ [n])), r') /\ touched r r'.
Proof.
  intros [] Hv Hn. unfold joinreq_begin. pose proof (touched_ismember n (vid_commit r) r) as T.
  assert ((rsm_ismember n (vid_commit r) r).1 = false) as Hm.
  { apply not_true_iff_false. rewrite ismember_view. unfold view_at. by rewrite vo_vid, vo_value. }
  destruct (rsm_ismember n (vid_commit r) r) as [b r1]. cbn [fst Datatypes.snd] in *. subst b.
  exists r1. split; [|done]. destruct T as (c & -> & _).
  rewrite bool_decide_eq_true_2; [|change (myaddr r = primary r); congruence]. cbn [negb].
  unfold add. cbn [cfg set_acceptor set_cfg set_acc vid_commit myvid mems].
  rewrite vo_vid, vo_myvid, vo_mems, Z.eqb_refl. cbn [negb].
  by rewrite u32_id, i32_id by (split; lia).
Qed.
Lemma joinreq_end_ok n p v val res r :
  view_of p v val p r -> n ∈ members val ->
  exists log r', joinreq_end n res r = (OK, JoinRes log, r') /\ touched r r' /\
    log_reads (fun a => at_view v val a /\ unheard a) log.
Proof.
  intros [] Hn. unfold joinreq_end. pose proof (touched_ismember n (myvid (cfg r)) r) as T.
  assert ((rsm_ismember n (myvid (cfg r)) r).1 = true) as Hm.
  { apply ismember_view. unfold view_at. by rewrite vo_myvid, vo_value. }
  destruct (rsm_ismember n (myvid (cfg r)) r) as [b r1]. cbn [fst Datatypes.snd] in *. subst b.
  eexists _, r1. split; [reflexivity|]. split; [done|].
  destruct T as (c & -> & _). destruct (qu_log _ _ _ _ (vo_quiet eq_refl)) as (recs & Hlog & Hwf & Hat).
  rewrite (dump_recs _ recs); [|done|done]. by exists recs.
Qed.

(** What is known of the nodes once the members have learnt the view and the new
    member has restored the log. *)
Lemma joined_changing n p v val last s rn rn' ns rp :
  view_of p v val n rn' -> inviewchange rn' = true ->
  last_myvs rn' = last_myvs rn -> service rn' = service rn -> admissible last s rn -> n <> p ->
  ns !! p = Some rp -> learnt p v val last s p rp ->
  (forall m, m ∈ members val -> m <> n -> exists r, ns !! m = Some r /\ learnt p v val last s m r) ->
  forall m, m ∈ members val ->
    exists r, (<[n := wake rn']> (wake <$> ns)) !! m = Some (wake r) /\
      changing stf p v val last (service rp) m r.
Proof.
  intros Hv Hi Hl Hs Had Hne Ep Hp Hall m Hm. destruct (decide (n = m)) as [<-|Hnm].
  - exists rn'. rewrite lookup_insert_eq. split; [done|]. split_and!; [done|done|].
    destruct Hp as (_ & _ & _ & Hp). unfold admissible in Had. rewrite <-Hl, <-Hs in Had. case_decide as Hlast.
    + left. split_and!; [done|by rewrite Had, Hp|done].
    + right. destruct Had as [? Hr]. split_and!; try done. by apply Hr.
  - destruct (Hall m Hm) as (r & Er & Hr); [done|]. exists r.
    rewrite lookup_insert_ne, lookup_fmap, Er by done. split; [done|].
    apply (learnt_changing stf p v val last s m r rp Hr Hp). intros ->. congruence.
Qed.

Lemma wake_backup_top r : primary r <> myaddr r -> wake r = recovery_top r.
Proof.
  intros Hne. unfold wake, recovery_top. destruct (rsm_ismember _ _ r) as [b r'] eqn:E.
  pose proof (touched_ismember (myaddr r) (vid_commit r) r) as T. rewrite E in T. cbn [Datatypes.snd] in T.
  destruct b; [|done]. cbn [negb]. rewrite bool_decide_eq_false_2; [done|].
  by destruct T as (c & -> & _).
Qed.

(** All members are up. *)
Lemma up_majority ns l :
  l <> [] -> Z.of_nat (length l) < 2 ^ 32 -> (forall m, m ∈ l -> is_Some (ns !! m)) ->
  majority l (filter (fun x => is_Some (ns !! x)) l) = true.
Proof.
  intros Hne Hl Hall. rewrite majority_eq by done. apply bool_decide_eq_true. unfold members_in.
  assert (Forall (fun m => m ∈ filter (fun x => is_Some (ns !! x)) l) l) as HF.
  { apply Forall_forall. intros m Hm. apply list_elem_of_filter. auto. }
  revert HF. generalize (filter (fun x => is_Some (ns !! x)) l). intros up HF.
  assert (filter (fun m => m ∈ up) l = l) as ->; [|destruct l; [done|cbn [length]; lia]].
  clear -HF. induction HF as [|x l Hx _ IH]; [done|]. rewrite filter_cons_True by done. by rewrite IH.
Qed.

Section members.
Variables (n p : str) (v : Z) (val : str) (vs last : viewstamp) (s : S).
Hypothesis (Hv : 0 <= v < 2 ^ 31 - 1) (Hw : Forall word (members val ++ [n])) (Hn : n ∉ members val)
  (Hlen : Z.of_nat (length (members val)) < 2 ^ 32).
Local Abbreviation val' := (value (members val ++ [n])).

Lemma next_members m : m ∈ members val' <-> m ∈ members val \/ m = n.
Proof. by rewrite members_value, elem_of_app, list_elem_of_singleton. Qed.
Lemma next_NoDup : NoDup (members val) -> NoDup (members val').
Proof.
  intros Hnd. rewrite members_value by done. apply NoDup_app. split_and!; [done| |by apply NoDup_singleton].
  by intros m Hm ->%list_elem_of_singleton.
Qed.

(** The primary proposes the view, and the members learn it. *)
Lemma join_learnt ns ns1 (rn rp : rsm S) :
  replicas p v val vs last s ns -> (forall m, m ∈ members val -> ns1 !! m = ns !! m) -> ns !! p = Some rp ->
  exists rp1 ns2, joinreq_begin n (last_myvs rn) (JoinRes []) rp = (None, Some (v + 1, members val, val'), rp1) /\
    propose junk p (v + 1, members val, val') (<[p := rp1]> ns1) = Ret (true, ns2) /\
    forall m, m ∈ members val -> exists r, ns2 !! m = Some r /\ learnt p (v + 1) val' last s m r.
Proof.
  intros (Hnd & Hp & Hall) Hsame Ep. destruct (Hall p Hp) as (r & Er & Hrp & _). rewrite Ep in Er. injection Er as <-.
  destruct (joinreq_begin_ok n p v val (last_myvs rn) (JoinRes []) rp Hrp Hv Hn) as (rp1 & -> & T1).
  assert (p ∈ members val') as Hp' by (apply next_members; by left).
  assert (next_primary p (members val) (members val') = p) as Hnp.
  { unfold next_primary. by rewrite (proj2 (isamember_elem _ _) Hp'). }
  assert (forall m, m ∈ members val -> exists r, <[p := rp1]> ns1 !! m = Some r /\
    view_of p v val m r /\ last_myvs r = last /\ st_agree (service r) s) as Hall1.
  { intros m Hm. destruct (Hall m Hm) as (r & Er & Hr & _ & _ & Hl & Hs).
    destruct (decide (p = m)) as [<-|Hpm]; [|exists r; by rewrite lookup_insert_ne, Hsame].
    exists rp1. rewrite lookup_insert_eq. rewrite Ep in Er. injection Er as ->.
    split_and!; [done|by eapply touched_view| |]; by destruct T1 as (? & -> & _). }
  destruct (propose_ok junk p p v val val' p last s (<[p := rp1]> ns1)) as (ns2 & E & _ & Hin);
    [lia|by apply value_one_line|apply members_words|done|done|by rewrite lookup_insert_eq|done|done| | |].
  - intros m r Hm Er. destruct (Hall1 m Hm) as (r' & Er' & ?). rewrite Er in Er'. by injection Er' as <-.
  - apply up_majority; [by eapply elem_of_not_nil|done|]. intros m Hm. by destruct (Hall1 m Hm) as (? & -> & _).
  - rewrite Hnp in Hin. exists rp1, ns2. split_and!; [done|done|]. intros m Hm. apply Hin; [done|].
    destruct (Hall1 m Hm) as (? & -> & _). done.
Qed.

(** The members and the newcomer are the replicas of the next view. *)
Lemma join_view_replicas ns ns1 (rn : rsm S) :
  replicas p v val vs last s ns -> (forall m, m ∈ members val -> ns1 !! m = ns !! m) ->
  ns1 !! n = Some rn -> newcomer p v n rn -> admissible last s rn ->
  exists ns2, join_view n p ns1 = Ret ns2 /\ replicas p (v + 1) val' (Viewstamp (v + 1) 1) last s ns2.
Proof.
  intros Hg Hsame En Hnc Had. pose proof Hg as (Hnd & Hp & Hall). destruct (Hall p Hp) as (rp & Ep & _).
  assert (p ∈ members val') as Hp' by (apply next_members; by left).
  assert (n <> p) as Hne by by intros ->.
  unfold join_view. rewrite En, (Hsame p Hp), Ep.
  destruct (join_learnt ns ns1 rn rp Hg Hsame Ep) as (rp1 & ns2 & -> & -> & Hin).
  rewrite outcome_bind_Ret. destruct (Hin p Hp) as (rp2 & -> & Hrp2).
  destruct (joinreq_end_ok n p (v + 1) val' (JoinRes []) rp2) as (log & rp3 & -> & T3 & Hlog);
    [apply Hrp2|apply next_members; by right|].
  assert (learnt p (v + 1) val' last s p rp3) as Hrp3.
  { destruct Hrp2 as (Hv2 & ? & ? & ?). pose proof (touched_view _ _ _ _ _ _ _ T3 Hv2). by destruct T3 as (? & -> & _). }
  destruct (join_resume_ok p (v + 1) val' log n rn) as (rn' & -> & Hvn & Hin' & Hln & Hsn);
    [by replace (v + 1 - 1) with v by lia|lia|done|done|].
  rewrite outcome_bind_Ret, <-wake_backup_top by (destruct Hvn; congruence). unfold recover. cbn [Datatypes.snd].
  destruct (sync_nodes_ok stf p (v + 1) val' last (service rp3) (members val')
    (<[n := wake rn']> (wake <$> (<[p := rp3]> ns2))) (next_NoDup Hnd)) as (xs & -> & Hxs).
  { apply syncing_wake; [done|]. apply (joined_changing n p (v + 1) val' last s rn rn'); try done;
      [by rewrite lookup_insert_eq|].
    intros m [Hm| ->]%next_members Hmn; [|done].
    destruct (decide (p = m)) as [<-|Hpm]; [exists rp3; by rewrite lookup_insert_eq|].
    destruct (Hin m Hm) as (r & ? & ?). exists r. by rewrite lookup_insert_ne. }
  rewrite outcome_bind_Ret. eexists. split; [reflexivity|].
  eapply replicas_agree; [|apply (syncing_replicas stf); [by apply next_NoDup|done|exact Hxs]].
  by destruct Hrp3 as (_ & _ & _ & ?).
Qed.
End members.

(** ** Histories *)

(** Clients send requests at the primary; a node crashes, which the heartbeats of
    another find out; a node starts and joins. *)
Inductive event :=
  | EServe (reqs : list (Z * str))
  | ECrash (m k : str)
  | EJoin (n : str) (rn : rsm S).
(** The nodes that are up, and the view they are in. *)
Record cluster := Cluster {
  cl_primary : str;
  cl_vid : Z;
  cl_value : str;
  cl_nodes : gmap str (rsm S);
}.
Definition without (m val : str) : list str := filter (fun n => n <> m) (members val).
Fixpoint history (evs : list event) (c : cluster) : outcome (list str * cluster) :=
  match evs with
  | [] => Ret ([], c)
  | EServe reqs :: evs =>
      '(reps, ns) ← serve procs (cl_primary c) reqs (cl_nodes c);
      '(reps', c) ← history evs (Cluster (cl_primary c) (cl_vid c) (cl_value c) ns);
      Ret (reps ++ reps', c)
  | ECrash m k :: evs =>
      ns ← change_view stf junk k (delete m (cl_nodes c));
      history evs (Cluster (next_primary (cl_primary c) (members (cl_value c)) (without m (cl_value c)))
                     (cl_vid c + 1) (value (without m (cl_value c))) ns)
  | EJoin n rn :: evs =>
      ns ← join_view n (cl_primary c) (<[n := rn]> (cl_nodes c));
      history evs (Cluster (cl_primary c) (cl_vid c + 1) (value (members (cl_value c) ++ [n])) ns)
  end.

(** The requests of a history, and what is assumed of its events: the machine
    executes the requests; a member that crashes leaves at least two others, which
    are a majority then, and the node that finds it out is the member with the
    smallest name, or the one that crashed is; a node that joins is new, has a
    name without spaces and the primary's address, and its state can be
    replaced. *)
Fixpoint requests_of (evs : list event) : list (Z * str) :=
  match evs with
  | [] => []
  | EServe reqs :: evs => reqs ++ requests_of evs
  | _ :: evs => requests_of evs
  end.
Fixpoint allowed (evs : list event) (p : str) (v : Z) (val : str) (vs : viewstamp * viewstamp) (s : S) : Prop :=
  match evs with
  | [] => True
  | EServe reqs :: evs =>
      match execute_all procs reqs s with
      | Ret (_, s) => allowed evs p v val (stamps reqs vs) s
      | _ => False
      end
  | ECrash m k :: evs =>
      v < 2 ^ 31 - 1 /\ 2 < Z.of_nat (length (members val)) < 2 ^ 32 /\
      m ∈ members val /\ k ∈ members val /\ k <> m /\
      (smallest k (members val) = k \/ smallest k (members val) = m) /\
      allowed evs (next_primary p (members val) (without m val)) (v + 1) (value (without m val))
        (Viewstamp (v + 1) 1, vs.2) s
  | EJoin n rn :: evs =>
      v < 2 ^ 31 - 1 /\ Z.of_nat (length (members val)) < 2 ^ 32 /\
      Forall word (members val ++ [n]) /\ n ∉ members val /\
      newcomer p v n rn /\ admissible vs.2 s rn /\
      allowed evs p (v + 1) (value (members val ++ [n])) (Viewstamp (v + 1) 1, vs.2) s
  end.

Lemma execute_all_app reqs1 reqs2 : forall s reps s2,
  execute_all procs (reqs1 ++ reqs2) s = Ret (reps, s2) ->
  exists reps1 reps2 s1, execute_all procs reqs1 s = Ret (reps1, s1) /\
    execute_all procs reqs2 s1 = Ret (reps2, s2) /\ reps = reps1 ++ reps2.
Proof.
  induction reqs1 as [|[proc req] reqs1 IH]; intros s reps s2; cbn [app execute_all]; [by eauto 10|].
  intros E. apply bind_Ret_inv in E as ([rep s1] & -> & E).
  apply bind_Ret_inv in E as ([reps1 s'] & E1 & [= <- <-]). rewrite outcome_bind_Ret.
  destruct (IH _ _ _ E1) as (ra & rb & s'' & -> & E2 & ->). rewrite outcome_bind_Ret. by eauto 10.
Qed.

(** The view after a history. *)
Fixpoint last_value (evs : list event) (val : str) : str :=
  match evs with
  | [] => val
  | EServe _ :: evs => last_value evs val
  | ECrash m _ :: evs => last_value evs (value (without m val))
  | EJoin n _ :: evs => last_value evs (value (members val ++ [n]))
  end.

(** Every event of a history goes through and leaves the replicas in step. *)
Lemma history_replicas evs : forall p v val vs last s ns reps s',
  respected procs st_agree -> 0 <= v ->
  replicas p v val vs last s ns -> allowed evs p v val (vs, last) s ->
  execute_all procs (requests_of evs) s = Ret (reps, s') ->
  exists c vs' last', history evs (Cluster p v val ns) = Ret (reps, c) /\
    cl_value c = last_value evs val /\
    replicas (cl_primary c) (cl_vid c) (cl_value c) vs' last' s' (cl_nodes c).
Proof.
  induction evs as [|[reqs|m k|n rn] evs IH]; intros p v val vs last s ns reps s' HA Hv Hg Hok;
    cbn [requests_of history cl_primary cl_vid cl_value cl_nodes]; intros E.
  - injection E as <- <-. by eexists _, _, _.
  - destruct (execute_all_app _ _ _ _ _ E) as (reps1 & reps2 & s1 & E1 & E2 & ->).
    cbn [allowed] in Hok. rewrite E1 in Hok.
    destruct (serve_replicas _ _ _ _ _ _ _ _ _ _ _ HA Hg E1) as (ns1 & vs1 & last1 & -> & Hg1 & Hst).
    rewrite outcome_bind_Ret. rewrite <-Hst in Hok.
    destruct (IH _ _ _ _ _ _ _ _ _ HA Hv Hg1 Hok E2) as (c & vs' & last' & -> & Hval & Hc).
    rewrite outcome_bind_Ret. by exists c, vs', last'.
  - destruct Hok as (Hlt & Hlen & Hm & Hk & Hkm & Hping & Hok). pose proof Hg as (Hnd & _ & Hall).
    destruct (change_view_replicas stf junk p v val last s m k (delete m ns)) as (ns2 & -> & Hg2); try done.
    { intros x Hx Hxm. destruct (Hall x Hx) as (r & Er & Hr & _ & _ & Hl & Hs). exists r.
      by rewrite lookup_delete_ne. }
    { apply lookup_delete_eq. }
    rewrite outcome_bind_Ret. eapply IH; [done|lia|exact Hg2|exact Hok|done].
  - destruct Hok as (Hlt & Hlen & Hw & Hn & Hnc & Had & Hok).
    destruct (join_view_replicas n p v val vs last s (conj Hv Hlt) Hw Hn Hlen ns (<[n := rn]> ns) rn) as (ns2 & -> & Hg2);
      try done.
    { intros m Hm. rewrite lookup_insert_ne; [done|]. by intros ->. }
    { by rewrite lookup_insert_eq. }
    rewrite outcome_bind_Ret. eapply IH; [done|lia|exact Hg2|exact Hok|done].
Qed.

(** C4. Histories of views: requests, crashes of a member at a time, the primary
    perhaps, and joins, in any order.  A crash is found out by heartbeats; the
    view without the member, or with the new one, is proposed, and Paxos run
    among the members of the old view; with two others left by a crash the run
    has its majority, every change of view goes through and the recovery threads
    synchronise.  The replies of the whole history are those of one machine that
    executed all of its requests, so no acknowledged request is lost; and in the
    end the members of the last view, those that joined late included, agree on
    the primary and have that machine's state.  The nodes that are up answer
    every call, one proposer runs at a time, no request is in flight while a view
    changes, and no change interrupts another. *)
Theorem view_history evs p v val vs last s ns reps s' :
  respected procs st_agree -> 0 <= v ->
  replicas p v val vs last s ns -> allowed evs p v val (vs, last) s ->
  execute_all procs (requests_of evs) s = Ret (reps, s') ->
  exists c, history evs (Cluster p v val ns) = Ret (reps, c) /\
    forall n, n ∈ members (last_value evs val) -> exists r, cl_nodes c !! n = Some r /\
      inviewchange r = false /\ primary r = cl_primary c /\ st_agree (service r) s'.
Proof.
  intros HA Hv Hg Hok E.
  destruct (history_replicas evs p v val vs last s ns reps s' HA Hv Hg Hok E)
    as (c & vs' & last' & Eh & <- & _ & _ & Hall).
  exists c. split; [done|]. intros n Hn. destruct (Hall n Hn) as (r & Er & [] & ? & _ & _ & ?). by exists r.
Qed.
End join.

(** ** A node joins three others, and outlives the primary *)

Ltac by_names := by apply (bool_decide_unpack _); vm_compute.
Lemma word_decide m : bool_decide (m <> [] /\ Forall (fun c => is_space c = false) m) = true -> word m.
Proof. by intros ?%bool_decide_eq_true. Qed.
Section outlives.
Context `{FreshMem} {S : Type} `{StateTransferOk S}.
(** The new node; it was started with the name of the primary. *)
Definition node_d (s : S) : rsm S :=
  match rsm_new (lit "p") (lit "d") [] 0 s with Ret r => r | _ => node_with s (lit "d") end.
(** The primary [p] crashes, which [b] finds out, and [b] becomes primary; then
    [b] crashes, which [d] finds out. *)
Definition d_outlives_p (s : S) (r1 r2 r3 r4 : list (Z * str)) : list (event (S := S)) :=
  [EServe r1; EJoin (lit "d") (node_d s); EServe r2; ECrash (lit "p") (lit "b"); EServe r3;
   ECrash (lit "b") (lit "d"); EServe r4].
Lemma d_newcomer s : newcomer (lit "p") 1 (lit "d") (node_d s).
Proof. by split; vm_compute. Qed.
Lemma d_outlives_p_allowed procs s r1 r2 r3 r4 reps1 s1 reps2 s2 reps3 s3 reps4 s4 :
  execute_all procs r1 s = Ret (reps1, s1) -> execute_all procs r2 s1 = Ret (reps2, s2) ->
  execute_all procs r3 s2 = Ret (reps3, s3) -> execute_all procs r4 s3 = Ret (reps4, s4) ->
  admissible true (stamps r1 (Viewstamp 1 1, Viewstamp 0 0)).2 s1 (node_d s) ->
  allowed procs true (d_outlives_p s r1 r2 r3 r4) (lit "p") 1 (lit "p b c ") (Viewstamp 1 1, Viewstamp 0 0) s.
Proof.
  intros E1 E2 E3 E4 Had. unfold d_outlives_p. cbn [allowed]. rewrite E1, E2, E3, E4.
  split_and!; try done; by_names.
Qed.
End outlives.

#[local] Existing Instances fresh_zero tally_transfer tally_transfer_ok.
Lemma tally_respects : respected tally st_agree.
Proof. exact (respected_eq tally). Qed.
Lemma view_history_witness :
  let evs := d_outlives_p [] [(1, [])] [(1, [])] [(1, [])] [(1, [])] in
  exists reps c r, history tally true 0 evs (Cluster (lit "p") 1 (lit "p b c ") (pbc [])) = Ret (reps, c) /\
    cl_nodes c !! lit "d" = Some r /\ service r = lit "xxxx".
Proof.
  intros evs.
  assert (exists reps, execute_all tally (requests_of evs) [] = Ret (reps, lit "xxxx")) as [reps E] by by eexists.
  destruct (view_history tally true 0 evs (lit "p") 1 (lit "p b c ") (Viewstamp 1 1) (Viewstamp 0 0)
    [] (pbc []) reps (lit "xxxx") tally_respects ltac:(lia) (pbc_replicas []))
    as (c & Eh & Hall); [|exact E|].
  { eapply d_outlives_p_allowed; [reflexivity..|]. unfold admissible. rewrite decide_False by done. by split. }
  destruct (Hall (lit "d")) as (r & Er & _ & _ & Hr); [by_names|].
  exists reps, c, r. split; [exact Eh|]. split; [exact Er|exact Hr].
Defined.
