(* ===== verification/RsmClient.v ===== *)
(** * The client of the replicated state machine: [rsm_client.cc]

    A client keeps the node it takes for the primary and the other members it
    knows, and sends each request to the primary until one answers.  The calls
    are inputs: an attempt is what became of a call to the current primary and,
    if it said it is not the primary, of asking it for the members.  The last
    section makes the lock server the service of [Rsm]. *)
From S2P Require Import Prelude Marshall Protocols RpcStub LockServerRsm Rsm.
Import rsm_protocol.

Record rsm_client := RsmClient {
  rc_primary : str;
  known_mems : list str;
}.

(** [known_mems.back()] of an empty vector is undefined. *)
Definition primary_failure (c : rsm_client) : outcome rsm_client :=
  match last (known_mems c) with
  | None => UB
  | Some p => Ret (RsmClient p (take (length (known_mems c) - 1) (known_mems c)))
  end.

(** A call to the members procedure: whether the node was bound, the result,
    the view it returned. *)
Record members_call := MembersCall { mc_bound : bool; mc_ret : Z; mc_view : list str }.

Definition init_members (m : members_call) (c : rsm_client) : outcome (bool * rsm_client) :=
  if negb (mc_bound m) || negb (mc_ret m =? OK) then Ret (false, c)
  else
    _ ← VERIFY (bool_decide (mc_view m <> []));
    c ← primary_failure (RsmClient (rc_primary c) (mc_view m));
    Ret (true, c).

(** The constructor: the member it was given must answer. *)
Definition rsm_client_new (dst : str) (m : members_call) : outcome rsm_client :=
  '(ok, c) ← init_members m (RsmClient dst []); _ ← VERIFY ok; Ret c.

Inductive attempt := Unbound | Answered (ret : Z) (m : members_call).

(** One turn of the loop of [invoke]: [Some ret] when it returns. *)
Definition invoke_turn (a : attempt) (c : rsm_client) : outcome (option Z * rsm_client) :=
  match a with
  | Unbound => c ← primary_failure c; Ret (None, c)
  | Answered ret m =>
      if ret =? client_OK then Ret (Some ret, c)
      else if ret =? client_BUSY then Ret (None, c)
      else if ret =? client_NOTPRIMARY then
        '(ok, c) ← init_members m c;
        if ok : bool then Ret (None, c)
        else c ← primary_failure c; Ret (None, c)
      else c ← primary_failure c; Ret (None, c)
  end.
(** The loop, on the attempts that are made; [None] while it goes on. *)
Fixpoint invoke_loop (attempts : list attempt) (c : rsm_client)
    : outcome (option Z * rsm_client) :=
  match attempts with
  | [] => Ret (None, c)
  | a :: attempts =>
      '(done, c) ← invoke_turn a c;
      match done with
      | Some ret => Ret (Some ret, c)
      | None => invoke_loop attempts c
      end
  end.

(** The attempts that cost the client a member: no connection, a negative
    result of the call, or an error. *)
Definition fails (a : attempt) : bool :=
  match a with
  | Unbound => true
  | Answered ret _ =>
      negb (ret =? client_OK) && negb (ret =? client_BUSY) && negb (ret =? client_NOTPRIMARY)
  end.

Lemma fails_turn a c :
  fails a = true ->
  invoke_turn a c = (c ← primary_failure c; Ret (None, c)).
Proof.
  destruct a as [|ret m]; simpl; [done|]. intros Hf.
  destruct (ret =? client_OK), (ret =? client_BUSY), (ret =? client_NOTPRIMARY); done.
Qed.

Lemma primary_failure_snoc p ms m :
  primary_failure (RsmClient p (ms ++ [m])) = Ret (RsmClient m ms).
Proof.
  unfold primary_failure. cbn [known_mems]. rewrite last_snoc, length_app. cbn [length].
  by rewrite Nat.add_sub, take_app_length.
Qed.

(** ** Properties *)

(** Failover: when calls fail, the client tries the members it knows from
    the last to the first, one per failed call, and returns as soon as one of
    them answers; once the list is used up, the next failure reads the back of
    an empty vector. *)
Theorem client_failover attempts p ms m :
  Forall (fun a => fails a = true) attempts ->
  match drop (length attempts) (p :: rev ms) with
  | q :: rest =>
      invoke_loop (attempts ++ [Answered client_OK m]) (RsmClient p ms) =
        Ret (Some client_OK, RsmClient q (rev rest))
  | [] => invoke_loop attempts (RsmClient p ms) = UB
  end.
Proof.
  intros Hf. revert p ms. induction Hf as [|a attempts Ha Hf IH]; intros p ms.
  { cbn [length drop app invoke_loop invoke_turn]. by rewrite rev_involutive. }
  cbn [length drop app invoke_loop]. rewrite fails_turn by done.
  destruct ms as [|k ms _] using rev_ind.
  - cbn [rev]. rewrite drop_nil. done.
  - rewrite rev_unit, primary_failure_snoc, !outcome_bind_Ret. apply IH.
Qed.

Lemma client_failover_witness :
  invoke_loop ([Unbound; Answered (-1) (MembersCall false 0 [])] ++
               [Answered client_OK (MembersCall false 0 [])])
    (RsmClient (lit "p") [lit "a"; lit "b"; lit "c"]) =
  Ret (Some client_OK, RsmClient (lit "b") [lit "a"]).
Proof.
  exact (client_failover [Unbound; Answered (-1) (MembersCall false 0 [])] (lit "p")
    [lit "a"; lit "b"; lit "c"] (MembersCall false 0 []) ltac:(repeat constructor)).
Defined.

(** A client learns the primary from whatever member it is started with: the
    member's answer to [members] names its primary last. *)
Lemma new_client_learns_primary {S} (r : rsm S) dst :
  let '(ret, view, _) := client_members r in
  rsm_client_new dst (MembersCall true ret view) =
    Ret (RsmClient (primary r) (get_view (vid_commit r) r).1).
Proof.
  unfold client_members. destruct (get_view (vid_commit r) r) as [m r'] eqn:E.
  assert (primary r' = primary r) as -> by (injection E as _ <-; done).
  unfold rsm_client_new, init_members. cbn [mc_bound mc_ret mc_view negb orb].
  change (client_OK =? OK) with true. cbn [negb].
  rewrite bool_decide_eq_true_2 by (intros Hn; by apply app_nil in Hn as [_ ?]).
  change (VERIFY true) with (Ret tt). rewrite outcome_bind_Ret, primary_failure_snoc, !outcome_bind_Ret.
  change (VERIFY true) with (Ret tt). by rewrite outcome_bind_Ret.
Qed.

(** ** The lock server as the replicated service *)

Section lock_service.
Context `{FreshMem}.

#[global] Instance lock_state_transfer_ops : StateTransfer lock_server :=
  {| marshal_st := marshal_state; unmarshal_st := unmarshal_state |}.

(** The locks, the counter and the mutex agree; the queues of the two threads are
    not transferred. *)
#[global] Program Instance lock_state_transfer_ok : StateTransferOk lock_server := {|
  st_agree a b :=
    map_lock_ a = map_lock_ b /\ nacquire a = nacquire b /\ m_lock_mutex_ a = m_lock_mutex_ b;
  st_ready a b :=
    nacquire b = nacquire a /\ m_lock_mutex_ a = false /\ m_lock_mutex_ b = false /\
    map_Forall (fun l it => is_u64 l /\ valid c_item it) (map_lock_ a) /\
    is_u32 (Z.of_nat (size (map_lock_ a))) /\
    Z.of_nat (length (locks_bytes (map_lock_ a))) + RPC_HEADER_SZ < 2 ^ 31 |}.
Next Obligation.
  split; [done|intros a b (? & ? & ?)|intros a b c (? & ? & ?) (? & ? & ?)]; split_and!; congruence.
Qed.
Next Obligation.
  intros a b (Hn & Ha & Hb & Hv & Hs & Hl). cbn [marshal_st unmarshal_st].
  assert (exists m, marshal_state a = Ret m) as [m Hm].
  { unfold marshal_state, with_mutex. rewrite Ha. eauto. }
  destruct (locks_transferred a b m Hm Hb Hv Hs Hl) as (b' & Hu & Hagree & Hn' & Hm').
  exists m, b'. cbn in *. split_and!; [done|done|done|congruence|congruence].
Qed.
End lock_service.
