(* ===== verification/LockService.v ===== *)
(** * The replicated lock service: [lock_smain.cc]

    The lock server of [LockServerRsm] registered with the replicated state
    machine of [Rsm], called through the stubs of [rsm_client.h]: a sequence of
    client calls returns what one lock server returns, and no lock is granted
    twice without a release by its holder in between. *)
From S2P Require Import Prelude Marshall Protocols RpcStub LockServerRsm Rsm RsmClient.
Import rsm_protocol.

Section service.
Context `{FreshMem}.

(** [rsm::reg1]. *)
Definition rsm_reg1 {S} (proc : Z) (h : handler S) (procs : gmap Z (handler S))
  : gmap Z (handler S) := <[proc := h]> procs.
(** [main] of [lock_smain.cc]: the registrations with [rsm]. *)
Definition lock_smain : gmap Z (handler lock_server) :=
  let procs := ∅ in
  let procs := rsm_reg1 lock_protocol.proc_acquire (rsm_fn3 c_u64 c_string c_u64 c_i32 acquire) procs in
  let procs := rsm_reg1 lock_protocol.proc_release (rsm_fn3 c_u64 c_string c_u64 c_i32 release) procs in
  rsm_reg1 lock_protocol.proc_stat (rsm_fn1 c_u64 c_i32 stat) procs.

(** The calls a client makes, with their procedure, request and method. *)
Inductive lock_op :=
  | LAcquire (l : Z) (id : str) (xid : Z) | LRelease (l : Z) (id : str) (xid : Z) | LStat (l : Z).
Definition lop_proc (o : lock_op) : Z :=
  match o with
  | LAcquire _ _ _ => lock_protocol.proc_acquire
  | LRelease _ _ _ => lock_protocol.proc_release
  | LStat _ => lock_protocol.proc_stat
  end.
Definition lop_req (o : lock_op) : marshall :=
  match o with
  | LAcquire l id xid | LRelease l id xid => call_req3 c_u64 c_string c_u64 l id xid
  | LStat l => call_req1 c_u64 l
  end.
Definition lop_meth (o : lock_op) : lock_server -> outcome (Z * Z * lock_server) :=
  match o with
  | LAcquire l id xid => acquire l id xid 0
  | LRelease l id xid => release l id xid 0
  | LStat l => stat l 0
  end.
Definition lop_valid (o : lock_op) : Prop :=
  match o with
  | LAcquire l id xid | LRelease l id xid =>
      is_u64 l /\ is_u64 xid /\ Z.of_nat (length id) < 2 ^ 30
  | LStat l => is_u64 l
  end.

(** The calls one after the other, at one lock server and through
    [rsm_client::call] at the primary of the replicated one. *)
Fixpoint server_calls (ops : list lock_op) (s : lock_server) : outcome (list (Z * Z) * lock_server) :=
  match ops with
  | [] => Ret ([], s)
  | o :: ops =>
      '(b, x, s) ← lop_meth o s;
      '(res, s) ← server_calls ops s;
      Ret ((b, x) :: res, s)
  end.
Definition invoke_at (proc : Z) (req : str) (rw : rsm lock_server * rworld lock_server)
  : outcome (Z * str * (rsm lock_server * rworld lock_server)) :=
  '(st, rep, r, w) ← request lock_smain proc req [] rw.1 rw.2; Ret (st, rep, (r, w)).
Definition lop_call (o : lock_op) (rw : rsm lock_server * rworld lock_server)
  : outcome (Z * Z * (rsm lock_server * rworld lock_server)) :=
  match o with
  | LAcquire l id xid =>
      rsm_client_call3 c_u64 c_string c_u64 c_i32 invoke_at lock_protocol.proc_acquire l id xid 0 rw
  | LRelease l id xid =>
      rsm_client_call3 c_u64 c_string c_u64 c_i32 invoke_at lock_protocol.proc_release l id xid 0 rw
  | LStat l => rsm_client_call1 c_u64 c_i32 invoke_at lock_protocol.proc_stat l 0 rw
  end.
Fixpoint client_calls (ops : list lock_op) (r : rsm lock_server) (w : rworld lock_server)
  : outcome (list (Z * Z) * rsm lock_server * rworld lock_server) :=
  match ops with
  | [] => Ret ([], r, w)
  | o :: ops =>
      '(b, x, (r, w)) ← lop_call o (r, w);
      '(res, r, w) ← client_calls ops r w;
      Ret ((b, x) :: res, r, w)
  end.
Lemma lop_call_eq o rw : lop_call o rw = rsm_client_call_m c_i32 invoke_at (lop_proc o) (lop_req o) 0 rw.
Proof. by destruct o. Qed.

(** ** The wire *)

Definition served (s : lock_server) : Prop := is_i32 (nacquire s).
Lemma lop_meth_result o s b x s' :
  served s -> lop_meth o s = Ret (b, x, s') -> is_i32 x /\ 0 <= b < 2 ^ 31 /\ served s'.
Proof.
  intros Hs. destruct o; cbn; unfold acquire, release, stat, with_mutex; intros E;
    repeat case_match; simplify_eq; done.
Qed.
Lemma lock_execute o s b x s' :
  lop_valid o -> served s -> lop_meth o s = Ret (b, x, s') ->
  exists rep, execute lock_smain (lop_proc o) (m_str (lop_req o)) s = Ret (rep, s') /\
    rsm_call_m c_i32 rep 0 = Ret (b, x).
Proof.
  intros Hv Hs Hm. destruct (lop_meth_result o s b x s' Hs Hm) as (Hx & Hb & _).
  eexists. split; [|by apply rsm_call_m_ok].
  unfold execute. destruct o as [l id xid|l id xid|l]; cbn [lop_proc lop_req lop_valid] in *.
  1, 2: destruct Hv as (Hl & Hxid & Hid);
    assert (RPC_HEADER_SZ + Z.of_nat (length (enc c_u64 l ++ enc c_string id ++ enc c_u64 xid)) < 2 ^ 31)
      as Hlen by (rewrite !length_app; cbn [enc c_u64_ok c_string_ok]; rewrite !length_app;
        unfold RPC_HEADER_SZ; cbn [length be32]; change (2 ^ 31) with 2147483648;
        change (2 ^ 30) with 1073741824 in Hid; lia);
    unfold lock_smain, rsm_reg1; rewrite !lookup_insert_ne, lookup_insert_eq by discriminate;
    apply (rsm_execute_ok c_i32 _ _ _ _ _ _ _ (call_req3_carries c_u64 c_string c_u64 l id xid)); [|done].
  - by apply rsm_fn3_answers.
  - by apply rsm_fn3_answers.
  - unfold lock_smain, rsm_reg1. rewrite lookup_insert_eq.
    apply (rsm_execute_ok c_i32 _ _ _ _ _ _ _ (call_req1_carries c_u64 l)); [by apply rsm_fn1_answers|done].
Qed.
Lemma calls_replicated ops r w s res s' :
  Forall lop_valid ops -> served s -> in_step s r w -> all_delivered w ->
  server_calls ops s = Ret (res, s') ->
  exists r' w', client_calls ops r w = Ret (res, r', w') /\ in_step s' r' w'.
Proof.
  intros Hv. revert s r w res. induction Hv as [|o ops Ho _ IH]; intros s r w res Hs Hi Hd E;
    cbn [server_calls client_calls] in E |- *.
  { injection E as <- <-. by exists r, w. }
  apply bind_Ret_inv in E as ([[b x] s1] & Em & E). apply bind_Ret_inv in E as ([res1 s2] & E & [= <- <-]).
  destruct (lock_execute o s b x s1 Ho Hs Em) as (rep & Ee & Ec).
  destruct (request_in_step lock_smain _ _ _ [] r w s rep s1 (respected_eq _) Hi Hd Ee) as (r1 & w1 & Er & Hi1 & Hd1 & _).
  rewrite lop_call_eq. unfold rsm_client_call_m, invoke_at. cbn [fst snd]. rewrite Er, !outcome_bind_Ret.
  cbn [Z.eqb client_OK VERIFY]. rewrite outcome_bind_Ret, Ec, !outcome_bind_Ret.
  destruct (lop_meth_result o s b x s1 Hs Em) as (_ & _ & Hs1).
  destruct (IH s1 r1 w1 res1 Hs1 Hi1 Hd1 E) as (r2 & w2 & -> & Hi2). by exists r2, w2.
Qed.

(** ** Exclusion, as the clients see it *)

(** Who holds each lock, and the xid of the grant. *)
Definition held_by (s : lock_server) (l : Z) : option (str * Z) :=
  let it := item s l in
  if is_locked it then Some (user_id it, std_ref 0 (lock_info_ it) (user_id it)) else None.
Definition released_by (l : Z) (id : str) (xid : Z) (o : lock_op) : Prop :=
  exists y, o = LRelease l id y /\ xid <= y.
#[global] Instance released_by_dec l id xid o : Decision (released_by l id xid o).
Proof.
  destruct o as [l0 id0 y|l0 id0 y|l0]; [by right; intros (z & ? & _)| |by right; intros (z & ? & _)].
  destruct (decide (l0 = l /\ id0 = id /\ xid <= y)) as [(-> & -> & Hy)|Hn]; [left; by exists y|right].
  intros (z & [= -> -> ->] & Hz). by apply Hn.
Defined.

Lemma held_by_set s l it s' l' :
  map_lock_ s' = <[l := it]> (map_lock_ s) ->
  held_by s' l' = if decide (l = l') then held_by (set_item s l it) l else held_by s l'.
Proof.
  intros Hm. unfold held_by, item. rewrite Hm. case_decide as Hl; [subst l'|].
  - cbn. by rewrite !std_ref_insert_eq.
  - by rewrite std_ref_insert_ne.
Qed.
Lemma granted_free l id xid s b s' :
  acquire l id xid 0 s = Ret (b, AcqRet.OK, s') ->
  held_by s l = None /\ held_by s' l = Some (id, xid).
Proof.
  unfold acquire, with_mutex. destruct (m_lock_mutex_ s); [done|]. fold (item s l).
  cbn [set_info lock_info_ is_locked]. destruct (_ <? xid); [|done].
  destruct (is_locked (item s l)) eqn:El; [done|]. intros [= <- <-].
  unfold held_by. rewrite El, item_set_eq. cbn. by rewrite std_ref_insert_eq.
Qed.
(** An item that differs in its queues, and in a record that was only looked
    at, is held as before. *)
Lemma held_same s l it s' l' it0 id :
  it0 = item s l -> map_lock_ s' = <[l := it]> (map_lock_ s) ->
  is_locked it = is_locked it0 -> user_id it = user_id it0 ->
  lock_info_ it = std_touch 0 (lock_info_ it0) id ->
  held_by s' l' = held_by s l'.
Proof.
  intros -> Hm Hl Hu Hi. rewrite (held_by_set s l it s' l' Hm). case_decide as Hd; [subst l'|done].
  unfold held_by. rewrite item_set_eq, Hl, Hu, Hi, std_ref_touch. done.
Qed.
(** A lock stays held until its holder releases it. *)
Lemma held_until o s b x s' l id xid :
  held_by s l = Some (id, xid) -> lop_meth o s = Ret (b, x, s') -> ~ released_by l id xid o ->
  held_by s' l = Some (id, xid).
Proof.
  intros Hh Hm Hno. destruct o as [l0 id0 y|l0 id0 y|l0]; cbn [lop_meth] in Hm; [| |by injection Hm as <- <- <-].
  - unfold acquire, with_mutex in Hm. destruct (m_lock_mutex_ s); [done|].
    fold (item s l0) in Hm. cbn [set_info lock_info_ is_locked user_id] in Hm.
    destruct (_ <? y); [destruct (is_locked (item s l0)) eqn:El|]; injection Hm as <- <- <-.
    + rewrite <-Hh. by eapply (held_same s l0).
    + assert (l0 <> l) as Hne by (intros ->; unfold held_by in Hh; by rewrite El in Hh).
      rewrite <-Hh. unfold held_by. by rewrite item_set_ne.
    + rewrite <-Hh. by eapply (held_same s l0).
  - unfold release, with_mutex in Hm. destruct (m_lock_mutex_ s); [done|].
    destruct (map_lock_ s !! l0) as [it|] eqn:Et; [|by injection Hm as <- <- <-].
    assert (it = item s l0) as Hit by (unfold item, std_ref; by rewrite Et).
    cbn [set_info lock_info_ is_locked user_id] in Hm.
    destruct (_ && _) eqn:Eg; injection Hm as <- <- <-; [|rewrite <-Hh; by eapply (held_same s l0)].
    apply andb_true_iff in Eg as [Hle Hlk]. rewrite std_ref_touch in Hle. apply Z.leb_le in Hle.
    case_bool_decide as Hu; [|rewrite <-Hh; by eapply (held_same s l0)].
    assert (l0 <> l) as Hne.
    { intros ->. apply Hno. exists y. unfold held_by in Hh. rewrite <-Hit, Hlk in Hh.
      injection Hh as <- <-. by rewrite Hu. }
    rewrite <-Hh. erewrite (held_by_set s l0 _ _ l) by reflexivity. by rewrite decide_False.
Qed.
Lemma exclusive_from ops s res s' l id xid j id' xid' b :
  held_by s l = Some (id, xid) -> server_calls ops s = Ret (res, s') ->
  ops !! j = Some (LAcquire l id' xid') -> res !! j = Some (b, AcqRet.OK) ->
  exists k y, (k < j)%nat /\ ops !! k = Some (LRelease l id y) /\ xid <= y.
Proof.
  revert s res j. induction ops as [|o ops IH]; intros s res j Hh E Ho Hr; [done|].
  cbn [server_calls] in E. apply bind_Ret_inv in E as ([[b1 x1] s1] & Em & E).
  apply bind_Ret_inv in E as ([res1 s2] & E & [= <- <-]).
  destruct j as [|j]; cbn in Ho, Hr.
  - injection Ho as ->. injection Hr as -> ->. apply granted_free in Em as [Hf _]. congruence.
  - destruct (decide (released_by l id xid o)) as [(y & -> & Hy)|Hno].
    + exists 0%nat, y. by split; [lia|].
    + destruct (IH s1 res1 j) as (k & y & Hk & ?); [by eapply held_until|done..|].
      exists (S k), y. split; [lia|done].
Qed.
Lemma exclusive_calls ops s res s' l i j id xid id' xid' b b' :
  server_calls ops s = Ret (res, s') -> (i < j)%nat ->
  ops !! i = Some (LAcquire l id xid) -> res !! i = Some (b, AcqRet.OK) ->
  ops !! j = Some (LAcquire l id' xid') -> res !! j = Some (b', AcqRet.OK) ->
  exists k y, (i < k < j)%nat /\ ops !! k = Some (LRelease l id y) /\ xid <= y.
Proof.
  revert s res i j. induction ops as [|o ops IH]; intros s res i j E Hij Hi Hri Hj Hrj; [done|].
  cbn [server_calls] in E. apply bind_Ret_inv in E as ([[b1 x1] s1] & Em & E).
  apply bind_Ret_inv in E as ([res1 s2] & E & [= <- <-]).
  destruct j as [|j]; [lia|]. destruct i as [|i]; cbn in Hi, Hri, Hj, Hrj.
  - injection Hi as ->. injection Hri as -> ->. apply granted_free in Em as [_ Hh].
    destruct (exclusive_from ops s1 res1 s2 l id xid j id' xid' b' Hh E Hj Hrj) as (k & y & ? & ?).
    exists (S k), y. split; [lia|done].
  - destruct (IH s1 res1 i j) as (k & y & ? & ?); [done|lia|done..|].
    exists (S k), y. split; [lia|done].
Qed.

(** C6. The lock service is one lock server.  While the network delivers, no view
    change intervenes and the revoker and retryer threads of the servers do not
    run, a sequence of calls of clients, marshalled by their stubs, executed by
    every replica with the handlers [lock_smain.cc] registers and unmarshalled
    again, returns what a single lock server returns for the same calls, and
    leaves every replica in its state.  Two grants of a lock are separated by a
    release of its first holder, not older than the grant.  (A turn of the
    primary's threads changes replicated state at the primary only:
    [replicas_diverge].) *)
Theorem lock_service ops r w s res s' :
  Forall lop_valid ops -> is_i32 (nacquire s) -> in_step s r w -> all_delivered w ->
  server_calls ops s = Ret (res, s') ->
  (exists r' w', client_calls ops r w = Ret (res, r', w') /\ in_step s' r' w') /\
  forall l i j id xid id' xid' b b', (i < j)%nat ->
    ops !! i = Some (LAcquire l id xid) -> res !! i = Some (b, AcqRet.OK) ->
    ops !! j = Some (LAcquire l id' xid') -> res !! j = Some (b', AcqRet.OK) ->
    exists k y, (i < k < j)%nat /\ ops !! k = Some (LRelease l id y) /\ xid <= y.
Proof.
  intros Hv Hs Hi Hd E. split; [by eapply calls_replicated|].
  intros. by eapply exclusive_calls.
Qed.
End service.

(** A primary with two backups, each with a fresh lock server; two clients take
    the lock in turn. *)
#[local] Existing Instance fresh_zero.
Definition two_clients : list lock_op :=
  [LAcquire 7 (lit "a") 1; LAcquire 7 (lit "b") 1; LRelease 7 (lit "a") 1; LAcquire 7 (lit "b") 2].
Lemma two_clients_results :
  exists s', server_calls two_clients lock_server_new =
    Ret ([(lock_protocol.OK, AcqRet.OK); (lock_protocol.OK, AcqRet.RETRY); (lock_protocol.OK, 0);
          (lock_protocol.OK, AcqRet.OK)], s').
Proof. eexists. vm_compute. reflexivity. Qed.
Lemma two_clients_valid : Forall lop_valid two_clients.
Proof. repeat constructor; done. Qed.
Lemma lock_service_witness :
  exists r' w' k y,
    client_calls two_clients (node_with lock_server_new (lit "p")) (three_with lock_server_new []) =
      Ret ([(lock_protocol.OK, AcqRet.OK); (lock_protocol.OK, AcqRet.RETRY); (lock_protocol.OK, 0);
            (lock_protocol.OK, AcqRet.OK)], r', w') /\
    (0 < k < 3)%nat /\ two_clients !! k = Some (LRelease 7 (lit "a") y) /\ 1 <= y.
Proof.
  destruct two_clients_results as [s' E].
  destruct (lock_service two_clients _ _ lock_server_new _ s' two_clients_valid ltac:(done)
    (three_in_step lock_server_new []) (List.Forall_nil _) E) as [(r' & w' & Ec & _) Hx].
  destruct (Hx 7 0%nat 3%nat (lit "a") 1 (lit "b") 2 0 0 ltac:(lia) eq_refl eq_refl eq_refl eq_refl)
    as (k & y & Hk & Ho & Hy).
  exists r', w', k, y. split; [exact Ec|]. split; [exact Hk|]. split; [exact Ho|exact Hy].
Defined.
