(* ===== verification/LockHistory.v ===== *)
(** * The lock service through changes of view

    The lock server of [LockServerRsm] as the service of a history of views: its
    handlers cannot tell apart two servers whose locks agree, so the state that
    a new member is sent is as good as the original, and locks stay exclusive
    over crashes and joins. *)
From S2P Require Import Prelude Marshall Protocols RpcStub Log Paxos Config LockServerRsm Rsm RsmNode RsmClient.
From S2P Require Import LockService Failover Join.
Import rsm_protocol.

Section lock_history.
Context `{FreshMem}.

(** ** Servers whose locks agree *)

(** A method that does the same in states that are related. *)
Definition respects {S X} (A : relation S) (f : S -> outcome (X * S)) : Prop :=
  forall a b x a', A b a -> f a = Ret (x, a') -> exists b', f b = Ret (x, b') /\ A b' a'.

Lemma respects_bind {S X Y} (A : relation S) (u : outcome Y) (f : Y -> S -> outcome (X * S)) :
  (forall y, respects A (f y)) -> respects A (fun s => y ← u; f y s).
Proof.
  intros Hf a b x a' Hab E. apply bind_Ret_inv in E as (y & -> & E). rewrite outcome_bind_Ret. by eapply Hf.
Qed.
Lemma respects_reply {S R} (cr : codec R) (A : relation S) (f : S -> outcome (Z * R * S)) (m : marshall) :
  respects A f -> respects A (fun s => '(b, r, s) ← f s; Ret (b, c_put cr m r, s)).
Proof.
  intros Hf a b x a' Hab E. apply bind_Ret_inv in E as ([[st r] a1] & E & [= <- <-]).
  destruct (Hf _ _ _ _ Hab E) as (b' & -> & Hb'). exists b'. by rewrite outcome_bind_Ret.
Qed.
Lemma rsm_fn1_respects {S A1 R} (A : relation S) (c1 : codec A1) (cr : codec R) meth args m :
  (forall a1 r, respects A (meth a1 r)) -> respects A (rsm_fn1 c1 cr meth args m).
Proof.
  intros Hm. unfold rsm_fn1. apply respects_bind. intros [a1 u1]. apply respects_bind. intros _.
  by apply respects_reply.
Qed.
Lemma rsm_fn3_respects {S A1 A2 A3 R} (A : relation S) (c1 : codec A1) (c2 : codec A2) (c3 : codec A3)
    (cr : codec R) meth args m :
  (forall a1 a2 a3 r, respects A (meth a1 a2 a3 r)) -> respects A (rsm_fn3 c1 c2 c3 cr meth args m).
Proof.
  intros Hm. unfold rsm_fn3. apply respects_bind. intros [a1 u1]. apply respects_bind. intros [a2 u2].
  apply respects_bind. intros [a3 u3]. apply respects_bind. intros _. by apply respects_reply.
Qed.

Lemma acquire_respects l id xid r : respects st_agree (acquire l id xid r).
Proof.
  intros a b x a' (Hl & Hn & Hm) E. unfold acquire, with_mutex in *. rewrite Hm, Hl.
  destruct (m_lock_mutex_ a) eqn:Ea; [done|]. set (it := std_ref _ _ _) in *.
  destruct (_ <? xid); [destruct (is_locked _)|]; injection E as <- <-; (eexists; split; [reflexivity|]);
    cbn; rewrite Hl, Ea; done.
Qed.
Lemma release_respects l id xid r : respects st_agree (release l id xid r).
Proof.
  intros a b x a' (Hl & Hn & Hm) E. unfold release, with_mutex in *. rewrite Hm, Hl.
  destruct (m_lock_mutex_ a) eqn:Ea; [done|].
  destruct (map_lock_ a !! l); [destruct (_ && _)|]; injection E as <- <-; (eexists; split; [reflexivity|]);
    cbn; rewrite ?Hl, ?Ea; done.
Qed.
Lemma stat_respects l r : respects st_agree (stat l r).
Proof. intros a b x a' (Hl & Hn & Hm) [= <- <-]. exists b. split; [|done]. unfold stat. by rewrite Hn. Qed.

(** The handlers that [lock_smain.cc] registers do. *)
Lemma lock_respected : respected lock_smain st_agree.
Proof.
  intros proc req a b rep a' Hab E. unfold execute in *.
  destruct (lock_smain !! proc) as [h|] eqn:Eh; [|done].
  assert (forall args m, respects st_agree (h args m)) as Hh.
  { unfold lock_smain, rsm_reg1 in Eh. intros args m.
    apply lookup_insert_Some in Eh as [[_ <-]|[_ [[_ <-]|[_ [[_ <-]|[_ Eh]]%lookup_insert_Some]]%lookup_insert_Some]];
      [apply rsm_fn1_respects, stat_respects|apply rsm_fn3_respects, release_respects
      |apply rsm_fn3_respects, acquire_respects|done]. }
  unfold rsm_execute in *. apply bind_Ret_inv in E as ([[ret m] a1] & E & [= <- <-]).
  destruct (Hh _ _ _ _ _ _ Hab E) as (b' & -> & Hb'). exists b'. by rewrite outcome_bind_Ret.
Qed.

(** ** Histories of lock requests *)

Definition lop_request (o : lock_op) : Z * str := (lop_proc o, m_str (lop_req o)).
(** The reply [rep] is the one that the client's stub returns as [x]. *)
Definition replies (rep : str) (x : Z * Z) : Prop := rsm_call_m c_i32 rep 0 = Ret x.

Lemma server_calls_executed ops : forall s res s',
  Forall lop_valid ops -> served s -> server_calls ops s = Ret (res, s') ->
  exists reps, execute_all lock_smain (lop_request <$> ops) s = Ret (reps, s') /\ Forall2 replies reps res.
Proof.
  induction ops as [|o ops IH]; intros s res s' Hv Hs E; cbn [server_calls] in E.
  { injection E as <- <-. by exists []. }
  inversion_clear Hv as [|? ? Ho Hops]. apply bind_Ret_inv in E as ([[b x] s1] & Em & E).
  apply bind_Ret_inv in E as ([res1 s2] & E & [= <- <-]).
  destruct (lock_execute o s b x s1 Ho Hs Em) as (rep & Ee & Ec).
  destruct (lop_meth_result o s b x s1 Hs Em) as (_ & _ & Hs1).
  destruct (IH s1 res1 s2 Hops Hs1 E) as (reps & Er & HF). exists (rep :: reps). split; [|by constructor].
  rewrite fmap_cons. cbn [execute_all lop_request]. by rewrite Ee, outcome_bind_Ret, Er, outcome_bind_Ret.
Qed.

(** C5. The lock service through changes of view: members crash one at a time,
    the primary perhaps, and nodes join and are sent the locks, between requests
    of clients; each change of view is found out by heartbeats or asked for by the
    newcomer, and decided by a run of Paxos among the members of the old view.
    The replies are those of one lock server for the same calls, the members of
    the last view have its locks, and of two grants of a lock the second comes
    after a release by the holder of the first: no lock is granted twice because
    of a change of view.  As in [view_history] the nodes that are up answer every
    call, a crash leaves two members or more, one proposer runs at a time and no
    request is in flight during a change; and the revoker and the retryer, which
    change replicated state outside of the state machine ([replicas_diverge]), do
    not run. *)
Theorem lock_history stf junk evs ops p v val vs last s ns res s' :
  Forall lop_valid ops -> is_i32 (nacquire s) -> requests_of evs = lop_request <$> ops ->
  0 <= v -> replicas p v val vs last s ns -> allowed lock_smain stf evs p v val (vs, last) s ->
  server_calls ops s = Ret (res, s') ->
  (exists reps c, history lock_smain stf junk evs (Cluster p v val ns) = Ret (reps, c) /\
     Forall2 replies reps res /\
     forall n, n ∈ members (last_value evs val) -> exists r, cl_nodes c !! n = Some r /\
       map_lock_ (service r) = map_lock_ s') /\
  forall l i j id xid id' xid' b b', (i < j)%nat ->
    ops !! i = Some (LAcquire l id xid) -> res !! i = Some (b, AcqRet.OK) ->
    ops !! j = Some (LAcquire l id' xid') -> res !! j = Some (b', AcqRet.OK) ->
    exists k y, (i < k < j)%nat /\ ops !! k = Some (LRelease l id y) /\ xid <= y.
Proof.
  intros Hv Hs Hreq Hv0 Hg Hok E. split; [|intros; by eapply exclusive_calls].
  destruct (server_calls_executed ops s res s' Hv Hs E) as (reps & Ee & HF). rewrite <-Hreq in Ee.
  destruct (history_replicas lock_smain stf junk evs p v val vs last s ns reps s' lock_respected Hv0 Hg Hok Ee)
    as (c & vs' & last' & Eh & <- & _ & _ & Hall).
  exists reps, c. split_and!; [done|done|]. intros n Hn.
  destruct (Hall n Hn) as (r & Er & _ & _ & _ & _ & Ha & _). by exists r.
Qed.
End lock_history.

(** ** A holder whose grant outlives the primary that gave it *)

#[local] Existing Instance fresh_zero.
Definition reqs_a : list lock_op := [LAcquire 7 (lit "a") 1].
Definition reqs_b : list lock_op := [LAcquire 7 (lit "b") 1].
Definition reqs_c : list lock_op := [LRelease 7 (lit "a") 1].
Definition reqs_d : list lock_op := [LAcquire 7 (lit "b") 2].
Definition lock_events : list (event (S := lock_server)) :=
  d_outlives_p lock_server_new (lop_request <$> reqs_a) (lop_request <$> reqs_b)
    (lop_request <$> reqs_c) (lop_request <$> reqs_d).
Lemma ready_d reps1 s1 :
  execute_all lock_smain (lop_request <$> reqs_a) lock_server_new = Ret (reps1, s1) ->
  admissible true (stamps (lop_request <$> reqs_a) (Viewstamp 1 1, Viewstamp 0 0)).2 s1 (node_d lock_server_new).
Proof.
  intros E. unfold admissible. rewrite decide_False by done. split; [done|].
  intros a (Hl & Hn & Hm). cbn [st_ready lock_state_transfer_ok].
  assert (s1 = LockServer 0 {[ 7 := LockItem true 7 (lit "a") {[ lit "a" := 1 ]} [] [] ]} [] [] 0 false) as Hs1.
  { vm_compute in E. injection E as _ <-. reflexivity. }
  clear E. rewrite Hn, Hm, Hl, Hs1. split_and!; [reflexivity|reflexivity|reflexivity| |done|done].
  cbn [map_lock_]. apply map_Forall_singleton. split; [done|].
  cbn [valid c_item_ok]. split_and!; [done| |done|done].
  split; [|vm_compute; done]. cbn.
  by apply map_Forall_insert_2; [|apply map_Forall_empty].
Qed.
Lemma zero_i32 : is_i32 (nacquire lock_server_new).
Proof. done. Qed.
Lemma lock_calls :
  exists s', server_calls (reqs_a ++ reqs_b ++ reqs_c ++ reqs_d) lock_server_new =
    Ret ([(lock_protocol.OK, AcqRet.OK); (lock_protocol.OK, AcqRet.RETRY); (lock_protocol.OK, 0);
          (lock_protocol.OK, AcqRet.OK)], s').
Proof. exact two_clients_results. Qed.
Lemma lock_events_allowed :
  allowed lock_smain true lock_events (lit "p") 1 (lit "p b c ") (Viewstamp 1 1, Viewstamp 0 0) lock_server_new.
Proof.
  destruct lock_calls as [s' E].
  destruct (server_calls_executed (reqs_a ++ reqs_b ++ reqs_c ++ reqs_d) lock_server_new _ s' two_clients_valid zero_i32 E) as (reps & Ee & _).
  rewrite !fmap_app in Ee. destruct (execute_all_app _ _ _ _ _ _ Ee) as (reps1 & reps234 & s1 & E1 & E234 & _).
  destruct (execute_all_app _ _ _ _ _ _ E234) as (reps2 & reps34 & s2 & E2 & E34 & _).
  destruct (execute_all_app _ _ _ _ _ _ E34) as (reps3 & reps4 & s3 & E3 & E4 & _).
  eapply d_outlives_p_allowed; [exact E1|exact E2|exact E3|exact E4|]. exact (ready_d reps1 s1 E1).
Qed.
Lemma lock_history_witness :
  exists reps c k y r, history lock_smain true 0 lock_events
      (Cluster (lit "p") 1 (lit "p b c ") (pbc lock_server_new)) = Ret (reps, c) /\
    (0 < k < 3)%nat /\ (reqs_a ++ reqs_b ++ reqs_c ++ reqs_d) !! k = Some (LRelease 7 (lit "a") y) /\
    cl_nodes c !! lit "d" = Some r.
Proof.
  destruct lock_calls as [s' E].
  destruct (lock_history true 0 lock_events (reqs_a ++ reqs_b ++ reqs_c ++ reqs_d) (lit "p") 1 (lit "p b c ")
    (Viewstamp 1 1) (Viewstamp 0 0) lock_server_new (pbc lock_server_new) _ s'
    two_clients_valid zero_i32 ltac:(reflexivity) ltac:(lia) (pbc_replicas lock_server_new) lock_events_allowed E)
    as [(reps & c & Eh & _ & Hall) Hx].
  destruct (Hx 7 0%nat 3%nat (lit "a") 1 (lit "b") 2 0 0 ltac:(lia) eq_refl eq_refl eq_refl eq_refl)
    as (k & y & Hk & Ho & Hy).
  destruct (Hall (lit "d")) as (r & Er & _); [by_names|].
  exists reps, c, k, y, r. split; [exact Eh|]. split; [exact Hk|]. split; [exact Ho|exact Er].
Defined.
