(* ===== verification/Fifo.v ===== *)
(** * Queues and worker threads: [fifo.h], [thr_pool.cc]

    A bounded queue whose operations block, and the pool of worker threads that
    the RPC server runs its handlers on.  A definition is what a thread does
    between taking the queue's mutex and leaving it or waiting: a thread that
    waits is asleep until it is woken, by a signal of another thread or for no
    reason, and then takes the mutex and tries again. *)
From S2P Require Import Prelude.

Record fifo (T : Type) := Fifo { q_ : list T; max_ : Z }.
Arguments Fifo {T}. Arguments q_ {T}. Arguments max_ {T}.

Section fifo.
Context {T : Type}.

Definition fifo_new (limit : Z) : fifo T := Fifo [] (u32 limit).

(** [size()] returns a [bool]. *)
Definition fifo_size (f : fifo T) : bool := negb (Z.of_nat (length (q_ f)) =? 0).

(** [enq]: it is done and returns, having signalled [non_empty_c_] or not, or the
    thread waits on [has_space_c_]. *)
Inductive enq_result := EnqReturns (r : bool) (non_empty : bool) (f : fifo T) | EnqWaits.
Definition enq (e : T) (blocking : bool) (f : fifo T) : enq_result :=
  if (max_ f =? 0) || (Z.of_nat (length (q_ f)) <? max_ f)
  then EnqReturns true true (Fifo (q_ f ++ [e]) (max_ f))
  else if blocking then EnqWaits
  else EnqReturns false false f.

(** [deq]: the element and whether [has_space_c_] is signalled; [None] when the
    thread waits on [non_empty_c_]. *)
Definition deq (f : fifo T) : option (T * bool * fifo T) :=
  match q_ f with
  | [] => None
  | e :: q =>
      Some (e, negb (max_ f =? 0) && (Z.of_nat (length q) <? max_ f), Fifo q (max_ f))
  end.

(** Threads at the queue, in the order in which they get the mutex. *)
Inductive fop := FEnq (e : T) (blocking : bool) | FDeq.
Definition fifo_step (st : list T * list T * fifo T) (o : fop) : list T * list T * fifo T :=
  let '(ins, outs, f) := st in
  match o with
  | FEnq e blocking =>
      match enq e blocking f with
      | EnqReturns true _ f => (ins ++ [e], outs, f)
      | EnqReturns false _ f => (ins, outs, f)
      | EnqWaits => (ins, outs, f)
      end
  | FDeq =>
      match deq f with
      | Some (e, _, f) => (ins, outs ++ [e], f)
      | None => (ins, outs, f)
      end
  end.

Lemma fifo_step_inv ins outs f o :
  ins = outs ++ q_ f -> (0 < max_ f -> Z.of_nat (length (q_ f)) <= max_ f) ->
  let '(ins', outs', f') := fifo_step (ins, outs, f) o in
  ins' = outs' ++ q_ f' /\ max_ f' = max_ f /\
  (0 < max_ f' -> Z.of_nat (length (q_ f')) <= max_ f').
Proof.
  intros Hi Hm. destruct o as [e blocking|]; simpl.
  - unfold enq. destruct (Z.eqb_spec (max_ f) 0), (Z.ltb_spec (Z.of_nat (length (q_ f))) (max_ f));
      simpl; try (destruct blocking; by split_and!);
      rewrite length_app; simpl; rewrite Hi, <-app_assoc; split_and!; try done; lia.
  - unfold deq. destruct (q_ f) as [|e q] eqn:Eq; simpl.
    + rewrite Eq. by split_and!.
    + rewrite Hi, <-app_assoc. split_and!; try done. simpl in Hm. lia.
Qed.
End fifo.

(** ** The thread pool *)

(** A job: [None] is the null function that tells a worker to exit. *)
Section pool.
Context {J : Type}.
Abbreviation job := (option J).

(** The queue; the workers that are awake (at the mutex, or running a job) and
    those that wait on [non_empty_c_]; the jobs started, in order; and the
    threads in [addJob], by their jobs: those at the mutex and those that wait on
    [has_space_c_]. *)
Record pool := Pool {
  jobq_ : fifo job;
  blockadd_ : bool;
  awake : nat;
  asleep : nat;
  executed : list J;
  adders : list J;
  blocked : list J;
}.
Definition pool_new (sz : nat) (blocking : bool) : pool :=
  Pool (fifo_new (100 * Z.of_nat sz)) blocking sz 0 [] [] [].
(** The workers that have not exited. *)
Definition alive (p : pool) : nat := awake p + asleep p.

Definition set_queue (p : pool) (f : fifo job) : pool :=
  Pool f (blockadd_ p) (awake p) (asleep p) (executed p) (adders p) (blocked p).
Definition set_adders (p : pool) (l m : list J) : pool :=
  Pool (jobq_ p) (blockadd_ p) (awake p) (asleep p) (executed p) l m.
(** One waiting worker wakes up, if there is one. *)
Definition wake_worker (p : pool) : pool :=
  match asleep p with
  | O => p
  | S k => Pool (jobq_ p) (blockadd_ p) (S (awake p)) k (executed p) (adders p) (blocked p)
  end.
(** What [pthread_cond_signal(&non_empty_c_)] does. *)
Definition signal_non_empty (signal : bool) (p : pool) : pool := if signal then wake_worker p else p.

(** [addJob], at the mutex. *)
Definition addJob (j : J) (p : pool) : enq_result := enq (Some j) (blockadd_ p) (jobq_ p).
Definition add_turn (l1 : list J) (j : J) (l2 : list J) (p : pool) : pool :=
  match addJob j p with
  | EnqReturns _ signal f => signal_non_empty signal (set_adders (set_queue p f) (l1 ++ l2) (blocked p))
  | EnqWaits => set_adders p (l1 ++ l2) (j :: blocked p)
  end.

(** [takeJob] and the body of [do_worker]: a worker that is awake runs a job or
    exits, or goes to sleep; and whether [has_space_c_] was signalled. *)
Definition worker (p : pool) : option (bool * pool) :=
  match awake p with
  | O => None
  | S k =>
      Some match deq (jobq_ p) with
           | None => (false, Pool (jobq_ p) (blockadd_ p) k (S (asleep p)) (executed p) (adders p) (blocked p))
           | Some (Some j, signal, f) =>
               (signal, Pool f (blockadd_ p) (S k) (asleep p) (executed p ++ [j]) (adders p) (blocked p))
           | Some (None, signal, f) =>
               (signal, Pool f (blockadd_ p) k (asleep p) (executed p) (adders p) (blocked p))
           end
  end.

(** The pool in operation.  A signal wakes one of the threads that wait; others
    may wake as well, or at any time, for no reason. *)
Inductive signal_space : bool -> pool -> pool -> Prop :=
  | space_silent p : signal_space false p p
  | space_nobody p : blocked p = [] -> signal_space true p p
  | space_wakes p l1 j l2 :
      blocked p = l1 ++ j :: l2 -> signal_space true p (set_adders p (j :: adders p) (l1 ++ l2)).
Inductive pool_step : pool -> pool -> Prop :=
  | ps_call p j : pool_step p (set_adders p (j :: adders p) (blocked p))
  | ps_add p l1 j l2 : adders p = l1 ++ j :: l2 -> pool_step p (add_turn l1 j l2 p)
  | ps_work p signal p1 p2 :
      worker p = Some (signal, p1) -> signal_space signal p1 p2 -> pool_step p p2
  | ps_spurious_worker p : pool_step p (wake_worker p)
  | ps_spurious_adder p l1 j l2 :
      blocked p = l1 ++ j :: l2 -> pool_step p (set_adders p (j :: adders p) (l1 ++ l2)).

(** The destructor: the pills it has still to enqueue, and whether it waits on
    [has_space_c_]; and the spurious wake-ups to come. *)
Record closing := Closing { c_pool : pool; c_pills : nat; c_asleep : bool; c_spurious : nat }.
Definition enq_pill (p : pool) : option pool :=
  match enq None true (jobq_ p) with
  | EnqReturns _ signal f => Some (signal_non_empty signal (set_queue p f))
  | EnqWaits => None
  end.
Inductive shutdown : closing -> closing -> Prop :=
  | shut_pill p p' n b : enq_pill p = Some p' -> shutdown (Closing p (S n) false b) (Closing p' n false b)
  | shut_wait p n b : enq_pill p = None -> shutdown (Closing p (S n) false b) (Closing p (S n) true b)
  | shut_work p signal p' n d b :
      worker p = Some (signal, p') ->
      shutdown (Closing p n d b) (Closing p' n (if signal then false else d) b).
Inductive spurious : closing -> closing -> Prop :=
  | spur_worker p n d b : spurious (Closing p n d (S b)) (Closing (wake_worker p) n d b)
  | spur_closer p n b : spurious (Closing p n true (S b)) (Closing p n false b).
Definition close_step (c c' : closing) : Prop := shutdown c c' \/ spurious c c'.

(** ** No wake-up is lost *)

(** While a worker sleeps there is one awake for everything in the queue; while
    a thread waits for space the queue is full, but for what the threads on their
    way to it will add. *)
Definition fed (p : pool) : Prop := asleep p <> 0%nat -> (length (q_ (jobq_ p)) <= awake p)%nat.
Record operating (sz : nat) (p : pool) : Prop := {
  op_max : 0 <= max_ (jobq_ p);
  op_sz : alive p = sz;
  op_jobs : exists js, q_ (jobq_ p) = Some <$> js;
  op_fed : fed p;
  op_full : blocked p <> [] ->
    0 < max_ (jobq_ p) <= Z.of_nat (length (q_ (jobq_ p)) + length (adders p));
}.

Lemma wake_worker_facts p :
  jobq_ (wake_worker p) = jobq_ p /\ alive (wake_worker p) = alive p /\ executed (wake_worker p) = executed p /\
  adders (wake_worker p) = adders p /\ blocked (wake_worker p) = blocked p /\
  (awake p <= awake (wake_worker p) <= S (awake p))%nat /\ (asleep (wake_worker p) <= asleep p)%nat /\
  (asleep p <> 0%nat -> awake (wake_worker p) = S (awake p)).
Proof. unfold wake_worker, alive. destruct (asleep p) eqn:E; cbn; rewrite ?E; split_and!; try done; lia. Qed.
Lemma fed_wake p : fed p -> fed (wake_worker p).
Proof.
  intros Hf Ha. destruct (wake_worker_facts p) as (-> & _ & _ & _ & _ & Hw & Hs & _).
  enough (length (q_ (jobq_ p)) <= awake p)%nat by lia. apply Hf. lia.
Qed.
(** A new element comes with a signal. *)
Lemma fed_enq p e l m :
  fed p -> fed (wake_worker (set_adders (set_queue p (Fifo (q_ (jobq_ p) ++ [e]) (max_ (jobq_ p)))) l m)).
Proof.
  intros Hf Ha. set (p1 := set_adders _ _ _) in *.
  destruct (wake_worker_facts p1) as (-> & _ & _ & _ & _ & Hw & Hs & Hk).
  assert (asleep p1 <> 0%nat) as Hne by lia. rewrite (Hk Hne). cbn. rewrite length_app. cbn.
  specialize (Hf Hne). lia.
Qed.
(** What a worker does with an element, or without. *)
Lemma worker_cases p signal p' :
  worker p = Some (signal, p') ->
  adders p' = adders p /\ blocked p' = blocked p /\ max_ (jobq_ p') = max_ (jobq_ p) /\
  ((signal = false /\ q_ (jobq_ p) = [] /\ jobq_ p' = jobq_ p /\ executed p' = executed p /\
      awake p = S (awake p') /\ asleep p' = S (asleep p)) \/
   exists e q, q_ (jobq_ p) = e :: q /\ q_ (jobq_ p') = q /\ asleep p' = asleep p /\
     signal = negb (max_ (jobq_ p) =? 0) && (Z.of_nat (length q) <? max_ (jobq_ p)) /\ (0 < awake p)%nat /\
     match e with
     | Some j => executed p' = executed p ++ [j] /\ awake p' = awake p
     | None => executed p' = executed p /\ awake p = S (awake p')
     end).
Proof.
  unfold worker. destruct (awake p) as [|k] eqn:Ek; [done|]. unfold deq.
  destruct (q_ (jobq_ p)) as [|[j|] q] eqn:Eq; intros [= <- <-]; cbn; split_and!; try done.
  - left. by split_and!.
  - right. exists (Some j), q. split_and!; try done. lia.
  - right. exists None, q. split_and!; try done. lia.
Qed.
Lemma fed_work p signal p' : fed p -> worker p = Some (signal, p') -> fed p'.
Proof.
  intros Hf Hw. destruct (worker_cases p signal p' Hw)
    as (_ & _ & _ & [(_ & Hq & Hj & _)|(e & q & Hq & Hq' & Hs & _ & Ha & He)]); intros Hne.
  - rewrite Hj, Hq. cbn. lia.
  - rewrite Hq'. rewrite Hs in Hne. specialize (Hf Hne). rewrite Hq in Hf. cbn in Hf.
    destruct e; destruct He as [_ He]; lia.
Qed.

Lemma operating_add sz p l1 j l2 :
  operating sz p -> adders p = l1 ++ j :: l2 -> operating sz (add_turn l1 j l2 p).
Proof.
  intros [Hm Hsz [js Hq] Hf Hb] Hl. unfold add_turn, addJob, enq.
  assert (length (adders p) = S (length (l1 ++ l2))) as Hlen by (rewrite Hl, !length_app; cbn; lia).
  destruct ((max_ (jobq_ p) =? 0) || (Z.of_nat (length (q_ (jobq_ p))) <? max_ (jobq_ p))) eqn:Efull.
  - cbn [signal_non_empty]. pose proof (fed_enq p (Some j) (l1 ++ l2) (blocked p) Hf) as Hfed. set (p1 := set_adders _ _ _) in *.
    destruct (wake_worker_facts p1) as (Ej & Ea & _ & El & Em & _). split; rewrite ?Ej, ?Ea, ?El, ?Em; try done.
    + exists (js ++ [j]). cbn. by rewrite Hq, fmap_app.
    + intros Hne. destruct (Hb Hne). cbn in *. rewrite length_app. cbn. lia.
  - apply orb_false_iff in Efull as [E0%Z.eqb_neq E1%Z.ltb_ge]. destruct (blockadd_ p).
    + split; try done; [by exists js|]. intros _. cbn. lia.
    + split; try done; [by exists js|]. cbn. intros Hne. destruct (Hb Hne). cbn. lia.
Qed.
Lemma operating_space sz p l1 j l2 :
  operating sz p -> blocked p = l1 ++ j :: l2 -> operating sz (set_adders p (j :: adders p) (l1 ++ l2)).
Proof.
  intros [Hm Hsz Hq Hf Hb] Hl. split; try done. intros _. cbn in *.
  assert (blocked p <> []) as Hne by (rewrite Hl; by destruct l1). specialize (Hb Hne). lia.
Qed.
Lemma operating_work sz p signal p1 p2 :
  operating sz p -> worker p = Some (signal, p1) -> signal_space signal p1 p2 -> operating sz p2.
Proof.
  intros [Hm Hsz [js Hq] Hf Hb] Hw Hs. pose proof (fed_work p signal p1 Hf Hw) as Hf1.
  destruct (worker_cases p signal p1 Hw) as (Ea & Eb & Em & Hc).
  assert (alive p1 = sz /\ exists js', q_ (jobq_ p1) = Some <$> js') as [Hsz1 [js1 Hq1]].
  { unfold alive in *. destruct Hc as [(_ & _ & -> & _ & ? & ?)|(e & q & Hq' & -> & -> & _ & Ha & He)].
    - split; [lia|by exists js].
    - rewrite Hq in Hq'. destruct js as [|j js]; [done|]. injection Hq' as <- <-. destruct He as [_ ->].
      split; [done|by exists js]. }
  (* the space that was made is signalled *)
  assert (blocked p1 <> [] -> 0 < max_ (jobq_ p1) /\
    max_ (jobq_ p1) <= Z.of_nat (length (q_ (jobq_ p1)) + length (adders p1) + if signal then 1 else 0)) as Hb1.
  { rewrite Eb, Ea, Em. intros Hne. specialize (Hb Hne). split; [lia|].
    destruct Hc as [(-> & _ & -> & _)|(e & q & Hq' & -> & _ & -> & _)]; [lia|].
    destruct (Z.eqb_spec (max_ (jobq_ p)) 0), (Z.ltb_spec (Z.of_nat (length q)) (max_ (jobq_ p))); cbn [negb andb];
      rewrite Hq' in Hb; cbn in Hb; lia. }
  inversion Hs as [|? Hn|? l1 j l2 Hl]; subst.
  - split; [by rewrite Em|done|by exists js1|done|]. intros Hne. destruct (Hb1 Hne). lia.
  - split; [by rewrite Em|done|by exists js1|done|]. by rewrite Hn.
  - split; cbn; [by rewrite Em|done|by exists js1|done|]. intros _.
    destruct Hb1; [rewrite Hl; by destruct l1|]. cbn. lia.
Qed.
Lemma operating_step sz p p' : operating sz p -> pool_step p p' -> operating sz p'.
Proof.
  intros Ho Hs. destruct Hs as [p j|p l1 j l2 Hl|p signal p1 p2 Hw Hs|p|p l1 j l2 Hl].
  - destruct Ho as [Hm Hsz Hq Hf Hb]. split; try done. cbn. intros Hne. specialize (Hb Hne). cbn. lia.
  - by apply operating_add.
  - by eapply operating_work.
  - pose proof Ho as [Hm Hsz Hq Hf Hb]. destruct (wake_worker_facts p) as (Ej & Ea & _ & El & Em & _).
    split; rewrite ?Ej, ?Ea, ?El, ?Em; try done. by apply fed_wake.
  - by apply operating_space.
Qed.
Lemma operating_reached sz blocking p : rtc pool_step (pool_new sz blocking) p -> operating sz p.
Proof.
  assert (operating sz (pool_new sz blocking)) as H0.
  { split; [apply u32_range|unfold alive; cbn; lia|by exists []|unfold fed; cbn; lia|done]. }
  revert H0. generalize (pool_new sz blocking). intros p0 H0 Hr.
  induction Hr as [|p1 p2 p3 Hs _ IH]; [done|]. apply IH. by eapply operating_step.
Qed.
(** When nobody is awake nothing is left to do. *)
Lemma operating_idle sz p :
  operating sz p -> (0 < sz)%nat -> awake p = 0%nat -> adders p = [] -> q_ (jobq_ p) = [] /\ blocked p = [].
Proof.
  intros [Hm Hsz Hq Hf Hb] Hpos Ha Hl. unfold alive in Hsz.
  assert (q_ (jobq_ p) = []) as Hnil by (apply nil_length_inv; specialize (Hf ltac:(lia)); lia).
  split; [done|]. destruct (blocked p); [done|]. specialize (Hb ltac:(done)). rewrite Hnil, Hl in Hb. cbn in Hb. lia.
Qed.

(** ** Shutting down *)

(** Jobs not yet started come before the pills, and a worker is alive for every
    pill in the queue or to come; none has exited while jobs are left; and no
    wake-up is lost. *)
Definition draining (threads : nat) (total : list J) (c : closing) : Prop :=
  let '(Closing p pills d _) := c in
  (exists js k, q_ (jobq_ p) = (Some <$> js) ++ replicate k None /\
    executed p ++ js = total /\ alive p = (k + pills)%nat /\ (js <> [] -> alive p = threads)) /\
  0 <= max_ (jobq_ p) /\ fed p /\
  (d = true -> pills <> 0%nat /\ 0 < max_ (jobq_ p) <= Z.of_nat (length (q_ (jobq_ p)))).

Lemma draining_step threads total c c' :
  draining threads total c -> close_step c c' -> draining threads total c'.
Proof.
  destruct c as [p0 n0 d0 b0]. intros ((js & k & Hq & Ht & Ha & Hj) & Hm & Hf & Hd) [Hs|Hs].
  - inversion Hs as [p p' n b Ep|p n b Ep|p signal p' n d b Ew]; subst.
    + unfold enq_pill, enq in Ep. destruct (_ || _); [|done]. injection Ep as <-. cbn [signal_non_empty].
      pose proof (fed_enq p0 None (adders p0) (blocked p0) Hf) as Hfed.
      change (set_adders (set_queue p0 ?f) (adders p0) (blocked p0)) with (set_queue p0 f) in Hfed.
      set (p1 := set_queue _ _) in *. destruct (wake_worker_facts p1) as (Ej & Ea & Ee & _).
      split_and!; rewrite ?Ej; try done. exists js, (S k). rewrite Ee, Ea.
      change (alive p1) with (alive p0). change (executed p1) with (executed p0). cbn [jobq_ q_ p1 set_queue].
      rewrite Hq, <-app_assoc. split_and!; try done; [by rewrite replicate_S_end|lia].
    + split_and!; [by exists js, k|done|done|]. intros _. split; [done|].
      unfold enq_pill, enq in Ep. destruct (Z.eqb_spec (max_ (jobq_ p0)) 0), (Z.ltb_spec (Z.of_nat (length (q_ (jobq_ p0)))) (max_ (jobq_ p0)));
        cbn in Ep; try done. lia.
    + pose proof (fed_work p0 signal p' Hf Ew) as Hf'. destruct (worker_cases p0 signal p' Ew) as (_ & _ & Em & Hc).
      unfold draining. split_and!; [|by rewrite Em|done|].
      * unfold alive in *. destruct Hc as [(_ & _ & -> & -> & Hw & Hs')|(e & q & Hq' & -> & -> & _ & Hpos & He)].
        { exists js, k. split_and!; try done; [lia|]. intros Hne. specialize (Hj Hne). lia. }
        rewrite Hq in Hq'. destruct js as [|j js]; cbn [fmap list_fmap app] in Hq'.
        { destruct k as [|k]; [done|]. injection Hq' as <- <-. destruct He as [-> He]. exists [], k.
          split_and!; try done. lia. }
        injection Hq' as <- <-. destruct He as [-> ->]. exists js, k. rewrite <-app_assoc. split_and!; try done.
        intros _. by apply Hj.
      * intros Hd'. destruct signal; [done|]. destruct (Hd Hd') as [Hn Hfull]. split; [done|].
        destruct Hc as [(_ & _ & -> & _)|(e & q & Hq' & -> & _ & Hsig & _)]; [done|]. rewrite Em.
        destruct (Z.eqb_spec (max_ (jobq_ p0)) 0), (Z.ltb_spec (Z.of_nat (length q)) (max_ (jobq_ p0))); cbn in Hsig; try done; lia.
  - inversion Hs as [p n d b|p n b]; subst.
    + destruct (wake_worker_facts p0) as (Ej & Ea & Ee & _). unfold draining. rewrite Ej, Ea, Ee.
      split_and!; [by exists js, k|done|by apply fed_wake|done].
    + split_and!; [by exists js, k|done|done|done].
Qed.
Lemma draining_rtc n total c c' : rtc close_step c c' -> draining n total c -> draining n total c'.
Proof. induction 1 as [c|c1 c2 c3 Hs _ IH]; [done|]. intros Hd. apply IH. by eapply draining_step. Qed.

(** What can be said when only a spurious wake-up could go on. *)
Lemma draining_stuck threads total p pills d b :
  (0 < threads)%nat -> draining threads total (Closing p pills d b) ->
  (forall c, ~ shutdown (Closing p pills d b) c) ->
  pills = 0%nat /\ alive p = 0%nat /\ executed p = total /\ q_ (jobq_ p) = [].
Proof.
  intros Hn ((js & k & Hq & Ht & Ha & Hj) & Hm & Hf & Hd) Hstuck.
  assert (awake p = 0%nat) as Hw.
  { destruct (awake p) eqn:E; [done|]. exfalso. destruct (worker p) as [[signal p']|] eqn:Ew.
    - by eapply Hstuck, shut_work.
    - unfold worker in Ew. by rewrite E in Ew. }
  assert (alive p <> 0%nat -> q_ (jobq_ p) = []) as Hempty.
  { intros Hne. apply nil_length_inv. unfold alive in Hne. specialize (Hf ltac:(lia)). lia. }
  assert (pills = 0%nat) as ->.
  { destruct pills as [|pills]; [done|]. exfalso. specialize (Hempty ltac:(lia)). destruct d.
    - destruct (Hd eq_refl) as [_ Hfull]. rewrite Hempty in Hfull. cbn in Hfull. lia.
    - destruct (enq_pill p) eqn:Ep; by eapply Hstuck; constructor. }
  destruct (decide (alive p = 0%nat)) as [E0|Hne].
  - assert (js = []) as -> by (destruct js; [done|]; specialize (Hj ltac:(done)); lia).
    assert (k = 0%nat) as -> by lia. rewrite app_nil_r in Ht. by split_and!.
  - specialize (Hempty Hne). rewrite Hempty in Hq. destruct js; [|done]. destruct k; [lia|done].
Qed.

(** Every step makes this less. *)
Definition close_measure (c : closing) : nat :=
  (4 * c_pills c + 2 * length (q_ (jobq_ (c_pool c))) + awake (c_pool c) +
   (if c_asleep c then 0 else 1) + 2 * c_spurious c)%nat.
Lemma close_decreases c c' : close_step c c' -> (close_measure c' < close_measure c)%nat.
Proof.
  intros [Hs|Hs]; [inversion Hs as [p p' n b Ep|p n b Ep|p signal p' n d b Ew]|inversion Hs as [p n d b|p n b]];
    subst; unfold close_measure; cbn [c_pool c_pills c_asleep c_spurious].
  - unfold enq_pill, enq in Ep. destruct (_ || _); [|done]. injection Ep as <-. cbn [signal_non_empty].
    set (p1 := set_queue _ _). destruct (wake_worker_facts p1) as (-> & _ & _ & _ & _ & Hw & _).
    cbn [jobq_ q_ p1 set_queue awake] in *. rewrite length_app. cbn. lia.
  - lia.
  - destruct (worker_cases p signal p' Ew) as (_ & _ & _ & [(-> & _ & -> & _ & Hw & _)|(e & q & -> & -> & _ & _ & _ & He)]).
    + lia.
    + destruct e; destruct He as [_ He]; destruct signal, d; cbn [length]; lia.
  - destruct (wake_worker_facts p) as (-> & _ & _ & _ & _ & Hw & _). lia.
  - lia.
Qed.
Lemma close_Acc c : Acc (fun b a => close_step a b) c.
Proof.
  remember (close_measure c) as n eqn:En. revert c En. induction n as [n IH] using lt_wf_ind. intros c ->.
  constructor. intros c' Hs. eapply IH; [by apply close_decreases|done].
Qed.
End pool.
Arguments pool : clear implicits.

(** ** Properties *)

(** First in, first out: in any order of blocking and non-blocking
    [enq]s and of [deq]s, what came out followed by what is queued is what went
    in, and a bounded queue never exceeds its bound. *)
Theorem fifo_order {T} (limit : Z) (os : list (@fop T)) :
  let '(ins, outs, f) := foldl fifo_step ([], [], fifo_new limit) os in
  ins = outs ++ q_ f /\
  (0 < max_ f -> Z.of_nat (length (q_ f)) <= max_ f) /\ max_ f = u32 limit.
Proof.
  induction os as [|o os IH] using rev_ind.
  { cbn. split; [done|]. split; [lia|done]. }
  rewrite foldl_app. destruct (foldl fifo_step _ os) as [[ins outs] f].
  destruct IH as (Hi & Hm & He). cbn [foldl].
  pose proof (fifo_step_inv ins outs f o Hi Hm) as Hs.
  destruct (fifo_step (ins, outs, f) o) as [[ins' outs'] f'].
  destruct Hs as (? & Hmax & ?). split_and!; [done|done|congruence].
Qed.

(** C28. The pool never sleeps while there is work, and its destructor ends.  In
    every state that threads in [addJob], the workers, signals and spurious
    wake-ups lead to from a new pool: when no worker and no adder is awake, the
    queue is empty and no adder waits.  Let the destructor begin when no thread is
    in [addJob]: it and the workers come to an end, if spurious wake-ups are
    finitely many and jobs return, whatever the interleaving; and when no thread
    can go on but by a spurious wake-up, every job that was queued has been
    started, in order, every worker has exited and the queue is empty. *)
Theorem pool_drains {J} sz blocking (p : pool J) :
  (0 < sz)%nat -> rtc pool_step (pool_new sz blocking) p ->
  (awake p = 0%nat -> adders p = [] -> q_ (jobq_ p) = [] /\ blocked p = []) /\
  exists js, q_ (jobq_ p) = Some <$> js /\ forall wakes,
    Acc (fun b a => close_step a b) (Closing p sz false wakes) /\
    (adders p = [] -> blocked p = [] ->
     forall p' pills d b, rtc close_step (Closing p sz false wakes) (Closing p' pills d b) ->
       (forall c, ~ shutdown (Closing p' pills d b) c) ->
       pills = 0%nat /\ alive p' = 0%nat /\ executed p' = executed p ++ js /\ q_ (jobq_ p') = []).
Proof.
  intros Hsz Hr. pose proof (operating_reached sz blocking p Hr) as Ho. split; [by eapply operating_idle|].
  pose proof Ho as [Hm Ha [js Hq] Hf _]. exists js. split; [done|]. intros wakes. split; [apply close_Acc|].
  intros _ _ p' pills d b Hc. apply (draining_stuck sz _ p' pills d b Hsz). eapply draining_rtc; [exact Hc|].
  split_and!; try done. exists js, 0%nat. cbn. rewrite Hq, app_nil_r. split_and!; try done; lia.
Qed.

(** Two workers find nothing to do and sleep; two jobs are added. *)
Definition after_work {J} (p : pool J) : pool J := match worker p with Some (_, p') => p' | None => p end.
Definition after_add {J} (j : J) (p : pool J) : pool J := add_turn [] j [] (set_adders p [j] []).
Definition pool2 : pool Z := after_add 8 (after_add 7 (after_work (after_work (pool_new 2 true)))).
Lemma pool2_reached : rtc pool_step (pool_new 2 true) pool2.
Proof.
  do 2 (eapply rtc_l; [eapply ps_work; [reflexivity|apply space_silent]|]).
  eapply rtc_l; [apply (ps_call _ 7)|]. eapply rtc_l; [by apply (ps_add _ [] 7 [])|].
  eapply rtc_l; [apply (ps_call _ 8)|]. apply rtc_once. by apply (ps_add _ [] 8 []).
Qed.
Lemma pool_drains_witness :
  q_ (jobq_ pool2) = [Some 7; Some 8] /\ awake pool2 = 2%nat /\
  forall p' pills d b, rtc close_step (Closing pool2 2 false 5) (Closing p' pills d b) ->
    (forall c, ~ shutdown (Closing p' pills d b) c) ->
    pills = 0%nat /\ alive p' = 0%nat /\ executed p' = [7; 8] /\ q_ (jobq_ p') = [].
Proof.
  destruct (pool_drains 2 true pool2 ltac:(lia) pool2_reached) as (_ & js & Hq & Hw).
  assert (js = [7; 8]) as -> by (apply (inj (fmap Some)); rewrite <-Hq; reflexivity).
  destruct (Hw 5%nat) as [_ Hend]. split; [reflexivity|]. split; [reflexivity|]. exact (Hend eq_refl eq_refl).
Defined.
