(* ===== verification/Handle.v ===== *)
(** * Connection handles: [handle.cc]

    A cache of RPC clients by destination.  [hinfo] objects live on a heap and
    are counted by the [handle] objects that refer to them; an access to a
    freed one is undefined.  A [std::map] gives the [hinfo] of a destination.
    Every [new] returns an address that was never used before, so that a stale
    pointer is always caught.  [safebind] is cut where it calls [bind] with the
    [hinfo]'s own mutex held and [handle_mutex] free. *)
From S2P Require Import Prelude.

(** [struct hinfo]; [cl_locked] is the state of [cl_mutex]. *)
Record hinfo := Hinfo {
  h_cl : option Z;
  refcnt : Z;
  del : bool;
  h_m : str;
  cl_locked : bool;
}.
Definition set_refcnt (h : hinfo) (n : Z) : hinfo := Hinfo (h_cl h) n (del h) (h_m h) (cl_locked h).
Definition set_del (h : hinfo) : hinfo := Hinfo (h_cl h) (refcnt h) true (h_m h) (cl_locked h).
Definition set_locked (h : hinfo) (b : bool) : hinfo := Hinfo (h_cl h) (refcnt h) (del h) (h_m h) b.
Definition set_cl (h : hinfo) (c : Z) : hinfo :=
  Hinfo (Some c) (refcnt h) (del h) (h_m h) (cl_locked h).

(** The manager, the heap of [hinfo]s, the live [rpcc]s with their
    destinations, and the next address. *)
Record handle_mgr := HandleMgr {
  hmap : gmap str Z;
  hinfos : gmap Z hinfo;
  rpccs : gmap Z str;
  next_addr : Z;
}.
Definition set_hinfo (a : Z) (h : hinfo) (st : handle_mgr) : handle_mgr :=
  HandleMgr (hmap st) (<[a := h]> (hinfos st)) (rpccs st) (next_addr st).
Definition deref (a : Z) (st : handle_mgr) : outcome hinfo :=
  match hinfos st !! a with Some h => Ret h | None => UB end.

Definition handle_mgr_new : handle_mgr := HandleMgr ∅ ∅ ∅ 0.

(** [get_handle]: null when the destination is being deleted. *)
Definition get_handle (m : str) (st : handle_mgr) : outcome (option Z * handle_mgr) :=
  match hmap st !! m with
  | None =>
      let a := next_addr st in
      Ret (Some a, HandleMgr (<[m := a]> (hmap st))
                     (<[a := Hinfo None 1 false m false]> (hinfos st)) (rpccs st) (a + 1))
  | Some a =>
      h ← deref a st;
      if del h then Ret (None, st)
      else Ret (Some a, set_hinfo a (set_refcnt h (i32 (refcnt h + 1))) st)
  end.

(** [delete cl]: the object must be live. *)
Definition delete_rpcc (c : Z) (st : handle_mgr) : outcome handle_mgr :=
  match rpccs st !! c with
  | None => UB
  | Some _ => Ret (HandleMgr (hmap st) (hinfos st) (delete c (rpccs st)) (next_addr st))
  end.

(** [delete_handle_wo]; destroying a locked mutex is undefined. *)
Definition delete_handle_wo (m : str) (st : handle_mgr) : outcome handle_mgr :=
  match hmap st !! m with
  | None => Ret st
  | Some a =>
      h ← deref a st;
      if refcnt h =? 0 then
        st ← match h_cl h with Some c => delete_rpcc c st | None => Ret st end;
        if cl_locked h then UB
        else Ret (HandleMgr (delete m (hmap st)) (delete a (hinfos st)) (rpccs st) (next_addr st))
      else Ret (set_hinfo a (set_del h) st)
  end.
Definition delete_handle (m : str) (st : handle_mgr) : outcome handle_mgr :=
  delete_handle_wo m st.

Definition done_handle (a : Z) (st : handle_mgr) : outcome handle_mgr :=
  h ← deref a st;
  let h := set_refcnt h (i32 (refcnt h - 1)) in
  let st := set_hinfo a h st in
  if (refcnt h =? 0) && del h then delete_handle_wo (h_m h) st else Ret st.

(** The constructor and the destructor of [handle]. *)
Definition handle_new (m : str) (st : handle_mgr) : outcome (option Z * handle_mgr) :=
  get_handle m st.
Definition handle_destroy (h : option Z) (st : handle_mgr) : outcome handle_mgr :=
  match h with Some a => done_handle a st | None => Ret st end.

(** [safebind] up to the call of [bind]: it returns, it waits for [cl_mutex],
    or it binds a new client. *)
Inductive safebind_result := SbReturns (cl : option Z) | SbWaits | SbBinds (cl : Z).
Definition safebind_begin (h : option Z) (st : handle_mgr)
    : outcome (safebind_result * handle_mgr) :=
  match h with
  | None => Ret (SbReturns None, st)
  | Some a =>
      h ← deref a st;
      if cl_locked h then Ret (SbWaits, st)
      else if del h then Ret (SbReturns None, st)
      else match h_cl h with
           | Some c => Ret (SbReturns (Some c), st)
           | None =>
               let c := next_addr st in
               Ret (SbBinds c, HandleMgr (hmap st) (<[a := set_locked h true]> (hinfos st))
                                 (<[c := h_m h]> (rpccs st)) (c + 1))
           end
  end.
(** The rest, with the result of [bind]. *)
Definition safebind_end (a c ret : Z) (st : handle_mgr) : outcome (option Z * handle_mgr) :=
  h ← deref a st;
  if ret <? 0 then
    st ← delete_rpcc c st;
    Ret (h_cl h, set_hinfo a (set_locked (set_del h) false) st)
  else
    Ret (Some c, set_hinfo a (set_locked (set_cl h c) false) st).

(** ** The program that uses handles *)

(** The [handle] objects in scope, by an identity of their own: the [hinfo]
    each refers to and the client a [safebind] in progress on it is binding. *)
Record handles := Handles {
  mgr : handle_mgr;
  live : gmap Z (option Z * option Z);
}.

(** Threads create and destroy handles, bind through them and delete
    destinations, in any order; a handle is not destroyed during its own
    [safebind], and there are fewer handles than an [int] can count. *)
Inductive handle_step : handles -> handles -> Prop :=
  | hs_new st l i m x st' :
      l !! i = None -> Z.of_nat (size l) < 2 ^ 31 - 1 ->
      handle_new m st = Ret (x, st') ->
      handle_step (Handles st l) (Handles st' (<[i := (x, None)]> l))
  | hs_destroy st l i x st' :
      l !! i = Some (x, None) -> handle_destroy x st = Ret st' ->
      handle_step (Handles st l) (Handles st' (delete i l))
  | hs_delete st l m st' :
      delete_handle m st = Ret st' -> handle_step (Handles st l) (Handles st' l)
  | hs_begin st l i x c st' :
      l !! i = Some (x, None) -> safebind_begin x st = Ret (SbBinds c, st') ->
      handle_step (Handles st l) (Handles st' (<[i := (x, Some c)]> l))
  | hs_end st l i a c ret y st' :
      l !! i = Some (Some a, Some c) -> safebind_end a c ret st = Ret (y, st') ->
      handle_step (Handles st l) (Handles st' (<[i := (Some a, None)]> l)).

(** ** Counting handles *)

Definition refs (a : Z) (l : gmap Z (option Z * option Z)) : Z :=
  Z.of_nat (size (filter (fun x => x.2.1 = Some a) l)).
Definition binds (a : Z) (l : gmap Z (option Z * option Z)) : Z :=
  Z.of_nat (size (filter (fun x => x.2.1 = Some a /\ x.2.2 <> None) l)).

Section count.
Context {V : Type} (P : Z * V -> Prop) `{!forall x, Decision (P x)}.
Implicit Types l : gmap Z V.
Lemma size_filter_insert l i x :
  l !! i = None ->
  size (filter P (<[i := x]> l)) = (size (filter P l) + if decide (P (i, x)) then 1 else 0)%nat.
Proof.
  intros Hi. destruct (decide (P (i, x))) as [Hp|Hp].
  - rewrite map_filter_insert_True by done. rewrite map_size_insert_None; [lia|].
    apply map_lookup_filter_None. by left.
  - rewrite map_filter_insert_False by done. rewrite delete_id; [lia|done].
Qed.
Lemma size_filter_delete l i x :
  l !! i = Some x ->
  size (filter P l) = (size (filter P (delete i l)) + if decide (P (i, x)) then 1 else 0)%nat.
Proof.
  intros Hi. rewrite <-size_filter_insert by apply lookup_delete_eq.
  by rewrite insert_delete_id.
Qed.
Lemma size_filter_update l i x y :
  l !! i = Some x ->
  (size (filter P (<[i := y]> l)) + (if decide (P (i, x)) then 1 else 0) =
   size (filter P l) + if decide (P (i, y)) then 1 else 0)%nat.
Proof.
  intros Hi. rewrite (size_filter_delete l i x Hi), <-insert_delete_eq.
  rewrite size_filter_insert by apply lookup_delete_eq. lia.
Qed.
End count.

(** ** The invariant *)

Definition hinfo_ok (st : handle_mgr) (l : gmap Z (option Z * option Z)) (a : Z) (h : hinfo) : Prop :=
  hmap st !! h_m h = Some a /\ a < next_addr st /\
  refcnt h = refs a l /\ (del h = true -> 0 < refcnt h) /\
  binds a l = (if cl_locked h then 1 else 0) /\
  (forall c, h_cl h = Some c -> cl_locked h = false /\ rpccs st !! c = Some (h_m h)).
Definition handle_ok (st : handle_mgr) (x : option Z * option Z) : Prop :=
  match x with
  | (None, p) => p = None
  | (Some a, p) => exists h, hinfos st !! a = Some h /\
      forall c, p = Some c -> h_cl h = None /\ rpccs st !! c = Some (h_m h)
  end.
Definition handles_inv (st : handle_mgr) (l : gmap Z (option Z * option Z)) : Prop :=
  (forall m a, hmap st !! m = Some a -> exists h, hinfos st !! a = Some h /\ h_m h = m) /\
  (forall a h, hinfos st !! a = Some h -> hinfo_ok st l a h) /\
  (forall i x, l !! i = Some x -> handle_ok st x) /\
  (forall c m, rpccs st !! c = Some m -> c < next_addr st).

Lemma refs_bounds a l : 0 <= refs a l <= Z.of_nat (size l).
Proof.
  unfold refs. split; [lia|]. apply Nat2Z.inj_le, map_subseteq_size, map_filter_subseteq.
Qed.
Lemma refs_fresh st l :
  handles_inv st l -> refs (next_addr st) l = 0 /\ binds (next_addr st) l = 0.
Proof.
  intros (_ & Hh & Hl & _). unfold refs, binds.
  assert (forall i x, l !! i = Some x -> x.1 <> Some (next_addr st)) as Hne.
  { intros i [x p] Hi E. cbn in E. subst x. destruct (Hl _ _ Hi) as (h & Ha & _).
    destruct (Hh _ _ Ha) as (_ & Hlt & _). lia. }
  split; (rewrite (proj2 (map_empty_filter _ _)); [done|]); intros i x Hi; cbn; specialize (Hne i x Hi); tauto.
Qed.
(** One handle more, one less, or one that starts or ends a [safebind]. *)
Lemma refs_insert a l i x :
  l !! i = None ->
  refs a (<[i := (x, None)]> l) = refs a l + (if decide (x = Some a) then 1 else 0) /\
  binds a (<[i := (x, None)]> l) = binds a l.
Proof.
  intros Hi. unfold refs, binds. rewrite !size_filter_insert by done.
  repeat case_decide; cbn in *; first [split; lia | exfalso; naive_solver].
Qed.
Lemma refs_delete a l i x :
  l !! i = Some (x, None) ->
  refs a (delete i l) = refs a l - (if decide (x = Some a) then 1 else 0) /\
  binds a (delete i l) = binds a l.
Proof.
  intros Hi. unfold refs, binds. rewrite !(size_filter_delete _ l i _ Hi).
  repeat case_decide; cbn in *; first [split; lia | exfalso; naive_solver].
Qed.
Lemma refs_update a l i x p q :
  l !! i = Some (x, p) ->
  refs a (<[i := (x, q)]> l) = refs a l /\
  (x <> Some a -> binds a (<[i := (x, q)]> l) = binds a l) /\
  (x = Some a -> p = None -> q <> None -> binds a (<[i := (x, q)]> l) = binds a l + 1) /\
  (x = Some a -> p <> None -> q = None -> binds a (<[i := (x, q)]> l) = binds a l - 1).
Proof.
  intros Hi. unfold refs, binds.
  pose proof (size_filter_update (fun x => x.2.1 = Some a) l i _ (x, q) Hi) as H1.
  pose proof (size_filter_update (fun x => x.2.1 = Some a /\ x.2.2 <> None) l i _ (x, q) Hi) as H2.
  cbn in *. repeat case_decide; split_and!; intros; first [lia | exfalso; naive_solver].
Qed.

(** Different [hinfo]s have different destinations. *)
Lemma inv_inj st l a b h hb :
  handles_inv st l -> hinfos st !! a = Some h -> hinfos st !! b = Some hb ->
  h_m hb = h_m h -> b = a.
Proof.
  intros (_ & Hh & _) Ha Hb E. destruct (Hh _ _ Ha) as (Ma & _), (Hh _ _ Hb) as (Mb & _).
  rewrite E in Mb. congruence.
Qed.
(** The clients of other destinations are untouched. *)
Definition others_kept (m : str) (R R' : gmap Z str) : Prop :=
  forall c m', m' <> m -> R !! c = Some m' -> R' !! c = Some m'.
Lemma others_kept_refl m R : others_kept m R R.
Proof. by intros c m' _. Qed.
Lemma others_kept_delete m R c : R !! c = Some m -> others_kept m R (delete c R).
Proof. intros Hc c' m' Hne Hc'. rewrite lookup_delete_ne; [done|]. intros ->. congruence. Qed.

(** A change to one [hinfo]. *)
Lemma inv_set st l a h h' R n l' :
  handles_inv st l -> hinfos st !! a = Some h -> h_m h' = h_m h -> next_addr st <= n ->
  (forall c m, R !! c = Some m -> c < n) -> others_kept (h_m h) (rpccs st) R ->
  refcnt h' = refs a l' -> (del h' = true -> 0 < refcnt h') ->
  binds a l' = (if cl_locked h' then 1 else 0) ->
  (forall c, h_cl h' = Some c -> cl_locked h' = false /\ R !! c = Some (h_m h)) ->
  (forall b, b <> a -> refs b l' = refs b l /\ binds b l' = binds b l) ->
  (forall i x p, l' !! i = Some (x, p) ->
     (x = Some a /\ forall c, p = Some c -> h_cl h' = None /\ R !! c = Some (h_m h)) \/
     (x <> Some a /\ (l !! i = Some (x, p) \/ (x, p) = (None, None)))) ->
  handles_inv (HandleMgr (hmap st) (<[a := h']> (hinfos st)) R n) l'.
Proof.
  intros Hinv Ha Hm Hn HR Hk Hr Hd Hb Hc Ho Hl'. pose proof Hinv as (Hmap & Hh & Hl & _).
  destruct (Hh _ _ Ha) as (Hma & Hlt & _).
  assert (forall b hb, hinfos st !! b = Some hb -> b <> a -> h_m hb <> h_m h) as Hne.
  { intros b hb Hb' Hba E. by eapply Hba, inv_inj. }
  split_and!; cbn [hmap hinfos rpccs next_addr]; try done.
  - intros m b Hmb. destruct (decide (b = a)) as [->|Hba].
    + exists h'. rewrite lookup_insert_eq. split; [done|]. destruct (Hmap _ _ Hmb) as (h2 & E & <-).
      congruence.
    + rewrite lookup_insert_ne by done. by apply Hmap.
  - intros b hb Hb'. unfold hinfo_ok; cbn [hmap next_addr rpccs].
    destruct (decide (b = a)) as [->|Hba].
    + rewrite lookup_insert_eq in Hb'. injection Hb' as <-. rewrite Hm. split_and!; done || lia.
    + rewrite lookup_insert_ne in Hb' by done. destruct (Ho b Hba) as [-> ->].
      destruct (Hh _ _ Hb') as (H1 & H2 & H3 & H4 & H5 & H6). split_and!; try done; [lia|].
      intros c E. destruct (H6 c E) as [? Hrc]. split; [done|]. eapply Hk; [|done]. by eapply Hne.
  - intros i [x p] Hi. destruct (Hl' i x p Hi) as [[-> Hp]|[Hx [Hold|[= -> ->]]]]; [| |done].
    + exists h'. cbn. rewrite lookup_insert_eq, Hm. by split.
    + specialize (Hl i _ Hold). destruct x as [b|]; [|done]. destruct Hl as (hb & Hb' & Hp).
      assert (b <> a) as Hba by congruence. exists hb. cbn. rewrite lookup_insert_ne by done.
      split; [done|]. intros c E. destruct (Hp c E) as [? Hrc]. split; [done|].
      eapply Hk; [|done]. by eapply Hne.
Qed.

(** ** Each operation returns and keeps the invariant *)

Lemma refs_others l i x b :
  l !! i = None -> x <> Some b ->
  refs b (<[i := (x, None)]> l) = refs b l /\ binds b (<[i := (x, None)]> l) = binds b l.
Proof.
  intros Hi Hx. destruct (refs_insert b l i x Hi) as [-> ->]. rewrite decide_False by done.
  split; [lia|done].
Qed.
(** A handle on an [hinfo] that is being deleted is null. *)
Lemma new_null st l i :
  handles_inv st l -> l !! i = None -> handles_inv st (<[i := (None, None)]> l).
Proof.
  intros (Hmap & Hh & Hl & Hr) Hi. split_and!; try done.
  - intros b hb Hb. unfold hinfo_ok. destruct (refs_others l i None b Hi ltac:(done)) as [-> ->].
    by apply Hh.
  - intros j x [[<- <-]|[_ Hj]]%lookup_insert_Some; [done|by eapply Hl].
Qed.
Lemma new_shared st l i a h :
  handles_inv st l -> l !! i = None -> Z.of_nat (size l) < 2 ^ 31 - 1 ->
  hinfos st !! a = Some h -> del h = false ->
  handles_inv (set_hinfo a (set_refcnt h (i32 (refcnt h + 1))) st) (<[i := (Some a, None)]> l).
Proof.
  intros Hinv Hi Hsz Ha Ed. pose proof Hinv as (_ & Hh & Hl & Hr).
  destruct (Hh _ _ Ha) as (_ & _ & Hrc & Hdel & Hbd & Hcl).
  pose proof (refs_bounds a l). destruct (refs_insert a l i (Some a) Hi) as [Er Eb].
  rewrite decide_True in Er by done. eapply inv_set; try done; cbn [refcnt set_refcnt cl_locked].
  - apply others_kept_refl.
  - rewrite Er, Hrc. width.
  - cbn. congruence.
  - by rewrite Eb.
  - intros b Hb. apply refs_others; [done|congruence].
  - intros j x p [[_ [= <- <-]]|[_ Hj]]%lookup_insert_Some; [by left|].
    destruct (decide (x = Some a)) as [->|]; [left|right; by auto]. split; [done|].
    destruct (Hl _ _ Hj) as (h2 & E2 & Hp). rewrite Ha in E2. by simplify_eq.
Qed.
Lemma new_fresh st l i m :
  handles_inv st l -> l !! i = None -> hmap st !! m = None ->
  let a := next_addr st in
  handles_inv (HandleMgr (<[m := a]> (hmap st))
    (<[a := Hinfo None 1 false m false]> (hinfos st)) (rpccs st) (a + 1)) (<[i := (Some a, None)]> l).
Proof.
  intros Hinv Hi Em a. pose proof Hinv as (Hmap & Hh & Hl & Hr).
  destruct (refs_fresh st l Hinv) as [F1 F2]. fold a in F1, F2.
  destruct (refs_insert a l i (Some a) Hi) as [Er Eb]. rewrite decide_True in Er by done.
  assert (forall b hb, hinfos st !! b = Some hb -> b <> a) as Hfresh.
  { intros b hb Hb ->. destruct (Hh _ _ Hb) as (_ & ? & _). unfold a in *. lia. }
  split_and!; cbn [hmap hinfos rpccs next_addr].
  - intros m' b [[<- <-]|[Hne Hb]]%lookup_insert_Some; [eexists; by rewrite lookup_insert_eq|].
    destruct (Hmap _ _ Hb) as (hb & E & ?). exists hb.
    rewrite lookup_insert_ne; [done|]. intros <-. by eapply Hfresh.
  - intros b hb [[<- <-]|[Hne Hb]]%lookup_insert_Some; unfold hinfo_ok; cbn.
    + rewrite lookup_insert_eq, Er, Eb, F1, F2. split_and!; done || lia.
    + destruct (refs_others l i (Some a) b Hi ltac:(congruence)) as [-> ->].
      destruct (Hh _ _ Hb) as (H1 & H2 & H3). split; [|split; [unfold a; lia|done]].
      rewrite lookup_insert_ne; [done|]. intros ->. congruence.
  - intros j x [[_ <-]|[_ Hj]]%lookup_insert_Some; cbn; [eexists; by rewrite lookup_insert_eq|].
    specialize (Hl j x Hj). destruct x as [[b|] p]; [|done]. destruct Hl as (hb & Hb & Hp).
    exists hb. cbn. rewrite lookup_insert_ne by (intros <-; by eapply Hfresh). by split.
  - intros c m' Hc. specialize (Hr c m' Hc). unfold a. lia.
Qed.
Lemma new_ok st l i m :
  handles_inv st l -> l !! i = None -> Z.of_nat (size l) < 2 ^ 31 - 1 ->
  exists x st', handle_new m st = Ret (x, st') /\ handles_inv st' (<[i := (x, None)]> l).
Proof.
  intros Hinv Hi Hsz. unfold handle_new, get_handle.
  destruct (hmap st !! m) as [a|] eqn:Em; [|eexists _, _; split; [done|by apply new_fresh]].
  pose proof Hinv as (Hmap & _). destruct (Hmap m a Em) as (h & Ha & <-).
  unfold deref. rewrite Ha, outcome_bind_Ret. destruct (del h) eqn:Ed;
    eexists _, _; (split; [done|]); [by apply new_null|by apply new_shared].
Qed.

Lemma binds_bounds a l : 0 <= binds a l <= refs a l.
Proof.
  unfold binds, refs. split; [lia|]. apply Nat2Z.inj_le, map_subseteq_size.
  apply map_filter_subseteq_ext. cbn. tauto.
Qed.
Lemma refs_none a l : refs a l = 0 -> forall i p, l !! i <> Some (Some a, p).
Proof.
  unfold refs. intros E i p Hi.
  assert (filter (fun x => x.2.1 = Some a) l = ∅) as Ef by (apply map_size_empty_inv; lia).
  apply map_empty_filter in Ef. by apply (Ef i _ Hi).
Qed.
Lemma binds_none a l : binds a l = 0 -> forall i c, l !! i <> Some (Some a, Some c).
Proof.
  unfold binds. intros E i c Hi.
  assert (filter (fun x => x.2.1 = Some a /\ x.2.2 <> None) l = ∅) as Ef
    by (apply map_size_empty_inv; lia).
  apply map_empty_filter in Ef. by apply (Ef i _ Hi).
Qed.

(** What is left when an [hinfo] and its client are freed. *)
Definition freed (a : Z) (h : hinfo) (st : handle_mgr) : handle_mgr :=
  HandleMgr (delete (h_m h) (hmap st)) (delete a (hinfos st))
    (match h_cl h with Some c => delete c (rpccs st) | None => rpccs st end) (next_addr st).
Lemma delete_wo_frees st a h :
  hmap st !! h_m h = Some a -> hinfos st !! a = Some h -> refcnt h = 0 -> cl_locked h = false ->
  (forall c, h_cl h = Some c -> rpccs st !! c = Some (h_m h)) ->
  delete_handle_wo (h_m h) st = Ret (freed a h st).
Proof.
  intros Hm Ha Hr Hl Hc. unfold delete_handle_wo, deref, freed.
  rewrite Hm, Ha, outcome_bind_Ret, Hr. cbn [Z.eqb].
  destruct (h_cl h) as [c|]; [unfold delete_rpcc; rewrite (Hc c) by done|]; by rewrite outcome_bind_Ret, Hl.
Qed.
Lemma free_ok st l a h l' :
  handles_inv st l -> hinfos st !! a = Some h -> refs a l' = 0 ->
  (forall b, b <> a -> refs b l' = refs b l /\ binds b l' = binds b l) ->
  (forall i x, l' !! i = Some x -> l !! i = Some x) ->
  handles_inv (freed a h st) l'.
Proof.
  intros Hinv Ha Hz Ho Hl'. pose proof Hinv as (Hmap & Hh & Hl & Hr).
  destruct (Hh _ _ Ha) as (Hma & _ & _ & _ & _ & Hcl).
  assert (others_kept (h_m h) (rpccs st)
    match h_cl h with Some c => delete c (rpccs st) | None => rpccs st end) as Hk.
  { destruct (h_cl h) as [c|]; [apply others_kept_delete, Hcl; done|apply others_kept_refl]. }
  assert (forall b hb, hinfos st !! b = Some hb -> b <> a -> h_m hb <> h_m h) as Hne.
  { intros b hb Hb' Hba E. by eapply Hba, inv_inj. }
  unfold freed. split_and!; cbn [hmap hinfos rpccs next_addr].
  - intros m b [Hm Hb]%lookup_delete_Some. destruct (Hmap _ _ Hb) as (hb & E & <-). exists hb.
    rewrite lookup_delete_ne; [done|]. intros <-. congruence.
  - intros b hb [Hba Hb]%lookup_delete_Some. unfold hinfo_ok. cbn [hmap rpccs next_addr].
    destruct (Ho b ltac:(done)) as [-> ->].
    destruct (Hh _ _ Hb) as (H1 & H2 & H3 & H4 & H5 & H6). split_and!; try done.
    + rewrite lookup_delete_ne; [done|]. by apply not_eq_sym, (Hne b).
    + intros c E. destruct (H6 c E). split; [done|]. eapply Hk; [|done]. by apply (Hne b).
  - intros i [[b|] p] Hi; specialize (Hl i _ (Hl' i _ Hi)); [|done].
    destruct Hl as (hb & Hb & Hp).
    assert (b <> a) as Hba by (intros ->; by eapply refs_none). exists hb. cbn.
    rewrite lookup_delete_ne by done. split; [done|]. intros c E. destruct (Hp c E) as [? Hrc].
    split; [done|]. eapply Hk; [|done]. by apply (Hne b).
  - intros c m. destruct (h_cl h); [intros [_ Hc]%lookup_delete_Some|intros Hc]; by eapply Hr.
Qed.

Lemma delete_ok st l m :
  handles_inv st l -> exists st', delete_handle m st = Ret st' /\ handles_inv st' l.
Proof.
  intros Hinv. pose proof Hinv as (Hmap & Hh & Hl & Hr). unfold delete_handle.
  destruct (hmap st !! m) as [a|] eqn:Em; [|exists st; unfold delete_handle_wo; by rewrite Em].
  destruct (Hmap m a Em) as (h & Ha & <-).
  destruct (Hh _ _ Ha) as (_ & Hlt & Hrc & Hdel & Hbd & Hcl). pose proof (binds_bounds a l) as Hb.
  destruct (decide (refcnt h = 0)) as [Hz|Hz].
  - exists (freed a h st). assert (cl_locked h = false) as Hlk by (destruct (cl_locked h); [lia|done]).
    split; [apply delete_wo_frees; naive_solver|]. apply (free_ok st l); try done. congruence.
  - exists (set_hinfo a (set_del h) st). unfold delete_handle_wo, deref.
    rewrite Em, Ha, outcome_bind_Ret. rewrite (proj2 (Z.eqb_neq _ _) Hz). split; [done|].
    eapply inv_set; try done; [apply others_kept_refl|cbn; lia|].
    intros i x p Hi. destruct (decide (x = Some a)) as [->|]; [left|right; by auto].
    split; [done|]. destruct (Hl _ _ Hi) as (h2 & E2 & Hp). rewrite Ha in E2. by simplify_eq.
Qed.

Lemma refs_others_delete l i x b :
  l !! i = Some (x, None) -> x <> Some b ->
  refs b (delete i l) = refs b l /\ binds b (delete i l) = binds b l.
Proof.
  intros Hi Hb. destruct (refs_delete b l i x Hi) as [-> ->]. rewrite decide_False by done.
  split; [lia|done].
Qed.
Lemma destroy_null st l i :
  handles_inv st l -> l !! i = Some (None, None) -> handles_inv st (delete i l).
Proof.
  intros (Hmap & Hh & Hl & Hr) Hi. split_and!; try done.
  - intros b hb Hb. unfold hinfo_ok.
    destruct (refs_others_delete l i None b Hi ltac:(done)) as [-> ->]. by apply Hh.
  - intros j x [_ Hj]%lookup_delete_Some. by eapply Hl.
Qed.
Lemma destroy_ok st l i x :
  handles_inv st l -> l !! i = Some (x, None) -> Z.of_nat (size l) <= 2 ^ 31 - 1 ->
  exists st', handle_destroy x st = Ret st' /\ handles_inv st' (delete i l).
Proof.
  intros Hinv Hi Hsz. pose proof Hinv as (Hmap & Hh & Hl & Hr).
  destruct x as [a|]; cbn [handle_destroy]; [|exists st; split; [done|by apply destroy_null]].
  assert (forall b, b <> a -> refs b (delete i l) = refs b l /\ binds b (delete i l) = binds b l) as Ho.
  { intros b Hb. apply (refs_others_delete l i (Some a)); [done|congruence]. }
  destruct (Hl _ _ Hi) as (h & Ha & _). destruct (Hh _ _ Ha) as (Hma & _ & Hrc & Hdel & Hbd & Hcl).
  destruct (refs_delete a l i (Some a) Hi) as [Er Eb]. rewrite decide_True in Er by done.
  pose proof (refs_bounds a l). pose proof (binds_bounds a (delete i l)) as Hbb.
  unfold done_handle, deref. rewrite Ha, outcome_bind_Ret. cbv zeta.
  assert (i32 (refcnt h - 1) = refs a (delete i l)) as -> by (rewrite Er, Hrc; width).
  set (h' := set_refcnt h _). set (st1 := set_hinfo a h' st).
  destruct ((refcnt h' =? 0) && del h') eqn:Ec.
  - apply andb_prop in Ec as [Ez%Z.eqb_eq Ed]. exists (freed a h' st1).
    assert (cl_locked h = false) as Hlk by (destruct (cl_locked h); [cbn in Ez; lia|done]).
    split.
    + apply (delete_wo_frees st1 a h'); try done; [apply lookup_insert_eq|].
      intros c E. by apply Hcl.
    + assert (freed a h' st1 = freed a h st) as ->
        by (unfold freed, st1, set_hinfo; cbn; by rewrite delete_insert_eq).
      apply (free_ok st l); try done. by intros j x [_ Hj]%lookup_delete_Some.
  - exists st1. split; [done|]. eapply inv_set; try done; [apply others_kept_refl| | |].
    + intros Ed. cbn in Ed, Ec |- *. rewrite Ed, andb_true_r in Ec. apply Z.eqb_neq in Ec. lia.
    + by rewrite Eb.
    + intros j x p [_ Hj]%lookup_delete_Some.
      destruct (decide (x = Some a)) as [->|]; [left|right; by auto]. split; [done|].
      destruct (Hl _ _ Hj) as (h2 & E2 & Hp). rewrite Ha in E2. by simplify_eq.
Qed.

Lemma begin_ok st l i x :
  handles_inv st l -> l !! i = Some (x, None) ->
  exists r st', safebind_begin x st = Ret (r, st') /\
    match r with
    | SbBinds c => handles_inv st' (<[i := (x, Some c)]> l)
    | SbReturns y => st' = st /\ forall c, y = Some c ->
        exists a h, x = Some a /\ hinfos st !! a = Some h /\ rpccs st !! c = Some (h_m h)
    | SbWaits => st' = st
    end.
Proof.
  intros Hinv Hi. pose proof Hinv as (Hmap & Hh & Hl & Hr).
  destruct x as [a|]; [|by eexists _, _; split; [done|]].
  destruct (Hl _ _ Hi) as (h & Ha & _). destruct (Hh _ _ Ha) as (Hma & Hlt & Hrc & Hdel & Hbd & Hcl).
  unfold safebind_begin, deref. rewrite Ha, outcome_bind_Ret.
  destruct (cl_locked h) eqn:Ek; [by eexists _, _; split; [done|]|].
  destruct (del h) eqn:Ed; [by eexists _, _; split; [done|]|].
  destruct (h_cl h) as [c|] eqn:Ecl.
  { eexists _, _. split; [done|]. split; [done|]. intros c' [= <-]. exists a, h. naive_solver. }
  eexists _, _. split; [done|]. cbv beta iota zeta. set (c := next_addr st).
  destruct (refs_update a l i (Some a) None (Some c) Hi) as (Er & _ & Eb & _).
  specialize (Eb eq_refl eq_refl ltac:(done)).
  eapply inv_set; try done; cbn [refcnt set_locked cl_locked del h_cl]; try (unfold c; lia).
  - intros c' m [[<- _]|[_ Hc']]%lookup_insert_Some; [lia|]. specialize (Hr _ _ Hc'). unfold c. lia.
  - intros c' m' _ Hc'. rewrite lookup_insert_ne; [done|]. intros <-. specialize (Hr _ _ Hc').
    unfold c in *. lia.
  - congruence.
  - congruence.
  - lia.
  - intros c' E. congruence.
  - intros b Hb. destruct (refs_update b l i (Some a) None (Some c) Hi) as (-> & E & _).
    split; [done|]. apply E. congruence.
  - intros j x p [[_ [= <- <-]]|[_ Hj]]%lookup_insert_Some.
    + left. split; [done|]. intros c' [= <-]. by rewrite lookup_insert_eq.
    + destruct (decide (x = Some a)) as [->|]; [left|right; by auto]. split; [done|].
      intros c' ->. exfalso. by eapply (binds_none a l).
Qed.

Lemma end_ok st l i a c ret :
  handles_inv st l -> l !! i = Some (Some a, Some c) ->
  exists y st', safebind_end a c ret st = Ret (y, st') /\
    handles_inv st' (<[i := (Some a, None)]> l) /\
    y = (if ret <? 0 then None else Some c).
Proof.
  intros Hinv Hi. pose proof Hinv as (Hmap & Hh & Hl & Hr).
  destruct (Hl _ _ Hi) as (h & Ha & Hp). destruct (Hp c eq_refl) as [Hn Hc].
  destruct (Hh _ _ Ha) as (Hma & Hlt & Hrc & Hdel & Hbd & Hcl).
  destruct (refs_update a l i (Some a) (Some c) None Hi) as (Er & _ & _ & Eb).
  specialize (Eb eq_refl ltac:(done) eq_refl). pose proof (binds_bounds a (<[i:=(Some a, None)]> l)).
  assert (cl_locked h = true) as Hlk by (destruct (cl_locked h); [done|lia]). rewrite Hlk in Hbd.
  assert (forall b, b <> a -> refs b (<[i := (Some a, None)]> l) = refs b l /\
    binds b (<[i := (Some a, None)]> l) = binds b l) as Ho.
  { intros b Hb. destruct (refs_update b l i (Some a) (Some c) None Hi) as (-> & E & _).
    split; [done|]. apply E. congruence. }
  assert (forall j x p (P : Z -> Prop), <[i := (Some a, None)]> l !! j = Some (x, p) ->
     (x = Some a /\ forall c, p = Some c -> P c) \/
     (x <> Some a /\ (l !! j = Some (x, p) \/ (x, p) = (None, None)))) as Hj.
  { intros j x p P Hj. destruct (decide (x = Some a)) as [->|]; [left|right].
    - split; [done|]. intros c' ->. exfalso. eapply (binds_none a); [|exact Hj]. lia.
    - split; [done|left]. by apply lookup_insert_Some in Hj as [[_ [= <- _]]|[_ ?]]. }
  unfold safebind_end, deref. rewrite Ha, outcome_bind_Ret. destruct (ret <? 0).
  - unfold delete_rpcc. rewrite Hc, outcome_bind_Ret. eexists _, _. split; [done|]. split; [|done].
    eapply (inv_set st l a h _ (delete c (rpccs st))); try done;
      cbn [refcnt set_locked set_del cl_locked del h_cl].
    + intros c' m [_ Hc']%lookup_delete_Some. by eapply Hr.
    + by apply others_kept_delete.
    + congruence.
    + intros _. rewrite Hrc. pose proof (refs_bounds a l). destruct (decide (refs a l = 0)) as [E|]; [|lia].
      exfalso. by eapply (refs_none a l E).
    + lia.
    + intros c' E. congruence.
    + intros j x p. apply Hj.
  - eexists _, _. split; [done|]. split; [|done].
    eapply inv_set; try done; cbn [refcnt set_locked set_cl cl_locked del h_cl].
    + apply others_kept_refl.
    + congruence.
    + lia.
    + by intros c' [= <-].
    + intros j x p. apply Hj.
Qed.

(** ** Every reachable state *)

Lemma handles_new : handles_inv handle_mgr_new ∅.
Proof. by split_and!. Qed.
Lemma handle_step_inv w w' :
  handle_step w w' ->
  handles_inv (mgr w) (live w) /\ Z.of_nat (size (live w)) <= 2 ^ 31 - 1 ->
  handles_inv (mgr w') (live w') /\ Z.of_nat (size (live w')) <= 2 ^ 31 - 1.
Proof.
  intros Hs [Hinv Hsz]. destruct Hs as [st l i m x st' Hi Hlt E|st l i x st' Hi E|st l m st' E
    |st l i x c st' Hi E|st l i a c ret y st' Hi E]; cbn [mgr live] in *.
  - destruct (new_ok st l i m Hinv Hi Hlt) as (? & ? & E' & H). rewrite E in E'. simplify_eq.
    split; [done|]. rewrite map_size_insert_None by done. lia.
  - destruct (destroy_ok st l i x Hinv Hi Hsz) as (? & E' & H). rewrite E in E'. simplify_eq.
    split; [done|]. rewrite map_size_delete_Some by done. lia.
  - destruct (delete_ok st l m Hinv) as (? & E' & H). rewrite E in E'. by simplify_eq.
  - destruct (begin_ok st l i x Hinv Hi) as (r & ? & E' & H). rewrite E in E'. simplify_eq.
    split; [done|]. by rewrite map_size_insert_Some.
  - destruct (end_ok st l i a c ret Hinv Hi) as (? & ? & E' & H & _). rewrite E in E'. simplify_eq.
    split; [done|]. by rewrite map_size_insert_Some.
Qed.
Lemma handles_reachable w :
  rtc handle_step (Handles handle_mgr_new ∅) w ->
  handles_inv (mgr w) (live w) /\ Z.of_nat (size (live w)) <= 2 ^ 31 - 1.
Proof.
  intros Hr. assert (handles_inv (mgr (Handles handle_mgr_new ∅)) (live (Handles handle_mgr_new ∅)) /\
    Z.of_nat (size (live (Handles handle_mgr_new ∅))) <= 2 ^ 31 - 1) as H0 by by split; [apply handles_new|].
  revert H0. generalize (Handles handle_mgr_new ∅), Hr. clear Hr. intros w0 Hr.
  induction Hr as [|w1 w2 w3 Hs _ IH]; [done|]. intros H0. by eapply IH, handle_step_inv.
Qed.

(** ** Properties *)

(** C17. Handles are memory safe.  However threads create and destroy handles,
    bind through them (blocked in [bind] or not) and delete destinations: no
    operation touches a freed [hinfo], deletes a client twice or destroys a
    locked mutex; the [hinfo] of a live handle exists and [refcnt] is the
    number of handles on it; a client that [safebind] returns is live and was
    made for the handle's destination; and an [hinfo] that is marked deleted is
    still referred to by a handle. *)
Theorem handles_safe w :
  rtc handle_step (Handles handle_mgr_new ∅) w ->
  (forall m, Z.of_nat (size (live w)) < 2 ^ 31 - 1 -> exists r, handle_new m (mgr w) = Ret r) /\
  (forall m, exists st, delete_handle m (mgr w) = Ret st) /\
  (forall i x, live w !! i = Some (x, None) ->
     (exists st, handle_destroy x (mgr w) = Ret st) /\
     exists r st, safebind_begin x (mgr w) = Ret (r, st) /\
       forall c, r = SbReturns (Some c) ->
         exists a h, x = Some a /\ hinfos (mgr w) !! a = Some h /\ rpccs (mgr w) !! c = Some (h_m h)) /\
  (forall i a c ret, live w !! i = Some (Some a, Some c) ->
     exists r, safebind_end a c ret (mgr w) = Ret r) /\
  (forall a h, hinfos (mgr w) !! a = Some h ->
     refcnt h = refs a (live w) /\ (del h = true -> exists i p, live w !! i = Some (Some a, p))).
Proof.
  intros [Hinv Hsz]%handles_reachable. split_and!.
  - intros m Hlt. set (i := fresh (dom (live w))).
    assert (live w !! i = None) as Hi by apply not_elem_of_dom, is_fresh.
    destruct (new_ok _ _ i m Hinv Hi Hlt) as (x & st & E & _). eauto.
  - intros m. destruct (delete_ok _ _ m Hinv) as (st & E & _). eauto.
  - intros i x Hi. destruct (destroy_ok _ _ i x Hinv Hi Hsz) as (st & E & _). split; [eauto|].
    destruct (begin_ok _ _ i x Hinv Hi) as (r & st' & E' & Hr). exists r, st'. split; [done|].
    intros c ->. by apply Hr.
  - intros i a c ret Hi. destruct (end_ok _ _ i a c ret Hinv Hi) as (y & st & E & _). eauto.
  - intros a h Ha. destruct Hinv as (_ & Hh & _). destruct (Hh _ _ Ha) as (_ & _ & Hr & Hd & _).
    split; [done|]. intros Ed. specialize (Hd Ed).
    destruct (map_choose (filter (fun x => x.2.1 = Some a) (live w))) as (i & [y p] & Hi).
    { intros E. unfold refs in Hr. rewrite E, map_size_empty in Hr. lia. }
    apply map_lookup_filter_Some in Hi as [Hi Hy]. cbn in Hy. subst y. eauto.
Qed.

(** A handle whose destination is deleted while it is bound. *)
Definition bound_world : handles :=
  match handle_new (lit "h:1") handle_mgr_new with
  | Ret (x, st) =>
      match safebind_begin x st with
      | Ret (SbBinds c, st) => Handles st (<[5 := (x, Some c)]> (<[5 := (x, None)]> ∅))
      | _ => Handles st ∅
      end
  | _ => Handles handle_mgr_new ∅
  end.
Lemma bound_world_reached : rtc handle_step (Handles handle_mgr_new ∅) bound_world.
Proof.
  eapply rtc_l; [eapply (hs_new _ _ 5 (lit "h:1")); [reflexivity|vm_compute; reflexivity|reflexivity]|].
  apply rtc_once. apply hs_begin; [apply lookup_insert_eq|reflexivity].
Qed.
Lemma handles_safe_witness :
  (exists st, delete_handle (lit "h:1") (mgr bound_world) = Ret st) /\
  (exists r, safebind_end 0 1 0 (mgr bound_world) = Ret r).
Proof.
  destruct (handles_safe bound_world bound_world_reached) as (_ & Hd & _ & He & _).
  split; [apply Hd|]. apply (He 5). vm_compute. reflexivity.
Defined.
