(* ===== verification/Connection.v ===== *)
(** * TCP connections and their framing: [connection.cc]

    A connection carries PDUs: a sender's buffer goes out with its length, in
    network order, over its first four bytes, and a receiver reads that length
    and then the rest.  Calls of the operating system are inputs ([write]
    results) or a model of the socket (the bytes that have arrived); calls of
    the poll manager are outputs.  A definition is what a thread does between
    taking the connection's mutex and leaving it or waiting.  The last section
    joins a sender and a receiver by a byte stream. *)
From S2P Require Import Prelude.

Definition MAX_PDU : Z := Z.shiftl 10 20.

(** [htonl] and [ntohl] on the bytes of an [int]. *)
Definition htonl (z : Z) : str :=
  [Z_to_char (Z.shiftr (u32 z) 24); Z_to_char (Z.shiftr (u32 z) 16);
   Z_to_char (Z.shiftr (u32 z) 8); Z_to_char (u32 z)].
Definition ntohl (b : str) : Z :=
  i32 (foldl (fun n c => Z.lor (Z.shiftl n 8) (char_to_Z c)) 0 b).

(** A buffer: null, or the bytes it holds; of the one that is read into, the
    bytes up to [solong]. *)
Record charbuf := CharBuf { buf : option str; sz : Z; solong : Z }.
Definition charbuf_new : charbuf := CharBuf None 0 0.

Record connection := Connection {
  dead_ : bool;
  wpdu_ : charbuf;
  rpdu_ : charbuf;
  create_time_ : Z * Z;
  waiters_ : Z;
  refno_ : Z;
  lossy_ : Z;
}.
Definition set_dead (c : connection) : connection :=
  Connection true (wpdu_ c) (rpdu_ c) (create_time_ c) (waiters_ c) (refno_ c) (lossy_ c).
Definition set_wpdu (c : connection) (b : charbuf) : connection :=
  Connection (dead_ c) b (rpdu_ c) (create_time_ c) (waiters_ c) (refno_ c) (lossy_ c).
Definition set_rpdu (c : connection) (b : charbuf) : connection :=
  Connection (dead_ c) (wpdu_ c) b (create_time_ c) (waiters_ c) (refno_ c) (lossy_ c).
Definition set_waiters (c : connection) (n : Z) : connection :=
  Connection (dead_ c) (wpdu_ c) (rpdu_ c) (create_time_ c) n (refno_ c) (lossy_ c).
Definition set_refno (c : connection) (n : Z) : connection :=
  Connection (dead_ c) (wpdu_ c) (rpdu_ c) (create_time_ c) (waiters_ c) n (lossy_ c).

(** What is asked of the poll manager and of the socket. *)
Inductive conn_op := AddRead | AddWrite | DelWrite | DelBoth | BlockRemove | Shutdown.

Definition connection_new (now : Z * Z) (lossy : Z) : connection * list conn_op :=
  (Connection false charbuf_new charbuf_new now 0 1 lossy, [AddRead]).

(** ** Life of a connection *)

Definition incref (c : connection) : connection := set_refno c (i32 (refno_ c + 1)).
Definition isdead (c : connection) : bool := dead_ c.
Definition ref (c : connection) : Z := refno_ c.
Definition closeconn (c : connection) : connection * list conn_op :=
  if negb (dead_ c) then (set_dead c, [Shutdown; BlockRemove]) else (c, []).
(** The destructor. *)
Definition connection_destroy (c : connection) : outcome unit :=
  _ ← VERIFY (dead_ c); VERIFY (bool_decide (buf (wpdu_ c) = None)).
(** [decref]: [None] when the connection is deleted. *)
Definition decref (c : connection) : outcome (option connection) :=
  let c := set_refno c (i32 (refno_ c - 1)) in
  _ ← VERIFY (0 <=? refno_ c);
  if (refno_ c =? 0) && dead_ c then _ ← connection_destroy c; Ret None
  else Ret (Some c).

Definition compare (c another : connection) : Z :=
  let '(s1, u1) := create_time_ c in
  let '(s2, u2) := create_time_ another in
  if s2 <? s1 then 1 else if s1 <? s2 then -1
  else if u2 <? u1 then 1 else if u1 <? u2 then -1 else 0.

(** ** Writing *)

(** The result of [write]: a number of bytes, [EAGAIN], or another error. *)
Inductive write_result := Wrote (n : nat) | WAgain | WFails.

(** [writepdu]: its result and the bytes that went out. *)
Definition writepdu (w : write_result) (c : connection) : outcome (bool * str * connection) :=
  let p := wpdu_ c in
  _ ← VERIFY (0 <=? solong p);
  if solong p =? sz p then Ret (true, [], c)
  else
    match buf p with
    | None => UB
    | Some b =>
        _ ← (if (solong p =? 0) && (length b <? 4)%nat then UB else Ret tt);
        let b := if solong p =? 0 then htonl (sz p) ++ drop 4 b else b in
        match w with
        | Wrote n =>
            Ret (true, take n (drop (Z.to_nat (solong p)) b),
                 set_wpdu c (CharBuf (Some b) (sz p) (solong p + Z.of_nat n)))
        | WAgain => Ret (true, [], set_wpdu c (CharBuf (Some b) (sz p) (solong p)))
        | WFails => Ret (false, [], set_wpdu c (CharBuf (Some b) 0 (-1)))
        end
    end.

(** [send]: a thread enters, waits for its turn, writes and, if not all went
    out, waits for the rest; [send_end] is what it does when it does not wait
    any more. *)
Definition send_enter (c : connection) : connection := set_waiters c (i32 (waiters_ c + 1)).
Inductive send_state := SendReturns (r : bool) | SendWaitsTurn | SendWaitsRest | SendEnds.
Definition send_turn (b : str) (size : Z) (lost : bool) (w : write_result) (c : connection)
    : outcome (send_state * list conn_op * str * connection) :=
  if negb (dead_ c) && bool_decide (buf (wpdu_ c) <> None) then Ret (SendWaitsTurn, [], [], c)
  else
    let c := set_waiters c (i32 (waiters_ c - 1)) in
    if dead_ c then Ret (SendReturns false, [], [], c)
    else
      let c := set_wpdu c (CharBuf (Some b) size 0) in
      let ops := if negb (lossy_ c =? 0) && lost then [Shutdown] else [] in
      '(ok, out, c) ← writepdu w c;
      if negb ok then Ret (SendEnds, ops ++ [BlockRemove], out, set_dead c)
      else if solong (wpdu_ c) =? sz (wpdu_ c) then Ret (SendEnds, ops, out, c)
      else Ret (SendWaitsRest, ops ++ [AddWrite], out, c).
(** The condition of the wait for the rest. *)
Definition send_waits (c : connection) : bool :=
  negb (dead_ c) && (0 <=? solong (wpdu_ c)) && (solong (wpdu_ c) <? sz (wpdu_ c)).
(** The result, and whether threads that wait for their turn are woken. *)
Definition send_end (c : connection) : bool * bool * connection :=
  (negb (dead_ c) && (solong (wpdu_ c) =? sz (wpdu_ c)), 0 <? waiters_ c,
   set_wpdu c charbuf_new).

(** The descriptor, which is the connection's own, can be written; [true] when
    the sender is woken. *)
Definition write_cb (w : write_result) (c : connection)
    : outcome (bool * list conn_op * str * connection) :=
  _ ← VERIFY (negb (dead_ c));
  if sz (wpdu_ c) =? 0 then Ret (false, [DelWrite], [], c)
  else
    '(ok, out, c) ← writepdu w c;
    if negb ok then Ret (true, [DelBoth], out, set_dead c)
    else
      _ ← VERIFY (0 <=? solong (wpdu_ c));
      Ret (negb (solong (wpdu_ c) <? sz (wpdu_ c)), [], out, c).

(** ** Reading *)

(** A socket: the bytes that have arrived, what comes after them (more, the
    other side's close, or an error), and [errno == EAGAIN], which a [read] that
    returns 0 leaves as it is. *)
Inductive sock_end := Open | Closed | Broken.
Record socket := Socket { inq : str; eof : sock_end; eagain : bool }.
(** [read]: the number it returns and the bytes. *)
Definition sock_read (n : Z) (s : socket) : Z * str * socket :=
  if n =? 0 then (0, [], s)
  else match inq s with
       | [] =>
           match eof s with
           | Open => (-1, [], Socket [] Open true)
           | Closed => (0, [], s)
           | Broken => (-1, [], Socket [] Broken false)
           end
       | q => let b := take (Z.to_nat n) q in
              (Z.of_nat (length b), b, Socket (drop (Z.to_nat n) q) (eof s) (eagain s))
       end.

(** [readpdu] reads the length and then the rest of the PDU.  A length below -4
    makes [malloc] fail, and one between -4 and -1 makes it return less than the
    four bytes that are copied; a length below what was already read makes the
    size of the second [read] a huge [size_t], with which it overruns the
    buffer. *)
Definition readpdu_rest (s : socket) (c : connection) : outcome (bool * socket * connection) :=
  let p := rpdu_ c in
  if sz p - solong p <? 0 then UB
  else
    match buf p with
    | None => UB
    | Some b =>
        let '(n, bytes, s) := sock_read (sz p - solong p) s in
        if n <=? 0 then
          if eagain s then Ret (true, s, c) else Ret (false, s, set_rpdu c charbuf_new)
        else Ret (true, s, set_rpdu c (CharBuf (Some (b ++ bytes)) (sz p) (solong p + n)))
    end.
Definition readpdu (s : socket) (c : connection) : outcome (bool * socket * connection) :=
  if sz (rpdu_ c) =? 0 then
    let '(n, bytes, s) := sock_read 4 s in
    if n =? 0 then Ret (false, s, c)
    else if n <? 0 then _ ← VERIFY (negb (eagain s)); Ret (false, s, c)
    else if negb (n =? 4) then Ret (false, s, c)
    else
      let size := ntohl bytes in
      if MAX_PDU <? size then Ret (false, s, c)
      else
        _ ← VERIFY (bool_decide (buf (rpdu_ c) = None));
        _ ← VERIFY (0 <=? size + 4);
        if size <? 0 then UB
        else readpdu_rest s (set_rpdu c (CharBuf (Some bytes) size 4))
  else readpdu_rest s c.

(** The descriptor can be read: the PDU that was handed to the manager, which
    accepts it or not. *)
Definition read_cb (accepts : bool) (s : socket) (c : connection)
    : outcome (option str * list conn_op * socket * connection) :=
  if dead_ c then Ret (None, [], s, c)
  else
    '(succ, s, c) ←
      (if bool_decide (buf (rpdu_ c) = None) || (solong (rpdu_ c) <? sz (rpdu_ c))
       then readpdu s c else Ret (true, s, c));
    let '(ops, c) := if succ : bool then ([], c) else ([DelBoth], set_dead c) in
    match buf (rpdu_ c) with
    | Some b =>
        if sz (rpdu_ c) =? solong (rpdu_ c) then
          if accepts then Ret (Some b, ops, s, set_rpdu c charbuf_new)
          else Ret (None, ops, s, c)
        else Ret (None, ops, s, c)
    | None => Ret (None, ops, s, c)
    end.

(** ** The accepting side *)

(** The constructor of [tcpsconn], with the results of [socket], [bind], [listen],
    [getsockname] (the port) and [pipe]: a failure ends the process; the accepting
    thread starts with an empty table. *)
Record listener := Listener { l_tcp_ : Z; l_port_ : Z; l_conns_ : gmap Z connection }.
Definition tcpsconn_new (sock bound listening : Z) (name : option Z) (piped : Z) : outcome listener :=
  _ ← VERIFY (negb (sock <? 0));
  _ ← VERIFY (negb (bound <? 0));
  _ ← VERIFY (negb (listening <? 0));
  port ← (match name with Some p => Ret p | None => VerifyFail end);
  _ ← VERIFY (negb (piped <? 0));
  Ret (Listener sock port ∅).

(** [process_accept], given the accepted descriptor and the time: dead
    connections that only the table refers to are dropped, the new one is
    entered. *)
Fixpoint gc_loop (l : list (Z * connection)) : outcome (list (Z * connection)) :=
  match l with
  | [] => Ret []
  | (fd, c) :: l =>
      if isdead c && (ref c =? 1) then _ ← decref c; gc_loop l
      else l ← gc_loop l; Ret ((fd, c) :: l)
  end.
Definition process_accept (s1 : Z) (now : Z * Z) (lossy : Z) (conns : gmap Z connection)
    : outcome (option (gmap Z connection)) :=
  if s1 <? 0 then Ret None
  else
    let ch := (connection_new now lossy).1 in
    l ← gc_loop (std_iter conns);
    Ret (Some (<[s1 := ch]> (list_to_map l))).

(** [accept_conn]: what [select] reports at each turn (with what [accept] then
    returns), and how the thread is left: still accepting, told to stop through
    the pipe, or ended by [pthread_exit] because [accept] failed. *)
Inductive selected := SelIntr | SelFails | SelNeither | SelPipe | SelAccept (s1 : Z) (now : Z * Z).
Inductive accepting :=
  | Accepting (conns : gmap Z connection) | Stopped (conns : gmap Z connection)
  | Exited (conns : gmap Z connection).
Fixpoint accept_conn (lossy : Z) (l : list selected) (conns : gmap Z connection)
    : outcome accepting :=
  match l with
  | [] => Ret (Accepting conns)
  | SelIntr :: l => accept_conn lossy l conns
  | SelFails :: _ | SelNeither :: _ => VerifyFail
  | SelPipe :: _ => Ret (Stopped conns)
  | SelAccept s1 now :: l =>
      r ← process_accept s1 now lossy conns;
      match r with Some conns => accept_conn lossy l conns | None => Ret (Exited conns) end
  end.
(** [connect_to_dst], given whether [connect] succeeded. *)
Definition connect_to_dst (ok : bool) (now : Z * Z) (lossy : Z) : option connection :=
  if ok then Some (connection_new now lossy).1 else None.

(** The destructor of [tcpsconn] closes what is left. *)
Fixpoint close_all (l : list (Z * connection)) : outcome (list (Z * option connection)) :=
  match l with
  | [] => Ret []
  | (fd, c) :: l =>
      c ← decref (closeconn c).1;
      l ← close_all l;
      Ret ((fd, c) :: l)
  end.

(** ** The table of connections *)

Definition table (a : accepting) : gmap Z connection :=
  match a with Accepting m | Stopped m | Exited m => m end.
Lemma gc_loop_sublist l l' : gc_loop l = Ret l' -> l' `sublist_of` l.
Proof.
  revert l'. induction l as [|[fd c] l IH]; intros l'; cbn [gc_loop]; [by intros [= <-]|]. case_match.
  - intros (? & _ & E)%bind_Ret_inv. apply sublist_cons. by apply IH.
  - intros (l1 & E & [= <-])%bind_Ret_inv. apply sublist_skip. by apply IH.
Qed.
Lemma gc_loop_keeps l l' fd c :
  gc_loop l = Ret l' -> (fd, c) ∈ l -> isdead c && (ref c =? 1) = false -> (fd, c) ∈ l'.
Proof.
  revert l'. induction l as [|[fd0 c0] l IH]; intros l'; cbn [gc_loop]; [by intros _ ?%elem_of_nil|].
  intros E Hin Hc. apply elem_of_cons in Hin as [[= <- <-]|Hin].
  - rewrite Hc in E. apply bind_Ret_inv in E as (l1 & _ & [= <-]). left.
  - case_match.
    + apply bind_Ret_inv in E as (? & _ & E). by apply IH.
    + apply bind_Ret_inv in E as (l1 & E & [= <-]). right. by apply IH.
Qed.
Lemma process_accept_keeps s1 now lossy conns conns' fd c :
  process_accept s1 now lossy conns = Ret (Some conns') -> fd <> s1 ->
  conns !! fd = Some c -> isdead c && (ref c =? 1) = false -> conns' !! fd = Some c.
Proof.
  unfold process_accept. case_match; [done|]. intros (l & E & [= <-])%bind_Ret_inv Hne Hfd Hc.
  rewrite lookup_insert_ne by done. apply elem_of_list_to_map_1.
  - eapply sublist_NoDup; [apply (std_iter_NoDup conns)|]. apply (fmap_sublist fst), (gc_loop_sublist _ _ E).
  - eapply gc_loop_keeps; [done| |done]. by apply std_iter_lookup.
Qed.

(** The accepting thread drops no connection that is alive or in use, unless its
    descriptor is given out again; and an [accept] that fails, for whatever
    reason, ends the thread, after which no client can connect. *)
Theorem accept_conn_keeps lossy l conns a fd c :
  accept_conn lossy l conns = Ret a -> conns !! fd = Some c ->
  isdead c && (ref c =? 1) = false -> (forall now, SelAccept fd now ∉ l) ->
  table a !! fd = Some c /\
  forall now l', accept_conn lossy (SelAccept (-1) now :: l') conns = Ret (Exited conns).
Proof.
  intros E Hfd Hc Hno. split; [|done]. revert conns E Hfd.
  induction l as [|x l IH]; intros conns E Hfd; cbn [accept_conn] in E; [by injection E as <-|].
  assert (forall now, SelAccept fd now ∉ l) as Hno' by (intros now Hin; apply (Hno now); by right).
  destruct x as [| | | |s1 now]; [by apply (IH Hno' conns)|done|done|by injection E as <-|].
  apply bind_Ret_inv in E as ([conns1|] & Ep & E); [|by injection E as <-].
  apply (IH Hno' conns1); [done|]. eapply process_accept_keeps; [done| |done|done].
  intros ->. apply (Hno now). left.
Qed.

(** ** A sender and a receiver *)

(** The two ends of a byte stream: the sending connection, the bytes under way,
    the receiving connection with its socket, the buffers given to [send] and
    the PDUs handed to the receiver's manager. *)
Record link := Link {
  snd : connection;
  net : str;
  rcv : connection;
  sock : socket;
  sent : list str;
  got : list str;
}.

(** The steps: a [send] gets its turn, the poll thread writes more, a [send]
    ends, bytes arrive, and the receiver's poll thread reads.  [write] takes no
    more than it is given; the length word of a PDU arrives as a whole. *)
Definition write_within (w : write_result) (c : connection) : Prop :=
  match w with Wrote n => Z.of_nat n <= sz (wpdu_ c) - solong (wpdu_ c) | _ => True end.
Inductive link_step : link -> link -> Prop :=
  | k_send b lost w c net r s snt gt st ops out c' :
      4 < Z.of_nat (length b) <= MAX_PDU ->
      buf (wpdu_ c) = None -> dead_ c = false ->
      write_within w (set_wpdu c (CharBuf (Some b) (Z.of_nat (length b)) 0)) ->
      send_turn b (Z.of_nat (length b)) lost w c = Ret (st, ops, out, c') ->
      link_step (Link c net r s snt gt) (Link c' (net ++ out) r s (snt ++ [b]) gt)
  | k_write w c net r s snt gt b ops out c' :
      write_within w c -> write_cb w c = Ret (b, ops, out, c') ->
      link_step (Link c net r s snt gt) (Link c' (net ++ out) r s snt gt)
  | k_end c net r s snt gt :
      send_waits c = false ->
      link_step (Link c net r s snt gt) (Link (send_end c).2 net r s snt gt)
  | k_arrive n c net r s snt gt :
      link_step (Link c net r s snt gt)
        (Link c (drop n net) r (Socket (inq s ++ take n net) (eof s) (eagain s)) snt gt)
  | k_read accepts c net r s snt gt x ops s' r' :
      inq s <> [] -> (buf (rpdu_ r) = None -> (4 <= length (inq s))%nat) ->
      read_cb accepts s r = Ret (x, ops, s', r') ->
      link_step (Link c net r s snt gt)
        (Link c net r' s' snt (gt ++ from_option (fun b => [b]) [] x)).

(** The bytes of a buffer on the wire. *)
Definition frame (b : str) : str := htonl (Z.of_nat (length b)) ++ drop 4 b.
Definition wire (l : list str) : str := concat (frame <$> l).

(** ** Lemmas *)

Lemma ntohl_htonl z : is_i32 z -> ntohl (htonl z) = z.
Proof.
  intros Hz. unfold ntohl, htonl. cbn [foldl]. rewrite !char_to_Z_to_char.
  assert (forall a b, 0 <= b < 256 -> Z.lor (Z.shiftl a 8) b = a * 256 + b) as Hlor.
  { intros a b Hb. rewrite Z.shiftl_mul_pow2 by lia. change (2 ^ 8) with 256.
    rewrite <-Z.lxor_lor, <-Z.add_nocarry_lxor; [done| |];
      (apply Z.bits_inj'; intros n Hn; rewrite Z.land_spec, Z.bits_0;
       destruct (Z.lt_ge_cases n 8) as [Hlt|Hge];
       [change 256 with (2 ^ 8); by rewrite Z.mul_pow2_bits_low
       |rewrite <-(Z.mod_small b (2 ^ 8)) by done; rewrite Z.mod_pow2_bits_high by lia;
        apply andb_false_r]). }
  rewrite !Hlor by (unfold u8; apply Z.mod_pos_bound; lia).
  rewrite !Z.shiftr_div_pow2 by lia. change (2 ^ 24) with 16777216. change (2 ^ 16) with 65536.
  change (2 ^ 8) with 256. width.
Qed.
Lemma length_frame b : (4 <= length b)%nat -> length (frame b) = length b.
Proof. intros. unfold frame. rewrite length_app, length_drop. cbn. lia. Qed.
Lemma frame_frame b : (4 <= length b)%nat -> frame (frame b) = frame b.
Proof. intros. unfold frame at 1. rewrite length_frame by done. done. Qed.
Lemma wire_app l l' : wire (l ++ l') = wire l ++ wire l'.
Proof. unfold wire. by rewrite fmap_app, concat_app. Qed.
Lemma wire_one b : wire [b] = frame b.
Proof. apply app_nil_r. Qed.

Definition sendable (b : str) : Prop := 4 < Z.of_nat (length b) <= MAX_PDU.
Lemma sendable_i32 b : sendable b -> (4 < length b)%nat /\ is_i32 (Z.of_nat (length b)).
Proof. unfold sendable. change MAX_PDU with 10485760. intros. split; [lia|width]. Qed.

(** The sender, with the bytes of its current PDU that have not gone out. *)
Definition snd_inv (c : connection) (fut : str) : Prop :=
  dead_ c = false ->
  match buf (wpdu_ c) with
  | None => fut = []
  | Some b => (4 < length b)%nat /\ sz (wpdu_ c) = Z.of_nat (length b) /\
      0 <= solong (wpdu_ c) <= sz (wpdu_ c) /\ (0 < solong (wpdu_ c) -> b = frame b) /\
      fut = drop (Z.to_nat (solong (wpdu_ c))) (frame b)
  end.

Lemma writepdu_inv w c fut ok out c' :
  snd_inv c fut -> dead_ c = false -> write_within w c -> writepdu w c = Ret (ok, out, c') ->
  exists fut', fut = out ++ fut' /\ dead_ c' = false /\ (ok = true -> snd_inv c' fut').
Proof.
  intros Hi Hd Hw. specialize (Hi Hd). unfold writepdu. intros E. inv_bind.
  destruct (solong (wpdu_ c) =? sz (wpdu_ c)); [simplify_eq; exists fut; split_and!; try done; by intros _ _|].
  destruct (buf (wpdu_ c)) as [b|] eqn:Eb; [|done]. destruct Hi as (Hlen & Hsz & Hso & Hfr & ->).
  inv_bind. clear E1. set (b' := if solong (wpdu_ c) =? 0 then _ else _) in E.
  assert (b' = frame b) as Hb'.
  { unfold b'. rewrite Hsz. destruct (Z.eqb_spec (solong (wpdu_ c)) 0); [done|]. apply Hfr. lia. }
  clearbody b'. subst b'. destruct w as [n| |]; simplify_eq.
  - exists (drop n (drop (Z.to_nat (solong (wpdu_ c))) (frame b))). rewrite take_drop.
    split; [done|]. split; [done|]. intros _ _. cbn [buf wpdu_ set_wpdu sz solong]. cbn in Hw.
    rewrite length_frame, frame_frame, drop_drop by lia.
    split_and!; try done; try lia. f_equal. lia.
  - eexists. split; [done|]. split; [done|]. intros _ _. cbn [buf wpdu_ set_wpdu sz solong].
    rewrite length_frame, frame_frame by lia. split_and!; done || lia.
  - by eexists.
Qed.

(** The receiver: [rest] are the PDUs it has not delivered. *)
Definition rcv_inv (r : connection) (rest : list str) : Prop :=
  dead_ r = false /\
  match buf (rpdu_ r) with
  | None => sz (rpdu_ r) = 0
  | Some x => exists b rest', rest = b :: rest' /\ sz (rpdu_ r) = Z.of_nat (length b) /\
      solong (rpdu_ r) = Z.of_nat (length x) /\ (4 <= length x <= length b)%nat
  end.

(** A read of the rest of a PDU takes what is there and no more than it needs. *)
Lemma readpdu_rest_ok s c b size :
  rpdu_ c = CharBuf (Some b) size (Z.of_nat (length b)) -> Z.of_nat (length b) < size ->
  eof s = Open ->
  exists x s', readpdu_rest s c =
      Ret (true, s', set_rpdu c (CharBuf (Some (b ++ x)) size (Z.of_nat (length (b ++ x))))) /\
    inq s = x ++ inq s' /\ eof s' = Open /\ Z.of_nat (length (b ++ x)) <= size.
Proof.
  intros Ep Hlt He. unfold readpdu_rest. rewrite Ep. cbn [sz solong buf].
  destruct (Z.ltb_spec (size - Z.of_nat (length b)) 0); [lia|]. unfold sock_read.
  destruct (Z.eqb_spec (size - Z.of_nat (length b)) 0); [lia|].
  destruct (inq s) as [|q0 q] eqn:Eq.
  - rewrite He. cbn [eagain Z.leb]. exists [], (Socket [] Open true). split; [|rewrite (app_nil_r b); split_and!; done || lia].
    rewrite app_nil_r, <-Ep. by destruct c.
  - cbv zeta. set (k := Z.to_nat (size - Z.of_nat (length b))).
    rewrite length_take. exists (take k (q0 :: q)). eexists.
    destruct (Z.leb_spec (Z.of_nat (k `min` length (q0 :: q))) 0); [cbn in *; lia|].
    rewrite length_app, length_take, Nat2Z.inj_add. split; [reflexivity|].
    cbn [inq eof]. rewrite take_drop. split_and!; try done. lia.
Qed.
Lemma wire_cons_inv rest q0 q x :
  (q0 :: q) ++ x = wire rest -> exists b rest', rest = b :: rest' /\ (q0 :: q) ++ x = frame b ++ wire rest'.
Proof. destruct rest as [|b rest']; [done|]. intros ->. by exists b, rest'. Qed.

(** The part of [read_cb] that reads leaves a part of the next PDU. *)
Lemma read_part_ok s r rest more :
  rcv_inv r rest -> Forall sendable rest -> eof s = Open ->
  inq s <> [] -> (buf (rpdu_ r) = None -> (4 <= length (inq s))%nat) ->
  default [] (buf (rpdu_ r)) ++ inq s ++ more = wire rest ->
  exists s' r' b rest' x,
    (if bool_decide (buf (rpdu_ r) = None) || (solong (rpdu_ r) <? sz (rpdu_ r))
     then readpdu s r else Ret (true, s, r)) = Ret (true, s', r') /\
    rest = b :: rest' /\ dead_ r' = false /\ eof s' = Open /\
    rpdu_ r' = CharBuf (Some x) (Z.of_nat (length b)) (Z.of_nat (length x)) /\
    (4 <= length x <= length b)%nat /\ x ++ inq s' ++ more = wire rest.
Proof.
  intros [Hd Hp] Hs He Hq H4 Hw. destruct (buf (rpdu_ r)) as [x|] eqn:Eb.
  - destruct Hp as (b & rest' & -> & Hsz & Hso & Hx). rewrite bool_decide_eq_false_2 by done.
    assert (rpdu_ r = CharBuf (Some x) (Z.of_nat (length b)) (Z.of_nat (length x))) as Ep
      by (destruct (rpdu_ r); cbn in *; by subst). cbn [orb]. rewrite Ep. cbn [solong sz].
    destruct (Z.ltb_spec (Z.of_nat (length x)) (Z.of_nat (length b))) as [Hlt|Hge].
    + unfold readpdu. rewrite Ep. cbn [sz]. destruct (Z.eqb_spec (Z.of_nat (length b)) 0); [lia|].
      destruct (readpdu_rest_ok s r x _ Ep Hlt He) as (y & s' & -> & Ei & He' & Hl).
      eexists _, _, b, rest', (x ++ y). split; [done|]. split_and!; try done.
      * rewrite length_app. lia.
      * lia.
      * change (x ++ inq s ++ more = wire (b :: rest')) in Hw. rewrite Ei in Hw. by rewrite <-Hw, <-!app_assoc.
    + by exists s, r, b, rest', x.
  - destruct (inq s) as [|q0 q] eqn:Eq; [done|]. cbn [default app] in Hw.
    destruct (wire_cons_inv rest q0 q more Hw) as (b & rest' & -> & Hf).
    specialize (H4 eq_refl). apply Forall_cons in Hs as [Hsend _].
    destruct (sendable_i32 b Hsend) as [Hb Hi]. destruct Hsend as [_ Hmax].
    assert (take 4 (q0 :: q) = htonl (Z.of_nat (length b))) as Ht.
    { apply (f_equal (take 4)) in Hf. rewrite take_app_le in Hf by done. exact Hf. }
    rewrite bool_decide_eq_true_2 by done. cbn [orb]. unfold readpdu. rewrite Hp. cbn [Z.eqb].
    unfold sock_read. cbn [Z.eqb]. rewrite Eq. change (Z.to_nat 4) with 4%nat. rewrite Ht.
    change (length (htonl _)) with 4%nat. change (Z.of_nat 4 =? 0) with false.
    change (Z.of_nat 4 <? 0) with false. change (Z.of_nat 4 =? 4) with true. cbn [negb].
    rewrite (ntohl_htonl _ Hi). set (s1 := Socket _ _ _). set (size := Z.of_nat (length b)) in *.
    destruct (Z.ltb_spec MAX_PDU size) as [|_]; [lia|]. rewrite Eb, bool_decide_eq_true_2 by done.
    destruct (Z.leb_spec 0 (size + 4)) as [_|]; [|lia]. cbn [VERIFY]. rewrite !outcome_bind_Ret.
    destruct (Z.ltb_spec size 0) as [|_]; [lia|].
    set (r1 := set_rpdu r _). destruct (readpdu_rest_ok s1 r1 (htonl size) size)
      as (y & s' & -> & Ei & He' & Hl); [done|change (4 < size); lia|done|].
    eexists _, _, b, rest', (htonl size ++ y). split; [done|]. split_and!; try done.
    + rewrite length_app. change (length (htonl size)) with 4%nat. lia.
    + lia.
    + rewrite <-Ht, <-app_assoc, (app_assoc y), <-Ei. unfold s1; cbn [inq].
      by rewrite app_assoc, take_drop.
Qed.

Lemma read_cb_ok accepts s r rest more :
  rcv_inv r rest -> Forall sendable rest -> eof s = Open ->
  inq s <> [] -> (buf (rpdu_ r) = None -> (4 <= length (inq s))%nat) ->
  default [] (buf (rpdu_ r)) ++ inq s ++ more = wire rest ->
  exists x s' r', read_cb accepts s r = Ret (x, [], s', r') /\ eof s' = Open /\
    exists rest', rcv_inv r' rest' /\ default [] (buf (rpdu_ r')) ++ inq s' ++ more = wire rest' /\
      match x with
      | None => rest' = rest
      | Some d => exists b, rest = b :: rest' /\ d = frame b
      end.
Proof.
  intros Hr Hs He Hq H4 Hw. pose proof Hr as [Hd _]. unfold read_cb. rewrite Hd.
  destruct (read_part_ok s r rest more) as (s' & r1 & b & rest' & x & -> & -> & Hd1 & He' & Ep & Hx & Hw');
    try done. rewrite outcome_bind_Ret. cbv beta iota. rewrite Ep. cbn [buf sz solong].
  destruct (Z.eqb_spec (Z.of_nat (length b)) (Z.of_nat (length x))) as [El|El].
  - destruct accepts.
    + eexists _, s', _. split; [done|]. split; [done|]. exists rest'. split; [done|].
      apply Forall_cons in Hs as [[Hb _]%sendable_i32 _].
      change (wire (b :: rest')) with (frame b ++ wire rest') in Hw'.
      apply app_inj_1 in Hw' as [-> Hw']; [by eauto|]. rewrite length_frame by lia. lia.
    + eexists _, s', r1. split; [done|]. split; [done|]. exists (b :: rest').
      split; [split; [done|]; rewrite Ep; cbn; by eauto 10|]. by rewrite Ep.
  - eexists _, s', r1. split; [done|]. split; [done|]. exists (b :: rest').
    split; [split; [done|]; rewrite Ep; cbn; by eauto 10|]. by rewrite Ep.
Qed.

(** ** The stream *)

Definition link_new (t1 t2 : Z * Z) (lossy1 lossy2 : Z) (e : bool) : link :=
  Link (connection_new t1 lossy1).1 [] (connection_new t2 lossy2).1 (Socket [] Open e) [] [].
Definition link_inv (k : link) : Prop :=
  exists done rest fut, sent k = done ++ rest /\ got k = frame <$> done /\
    Forall sendable (sent k) /\ eof (sock k) = Open /\
    snd_inv (snd k) fut /\ rcv_inv (rcv k) rest /\
    default [] (buf (rpdu_ (rcv k))) ++ inq (sock k) ++ net k ++ fut = wire rest.

(** More is sent: what the receiver has is still a part of its next PDU. *)
Lemma rcv_inv_app r rest more : rcv_inv r rest -> rcv_inv r (rest ++ more).
Proof.
  unfold rcv_inv. destruct (buf (rpdu_ r)); [|done].
  intros (? & b & rest' & -> & ?). split; [done|]. by exists b, (rest' ++ more).
Qed.
Lemma send_turn_inv b lost w c st ops out c' :
  sendable b -> buf (wpdu_ c) = None -> dead_ c = false ->
  write_within w (set_wpdu c (CharBuf (Some b) (Z.of_nat (length b)) 0)) ->
  send_turn b (Z.of_nat (length b)) lost w c = Ret (st, ops, out, c') ->
  exists fut, frame b = out ++ fut /\ snd_inv c' fut.
Proof.
  intros Hb Hn Hd Hw E. apply sendable_i32 in Hb as [Hb _]. unfold send_turn in E.
  rewrite Hd, Hn, bool_decide_eq_false_2 in E by naive_solver. cbn [negb andb dead_ set_waiters] in E.
  rewrite Hd in E. inv_bind. destruct a as [[ok out'] c1].
  eapply (writepdu_inv w _ (frame b)) in E0 as (fut & Hf & Hd1 & Hi); [| |done|done].
  2:{ intros _. cbn [buf wpdu_ set_wpdu set_waiters sz solong]. split_and!; done || lia. }
  exists fut. destruct ok; cbn [negb] in E.
  - destruct (_ =? _); simplify_eq; (split; [done|by apply Hi]).
  - simplify_eq. split; [done|]. by intros ?.
Qed.
Lemma link_step_inv k k' : link_step k k' -> link_inv k -> link_inv k'.
Proof.
  intros Hs (dn & rest & fut & Hsent & Hgot & Hall & He & Hsnd & Hrcv & Hw).
  destruct Hs as [b lost w c nt r s snt gt st ops out c' Hb Hn Hd Hwi E
    |w c nt r s snt gt b ops out c' Hwi E|c nt r s snt gt Hwait|n c nt r s snt gt
    |accepts c nt r s snt gt x ops s' r' Hq H4 E]; cbn [snd net rcv sock sent got] in *.
  - pose proof (Hsnd Hd) as Hf. rewrite Hn in Hf. subst fut snt. rewrite app_nil_r in Hw.
    destruct (send_turn_inv b lost w c st ops out c' Hb Hn Hd Hwi E) as (fut & Hf & Hsnd').
    exists dn, (rest ++ [b]), fut. cbn [snd net rcv sock sent got]. split_and!; try done.
    + by rewrite <-app_assoc.
    + by rewrite Forall_app, Forall_singleton.
    + by apply rcv_inv_app.
    + by rewrite wire_app, wire_one, <-Hw, Hf, <-!app_assoc.
  - unfold write_cb in E. inv_bind. apply negb_true_iff in E0.
    destruct (_ =? 0); [simplify_eq; exists dn, rest, fut; cbn; by rewrite app_nil_r|].
    inv_bind. destruct a0 as [[ok out'] c1].
    apply (writepdu_inv w c fut) in E1 as (fut' & -> & Hd1 & Hi); [|done..].
    exists dn, rest, fut'. cbn [snd net rcv sock sent got].
    destruct ok; cbn [negb] in E; inv_bind; simplify_eq; split_and!; try done;
      rewrite <-?app_assoc; try done; by auto || by intros ?.
  - exists dn, rest, fut. cbn [snd net rcv sock sent got]. split_and!; try done.
    intros Hd. change (dead_ c = false) in Hd. specialize (Hsnd Hd). cbn.
    destruct (buf (wpdu_ c)) as [b|]; [|done]. destruct Hsnd as (Hb & Hsz & Hso & _ & ->).
    unfold send_waits in Hwait. rewrite Hd in Hwait. cbn in Hwait.
    apply drop_ge. rewrite length_frame by lia.
    apply andb_false_iff in Hwait as [H|H]; lia.
  - exists dn, rest, fut. cbn [snd net rcv sock sent got inq eof]. split_and!; try done.
    rewrite <-Hw, <-app_assoc. do 2 f_equal. by rewrite app_assoc, take_drop.
  - assert (Forall sendable rest) as Hr by (rewrite Hsent in Hall; by apply Forall_app in Hall as [_ ?]).
    destruct (read_cb_ok accepts s r rest (nt ++ fut)) as (x' & s1 & r1 & E' & He' & rest' & Hrcv' & Hw' & Hx);
      try done. rewrite E in E'. simplify_eq. destruct x' as [d|].
    + destruct Hx as (b & -> & ->). exists (dn ++ [b]), rest', fut.
      cbn [snd net rcv sock sent got]. by rewrite fmap_app, <-app_assoc.
    + subst rest'. exists dn, rest, fut. cbn [snd net rcv sock sent got from_option].
      by rewrite app_nil_r.
Qed.

(** ** Properties *)


(** A PDU of six bytes, written four and two, that arrives whole. *)
Definition pdu6 : str := lit "....hi".
Definition link_run : link :=
  let k := link_new (0, 0) (0, 0) 0 0 false in
  match send_turn pdu6 6 false (Wrote 4) (snd k) with
  | Ret (_, _, o1, c1) =>
      match write_cb (Wrote 2) c1 with
      | Ret (_, _, o2, c2) =>
          let n := (net k ++ o1) ++ o2 in
          Link (send_end c2).2 (drop 6 n) (rcv k) (Socket (inq (sock k) ++ take 6 n) Open false)
            (sent k ++ [pdu6]) (got k)
      | _ => k
      end
  | _ => k
  end.
Lemma link_run_reached : rtc link_step (link_new (0, 0) (0, 0) 0 0 false) link_run.
Proof.
  eapply rtc_l; [eapply (k_send pdu6 false (Wrote 4)); try done; vm_compute; done|].
  eapply rtc_l; [eapply (k_write (Wrote 2)); [vm_compute; done|reflexivity]|].
  eapply rtc_l; [apply k_end; reflexivity|]. apply rtc_once. apply (k_arrive 6).
Qed.
