(* ===== verification/RpcSystem.v ===== *)
(** * A client, a server and the network between them

    [rpcc] and [rpcs] put together: the threads of a client begin calls,
    transmit them and end, the network loses, repeats and reorders what is sent,
    the workers of the server check a request, run its handler and send the
    reply, each in steps of their own, and the server is used by other clients
    at the same time.  The steps are the definitions of [RpcClient] and
    [RpcServer]; a connection may put its length into the first four bytes of
    what it carries ([Connection]). *)
From S2P Require Import Prelude Connection Marshall Protocols RpcStub RpcServer RpcClient.

(** An execution of a handler: the request's header and arguments, the state it
    found, its status and reply, and the state it left. *)
Record exec (S : Type) := Exec {
  e_hdr : req_header; e_in : unmarshall; e_pre : S; e_ret : Z; e_rep : marshall; e_post : S }.
Arguments Exec {S}. Arguments e_hdr {S}. Arguments e_in {S}. Arguments e_pre {S}.
Arguments e_ret {S}. Arguments e_rep {S}. Arguments e_post {S}.

(** A call that has returned: its xid, its status and the reader of its reply. *)
Record ended := Ended { n_xid : Z; n_ret : Z; n_un : unmarshall }.

(** The system, for one client: its object and the requests of its threads in
    [call1]; the server with the workers that have a handler to run or a reply
    to send; the PDUs under way.  The last three fields are history: the
    requests made, the executions and the calls that have returned. *)
Record rsys (S : Type) := RSys {
  rs_cl : rpcc;
  rs_calls : gmap Z (marshall * Z);
  rs_sv : rpcs S;
  rs_work : list (handler S * req_header * unmarshall * Z);
  rs_sending : list (req_header * Z * str * Z);
  rs_reqs : list str;
  rs_reps : list str;
  rs_made : list (req_header * marshall);
  rs_execs : list (exec S);
  rs_ends : list ended;
}.
Arguments RSys {S}. Arguments rs_cl {S}. Arguments rs_calls {S}. Arguments rs_sv {S}.
Arguments rs_work {S}. Arguments rs_sending {S}. Arguments rs_reqs {S}. Arguments rs_reps {S}.
Arguments rs_made {S}. Arguments rs_execs {S}. Arguments rs_ends {S}.

(** What arrives of a buffer that was sent: the connection has written the
    length over its first four bytes, and takes no more than [MAX_PDU]. *)
Definition arrives (b b' : str) : Prop :=
  length b' = length b /\ drop 4 b' = drop 4 b /\ Z.of_nat (length b') <= MAX_PDU.

(** The arguments a handler is given to read. *)
Definition readable (u : unmarshall) : Prop :=
  unmarshall_wf u /\ u_ok u = true /\ u_sz u <= MAX_PDU.
Lemma reader_arrived b :
  Z.of_nat (length b) <= MAX_PDU ->
  let u := (unpack_req_header (unmarshall_pdu b (Z.of_nat (length b)))).2 in
  u_ok u = true -> readable u.
Proof.
  intros Hb. destruct (unpack_req_header _) as [h u] eqn:E. cbn. intros Hu.
  destruct (unpack_req_header_wf b h u E Hu) as [Hwf Hs]; [|split_and!; [done|done|by rewrite Hs]].
  change MAX_PDU with 10485760 in Hb. lia.
Qed.

Section system.
Context `{FreshMem} {S : Type}.
Variable create_time : Z -> Z * Z.
(** The client's nonce, and whether its calls wait for their reply however long
    it takes. *)
Variables (n : Z) (patient : bool).

(** The check of a request, the run of its handler and the sending of its reply are
    steps of their own, so the workers interleave in any way.  Two things are one
    step that the code does not see to: a handler takes effect at one moment,
    which is so where it holds its server's mutex, and [dispatch] sends a reply it
    remembers with the check that found it, though it has left [reply_window_m_]
    by then. *)
Inductive rpc_step : rsys S -> rsys S -> Prop :=
  (* a thread of the client enters [call1] *)
  | s_call proc req un cl ca sv wk sd rq rp md ex en x req' r cl' :
      xid_ cl < 2 ^ 31 - 1 -> is_i32 proc -> marshall_wf req -> m_ind req < 2 ^ 31 ->
      call1_begin proc req un cl = Ret (inr (x, req', r), cl') ->
      rpc_step (RSys cl ca sv wk sd rq rp md ex en)
        (RSys cl' (<[x := (req', r)]> ca) sv wk sd rq rp
           ((ReqHeader (i32 x) (i32 proc) (clt_nonce_ cl) (srv_nonce_ cl) r, req) :: md) ex en)
  (* it transmits its request, once for every connection it tries *)
  | s_transmit x req r cl ca sv wk sd rq rp md ex en :
      ca !! x = Some (req, r) ->
      rpc_step (RSys cl ca sv wk sd rq rp md ex en)
        (RSys (call1_transmit req cl).2 ca sv wk sd (rq ++ (call1_transmit req cl).1) rp md ex en)
  (* [bind] has the answer of [rpcbind] *)
  | s_bind r cl ca sv wk sd rq rp md ex en :
      u32 r = nonce_ sv ->
      rpc_step (RSys cl ca sv wk sd rq rp md ex en)
        (RSys (bind_finish 0 r cl) ca sv wk sd rq rp md ex en)
  (* a reply arrives *)
  | s_reply b b' cl ca sv wk sd rq rp md ex en :
      b ∈ rp -> arrives b b' ->
      rpc_step (RSys cl ca sv wk sd rq rp md ex en)
        (RSys (rpcc_got_pdu b' (Z.of_nat (length b')) cl) ca sv wk sd rq rp md ex en)
  (* a thread leaves [call1] *)
  | s_end x req r c cl ca sv wk sd rq rp md ex en :
      ca !! x = Some (req, r) -> calls_ cl !! i32 x = Some c ->
      (patient = true -> ca_done c = true) ->
      rpc_step (RSys cl ca sv wk sd rq rp md ex en)
        (RSys (call1_end x r req cl).2 (delete x ca) sv wk sd rq rp md ex
           (Ended x (call1_end x r req cl).1 (ca_un c) :: en))
  (* a request of the client arrives *)
  | s_deliver c b b' cl ca sv wk sd rq rp md ex en v sv' :
      b ∈ rq -> arrives b b' ->
      dispatch_check create_time c b' (Z.of_nat (length b')) sv = Ret (v, sv') ->
      rpc_step (RSys cl ca sv wk sd rq rp md ex en)
        (RSys cl ca sv'
           match v with inl _ => wk | inr (f, h, u) => (f, h, u, c) :: wk end sd rq
           match v with inl out => rp ++ out.*2 | inr _ => rp end md ex en)
  (* a request of another client arrives, whatever its bytes *)
  | s_other c b cl ca sv wk sd rq rp md ex en v sv' :
      Z.of_nat (length b) <= MAX_PDU ->
      rq_clt_nonce (unpack_req_header (unmarshall_pdu b (Z.of_nat (length b)))).1 <> n ->
      dispatch_check create_time c b (Z.of_nat (length b)) sv = Ret (v, sv') ->
      rpc_step (RSys cl ca sv wk sd rq rp md ex en)
        (RSys cl ca sv'
           match v with inl _ => wk | inr (f, h, u) => (f, h, u, c) :: wk end sd rq rp md ex en)
  (* a worker runs a handler *)
  | s_run wk1 wk2 f h u c cl ca sv sd rq rp md ex en b sz sv' ret rep :
      run_handler f h u sv = Ret (b, sz, sv') ->
      f u marshall_new (app_ sv) = Ret (ret, rep, app_ sv') ->
      rpc_step (RSys cl ca sv (wk1 ++ (f, h, u, c) :: wk2) sd rq rp md ex en)
        (RSys cl ca sv' (wk1 ++ wk2) ((h, c, b, sz) :: sd) rq rp md
           (if decide (rq_clt_nonce h = n) then Exec h u (app_ sv) ret rep (app_ sv') :: ex else ex)
           en)
  (* a worker records and sends the reply *)
  | s_send (isdead : Z -> bool) sd1 sd2 h c b sz cl ca sv wk rq rp md ex en sv' out :
      run_send isdead h c b sz sv = Ret (sv', out) ->
      rpc_step (RSys cl ca sv wk (sd1 ++ (h, c, b, sz) :: sd2) rq rp md ex en)
        (RSys cl ca sv' wk (sd1 ++ sd2) rq
           (if decide (rq_clt_nonce h = n) then rp ++ out.*2 else rp) md ex en).

(** What a service promises: its handlers keep the invariant [I] of its state and
    marshal into the buffer they are given, less than 2 GB. *)
Variable I : S -> Prop.
Definition handler_ok (f : handler S) : Prop :=
  forall u s ret rep s', readable u -> I s ->
    f u marshall_new s = Ret (ret, rep, s') ->
    I s' /\ is_i32 ret /\ marshall_wf rep /\ m_ind rep < 2 ^ 31.

(** The client starts, at a server that has not heard of it. *)
Inductive rpc_init : rsys S -> Prop :=
  | rpc_starts random lossy sv :
      u32 random = n -> 0 < n -> is_u32 (nonce_ sv) -> I (app_ sv) ->
      std_ref [] (reply_window_ sv) n = [] ->
      (forall p f, procs_ sv !! p = Some f -> handler_ok f) ->
      rpc_init (RSys (rpcc_new true random lossy) ∅ sv [] [] [] [] [] [] []).

(** ** The invariant *)

(** The bytes of the reply of an execution. *)
Definition reply_of (e : exec S) : marshall :=
  pack_reply_header (e_rep e) (ReplyHeader (rq_xid (e_hdr e)) (e_ret e)).
Definition forgotten_reply (x : Z) : str :=
  pdu (pack_reply_header marshall_new (ReplyHeader x rpc_const.atmostonce_failure)).
Definition xid_of (e : exec S) : Z := rq_xid (e_hdr e).
Definition ours (wk : list (handler S * req_header * unmarshall * Z)) : list Z :=
  (fun w => rq_xid w.1.1.2) <$> filter (fun w => rq_clt_nonce w.1.1.2 = n) wk.

#[local] Arguments ours : simpl never.

(** What a call may be told: the result of an execution of its request, or that
    the request was forgotten and is never executed. *)
Definition result_ok (ex : list (exec S)) (nw fg : list Z) (x ret : Z) (u : unmarshall) : Prop :=
  (exists e, e ∈ ex /\ xid_of e = x /\ ret = e_ret e /\
     unmarshall_wf u /\ u_ok u = true /\ remaining u = m_str (e_rep e)) \/
  (ret = rpc_const.atmostonce_failure /\ x ∈ fg /\ x ∉ nw).

Record made_ok (sv : rpcs S) (xid : Z) (rep : Z -> Z) (rp : list Z) (h : req_header) (req : marshall)
    : Prop := {
  mo_xid : 1 <= rq_xid h < xid;
  mo_valid : valid_req_header h;
  mo_clt : rq_clt_nonce h = n;
  mo_srv : rq_srv_nonce h = 0 \/ rq_srv_nonce h = nonce_ sv;
  mo_rep : rq_xid_rep h = rep (rq_xid h) /\ 0 <= rep (rq_xid h) < rq_xid h;
  mo_acks : forall y, 1 <= y <= rep (rq_xid h) -> y ∈ rp;
  mo_req : marshall_wf req /\ m_ind req < 2 ^ 31;
}.
Record exec_ok (sv : rpcs S) (md : list (req_header * marshall)) (e : exec S) : Prop := {
  eo_made : exists req, (e_hdr e, req) ∈ md /\ remaining (e_in e) = m_str req;
  eo_in : readable (e_in e);
  eo_pre : I (e_pre e);
  eo_run : exists f : handler S, procs_ sv !! rq_proc (e_hdr e) = Some f /\
    f (e_in e) marshall_new (e_pre e) = Ret (e_ret e, e_rep e, e_post e);
  eo_rep : 0 <= e_ret e /\ is_i32 (e_ret e) /\ marshall_wf (e_rep e) /\ m_ind (e_rep e) < 2 ^ 31;
}.

(** [rp] are the xids the client has reported, [nw], [an] and [fg] those of its
    window, [F] the window's floor, and [rep] the acknowledgements of its
    headers. *)
Record sys_inv (s : rsys S) (rep : Z -> Z) (F : Z) (rp nw an fg : list Z) : Prop := {
  si_client : client_inv (rs_cl s) [] rp /\ clt_nonce_ (rs_cl s) = n;
  si_nonces : 0 < n /\ is_u32 n /\ is_u32 (nonce_ (rs_sv s)) /\
    (srv_nonce_ (rs_cl s) = 0 \/ srv_nonce_ (rs_cl s) = nonce_ (rs_sv s));
  si_app : I (app_ (rs_sv s));
  si_procs : forall p f, procs_ (rs_sv s) !! p = Some f -> handler_ok f;
  si_made : forall h req, (h, req) ∈ rs_made s -> made_ok (rs_sv s) (xid_ (rs_cl s)) rep rp h req;
  si_fresh : NoDup (rq_xid ∘ fst <$> rs_made s);
  si_calls : forall x req' r, rs_calls s !! x = Some (req', r) ->
    exists h req, (h, req) ∈ rs_made s /\ rq_xid h = x /\ req' = pack_req_header req h;
  si_reqs : forall b, b ∈ rs_reqs s \/ b = rqs_buf (dup_req_ (rs_cl s)) /\ isvalid (dup_req_ (rs_cl s)) = true ->
    exists h req, (h, req) ∈ rs_made s /\ b = pdu (pack_req_header req h);
  si_window : window_inv rep F (std_ref [] (reply_window_ (rs_sv s)) n) nw an fg;
  si_floor : forall y, 1 <= y <= F -> y ∈ rp;
  si_told : forall y, y ∈ rp -> y ∈ an \/ y ∈ fg;
  si_fg : forall x, x ∈ fg -> 1 <= x < xid_ (rs_cl s);
  si_nw : nw ≡ₚ ours (rs_work s) ++ (xid_of <$> rs_execs s);
  si_an : forall x, x ∈ an -> x ∈ xid_of <$> rs_execs s;
  si_work : forall f h u c, (f, h, u, c) ∈ rs_work s ->
    (handler_ok f /\ readable u) /\
    (rq_clt_nonce h = n -> procs_ (rs_sv s) !! rq_proc h = Some f /\
       exists req, (h, req) ∈ rs_made s /\ remaining u = m_str req);
  si_execs : forall e, e ∈ rs_execs s -> exec_ok (rs_sv s) (rs_made s) e;
  si_sending : forall h c b sz, (h, c, b, sz) ∈ rs_sending s -> rq_clt_nonce h = n ->
    exists e, e ∈ rs_execs s /\ e_hdr e = h /\ (b, sz) = m_take_buf (reply_of e);
  si_stored : forall r, r ∈ std_ref [] (reply_window_ (rs_sv s)) n -> r_cb_present r = true ->
    exists e, e ∈ rs_execs s /\ xid_of e = r_xid r /\ xid_of e ∈ an /\
      (r_buf r, r_sz r) = m_take_buf (reply_of e);
  si_reps : forall b, b ∈ rs_reps s ->
    (exists e, e ∈ rs_execs s /\ xid_of e ∈ an /\ b = pdu (reply_of e)) \/
    (exists x, x ∈ fg /\ b = forgotten_reply x);
  si_waiting : forall x c, calls_ (rs_cl s) !! x = Some c -> is_i32 x /\
    if ca_done c then x ∈ rp /\ result_ok (rs_execs s) nw fg x (ca_intret c) (ca_un c) else x ∉ rp;
  si_ends : forall e, e ∈ rs_ends s ->
    (exists h req, (h, req) ∈ rs_made s /\ rq_xid h = n_xid e) /\
    result_ok (rs_execs s) nw fg (n_xid e) (n_ret e) (n_un e);
}.

(** ** Lemmas on the parts *)

Lemma window_inv_rep (rep rep' : Z -> Z) F w nw an fg :
  window_inv rep F w nw an fg -> (forall x, x ∈ nw -> rep' x = rep x) ->
  window_inv rep' F w nw an fg.
Proof.
  intros Hinv Heq. pose proof (inv_pos _ _ _ _ _ _ Hinv) as Hpos. destruct Hinv.
  constructor; try done. intros x Hx. rewrite Heq by done. by apply Hpos.
Qed.
Lemma result_ok_mono ex ex' nw nw' fg fg' x ret u :
  result_ok ex nw fg x ret u -> (forall e, e ∈ ex -> e ∈ ex') -> (forall y, y ∈ fg -> y ∈ fg') ->
  (x ∈ fg -> x ∉ nw -> x ∉ nw') -> result_ok ex' nw' fg' x ret u.
Proof. intros [(e & ? & ?)|(? & ? & ?)] He Hf Hn; [left; eauto|right; eauto]. Qed.

(** The client takes a reply of the server. *)
Lemma got_pdu_eq m x ret b' cl :
  marshall_wf m -> m_ind m < 2 ^ 31 -> is_i32 x -> 0 <= x -> is_i32 ret ->
  arrives (pdu (pack_reply_header m (ReplyHeader x ret))) b' ->
  exists u, (unmarshall_wf u /\ u_ok u = true /\ remaining u = m_str m) /\
  rpcc_got_pdu b' (Z.of_nat (length b')) cl =
    let cl := set_rep_window cl (update_xid_rep x (xid_rep_window_ cl)) in
    match calls_ cl !! x with
    | None => cl
    | Some ca => if ca_done ca then cl
                 else set_calls cl (<[x := Caller (ca_xid ca) u ret true]> (calls_ cl))
    end.
Proof.
  intros Hm Hi Hx Hx0 Hr (Hl & Hd & _).
  pose proof (reply_header_framed m (ReplyHeader x ret) b' Hm Hi Hx Hr Hl Hd) as Hrt.
  assert (Z.of_nat (length b') = m_ind m) as ->.
  { rewrite Hl, pack_reply_header_eq by done.
    apply (pdu_layout m (reply_header_bytes (ReplyHeader x ret)) Hm). simpl. lia. }
  unfold rpcc_got_pdu. unfold unpack_reply_header in *.
  destruct (unpack _) as [x' u1], (unpack u1) as [ret' u2].
  destruct Hrt as ([= -> ->] & Hok & Hwf & Hrem). exists (take_in (u_seek u2 RPC_HEADER_SZ)).
  split. { split_and!; [done| |done]. apply Z.leb_le. apply Hwf. } rewrite Hok. cbn [negb rp_xid rp_ret]. by rewrite u32_id by width.
Qed.

(** The header and the acknowledgement of a new call. *)
Lemma call1_begin_eq proc req un cl cl' x req' r :
  call1_begin proc req un cl = Ret (inr (x, req', r), cl') ->
  x = xid_ cl /\
  req' = pack_req_header req (ReqHeader (i32 x) (i32 proc) (clt_nonce_ cl) (srv_nonce_ cl) r) /\
  cl' = set_calls (set_xid cl (u32 (x + 1))) (<[i32 x := Caller x un 0 false]> (calls_ cl)) /\
  exists f w, xid_rep_window_ cl = f :: w /\ r = i32 f.
Proof.
  unfold call1_begin. do 2 (case_match; [done|]). intros E.
  apply bind_Ret_inv in E as (f & Ef & E). injection E as <- <- <- <-.
  split_and!; [done..|]. unfold rep_front in Ef. cbn in Ef.
  destruct (xid_rep_window_ cl) as [|f0 w]; [done|]. injection Ef as ->. eauto.
Qed.

(** The window of the client is touched only by its own requests. *)
Lemma classify_other h c (st : rpcs S) stat e st' :
  classify create_time h c st = (stat, e, st') -> rq_clt_nonce h <> n ->
  std_ref [] (reply_window_ st') n = std_ref [] (reply_window_ st) n.
Proof.
  unfold classify. case_match; [by intros [= _ _ <-]|]. intros E Hn.
  set (st0 := set_window st _) in E.
  destruct (save_conn_service create_time (rq_clt_nonce h) c st0) as [_ Hw].
  unfold checkduplicate_and_update in E. rewrite Hw in E.
  destruct (check_window _ _ _) as [[stat' e'] l]. injection E as _ _ <-. cbn.
  unfold std_touch. by rewrite !std_ref_insert_ne.
Qed.
Lemma dispatch_check_service c b sz (st st' : rpcs S) v :
  dispatch_check create_time c b sz st = Ret (v, st') ->
  let h := (unpack_req_header (unmarshall_pdu b sz)).1 in
  (nonce_ st' = nonce_ st /\ app_ st' = app_ st) /\ procs_ st' = procs_ st /\
  (rq_clt_nonce h <> n ->
     std_ref [] (reply_window_ st') n = std_ref [] (reply_window_ st) n) /\
  forall f h' u, v = inr (f, h', u) -> h' = h /\ procs_ st !! rq_proc h = Some f /\
    u = (unpack_req_header (unmarshall_pdu b sz)).2 /\ u_ok u = true.
Proof.
  unfold dispatch_check. destruct (unpack_req_header _) as [h req]. cbn [fst Datatypes.snd].
  destruct (u_ok req) eqn:Hok; cbn [negb]; [|by intros [= <- <-]]. case_match; [by intros [= <- <-]|].
  destruct (procs_ st !! rq_proc h) as [f|]; [|done].
  destruct (classify create_time h c st) as [[stat e] st1] eqn:Ec. intros E.
  destruct (classify_service _ _ _ _ _ _ _ Ec) as (Hn1 & Hp1 & Ha1 & _).
  assert (nonce_ st' = nonce_ st1 /\ app_ st' = app_ st1 /\ procs_ st' = procs_ st1 /\
    reply_window_ st' = reply_window_ st1 /\
    forall f' h' u, v = inr (f', h', u) -> f' = f /\ h' = h /\ u = req) as (-> & -> & -> & -> & Hv).
  { destruct stat; [|by simplify_eq|destruct e; by simplify_eq|by simplify_eq].
    simplify_eq. split_and!; try done. by intros ? ? ? [= <- <- <-]. }
  split_and!; [done..| |].
  - intros Hh. by apply (classify_other h c st stat e).
  - by intros f' h' u (-> & -> & ->)%Hv.
Qed.
Lemma run_send_service isdead h c b sz (st st' : rpcs S) out :
  run_send isdead h c b sz st = Ret (st', out) ->
  (nonce_ st' = nonce_ st /\ app_ st' = app_ st) /\ procs_ st' = procs_ st /\
  out.*2 = [take (Z.to_nat sz) b] /\
  std_ref [] (reply_window_ st') n =
    if decide (rq_clt_nonce h = n /\ 0 < n)
    then window_reply (u32 (rq_xid h)) b sz (std_ref [] (reply_window_ st) n)
    else std_ref [] (reply_window_ st) n.
Proof.
  unfold run_send. intros E. apply bind_Ret_inv in E as ([c1 st1] & E & [= <- <-]).
  set (st0 := if 0 <? rq_clt_nonce h then _ else _) in E.
  assert (nonce_ st1 = nonce_ st0 /\ app_ st1 = app_ st0 /\ procs_ st1 = procs_ st0 /\
    reply_window_ st1 = reply_window_ st0) as (Hn1 & Ha1 & Hp1 & Hw1) by (repeat case_match; by simplify_eq).
  cbn [decref set_refs nonce_ app_ procs_ reply_window_]. rewrite Hn1, Ha1, Hp1, Hw1.
  unfold st0. destruct (Z.ltb_spec 0 (rq_clt_nonce h)); cbn; split_and!; try done.
  - unfold add_reply. destruct (decide (rq_clt_nonce h = n)) as [Heq|Hne].
    + rewrite decide_True by lia. rewrite Heq. by rewrite std_ref_insert_eq.
    + rewrite std_ref_insert_ne, decide_False by naive_solver. done.
  - rewrite decide_False by lia. done.
Qed.

(** ** The steps keep the invariant *)

Definition good (s : rsys S) : Prop := exists rep F rp nw an fg, sys_inv s rep F rp nw an fg.

Lemma made_ok_mono sv xid xid' rep rep' rp rp' h req :
  made_ok sv xid rep rp h req -> xid <= xid' -> rep' (rq_xid h) = rep (rq_xid h) ->
  (forall y, y ∈ rp -> y ∈ rp') -> made_ok sv xid' rep' rp' h req.
Proof. intros [] Hx He Hrp. constructor; rewrite ?He; try done; [lia|auto]. Qed.
Lemma nw_made s rep F rp nw an fg x :
  sys_inv s rep F rp nw an fg -> x ∈ nw -> exists h req, (h, req) ∈ rs_made s /\ rq_xid h = x.
Proof.
  intros Hi. rewrite (si_nw _ _ _ _ _ _ _ Hi), elem_of_app. intros [Hx|Hx].
  - unfold ours in Hx. apply list_elem_of_fmap in Hx as ([[[f h] u] c] & -> & [Hn Hw]%list_elem_of_filter).
    cbn in Hn. destruct (si_work _ _ _ _ _ _ _ Hi f h u c Hw) as [_ Hh].
    destruct (Hh Hn) as (_ & req & ? & _). by exists h, req.
  - apply list_elem_of_fmap in Hx as (e & -> & He).
    destruct (si_execs _ _ _ _ _ _ _ Hi e He) as [(req & ? & _) _ _ _ _]. by exists (e_hdr e), req.
Qed.
Lemma nw_range s rep F rp nw an fg x :
  sys_inv s rep F rp nw an fg -> x ∈ nw -> 1 <= x < xid_ (rs_cl s).
Proof.
  intros Hi Hx. destruct (nw_made _ _ _ _ _ _ _ _ Hi Hx) as (h & req & Hm & <-).
  by destruct (si_made _ _ _ _ _ _ _ Hi h req Hm).
Qed.

Lemma inv_call proc req un cl ca sv wk sd rq rp md ex en x req' r cl' :
  xid_ cl < 2 ^ 31 - 1 -> is_i32 proc -> marshall_wf req -> m_ind req < 2 ^ 31 ->
  call1_begin proc req un cl = Ret (inr (x, req', r), cl') ->
  good (RSys cl ca sv wk sd rq rp md ex en) ->
  good (RSys cl' (<[x := (req', r)]> ca) sv wk sd rq rp
    ((ReqHeader (i32 x) (i32 proc) (clt_nonce_ cl) (srv_nonce_ cl) r, req) :: md) ex en).
Proof.
  intros Hlt Hp Hm Hsz E (rep & F & rs & nw & an & fg & Hi).
  destruct (call1_begin_eq _ _ _ _ _ _ _ _ E) as (-> & -> & -> & f & w & Ew & ->). clear E.
  pose proof (fun x => nw_range _ _ _ _ _ _ _ x Hi) as Hnw. destruct Hi; cbn in *.
  destruct si_client0 as [Hc Hn], si_nonces0 as (Hn0 & Hnu & Hsu & Hsrv).
  pose proof (ci_xid _ _ _ Hc) as Hx. destruct (ci_rep _ _ _ Hc) as (f' & w' & Ew' & Hri & Hnx & Hf).
  rewrite Ew in Ew'. injection Ew' as <- <-.
  assert (0 <= f) as Hf0 by (apply (ri_u32 _ _ _ Hri); by left).
  rewrite !i32_id by width. set (x := xid_ cl) in *. set (h := ReqHeader x _ _ _ f).
  set (rep' := fun y => if decide (y = x) then f else rep y).
  assert (forall y, y <> x -> rep' y = rep y) as Hrep' by (intros; unfold rep'; by rewrite decide_False).
  assert (rep' x = f) as Hrepx by (unfold rep'; by rewrite decide_True).
  exists rep', F, rs, nw, an, fg. constructor; cbn; try done.
  - split; [|done]. destruct Hc. constructor; cbn; try done.
    + rewrite u32_id; width.
    + exists f, w. rewrite u32_id by width. split_and!; [done..|lia].
    + intros y Hy. apply ci_rp in Hy. rewrite u32_id by width. lia.
    + intros ? ? ? ?%elem_of_nil. done.
  - rewrite u32_id by width.
    intros h0 req0 [[= -> ->]|Hin]%elem_of_cons.
    + constructor; cbn; rewrite ?Hrepx; try done; [lia| |apply Hri].
      repeat split; cbn; try done; width.
    + eapply made_ok_mono; [by apply si_made0|lia| |done]. apply Hrep'.
      destruct (si_made0 h0 req0 Hin). lia.
  - constructor; [|done]. intros ([h0 req0] & E & Hin)%list_elem_of_fmap. cbn in E.
    destruct (si_made0 h0 req0 Hin). lia.
  - intros y req1 r1. rewrite lookup_insert_Some. intros [[<- [= <- <-]]|[_ Hl]].
    + exists h, req. split_and!; [by left|done|done].
    + destruct (si_calls0 _ _ _ Hl) as (h0 & req0 & ? & ?). exists h0, req0. split; [by right|done].
  - intros b Hb. destruct (si_reqs0 b Hb) as (h0 & req0 & ? & ?). exists h0, req0. split; [by right|done].
  - eapply window_inv_rep; [exact si_window0|]. intros y Hy. apply Hrep'. specialize (Hnw y Hy). lia.
  - intros y Hy. rewrite u32_id by width. specialize (si_fg0 y Hy). lia.
  - intros f0 h0 u c Hw. destruct (si_work0 f0 h0 u c Hw) as [? Hh]. split; [done|].
    intros Hh0. destruct (Hh Hh0) as (? & req0 & ? & ?). split; [done|]. exists req0. split; [by right|done].
  - intros e He. destruct (si_execs0 e He) as [(req0 & ? & ?) ? ? ? ?]. constructor; try done.
    exists req0. split; [by right|done].
  - intros y c. rewrite lookup_insert_Some. intros [[<- <-]|[_ Hl]]; cbn.
    + split; [width|]. intros Hin. apply (ci_rp _ _ _ Hc) in Hin. lia.
    + by apply si_waiting0.
  - intros e He. destruct (si_ends0 e He) as [(h0 & req0 & ? & ?) ?].
    split; [exists h0, req0; split; [by right|done]|done].
Qed.
Lemma inv_transmit x req r cl ca sv wk sd rq rp md ex en :
  ca !! x = Some (req, r) ->
  good (RSys cl ca sv wk sd rq rp md ex en) ->
  good (RSys (call1_transmit req cl).2 ca sv wk sd (rq ++ (call1_transmit req cl).1) rp md ex en).
Proof.
  intros Hx (rep & F & rs & nw & an & fg & Hi). exists rep, F, rs, nw, an, fg.
  assert (forall b, b ∈ (call1_transmit req cl).1 \/ b ∈ rq \/
      b = rqs_buf (dup_req_ cl) /\ isvalid (dup_req_ cl) = true ->
    exists h req, (h, req) ∈ md /\ b = pdu (pack_req_header req h)) as Hreqs.
  { intros b Hb. assert (b = pdu req \/ b ∈ rq \/
      b = rqs_buf (dup_req_ cl) /\ isvalid (dup_req_ cl) = true) as [->|Hb'].
    { unfold call1_transmit in Hb. destruct Hb as [Hb|Hb]; [|by right].
      destruct (reachable_ cl); [|by apply elem_of_nil in Hb].
      destruct (isvalid (dup_req_ cl)) eqn:Ev; cbn [andb] in Hb; [case_match|]; set_solver. }
    - destruct (si_calls _ _ _ _ _ _ _ Hi x req r Hx) as (h & req0 & ? & _ & ->). by exists h, req0.
    - by apply (si_reqs _ _ _ _ _ _ _ Hi). }
  assert (exists d, (call1_transmit req cl).2 = set_dup cl d (xid_rep_done_ cl) /\
    (d = dup_req_ cl \/ d = request_clear)) as (d & -> & Hd).
  { unfold call1_transmit. destruct (reachable_ cl); [case_match|]; cbn.
    - exists request_clear. by split; [|right].
    - exists (dup_req_ cl). split; [by destruct cl|by left].
    - exists (dup_req_ cl). split; [by destruct cl|by left]. }
  destruct Hi; cbn in *. constructor; cbn; try done.
  - split; [|apply si_client0]. eapply client_inv_frame; [apply si_client0|done..].
  - intros b Hb. apply Hreqs. rewrite elem_of_app in Hb. destruct Hb as [[Hb|Hb]|[-> Hv]]; auto.
    destruct Hd as [->| ->]; [auto|done].
Qed.
Lemma inv_bind_finish r cl ca sv wk sd rq rp md ex en :
  u32 r = nonce_ sv ->
  good (RSys cl ca sv wk sd rq rp md ex en) ->
  good (RSys (bind_finish 0 r cl) ca sv wk sd rq rp md ex en).
Proof.
  intros Hr (rep & F & rs & nw & an & fg & Hi). exists rep, F, rs, nw, an, fg.
  destruct Hi; cbn in *. constructor; cbn; try done.
  - split; [|apply si_client0]. eapply client_inv_frame; [apply si_client0|done..].
  - destruct si_nonces0 as (? & ? & ? & ?). split_and!; try done. by right.
Qed.

(** A reply is one of an execution or says that the request is forgotten; either
    way the client reports its xid and, if it still waits, has its answer. *)
Lemma reply_parts s rep F rp nw an fg b :
  sys_inv s rep F rp nw an fg -> b ∈ rs_reps s ->
  exists m x ret, b = pdu (pack_reply_header m (ReplyHeader x ret)) /\
    marshall_wf m /\ m_ind m < 2 ^ 31 /\ 1 <= x < xid_ (rs_cl s) /\ is_i32 ret /\
    (x ∈ an \/ x ∈ fg) /\
    (x ∉ rp -> forall u, unmarshall_wf u /\ u_ok u = true /\ remaining u = m_str m -> result_ok (rs_execs s) nw fg x ret u).
Proof.
  intros Hi Hb. destruct (si_reps _ _ _ _ _ _ _ Hi b Hb) as [(e & He & Han & ->)|(x & Hfg & ->)].
  - destruct (si_execs _ _ _ _ _ _ _ Hi e He) as [(req & Hmade & _) _ _ _ (H0 & Hr & Hm & Hsz)].
    exists (e_rep e), (xid_of e), (e_ret e). split_and!; try done.
    + by destruct (si_made _ _ _ _ _ _ _ Hi _ _ Hmade) as [[? _] _ _ _ _ _ _].
    + by destruct (si_made _ _ _ _ _ _ _ Hi _ _ Hmade) as [[_ ?] _ _ _ _ _ _].
    + by left.
    + intros _ u Hu. left. by exists e.
  - exists marshall_new, x, rpc_const.atmostonce_failure.
    pose proof (si_fg _ _ _ _ _ _ _ Hi x Hfg). split_and!; try done; try lia; [by right|].
    intros Hx u _. right. split_and!; try done. intros Hnw. apply Hx.
    apply (si_floor _ _ _ _ _ _ _ Hi).
    pose proof (inv_fg_nw _ _ _ _ _ _ (si_window _ _ _ _ _ _ _ Hi) x Hfg Hnw). lia.
Qed.
Lemma inv_reply b b' cl ca sv wk sd rq rp md ex en :
  b ∈ rp -> arrives b b' ->
  good (RSys cl ca sv wk sd rq rp md ex en) ->
  good (RSys (rpcc_got_pdu b' (Z.of_nat (length b')) cl) ca sv wk sd rq rp md ex en).
Proof.
  intros Hb Hfr (rep & F & rs & nw & an & fg & Hi).
  destruct (reply_parts _ _ _ _ _ _ _ b Hi Hb) as (m & x & ret & -> & Hm & Hsz & Hx & Hr & Htold & Hres).
  cbn in Hx. pose proof (ci_xid _ _ _ (proj1 (si_client _ _ _ _ _ _ _ Hi))) as Hxid. cbn in Hxid.
  destruct (got_pdu_eq m x ret b' cl Hm Hsz) as (u & Hu & ->); [width|lia|done|done|].
  set (cl0 := set_rep_window cl (update_xid_rep x (xid_rep_window_ cl))).
  assert (exists calls, (match calls_ cl0 !! x with
      | None => cl0
      | Some c => if ca_done c then cl0
                  else set_calls cl0 (<[x := Caller (ca_xid c) u ret true]> (calls_ cl0))
      end) = set_calls cl0 calls /\
    forall y c, calls !! y = Some c ->
      calls_ cl !! y = Some c /\ (y = x -> ca_done c = true) \/
      y = x /\ (exists c0, calls_ cl !! x = Some c0 /\ ca_done c0 = false) /\
        ca_done c = true /\ ca_intret c = ret /\ ca_un c = u) as (calls & E & Hcalls).
  { destruct (calls_ cl0 !! x) as [c0|] eqn:Ec; [destruct (ca_done c0) eqn:Ed|].
    - exists (calls_ cl). split; [done|]. intros y c Hy. left. split; [done|]. intros ->.
      change (calls_ cl0) with (calls_ cl) in Ec. congruence.
    - eexists. split; [done|]. intros y c. rewrite lookup_insert_Some. intros [[<- <-]|[Hne Hy]].
      + right. split_and!; try done. by exists c0.
      + left. by split.
    - exists (calls_ cl). split; [done|]. intros y c Hy. left. split; [done|]. intros ->.
      change (calls_ cl0) with (calls_ cl) in Ec. congruence. }
  cbv zeta. rewrite E. clear E. exists rep, F, (x :: rs), nw, an, fg. destruct Hi; cbn in *.
  constructor; cbn; try done.
  - split; [|apply si_client0]. eapply client_inv_report; [apply si_client0|done..].
  - intros h req Hin. eapply made_ok_mono; [by apply si_made0|done|done|]. intros y Hy. by right.
  - intros y Hy. right. by apply si_floor0.
  - intros y [->|Hy]%elem_of_cons; [done|by apply si_told0].
  - intros y c Hy. destruct (Hcalls y c Hy) as [[Hl Hne]|(-> & (c0 & Hc0 & Hd0) & Hd & <- & <-)].
    + destruct (si_waiting0 y c Hl) as [? Hc]. split; [done|]. destruct (ca_done c); [split; [right|]; apply Hc|].
      intros [->|Hin]%elem_of_cons; [by specialize (Hne eq_refl)|done].
    + destruct (si_waiting0 x c0 Hc0) as [? Hc]. rewrite Hd0 in Hc. rewrite Hd. split; [done|].
      split; [by left|by apply Hres].
Qed.
Lemma inv_end x req r c cl ca sv wk sd rq rp md ex en :
  ca !! x = Some (req, r) -> calls_ cl !! i32 x = Some c -> ca_done c = true ->
  good (RSys cl ca sv wk sd rq rp md ex en) ->
  good (RSys (call1_end x r req cl).2 (delete x ca) sv wk sd rq rp md ex
    (Ended x (call1_end x r req cl).1 (ca_un c) :: en)).
Proof.
  intros Hx Hc Hd (rep & F & rs & nw & an & fg & Hi).
  destruct (si_calls _ _ _ _ _ _ _ Hi x req r Hx) as (h & req0 & Hmade & Hxh & Hreq). cbn in Hmade.
  pose proof (si_made _ _ _ _ _ _ _ Hi h req0 Hmade) as [Hrange _ _ _ _ _ _]. cbn in Hrange.
  pose proof (ci_xid _ _ _ (proj1 (si_client _ _ _ _ _ _ _ Hi))) as Hxid. cbn in Hxid.
  rewrite i32_id in Hc by width. unfold call1_end. rewrite i32_id, Hc, Hd by width. cbn [andb].
  set (cl0 := set_rep_window _ _). set (cl1 := if negb _ then _ else _). cbn [fst Datatypes.snd].
  assert (exists d k, cl1 = set_dup cl0 d k /\ (isvalid d = true ->
    d = dup_req_ cl /\ isvalid (dup_req_ cl) = true \/ rqs_buf d = pdu req)) as (d & k & -> & Hdup).
  { unfold cl1. destruct (negb _); [destruct (isvalid (dup_req_ cl0)) eqn:Ev|].
    - eexists _, _. split; [done|]. intros _. left. by split.
    - eexists _, _. split; [done|]. intros _. by right.
    - exists (dup_req_ cl), (xid_rep_done_ cl). split; [done|]. intros ?. left. by split. }
  destruct (si_waiting _ _ _ _ _ _ _ Hi x c Hc) as [_ Hres]. rewrite Hd in Hres. destruct Hres as [Hrp Hres]. cbn in Hres.
  exists rep, F, (x :: rs), nw, an, fg. destruct Hi; cbn in *.
  constructor; cbn; try done.
  - split; [|apply si_client0]. eapply client_inv_report; [apply si_client0| |done|done].
    rewrite <-Hxh. done.
  - intros h0 req1 Hin. eapply made_ok_mono; [by apply si_made0|done|done|]. intros y Hy. by right.
  - intros y req1 r1. rewrite lookup_delete_Some. intros [_ Hl]. by apply (si_calls0 y req1 r1).
  - intros b Hb. destruct Hb as [Hb|[-> Hv]]; [by auto|].
    destruct (Hdup Hv) as [[-> Hv']| ->]; [by auto|]. subst req. by eauto.
  - intros y Hy. right. by apply si_floor0.
  - intros y [->|Hy]%elem_of_cons; [by apply si_told0|by apply si_told0].
  - intros y c0. rewrite lookup_delete_Some. intros [Hne Hl].
    destruct (si_waiting0 y c0 Hl) as [? Hc0]. split; [done|].
    destruct (ca_done c0); [split; [right|]; apply Hc0|].
    intros [->|Hin]%elem_of_cons; done.
  - intros e [->|He]%elem_of_cons; [|by apply si_ends0]. cbn. split; [by exists h, req0|done].
Qed.

Lemma ours_cons w wk :
  ours (w :: wk) =
    if decide (rq_clt_nonce w.1.1.2 = n) then rq_xid w.1.1.2 :: ours wk else ours wk.
Proof. unfold ours. rewrite filter_cons. by case_decide. Qed.
Lemma ours_app wk1 wk2 : ours (wk1 ++ wk2) = ours wk1 ++ ours wk2.
Proof. unfold ours. by rewrite filter_app, fmap_app. Qed.

(** What the server does with a request of the client, by the state of the
    request. *)
Definition checked (f : handler S) (h : req_header) (u : unmarshall) (c : Z) (stat : rpcstate_t)
    (e : option reply_t) : list (Z * str) + handler S * req_header * unmarshall :=
  match stat, e with
  | NEW, _ => inr (f, h, u)
  | DONE, Some r => inl [(c, take (Z.to_nat (r_sz r)) (r_buf r))]
  | FORGOTTEN, _ => inl [(c, forgotten_reply (rq_xid h))]
  | _, _ => inl []
  end.
Definition checked_work (v : list (Z * str) + handler S * req_header * unmarshall) (c : Z)
    (wk : list (handler S * req_header * unmarshall * Z)) :=
  match v with inl _ => wk | inr (f, h, u) => (f, h, u, c) :: wk end.
Definition checked_reps (v : list (Z * str) + handler S * req_header * unmarshall) (rp : list str) :=
  match v with inl out => rp ++ out.*2 | inr _ => rp end.
Lemma checked_work_ours f h u c stat e wk :
  rq_clt_nonce h = n ->
  ours (checked_work (checked f h u c stat e) c wk) =
    if decide (stat = NEW) then rq_xid h :: ours wk else ours wk.
Proof.
  intros Hh. destruct stat; [|by destruct e|by destruct e|done].
  rewrite decide_True by done. cbn. by rewrite ours_cons, decide_True.
Qed.
Lemma checked_work_elem f h u c stat e wk w :
  w ∈ checked_work (checked f h u c stat e) c wk -> w ∈ wk \/ w = (f, h, u, c).
Proof.
  destruct stat; [|by left; destruct e|by left; destruct e|by left].
  cbn. rewrite elem_of_cons. tauto.
Qed.
Lemma checked_reps_elem f h u c stat e rp b :
  b ∈ checked_reps (checked f h u c stat e) rp ->
  b ∈ rp \/ (stat = FORGOTTEN /\ b = forgotten_reply (rq_xid h)) \/
  exists r, stat = DONE /\ e = Some r /\ b = take (Z.to_nat (r_sz r)) (r_buf r).
Proof.
  destruct stat, e as [r|]; cbn; rewrite ?app_nil_r; try (by left);
    (intros [?|Hin]%elem_of_app; [by left|]); apply list_elem_of_singleton in Hin; right; eauto.
Qed.
Lemma dispatch_check_made c req h b (sv sv' : rpcs S)
    (v : list (Z * str) + handler S * req_header * unmarshall) :
  marshall_wf req -> m_ind req < 2 ^ 31 -> valid_req_header h -> rq_clt_nonce h = n -> 0 < n ->
  rq_srv_nonce h = 0 \/ rq_srv_nonce h = nonce_ sv ->
  arrives (pdu (pack_req_header req h)) b ->
  dispatch_check create_time c b (Z.of_nat (length b)) sv = Ret (v, sv') ->
  exists f u stat e, procs_ sv !! rq_proc h = Some f /\ (readable u /\ remaining u = m_str req) /\
    check_window (u32 (rq_xid h)) (u32 (rq_xid_rep h)) (std_ref [] (reply_window_ sv) n) =
      (stat, e, std_ref [] (reply_window_ sv') n) /\
    v = checked f h u c stat e.
Proof.
  intros Hm Hsz Hh Hclt Hn Hsrv (Hl & Hd & Hmax) E. pose proof (reader_arrived b Hmax) as Hread.
  assert (Z.of_nat (length b) = m_ind req) as Hlen.
  { rewrite Hl, pack_req_header_eq by done.
    by apply (pdu_layout req (req_header_bytes h) Hm). }
  rewrite Hlen in E, Hread. pose proof (req_header_framed req h b Hm Hsz Hh Hl Hd) as Hrt.
  unfold dispatch_check in E. destruct (unpack_req_header _) as [h' u].
  destruct Hrt as (-> & Hok & _ & Hu). specialize (Hread Hok). rewrite Hok in E. cbn [negb] in E.
  replace (negb (rq_srv_nonce h =? 0) && negb (rq_srv_nonce h =? nonce_ sv)) with false in E
    by (destruct Hsrv as [-> | ->]; rewrite ?Z.eqb_refl, ?andb_false_r; done).
  destruct (procs_ sv !! rq_proc h) as [f|] eqn:Ef; [|done].
  pose proof (classify_window create_time h c sv ltac:(lia)) as Hcw. rewrite Hclt in Hcw.
  destruct (classify create_time h c sv) as [[stat e] sv1] eqn:Ec.
  exists f, u, stat, e. split; [done|]. split; [done|]. unfold checked, forgotten_reply.
  destruct stat; [| |destruct e; [|done]|]; injection E as <- <-; by split.
Qed.
Lemma take_pdu b sz m : (b, sz) = m_take_buf m -> take (Z.to_nat sz) b = pdu m.
Proof. by intros [= -> ->]. Qed.

(** The finished entries of the window are old ones. *)
Lemma request_stored rep F w nw an fg x stat e w' r :
  window_inv rep F w nw an fg -> 1 <= x -> rep x < x ->
  (forall y, 1 <= y <= rep x -> y ∈ an \/ y ∈ fg) ->
  check_window x (rep x) w = (stat, e, w') ->
  (r ∈ w' -> r_cb_present r = true -> r ∈ w) /\
  (stat = DONE -> e = Some r -> r ∈ w /\ r_cb_present r = true).
Proof.
  intros Hw Hx Hrx Hacks Hcw. split.
  - intros Hr Hp. destruct (request_cases rep F w nw an fg Hw x Hx Hrx Hacks _ _ _ Hcw)
      as [(e0 & _ & _ & _ & Ew & _)|(w1 & Es & _ & Hc)]; [by rewrite <-Ew|].
    destruct (window_scan_spec _ _ _ _ _ Es) as (Hsub & _). apply Hsub.
    destruct Hc as [(_ & Ew & _)|(_ & Ew & _)]; [by rewrite <-Ew|]. rewrite Ew in Hr.
    apply window_insert_elem in Hr as [->|?]; done.
  - intros -> ->. destruct (request_cases rep F w nw an fg Hw x Hx Hrx Hacks _ _ _ Hcw)
      as [(e0 & [= <-] & He0 & _ & _ & Est)|(w1 & _ & ? & _)]; [|done].
    by destruct (r_cb_present r).
Qed.
Lemma inv_deliver c b b' cl ca sv wk sd rq rp md ex en v sv' :
  b ∈ rq -> arrives b b' ->
  dispatch_check create_time c b' (Z.of_nat (length b')) sv = Ret (v, sv') ->
  good (RSys cl ca sv wk sd rq rp md ex en) ->
  good (RSys cl ca sv' (checked_work v c wk) sd rq (checked_reps v rp) md ex en).
Proof.
  intros Hb Hfr E (rep & F & rs & nw & an & fg & Hi).
  destruct (dispatch_check_service c b' _ sv sv' v E) as ([Hnon Happ] & Hpro & _ & _).
  destruct (si_reqs _ _ _ _ _ _ _ Hi b (or_introl Hb)) as (h & req & Hmade & ->). cbn in Hmade.
  pose proof (si_made _ _ _ _ _ _ _ Hi h req Hmade) as [Hx Hv Hclt Hsrv [Hrep Hrx] Hacks [Hm Hsz]].
  cbn in Hx, Hsrv. pose proof (ci_xid _ _ _ (proj1 (si_client _ _ _ _ _ _ _ Hi))) as Hxid. cbn in Hxid.
  destruct (si_nonces _ _ _ _ _ _ _ Hi) as (Hn0 & _).
  destruct (dispatch_check_made c req h b' sv sv' v Hm Hsz Hv Hclt Hn0 Hsrv Hfr E)
    as (f & u & stat & e & Hf & [Hu Hrem] & Hcw & ->). clear E.
  rewrite Hrep, !u32_id in Hcw by width.
  assert (forall y, 1 <= y <= rep (rq_xid h) -> y ∈ an \/ y ∈ fg) as Hacks'
    by (intros y Hy; by apply (si_told _ _ _ _ _ _ _ Hi), Hacks).
  pose proof (si_window _ _ _ _ _ _ _ Hi) as Hw. cbn in Hw.
  destruct (request_step rep F _ nw an fg Hw (rq_xid h) (proj1 Hx) (proj2 Hrx) Hacks' _ _ _ Hcw)
    as (F' & HF & Hw' & Hnew & Hforg).
  pose proof (fun r => request_stored rep F _ nw an fg (rq_xid h) stat e _ r Hw (proj1 Hx)
    (proj2 Hrx) Hacks' Hcw) as Hstored.
  exists rep, F', rs, (if decide (stat = NEW) then rq_xid h :: nw else nw), an,
    (if decide (stat = FORGOTTEN) then rq_xid h :: fg else fg).
  set (nw' := if decide (stat = NEW) then _ else _) in *. set (fg' := if decide (stat = FORGOTTEN) then _ else _) in *.
  assert (forall y, y ∈ fg' <-> y ∈ fg \/ (stat = FORGOTTEN /\ y = rq_xid h)) as Hfg'.
  { intros y. unfold fg'. case_decide; rewrite ?elem_of_cons; naive_solver. }
  assert (forall y, y ∈ fg -> y ∉ nw -> y ∉ nw') as Hnw'.
  { intros y Hy Hy'. unfold nw'. case_decide as Hst; [|done]. intros [->|?]%elem_of_cons; [|done].
    by destruct (Hnew Hst). }
  assert (forall y ret un, result_ok ex nw fg y ret un -> result_ok ex nw' fg' y ret un) as Hres.
  { intros y ret un Hr. eapply result_ok_mono; [done|done| |by apply Hnw']. intros z Hz. apply Hfg'. by left. }
  clearbody fg'. destruct Hi; cbn in *.
  constructor; cbn; rewrite ?Hnon, ?Happ, ?Hpro; try done.
  - intros h0 req0 Hin. destruct (si_made0 h0 req0 Hin). constructor; try done. by rewrite Hnon.
  - intros y Hy. destruct (decide (y <= F)); [by apply si_floor0; lia|]. apply Hacks. lia.
  - intros y Hy. rewrite Hfg'. destruct (si_told0 y Hy); auto.
  - intros y [?|[_ ->]]%Hfg'; [by apply si_fg0|done].
  - rewrite checked_work_ours by done. unfold nw'. case_decide; [|done]. cbn. by constructor.
  - intros f0 h0 u0 c0 [Hin|[= -> -> -> ->]]%checked_work_elem; [by apply (si_work0 f0 h0 u0 c0)|].
    split; [split; [by eapply si_procs0|apply Hu]|]. intros _. split; [done|]. by exists req.
  - intros e0 He0. destruct (si_execs0 e0 He0). constructor; try done. by rewrite Hpro.
  - intros r Hr Hp. destruct (Hstored r) as [Hold _]. apply si_stored0; [by apply Hold|done].
  - intros b [Hin|[[Est ->]|(r & Est & -> & ->)]]%checked_reps_elem.
    + destruct (si_reps0 b Hin) as [?|(y & ? & ?)]; [by left|right]. exists y. rewrite Hfg'. auto.
    + right. exists (rq_xid h). rewrite Hfg'. auto.
    + left. destruct (Hstored r) as [_ Hold]. destruct (Hold Est eq_refl) as [Hr Hp].
      destruct (si_stored0 r Hr Hp) as (e1 & ? & ? & ? & ?). exists e1. split_and!; try done.
      by apply take_pdu.
  - intros y c0 Hy. destruct (si_waiting0 y c0 Hy) as [? Hc]. split; [done|].
    destruct (ca_done c0); [|done]. split; [apply Hc|by apply Hres, Hc].
  - intros e0 He0. destruct (si_ends0 e0 He0) as [? ?]. split; [done|by apply Hres].
Qed.
Lemma inv_other c b cl ca sv wk sd rq rp md ex en v sv' :
  Z.of_nat (length b) <= MAX_PDU ->
  rq_clt_nonce (unpack_req_header (unmarshall_pdu b (Z.of_nat (length b)))).1 <> n ->
  dispatch_check create_time c b (Z.of_nat (length b)) sv = Ret (v, sv') ->
  good (RSys cl ca sv wk sd rq rp md ex en) ->
  good (RSys cl ca sv' match v with inl _ => wk | inr (f, h, u) => (f, h, u, c) :: wk end
    sd rq rp md ex en).
Proof.
  intros Hlen Hh E (rep & F & rs & nw & an & fg & Hi). exists rep, F, rs, nw, an, fg.
  destruct (dispatch_check_service c b _ sv sv' v E) as ([Hnon Happ] & Hpro & Hwin & Hv). specialize (Hwin Hh).
  destruct Hi; cbn in *. constructor; cbn; rewrite ?Hnon, ?Happ, ?Hpro, ?Hwin; try done.
  - intros h0 req0 Hin. destruct (si_made0 h0 req0 Hin). constructor; try done. by rewrite Hnon.
  - destruct v as [out|[[f h] u]]; [done|]. destruct (Hv f h u eq_refl) as [-> _].
    by rewrite ours_cons, decide_False.
  - intros f0 h0 u0 c0 Hin. destruct v as [out|[[f h] u]]; [by apply (si_work0 f0 h0 u0 c0)|].
    apply elem_of_cons in Hin as [[= -> -> -> ->]|Hin]; [|by apply (si_work0 f0 h0 u0 c0)].
    destruct (Hv f h u eq_refl) as (-> & Hf & -> & Hok).
    split; [|done]. split; [by eapply si_procs0|]. by apply reader_arrived.
  - intros e0 He0. destruct (si_execs0 e0 He0). constructor; try done. by rewrite Hpro.
Qed.

Lemma inv_run wk1 wk2 f h u c cl ca sv sd rq rp md ex en b sz sv' ret rp' :
  run_handler f h u sv = Ret (b, sz, sv') ->
  f u marshall_new (app_ sv) = Ret (ret, rp', app_ sv') ->
  good (RSys cl ca sv (wk1 ++ (f, h, u, c) :: wk2) sd rq rp md ex en) ->
  good (RSys cl ca sv' (wk1 ++ wk2) ((h, c, b, sz) :: sd) rq rp md
    (if decide (rq_clt_nonce h = n) then Exec h u (app_ sv) ret rp' (app_ sv') :: ex else ex) en).
Proof.
  intros E Ef (rep & F & rs & nw & an & fg & Hi). exists rep, F, rs, nw, an, fg.
  destruct (run_handler_service f h u sv sv' b sz E) as (Hnon & Hpro & Hwin & ret0 & rep0 & Ef0 & Hret & Hbuf).
  rewrite Ef in Ef0. injection Ef0 as <- <-.
  set (e := Exec h u (app_ sv) ret rp' (app_ sv')). set (ex' := if decide _ then e :: ex else ex).
  assert (forall e', e' ∈ ex -> e' ∈ ex') as Hmono by (intros; unfold ex'; case_decide; [by right|done]).
  assert (forall w, w ∈ wk1 ++ wk2 -> w ∈ wk1 ++ (f, h, u, c) :: wk2) as Hwk by set_solver.
  destruct Hi; cbn in *.
  destruct (si_work0 f h u c) as [[Hok Hu] Hours]; [set_solver|].
  destruct (Hok u (app_ sv) ret rp' (app_ sv') Hu si_app0 Ef) as (HI & Hrok).
  constructor; cbn; rewrite ?Hnon, ?Hpro, ?Hwin; try done.
  - intros h0 req0 Hin. destruct (si_made0 h0 req0 Hin). constructor; try done. by rewrite Hnon.
  - rewrite si_nw0. rewrite !ours_app, ours_cons. cbn [fst Datatypes.snd]. unfold ex'. case_decide; cbn; [|done].
    change (xid_of e) with (rq_xid h). rewrite <-!app_assoc. f_equiv.
    by rewrite <-Permutation_middle.
  - intros x Hx. apply si_an0 in Hx. apply list_elem_of_fmap in Hx as (e0 & -> & He0).
    apply list_elem_of_fmap_2. by apply Hmono.
  - intros f0 h0 u0 c0 Hin. by apply (si_work0 f0 h0 u0 c0), Hwk.
  - intros e0 He0. assert (e0 ∈ ex \/ e0 = e /\ rq_clt_nonce h = n) as [Hin|[-> Hh]].
    { unfold ex' in He0. case_decide; [|by left]. set_solver. }
    + destruct (si_execs0 e0 Hin). constructor; try done. by rewrite Hpro.
    + destruct (Hours Hh) as (Hp & req & Hreq).
      constructor; cbn; [by exists req|done|done|exists f; by rewrite Hpro|done].
  - intros h0 c0 b0 sz0 [[= -> -> -> ->]|Hin]%elem_of_cons Hh.
    + exists e. unfold ex'. rewrite decide_True by done. split; [by left|done].
    + destruct (si_sending0 _ _ _ _ Hin Hh) as (e0 & ? & ?). exists e0. split; [by apply Hmono|done].
  - intros r Hr Hp. destruct (si_stored0 r Hr Hp) as (e0 & ? & ?). exists e0. split; [by apply Hmono|done].
  - intros b0 Hb0. destruct (si_reps0 b0 Hb0) as [(e0 & ? & ?)|?]; [left|by right].
    exists e0. split; [by apply Hmono|done].
  - intros x c0 Hx. destruct (si_waiting0 x c0 Hx) as [? Hc]. split; [done|].
    destruct (ca_done c0); [|done]. split; [apply Hc|]. by eapply result_ok_mono; [apply Hc|..].
  - intros e0 He0. destruct (si_ends0 e0 He0) as [? ?]. split; [done|]. by eapply result_ok_mono.
Qed.
Lemma inv_send isdead sd1 sd2 h c b sz cl ca sv wk rq rp md ex en sv' out :
  run_send isdead h c b sz sv = Ret (sv', out) ->
  good (RSys cl ca sv wk (sd1 ++ (h, c, b, sz) :: sd2) rq rp md ex en) ->
  good (RSys cl ca sv' wk (sd1 ++ sd2) rq
    (if decide (rq_clt_nonce h = n) then rp ++ out.*2 else rp) md ex en).
Proof.
  intros E (rep & F & rs & nw & an & fg & Hi).
  destruct (run_send_service isdead h c b sz sv sv' out E) as ([Hnon Happ] & Hpro & Hout & Hwin).
  destruct (si_nonces _ _ _ _ _ _ _ Hi) as (Hn0 & _).
  pose proof (ci_xid _ _ _ (proj1 (si_client _ _ _ _ _ _ _ Hi))) as Hxid. cbn in Hxid.
  assert (forall e, e ∈ ex -> xid_of e ∈ nw /\ 1 <= xid_of e < xid_ cl) as Hex.
  { intros e He. assert (xid_of e ∈ nw) as Hin.
    { rewrite (si_nw _ _ _ _ _ _ _ Hi), elem_of_app. right. by apply list_elem_of_fmap_2. }
    split; [done|]. by apply (nw_range _ _ _ _ _ _ _ _ Hi). }
  assert (forall h0 c0 b0 sz0, (h0, c0, b0, sz0) ∈ sd1 ++ sd2 ->
    (h0, c0, b0, sz0) ∈ sd1 ++ (h, c, b, sz) :: sd2) as Hsd by set_solver.
  destruct (decide (rq_clt_nonce h = n)) as [Hh|Hh].
  - rewrite decide_True in Hwin by done.
    destruct (si_sending _ _ _ _ _ _ _ Hi h c b sz) as (e & He & Eh & Hb); [set_solver|done|].
    cbn in He. destruct (Hex e He) as [Hnw Hx]. unfold xid_of in Hnw, Hx. rewrite Eh in Hnw, Hx.
    rewrite u32_id in Hwin by width. rewrite Hout, (take_pdu _ _ _ Hb).
    exists rep, F, rs, nw, (rq_xid h :: an), fg. destruct Hi; cbn in *.
    constructor; cbn; rewrite ?Hnon, ?Happ, ?Hpro, ?Hwin; try done.
    + intros h0 req0 Hin. destruct (si_made0 h0 req0 Hin). constructor; try done. by rewrite Hnon.
    + by apply reply_step.
    + intros y Hy. destruct (si_told0 y Hy); [left; by right|by right].
    + intros x [->|?]%elem_of_cons; [|by apply si_an0]. rewrite <-Eh. by apply (list_elem_of_fmap_2 xid_of).
    + intros e0 He0. destruct (si_execs0 e0 He0). constructor; try done. by rewrite Hpro.
    + intros h0 c0 b0 sz0 Hin. by apply (si_sending0 h0 c0 b0 sz0), Hsd.
    + intros r Hr Hp. apply window_reply_elem in Hr as [Hr|[-> _]].
      * destruct (si_stored0 r Hr Hp) as (e0 & ? & ? & ? & ?). exists e0. split_and!; try done. by right.
      * exists e. unfold xid_of. rewrite Eh. cbn. split_and!; try done. by left.
    + intros b0 Hin. apply elem_of_app in Hin as [Hin|Hin%list_elem_of_singleton].
      * destruct (si_reps0 b0 Hin) as [(e0 & ? & ? & ?)|?]; [left|by right].
        exists e0. split_and!; try done. by right.
      * left. exists e. unfold xid_of. rewrite Eh. split_and!; try done. by left.
  - rewrite decide_False in Hwin by (by intros []).
    exists rep, F, rs, nw, an, fg. destruct Hi; cbn in *.
    constructor; cbn; rewrite ?Hnon, ?Happ, ?Hpro, ?Hwin; try done.
    + intros h0 req0 Hin. destruct (si_made0 h0 req0 Hin). constructor; try done. by rewrite Hnon.
    + intros e0 He0. destruct (si_execs0 e0 He0). constructor; try done. by rewrite Hpro.
    + intros h0 c0 b0 sz0 Hin. by apply (si_sending0 h0 c0 b0 sz0), Hsd.
Qed.

Lemma good_init s : rpc_init s -> good s.
Proof.
  intros [random lossy sv Hnn Hn Hsu HI Hw Hp]. exists (fun _ => 0), 0, [], [], [], [].
  assert (client_inv (rpcc_new true random lossy) [] []) as Hc by apply client_run_inv, client_init.
  constructor; cbn; try done; rewrite ?Hw; try (by intros ? ?%elem_of_nil).
  - split_and!; try done; [rewrite <-Hnn; apply u32_range|by left].
  - by intros ? ? ?%elem_of_nil.
  - constructor.
  - by intros b [?%elem_of_nil|[_ ?]].
  - apply window_inv_init.
  - lia.
  - by intros ? ? ? ? ?%elem_of_nil.
  - by intros ? ? ? ? ?%elem_of_nil.
Qed.
Lemma good_step s s' : patient = true -> rpc_step s s' -> good s -> good s'.
Proof.
  intros Hp [] Hg.
  - by eapply inv_call.
  - by eapply inv_transmit.
  - by eapply inv_bind_finish.
  - by eapply inv_reply.
  - eapply inv_end; eauto.
  - by eapply inv_deliver.
  - by eapply inv_other.
  - by eapply inv_run.
  - by eapply inv_send.
Qed.

Lemma good_reachable s0 s : patient = true -> rpc_init s0 -> rtc rpc_step s0 s -> good s.
Proof.
  intros Hp Hi Hs. apply good_init in Hi. induction Hs as [|s1 s2 s3 Hstep _ IH]; [done|].
  apply IH. by apply (good_step s1).
Qed.
(** The request of an execution is the one that was made under its xid. *)
Lemma made_unique s rep F rp nw an fg h req h' req' :
  sys_inv s rep F rp nw an fg -> (h, req) ∈ rs_made s -> (h', req') ∈ rs_made s ->
  rq_xid h = rq_xid h' -> h = h' /\ req = req'.
Proof.
  intros Hi Hin Hin' E. pose proof (si_fresh _ _ _ _ _ _ _ Hi) as Hnd.
  apply list_elem_of_lookup in Hin as [i Hl], Hin' as [j Hl'].
  assert (i = j) as ->.
  { eapply (NoDup_lookup _ i j (rq_xid h) Hnd).
    - by rewrite list_lookup_fmap, Hl.
    - rewrite list_lookup_fmap, Hl'. cbn. by rewrite E. }
  by simplify_eq.
Qed.
(** What the invariant says of a call that has returned. *)
Definition call_answered (s : rsys S) (e : ended) : Prop :=
  exists h req, (h, req) ∈ rs_made s /\ rq_xid h = n_xid e /\
    ((exists x, x ∈ rs_execs s /\ e_hdr x = h /\ remaining (e_in x) = m_str req /\
        n_ret e = e_ret x /\
        unmarshall_wf (n_un e) /\ u_ok (n_un e) = true /\ remaining (n_un e) = m_str (e_rep x)) \/
     (n_ret e = rpc_const.atmostonce_failure /\ forall x, x ∈ rs_execs s -> e_hdr x <> h)).
Lemma good_answered s e : good s -> e ∈ rs_ends s -> call_answered s e.
Proof.
  intros (rep & F & rp & nw & an & fg & Hi) He.
  destruct (si_ends _ _ _ _ _ _ _ Hi e He) as [(h & req & Hin & Hx) Hr].
  exists h, req. split_and!; [done..|]. destruct Hr as [(x & Hxe & Ex & Er & Hwf & Hok & Eu)|(Er & _ & Hnw)].
  - left. exists x. destruct (si_execs _ _ _ _ _ _ _ Hi x Hxe) as [(req' & Hin' & Erem) _ _ _ _].
    destruct (made_unique _ _ _ _ _ _ _ h req (e_hdr x) req' Hi Hin Hin') as [-> ->]; [|done].
    rewrite Hx. by rewrite <-Ex.
  - right. split; [done|]. intros x Hxe Eh. apply Hnw. rewrite (si_nw _ _ _ _ _ _ _ Hi), elem_of_app.
    right. rewrite <-Hx, <-Eh. by apply (list_elem_of_fmap_2 xid_of).
Qed.
Lemma good_once s : good s -> NoDup (xid_of <$> rs_execs s).
Proof.
  intros (rep & F & rp & nw & an & fg & Hi).
  pose proof (inv_nodup _ _ _ _ _ _ (si_window _ _ _ _ _ _ _ Hi)) as Hnd.
  rewrite (si_nw _ _ _ _ _ _ _ Hi) in Hnd. by apply NoDup_app in Hnd as (_ & _ & ?).
Qed.

(** ** The order of the executions *)

(** The executions [ex] of the client, latest first, take the service from
    [app0] to [app] one after the other, with executions for other clients
    between them. *)
Inductive linear (procs : gmap Z (handler S)) (app0 : S) : list (exec S) -> S -> Prop :=
  | lin_start : linear procs app0 [] app0
  | lin_other ex (p : Z) (f : handler S) u ret rep app app' :
      linear procs app0 ex app -> procs !! p = Some f -> readable u ->
      f u marshall_new app = Ret (ret, rep, app') -> linear procs app0 ex app'
  | lin_exec ex e (f : handler S) :
      linear procs app0 ex (e_pre e) -> procs !! rq_proc (e_hdr e) = Some f -> readable (e_in e) ->
      f (e_in e) marshall_new (e_pre e) = Ret (e_ret e, e_rep e, e_post e) ->
      linear procs app0 (e :: ex) (e_post e).

Record hist_inv (procs : gmap Z (handler S)) (app0 : S) (s : rsys S) : Prop := {
  hi_procs : procs_ (rs_sv s) = procs;
  hi_work : forall f h u c, (f, h, u, c) ∈ rs_work s ->
    procs !! rq_proc h = Some f /\ readable u;
  hi_linear : linear procs app0 (rs_execs s) (app_ (rs_sv s));
}.
Lemma hist_check procs app0 c b cl ca sv wk sd rq rp rp' md ex en v sv' :
  Z.of_nat (length b) <= MAX_PDU ->
  dispatch_check create_time c b (Z.of_nat (length b)) sv = Ret (v, sv') ->
  hist_inv procs app0 (RSys cl ca sv wk sd rq rp md ex en) ->
  hist_inv procs app0 (RSys cl ca sv' (checked_work v c wk) sd rq rp' md ex en).
Proof.
  intros Hb E [Hp Hw Hl]. cbn in *.
  destruct (dispatch_check_service c b _ sv sv' v E) as ([_ Happ] & Hpro & _ & Hv).
  constructor; cbn; [by rewrite Hpro| |by rewrite Happ].
  intros f h u c0 Hin. destruct v as [out|[[f' h'] u']]; [by apply (Hw f h u c0)|].
  apply elem_of_cons in Hin as [[= -> -> -> ->]|Hin]; [|by apply (Hw f h u c0)].
  destruct (Hv f' h' u' eq_refl) as (-> & Hf & -> & Hok). split; [by rewrite <-Hp|by apply reader_arrived].
Qed.
Lemma hist_step procs app0 s s' : rpc_step s s' -> hist_inv procs app0 s -> hist_inv procs app0 s'.
Proof.
  intros Hstep Hi. destruct Hstep; try (destruct Hi; by constructor).
  - destruct H1 as (_ & _ & ?). by eapply hist_check.
  - by eapply hist_check.
  - destruct Hi as [Hp Hw Hl]. cbn in *.
    destruct (run_handler_service _ _ _ _ _ _ _ H0) as (_ & Hpro & _).
    destruct (Hw f h u c) as [Hf Hu]; [set_solver|]. constructor; cbn.
    + by rewrite Hpro.
    + intros f0 h0 u0 c0 Hin. apply (Hw f0 h0 u0 c0). set_solver.
    + case_decide; [|by eapply lin_other].
      by apply (lin_exec _ _ ex (Exec h u (app_ sv) ret rep (app_ sv')) f).
  - destruct Hi as [Hp Hw Hl]. cbn in *.
    destruct (run_send_service _ _ _ _ _ _ _ _ H0) as ([_ Happ] & Hpro & _).
    constructor; cbn; [by rewrite Hpro|done|by rewrite Happ].
Qed.
Lemma hist_reachable s0 s :
  rpc_init s0 -> rtc rpc_step s0 s -> hist_inv (procs_ (rs_sv s0)) (app_ (rs_sv s0)) s.
Proof.
  intros Hi Hs. assert (hist_inv (procs_ (rs_sv s0)) (app_ (rs_sv s0)) s0) as Hh.
  { destruct Hi. constructor; cbn; [done| |constructor]. by intros ? ? ? ? ?%elem_of_nil. }
  revert Hh. generalize (procs_ (rs_sv s0)) (app_ (rs_sv s0)). intros procs app0 Hh. clear Hi.
  induction Hs as [|s1 s2 s3 Hstep _ IH]; [done|]. apply IH. by apply (hist_step _ _ s1).
Qed.

(** Executions and returned calls are only added. *)
Lemma execs_grow s s' : rpc_step s s' ->
  (exists new, rs_execs s' = new ++ rs_execs s) /\ (forall e, e ∈ rs_ends s -> e ∈ rs_ends s').
Proof.
  intros []; cbn; (split; [|by intros; try right]); try by exists [].
  case_decide; [by eexists [_]|by exists []].
Qed.
Lemma execs_grows s s' : rtc rpc_step s s' ->
  (exists new, rs_execs s' = new ++ rs_execs s) /\ (forall e, e ∈ rs_ends s -> e ∈ rs_ends s').
Proof.
  induction 1 as [|s1 s2 s3 Hstep _ [[new Hn] He]]; [split; [by exists []|done]|].
  destruct (execs_grow _ _ Hstep) as [[new' Hn'] He'].
  split; [exists (new ++ new'); by rewrite Hn, Hn', app_assoc|auto].
Qed.
(** A returned call that was executed was executed before it returned. *)
Lemma returned_final s s' e new :
  good s -> good s' -> (forall e, e ∈ rs_ends s -> e ∈ rs_ends s') ->
  rs_execs s' = new ++ rs_execs s -> e ∈ rs_ends s ->
  forall x, x ∈ new -> xid_of x <> n_xid e.
Proof.
  intros Hg Hg' Hends Hnew He x Hx Ex. pose proof (good_once _ Hg') as Hnd.
  destruct (good_answered _ _ Hg He) as (h & req & _ & Eh & [(y & Hy & Ey & _)|[Er _]]).
  - rewrite Hnew, fmap_app, NoDup_app in Hnd. destruct Hnd as (_ & Hdis & _).
    apply (Hdis (xid_of x)); [by apply list_elem_of_fmap_2|].
    rewrite Ex, <-Eh, <-Ey. by apply (list_elem_of_fmap_2 xid_of).
  - destruct (good_answered _ _ Hg' (Hends _ He)) as (h' & req' & Hin' & Eh' & Ha).
    destruct Hg' as (rep & F & rp & nw & an & fg & Hi).
    destruct Ha as [(y & Hy & _ & _ & Ey & _)|[_ Hno]].
    + destruct (si_execs _ _ _ _ _ _ _ Hi y Hy) as [_ _ _ _ [Hpos _]]. rewrite <-Ey, Er in Hpos. done.
    + assert (x ∈ rs_execs s') as Hxs by (rewrite Hnew; set_solver).
      destruct (si_execs _ _ _ _ _ _ _ Hi x Hxs) as [(req0 & Hin0 & _) _ _ _ _].
      destruct (made_unique _ _ _ _ _ _ _ _ _ _ _ Hi Hin0 Hin') as [E _]; [|by apply (Hno x)].
      unfold xid_of in Ex. congruence.
Qed.
End system.

(** C2. At most once, end to end.  A client whose calls never time out talks to a
    server over a network that loses, repeats and reorders PDUs, while the
    server's workers interleave and other clients send it whatever bytes they
    like; a handler takes effect at one moment, and a remembered reply is sent
    before it can be freed.  In every reachable state: no request of the client
    has been executed twice; every execution was of a request the client made,
    with the arguments it marshalled, by the handler registered for its procedure;
    and every call that has returned either got the status and the marshalled
    results of the execution of its own request, or got [atmostonce_failure] and
    was not executed. *)
Theorem rpc_exactly_once `{FreshMem} {S : Type} create_time n (I : S -> Prop) (s0 s : rsys S) :
  rpc_init n I s0 -> rtc (rpc_step create_time n true) s0 s ->
  NoDup (xid_of <$> rs_execs s) /\
  (forall x, x ∈ rs_execs s -> exec_ok I (rs_sv s) (rs_made s) x) /\
  (forall e, e ∈ rs_ends s -> call_answered s e).
Proof.
  intros Hi Hs. pose proof (good_reachable _ _ _ _ _ _ eq_refl Hi Hs) as Hg. split_and!.
  - by eapply good_once.
  - destruct Hg as (rep & F & rp & nw & an & fg & Hinv). apply (si_execs _ _ _ _ _ _ _ _ _ Hinv).
  - intros e. by eapply good_answered.
Qed.

(** C8. The order of the executions, for a client whose calls never time out at a
    server whose handlers each take effect at one moment.  Whatever the network
    and the workers do, the service goes from its initial state to its current one
    by the client's executions, in the order of those moments, interleaved with
    those for other clients, each by the registered handler in the state the one
    before left.  The sequence respects the order of the calls: when a call has
    returned its request is not executed any more, so every call begun later takes
    effect later. *)
Theorem rpc_linearizable `{FreshMem} {S : Type} create_time n (I : S -> Prop) (s0 s s' : rsys S) :
  rpc_init n I s0 -> rtc (rpc_step create_time n true) s0 s ->
  rtc (rpc_step create_time n true) s s' ->
  linear (procs_ (rs_sv s0)) (app_ (rs_sv s0)) (rs_execs s') (app_ (rs_sv s')) /\
  exists new, rs_execs s' = new ++ rs_execs s /\
    forall e x, e ∈ rs_ends s -> x ∈ new -> xid_of x <> n_xid e.
Proof.
  intros Hi Hs Hs'. assert (rtc (rpc_step create_time n true) s0 s') as Hall by (by etrans).
  split; [by apply (hist_reachable _ _ _ _ _ _ Hi Hall)|].
  destruct (execs_grows _ _ _ _ _ Hs') as [[new Hnew] Hends]. exists new. split; [done|].
  pose proof (good_reachable _ _ _ _ _ _ eq_refl Hi Hs) as Hg.
  pose proof (good_reachable _ _ _ _ _ _ eq_refl Hi Hall) as Hg'.
  intros e x He. by apply (returned_final create_time n I s s' e new).
Qed.

(** ** Runs as scripts *)

(** What may be told to happen next, by the number of the thing it happens to. *)
Inductive act :=
  | A_call (proc : Z) (req : marshall) | A_bind | A_transmit (x : Z) | A_reply (i : nat)
  | A_end (x : Z) | A_deliver (c : Z) (i : nat) | A_run (i : nat) | A_send (i : nat).

Section script.
Context `{FreshMem} {S : Type}.
Variable create_time : Z -> Z * Z.
Variables (n : Z) (patient : bool).

Definition run_act (a : act) (s : rsys S) : option (rsys S) :=
  let 'RSys cl ca sv wk sd rq rp md ex en := s in
  match a with
  | A_call proc req =>
      if decide (xid_ cl < 2 ^ 31 - 1 /\ is_i32 proc /\ m_ind req < 2 ^ 31) then
        match call1_begin proc req unmarshall_empty cl with
        | Ret (inr (x, req', r), cl') =>
            Some (RSys cl' (<[x := (req', r)]> ca) sv wk sd rq rp
              ((ReqHeader (i32 x) (i32 proc) (clt_nonce_ cl) (srv_nonce_ cl) r, req) :: md) ex en)
        | _ => None
        end
      else None
  | A_bind =>
      if decide (u32 (rpcbind 0 sv).2 = nonce_ sv)
      then Some (RSys (bind_finish 0 (rpcbind 0 sv).2 cl) ca sv wk sd rq rp md ex en) else None
  | A_transmit x =>
      '(req, _) ← ca !! x;
      Some (RSys (call1_transmit req cl).2 ca sv wk sd (rq ++ (call1_transmit req cl).1) rp md ex en)
  | A_reply i =>
      b ← rp !! i;
      if decide (Z.of_nat (length b) <= MAX_PDU)
      then Some (RSys (rpcc_got_pdu b (Z.of_nat (length b)) cl) ca sv wk sd rq rp md ex en) else None
  | A_end x =>
      '(req, r) ← ca !! x; c ← calls_ cl !! i32 x;
      if patient && negb (ca_done c) then None
      else Some (RSys (call1_end x r req cl).2 (delete x ca) sv wk sd rq rp md ex
                   (Ended x (call1_end x r req cl).1 (ca_un c) :: en))
  | A_deliver c i =>
      b ← rq !! i;
      if decide (MAX_PDU < Z.of_nat (length b)) then None
      else match dispatch_check create_time c b (Z.of_nat (length b)) sv with
      | Ret (v, sv') =>
          Some (RSys cl ca sv'
            match v with inl _ => wk | inr (f, h, u) => (f, h, u, c) :: wk end sd rq
            match v with inl out => rp ++ out.*2 | inr _ => rp end md ex en)
      | _ => None
      end
  | A_run i =>
      '(f, h, u, c) ← wk !! i;
      match run_handler f h u sv, f u marshall_new (app_ sv) with
      | Ret (b, sz, sv'), Ret (ret, rep, _) =>
          Some (RSys cl ca sv' (take i wk ++ drop (i + 1) wk) ((h, c, b, sz) :: sd) rq rp md
            (if decide (rq_clt_nonce h = n) then Exec h u (app_ sv) ret rep (app_ sv') :: ex else ex)
            en)
      | _, _ => None
      end
  | A_send i =>
      '(h, c, b, sz) ← sd !! i;
      match run_send (fun _ => false) h c b sz sv with
      | Ret (sv', out) =>
          Some (RSys cl ca sv' wk (take i sd ++ drop (i + 1) sd) rq
            (if decide (rq_clt_nonce h = n) then rp ++ out.*2 else rp) md ex en)
      | _ => None
      end
  end.
Fixpoint run_acts (l : list act) (s : rsys S) : option (rsys S) :=
  match l with [] => Some s | a :: l => s ← run_act a s; run_acts l s end.

Definition act_ok (a : act) : Prop :=
  match a with A_call _ req => marshall_wf req | _ => True end.

Lemma run_act_step a s s' :
  act_ok a -> run_act a s = Some s' -> rpc_step create_time n patient s s'.
Proof.
  intros Ha. destruct s as [cl ca sv wk sd rq rp md ex en], a; cbn [run_act]; intros E.
  - case_decide as Hd; [|done]. destruct Hd as (? & ? & ?). repeat case_match; simplify_eq.
    by eapply s_call.
  - case_decide; [|done]. simplify_eq. by apply s_bind.
  - apply bind_Some in E as ([req r] & Hc & E). simplify_eq. by eapply s_transmit.
  - apply bind_Some in E as (b & Hb & E). case_decide; [|done].
    simplify_eq. eapply s_reply; [by eapply list_elem_of_lookup_2|done].
  - apply bind_Some in E as ([req r] & Hc & E). apply bind_Some in E as (c & Hl & E).
    case_match eqn:Hp; [done|]. simplify_eq. eapply s_end; [done..|]. intros ->. by destruct (ca_done c).
  - apply bind_Some in E as (b & Hb & E). case_decide; [done|].
    destruct (dispatch_check _ c b _ sv) as [[v sv']| | |] eqn:Ed; [|done..].
    injection E as <-. eapply s_deliver; [by eapply list_elem_of_lookup_2|split_and!; [done..|lia]|done].
  - apply bind_Some in E as ([[[f h] u] c] & Hw & E).
    destruct (run_handler f h u sv) as [[[b sz] sv']| | |] eqn:Er; [|done..].
    destruct (run_handler_service f h u sv sv' b sz Er) as (_ & _ & _ & ret & rep & Ef & _).
    rewrite Ef in E. simplify_eq. rewrite <-(take_drop_middle wk i _ Hw) at 1.
    rewrite Nat.add_1_r. by eapply s_run.
  - apply bind_Some in E as ([[[h c] b] sz] & Hw & E).
    destruct (run_send _ h c b sz sv) as [[sv' out]| | |] eqn:Es; [|done..].
    injection E as <-. rewrite <-(take_drop_middle sd i _ Hw) at 1.
    rewrite Nat.add_1_r. by eapply s_send.
Qed.
Lemma run_acts_steps l s s' :
  Forall act_ok l -> run_acts l s = Some s' -> rtc (rpc_step create_time n patient) s s'.
Proof.
  intros Hl. revert s. induction Hl as [|a l Ha _ IH]; intros s; cbn; [by intros [= ->]|].
  intros (s1 & E & E')%bind_Some. eapply rtc_l; [by eapply run_act_step|by apply IH].
Qed.
Lemma run_acts_app l1 l2 s : run_acts (l1 ++ l2) s = run_acts l1 s ≫= run_acts l2.
Proof. revert s. induction l1 as [|a l1 IH]; intros s; cbn; [done|]. destruct (run_act a s); [apply IH|done]. Qed.

Definition final (l : list act) (s0 : rsys S) : rsys S := default s0 (run_acts l s0).
Lemma final_reached l s0 :
  Forall act_ok l -> is_Some (run_acts l s0) ->
  rtc (rpc_step create_time n patient) s0 (final l s0).
Proof. intros Hl [s E]. eapply run_acts_steps; [done|]. unfold final. by rewrite E. Qed.
Lemma final_continues l1 l2 s0 :
  Forall act_ok l2 -> is_Some (run_acts (l1 ++ l2) s0) ->
  rtc (rpc_step create_time n patient) (final l1 s0) (final (l1 ++ l2) s0).
Proof.
  intros Hl [s E]. unfold final. rewrite E. rewrite run_acts_app in E.
  apply bind_Some in E as (s1 & E1 & E2). rewrite E1. by eapply run_acts_steps.
Qed.
End script.

#[local] Existing Instance fresh_zero.

(** The counter service of [RpcServer], used by the client with nonce 42. *)
Lemma counter_handler_ok :
  handler_ok (fun _ => True) (rpcs_fn1 c_u32 c_i32 (fun a _ s => Ret (0, s + a, s + a))).
Proof.
  intros u s ret rep s' _ _. unfold rpcs_fn1. intros ([a u'] & _ & E)%bind_Ret_inv.
  case_match; [by injection E as <- <- <-|]. injection E as <- <- <-.
  destruct (put_ok c_i32 (s + a) marshall_new marshall_new_wf) as (? & -> & _). by split_and!.
Qed.
Definition counter_start : rsys Z := RSys (rpcc_new true 42 0) ∅ counter_srv [] [] [] [] [] [] [].
Lemma counter_starts : rpc_init 42 (fun _ => True) counter_start.
Proof.
  apply rpc_starts; [done..|]. intros p f. cbn.
  rewrite lookup_singleton_Some. intros [_ <-]. apply counter_handler_ok.
Qed.
Lemma acts_ok (l : list act) :
  (forall proc req, A_call proc req ∈ l -> req = add5) -> Forall act_ok l.
Proof.
  intros Hl. apply Forall_forall. intros [] Ha; try done. rewrite (Hl _ _ Ha).
  eapply appended_wf, (put_ok c_u32), marshall_new_wf.
Qed.
Abbreviation counter_final patient l := (final (fun _ => (0, 0)) 42 patient l counter_start).

(** Two additions: the first request arrives twice, the second arrival after its
    reply was sent, and the client hears the second reply. *)
Definition two_adds : list act :=
  [A_bind; A_call 7 add5; A_transmit 1; A_transmit 1; A_deliver 3 0; A_run 0; A_send 0;
   A_deliver 4 1; A_reply 1; A_end 1;
   A_call 7 add5; A_transmit 2; A_deliver 4 2; A_run 0; A_send 0; A_reply 2; A_end 2].
Lemma two_adds_runs :
  is_Some (run_acts (fun _ => (0, 0)) 42 true two_adds counter_start).
Proof. apply is_Some_alt. vm_compute. exact I. Qed.
Lemma two_adds_result :
  (xid_of <$> rs_execs (counter_final true two_adds)) = [2; 1] /\
  (n_ret <$> rs_ends (counter_final true two_adds)) = [0; 0] /\ app_ (rs_sv (counter_final true two_adds)) = 20.
Proof. vm_compute. done. Qed.
Lemma rpc_exactly_once_witness :
  app_ (rs_sv (counter_final true two_adds)) = 20 /\
  NoDup (xid_of <$> rs_execs (counter_final true two_adds)) /\
  (forall x, x ∈ rs_execs (counter_final true two_adds) ->
     exec_ok (fun _ => True) (rs_sv (counter_final true two_adds)) (rs_made (counter_final true two_adds)) x) /\
  (forall e, e ∈ rs_ends (counter_final true two_adds) -> call_answered (counter_final true two_adds) e).
Proof.
  split; [exact (proj2 (proj2 two_adds_result))|].
  apply (rpc_exactly_once (fun _ => (0, 0)) 42 (fun _ => True) counter_start); [exact counter_starts|].
  apply final_reached; [apply acts_ok; set_solver|exact two_adds_runs].
Defined.

Definition one_add : list act := take 10 two_adds.
Lemma one_add_runs :
  is_Some (run_acts (fun _ => (0, 0)) 42 true one_add counter_start).
Proof. apply is_Some_alt. vm_compute. exact I. Qed.
Lemma rpc_linearizable_witness :
  (n_xid <$> rs_ends (counter_final true one_add)) = [1] /\
  linear (procs_ counter_srv) 10 (rs_execs (counter_final true two_adds)) 20 /\
  exists new, rs_execs (counter_final true two_adds) = new ++ rs_execs (counter_final true one_add) /\
    forall e x, e ∈ rs_ends (counter_final true one_add) -> x ∈ new -> xid_of x <> n_xid e.
Proof.
  split; [vm_compute; reflexivity|]. rewrite <-(proj2 (proj2 two_adds_result)).
  apply (rpc_linearizable (fun _ => (0, 0)) 42 (fun _ => True) counter_start (counter_final true one_add)).
  - exact counter_starts.
  - apply final_reached; [apply acts_ok; set_solver|exact one_add_runs].
  - apply (final_continues _ _ true one_add (drop 10 two_adds)); [apply acts_ok; set_solver|exact two_adds_runs].
Defined.

(** While request 1 runs its client gives up on it; request 2 is executed and
    answered, and request 3 acknowledges both, so the window drops 2 and keeps
    1; when a second copy of request 2 arrives it is taken for a new one. *)
Definition late_copy : list act :=
  [A_bind; A_call 7 add5; A_transmit 1; A_deliver 3 0;
   A_call 7 add5; A_transmit 2; A_transmit 2; A_deliver 3 1; A_run 0; A_send 0; A_reply 0; A_end 2;
   A_end 1; A_call 7 add5; A_transmit 3; A_deliver 3 3; A_deliver 4 2; A_run 0].
Lemma late_copy_runs :
  is_Some (run_acts (fun _ => (0, 0)) 42 false late_copy counter_start).
Proof. apply is_Some_alt. vm_compute. exact I. Qed.

(** C40. At-most-once does not survive a timeout: [call1] reports the xid of a call
    that timed out like that of one that was answered, and a later header
    acknowledges it.  There is a run of the system in which the client makes
    three calls, the first of which times out while its handler runs, and the
    request of the second is executed twice. *)
Theorem timeout_breaks_at_most_once :
  exists s0 s : rsys Z, rpc_init 42 (fun _ => True) s0 /\ rtc (rpc_step (fun _ => (0, 0)) 42 false) s0 s /\
    n_ret <$> rs_ends s = [rpc_const.timeout_failure; 0] /\
    xid_of <$> rs_execs s = [2; 2] /\ app_ (rs_sv s) = app_ (rs_sv s0) + 5 + 5.
Proof.
  exists counter_start, (counter_final false late_copy). split_and!.
  - exact counter_starts.
  - apply final_reached; [apply acts_ok; set_solver|exact late_copy_runs].
  - vm_compute. reflexivity.
  - vm_compute. reflexivity.
  - vm_compute. reflexivity.
Qed.
