(* ===== verification/Services.v ===== *)
(** * The servers as programs: registered objects behind RPC

    [rpcs::rpcs], [extent_smain.cc] and the stubs of [extent_client.cc], put on
    top of [RpcSystem]: what a typed call of a client returns is what the method
    of the server's object returned when it was executed.  The clients of
    [Extent] call the server's methods directly, with a fate for every call;
    here the fates are those of the RPC system. *)
From S2P Require Import Prelude Connection Marshall Protocols RpcStub RpcServer RpcClient.
From S2P Require Import LockLegacy Extent RpcSystem.
Import extent_protocol.

(** ** A typed call, through the system *)

Section typed.
Context `{FreshMem} {S R : Type} (create_time : Z -> Z * Z) (n : Z) (I : S -> Prop).
Context (cr : codec R) `{!CodecOk cr} (f : handler S) (bs : str) (meth : S -> outcome (Z * R * S)).
Hypothesis Hf : implements cr f bs meth.
Hypothesis Hvalid : forall s b r s', I s -> meth s = Ret (b, r, s') -> valid cr r.

(** The call [e], which was made with the request [req] for the handler [f],
    returns the result of the one execution of [meth], or fails unexecuted. *)
Lemma typed_call (s0 s : rsys S) e h req :
  rpc_init n I s0 -> rtc (rpc_step create_time n true) s0 s ->
  e ∈ rs_ends s -> (h, req) ∈ rs_made s -> rq_xid h = n_xid e ->
  carries req bs -> procs_ (rs_sv s0) !! rq_proc h = Some f ->
  (exists x b r, x ∈ rs_execs s /\ e_hdr x = h /\ 0 <= b /\
     meth (e_pre x) = Ret (b, r, e_post x) /\
     forall old, call_m cr (n_ret e) (n_un e) old = Ret (b, r)) \/
  ((forall x, x ∈ rs_execs s -> e_hdr x <> h) /\
   forall old, call_m cr (n_ret e) (n_un e) old = Ret (rpc_const.atmostonce_failure, old)).
Proof.
  intros Hi Hs He Hm Hx (_ & Hbs & _) Hp.
  pose proof (good_reachable _ _ _ _ _ _ eq_refl Hi Hs) as Hg.
  destruct (good_answered n I s e Hg He) as (h' & req' & Hm' & Hx' & Ha).
  destruct Hg as (rep & F & rp & nw & an & fg & Hinv).
  destruct (made_unique _ _ _ _ _ _ _ _ _ _ _ _ _ Hinv Hm Hm') as [<- <-]; [congruence|].
  destruct Ha as [(x & Hxe & Eh & Erem & Er & Hwf & Hok & Eu)|[Er Hno]].
  - left. destruct (si_execs _ _ _ _ _ _ _ _ _ Hinv x Hxe) as [_ (Hwf' & Hok' & _) Hpre (f' & Hf' & Ef) (H0 & _)].
    rewrite (hi_procs _ _ _ (hist_reachable _ _ _ _ _ _ Hi Hs)), Eh, Hp in Hf'. injection Hf' as <-.
    rewrite (Hf (e_in x) _ _ Hwf' Hok') in Ef by congruence.
    destruct (meth (e_pre x)) as [[[b r] s']| | |] eqn:Em; [|done..]. injection Ef as Eb Erep ->.
    exists x, b, r. split_and!; [done|done|by rewrite Eb|done|]. intros old.
    rewrite Er, <-Eb. apply (call_m_ok cr); [by rewrite Eb|done|done| |by eapply Hvalid].
    rewrite Eu, <-Erep. by destruct (put_carries cr r) as (_ & -> & _).
  - right. split; [done|]. intros old. by rewrite Er.
Qed.
End typed.

(** ** What a registered method must promise *)

Section promises.
Context `{FreshMem} {S : Type} (I : S -> Prop).

(** [b], [r] and [s'] are a result that can be sent. *)
Definition sendable_result {R} (cr : codec R) `{!CodecOk cr} (b : Z) (r : R) (s' : S) : Prop :=
  I s' /\ is_i32 b /\ RPC_HEADER_SZ + Z.of_nat (length (enc cr r)) < 2 ^ 31.
Lemma put_sendable {R} (cr : codec R) `{!CodecOk cr} b r s' :
  sendable_result cr b r s' ->
  I s' /\ is_i32 b /\ marshall_wf (c_put cr marshall_new r) /\ m_ind (c_put cr marshall_new r) < 2 ^ 31.
Proof. intros (? & ? & ?). destruct (put_carries cr r) as (? & _ & ->). by split_and!. Qed.

Lemma fn1_handler_ok {A R} (c1 : codec A) (cr : codec R) `{!CodecOk cr}
    (meth : A -> R -> S -> outcome (Z * R * S)) :
  (forall a s b r s', I s -> meth a (c_dflt cr) s = Ret (b, r, s') -> sendable_result cr b r s') ->
  handler_ok I (rpcs_fn1 c1 cr meth).
Proof.
  intros Hm u s ret rep s' _ Hs. unfold rpcs_fn1. intros ([a u'] & _ & E)%bind_Ret_inv.
  case_match; [injection E as <- <- <-; split_and!; [done..|apply marshall_new_wf|done]|].
  apply bind_Ret_inv in E as ([[b r] s1] & Em & [= <- <- <-]).
  apply (put_sendable cr). by eapply Hm.
Qed.
(** The second argument of [put] is no longer than the request. *)
Lemma fn2_string_handler_ok {A R} (c1 : codec A) (cr : codec R) `{!CodecOk cr}
    (meth : A -> str -> R -> S -> outcome (Z * R * S)) :
  (forall old u a u', c_get c1 old u = Ret (a, u') -> u_buf u' = u_buf u) ->
  (forall a buf s b r s', Z.of_nat (length buf) <= MAX_PDU -> I s ->
     meth a buf (c_dflt cr) s = Ret (b, r, s') -> sendable_result cr b r s') ->
  handler_ok I (rpcs_fn2 c1 c_string cr meth).
Proof.
  intros Hbuf Hm u s ret rep s' ((_ & Hl & _) & _ & Hsz) Hs. unfold rpcs_fn2.
  intros ([a u1] & E1 & E)%bind_Ret_inv. apply bind_Ret_inv in E as ([buf u2] & E2 & E).
  apply Hbuf in E1. apply get_string_length in E2.
  case_match; [injection E as <- <- <-; split_and!; [done..|apply marshall_new_wf|done]|].
  apply bind_Ret_inv in E as ([[b r] s1] & Em & [= <- <- <-]).
  apply (put_sendable cr). eapply Hm; [|done..]. rewrite E1 in E2. cbn in E2. lia.
Qed.
End promises.

(** ** The programs *)

Section programs.
Context `{FreshMem}.

(** [rpcs::rpcs]: [random] is the value [random()] returns, [app] the object the
    program is about to register. *)
Definition rpcs_new {S} (random count : Z) (app : S) : outcome (rpcs S) :=
  let st := Rpcs (u32 random) ∅ ∅ ∅ ∅ count count ∅ app in
  reg1 rpc_const.bind
    (rpcs_fn1 c_i32 c_i32 (fun a _ s => let '(b, r) := rpcbind a st in Ret (b, r, s))) st.

(** [main] of [extent_smain.cc], with the count of [RPC_COUNT] and the clock and
    the random numbers its object will see. *)
Definition extent_smain (random count : Z) (ts ds : list Z) : outcome (rpcs extent_server) :=
  ls ← extent_server_new ts ds;
  server ← rpcs_new random count ls;
  server ← reg1 proc_get (rpcs_fn1 c_u64 c_string server_get) server;
  server ← reg1 proc_getattr (rpcs_fn1 c_u64 c_attr server_getattr) server;
  server ← reg1 proc_put (rpcs_fn2 c_u64 c_string c_i32 server_put) server;
  server ← reg1 proc_remove (rpcs_fn1 c_u64 c_i32 server_remove) server;
  reg1 proc_getinode (rpcs_fn1 c_i32 c_u64 GetInodeNum) server.

(** *** The calls of [extent_client.cc] *)

Inductive extent_op :=
  | EGet (eid : Z) | EGetattr (eid : Z) | EPut (eid : Z) (buf : str) | ERemove (eid : Z)
  | EGetinode (is_file : Z).
Definition res (o : extent_op) : Type :=
  match o with EGet _ => str | EGetattr _ => attr | EPut _ _ | ERemove _ | EGetinode _ => Z end.
Definition res_codec (o : extent_op) : codec (res o) :=
  match o with
  | EGet _ => c_string | EGetattr _ => c_attr | EPut _ _ | ERemove _ => c_i32
  | EGetinode _ => c_u64
  end.
#[export] Instance res_codec_ok o : CodecOk (res_codec o).
Proof. destruct o; cbn; apply _. Defined.

(** The procedure number and the marshalled arguments of a call. *)
Definition op_proc (o : extent_op) : Z :=
  match o with
  | EGet _ => proc_get | EGetattr _ => proc_getattr | EPut _ _ => proc_put
  | ERemove _ => proc_remove | EGetinode _ => proc_getinode
  end.
Definition op_req (o : extent_op) : marshall :=
  match o with
  | EGet eid | EGetattr eid | ERemove eid => call_req1 c_u64 eid
  | EPut eid buf => call_req2 c_u64 c_string eid buf
  | EGetinode is_file => call_req1 c_i32 is_file
  end.
Definition op_valid (o : extent_op) : Prop :=
  match o with
  | EGet eid | EGetattr eid | ERemove eid | EPut eid _ => is_u64 eid
  | EGetinode is_file => is_i32 is_file
  end.
(** The method of the server's object that the call is for. *)
Definition op_meth (o : extent_op) : res o -> extent_server -> outcome (Z * res o * extent_server) :=
  match o with
  | EGet eid => server_get eid | EGetattr eid => server_getattr eid
  | EPut eid buf => server_put eid buf | ERemove eid => server_remove eid
  | EGetinode is_file => GetInodeNum is_file
  end.
Definition op_handler (o : extent_op) : handler extent_server :=
  match o with
  | EGet _ => rpcs_fn1 c_u64 c_string server_get
  | EGetattr _ => rpcs_fn1 c_u64 c_attr server_getattr
  | EPut _ _ => rpcs_fn2 c_u64 c_string c_i32 server_put
  | ERemove _ => rpcs_fn1 c_u64 c_i32 server_remove
  | EGetinode _ => rpcs_fn1 c_i32 c_u64 GetInodeNum
  end.
Definition op_bytes (o : extent_op) : str :=
  match o with
  | EGet eid | EGetattr eid | ERemove eid => enc c_u64 eid
  | EPut eid buf => enc c_u64 eid ++ enc c_string buf
  | EGetinode is_file => enc c_i32 is_file
  end.

Lemma op_req_carries o : carries (op_req o) (op_bytes o).
Proof.
  destruct o; [by apply (call_req1_carries c_u64)..|by apply call_req2_carries
    |by apply (call_req1_carries c_u64)|by apply (call_req1_carries c_i32)].
Qed.
Lemma op_implements o :
  op_valid o -> implements (res_codec o) (op_handler o) (op_bytes o) (op_meth o (c_dflt (res_codec o))).
Proof.
  destruct o; intros Hv.
  - by apply (rpcs_fn1_implements c_u64 c_string server_get).
  - by apply (rpcs_fn1_implements c_u64 c_attr server_getattr).
  - by apply (rpcs_fn2_implements c_u64 c_string c_i32 server_put).
  - by apply (rpcs_fn1_implements c_u64 c_i32 server_remove).
  - by apply (rpcs_fn1_implements c_i32 c_u64 GetInodeNum).
Qed.

(** *** The invariant of the server's object: what it holds came in a request *)

Definition content_ok (c : FileContent) : Prop :=
  valid c_attr c.1 /\ Z.of_nat (length c.2) <= MAX_PDU.
Definition extent_inv (s : extent_server) : Prop := map_Forall (fun _ c => content_ok c) (file_block_ s).

Lemma now_of_u32 ts : is_u32 (now_of ts).
Proof. apply u32_range. Qed.
Lemma content_lookup s id : extent_inv s -> content_ok (std_ref zero_content (file_block_ s) id).
Proof.
  intros Hs. unfold std_ref. destruct (file_block_ s !! id) as [c|] eqn:E; [by apply (Hs id)|].
  split; [by vm_compute|done].
Qed.
Lemma content_insert s id c ts ds :
  extent_inv s -> content_ok c -> extent_inv (ExtentServer (<[id := c]> (file_block_ s)) ts ds).
Proof. intros Hs Hc. by apply map_Forall_insert_2. Qed.
Lemma op_meth_ok o s b r s' :
  match o with EPut _ buf => Z.of_nat (length buf) <= MAX_PDU | _ => True end ->
  extent_inv s -> op_meth o (c_dflt (res_codec o)) s = Ret (b, r, s') ->
  valid (res_codec o) r /\ sendable_result extent_inv (res_codec o) b r s'.
Proof.
  intros Ho Hs E. change MAX_PDU with 10485760 in *. unfold sendable_result.
  destruct o as [id|id|id buf|id|is_file]; cbn in r, E.
  - unfold server_get in E. destruct (file_block_ s !! id) as [[a c]|] eqn:El; simplify_eq/=; [|done].
    destruct (Hs id _ El) as [Ha Hc]. cbn in Ha, Hc. change MAX_PDU with 10485760 in Hc.
    split_and!; [done| |done|unfold RPC_HEADER_SZ; lia].
    apply content_insert; [done|]. split; [|done]. cbn. pose proof (now_of_u32 (times s)). tauto.
  - unfold server_getattr in E. destruct (file_block_ s !! id) as [[a c]|] eqn:El; simplify_eq/=; [|done].
    destruct (Hs id _ El) as [Ha Hc]. split; [exact Ha|by split_and!].
  - unfold server_put in E. simplify_eq/=. split_and!; [done| |done|done].
    destruct (content_lookup s id Hs) as [Ha _]. apply content_insert; [done|]. split; [|done]. cbn.
    pose proof (now_of_u32 (times s)). pose proof (u32_range (Z.of_nat (length buf))).
    cbn in Ha. case_match; cbn; tauto.
  - unfold server_remove in E. destruct (file_block_ s !! id) as [c|] eqn:El; simplify_eq/=; [|done].
    split_and!; [done| |done|done]. by apply map_Forall_delete.
  - unfold GetInodeNum in E. destruct (inode_loop _ _ _) as [[ino ds]|] eqn:El; simplify_eq/=.
    destruct (inode_loop_spec _ _ _ _ _ El) as (_ & Hu & _). by split_and!.
Qed.

(** The program registers its handlers, and they keep what [RpcSystem] asks for. *)
Lemma op_handler_ok o : handler_ok extent_inv (op_handler o).
Proof.
  destruct o; cbn.
  - apply (fn1_handler_ok _ c_u64 c_string). intros a s b r s' Hs E. by apply (op_meth_ok (EGet a) s).
  - apply (fn1_handler_ok _ c_u64 c_attr). intros a s b r s' Hs E. by apply (op_meth_ok (EGetattr a) s).
  - apply (fn2_string_handler_ok _ c_u64 c_i32).
    + intros old u a u' E. cbn in E. unfold total in E. injection E as E. by apply get_u64_frame in E as [? _].
    + intros a b0 s b r s' Hl Hs E. by apply (op_meth_ok (EPut a b0) s).
  - apply (fn1_handler_ok _ c_u64 c_i32). intros a s b r s' Hs E. by apply (op_meth_ok (ERemove a) s).
  - apply (fn1_handler_ok _ c_i32 c_u64). intros a s b r s' Hs E. by apply (op_meth_ok (EGetinode a) s).
Qed.
Lemma rpcbind_ok {S} (I : S -> Prop) (st : rpcs S) :
  handler_ok I (rpcs_fn1 c_i32 c_i32 (fun a _ s => let '(b, r) := rpcbind a st in Ret (b, r, s))).
Proof.
  apply (fn1_handler_ok _ c_i32 c_i32). intros a s b r s' Hs [= <- <- <-].
  split_and!; [done..|]. unfold RPC_HEADER_SZ. cbn. lia.
Qed.
Lemma reg1_Ret {S} p (f : handler S) st st' :
  reg1 p f st = Ret st' ->
  procs_ st' = <[p := f]> (procs_ st) /\ app_ st' = app_ st /\ nonce_ st' = nonce_ st /\
  reply_window_ st' = reply_window_ st.
Proof. unfold reg1. case_match; [done|]. by intros [= <-]. Qed.
Lemma extent_smain_ok random count ts ds st :
  extent_smain random count ts ds = Ret st ->
  (forall o, procs_ st !! op_proc o = Some (op_handler o)) /\
  (forall p f, procs_ st !! p = Some f -> handler_ok extent_inv f) /\
  extent_inv (app_ st) /\ nonce_ st = u32 random /\ reply_window_ st = ∅.
Proof.
  unfold extent_smain. intros (ls & Els & E)%bind_Ret_inv.
  assert (extent_inv ls) as Hls.
  { apply bind_Ret_inv in Els as ([[b r] s] & Ep & [= <-]).
    apply (op_meth_ok (EPut 1 []) (ExtentServer ∅ ts ds) b r s); [done|apply map_Forall_empty|exact Ep]. }
  apply bind_Ret_inv in E as (st0 & E0 & E). apply bind_Ret_inv in E as (st1 & E1 & E).
  apply bind_Ret_inv in E as (st2 & E2 & E). apply bind_Ret_inv in E as (st3 & E3 & E).
  apply bind_Ret_inv in E as (st4 & E4 & E).
  apply reg1_Ret in E0 as (P0 & A0 & N0 & W0), E1 as (P1 & A1 & N1 & W1), E2 as (P2 & A2 & N2 & W2),
    E3 as (P3 & A3 & N3 & W3), E4 as (P4 & A4 & N4 & W4), E as (P5 & A5 & N5 & W5).
  cbn [procs_ app_ nonce_ reply_window_] in P0, A0, N0, W0. rewrite P5, P4, P3, P2, P1, P0, A5, A4, A3, A2, A1, A0, N5, N4, N3, N2, N1, N0,
    W5, W4, W3, W2, W1, W0. split_and!; try done.
  - intros []; unfold op_proc, op_handler; rewrite ?lookup_insert_ne by discriminate; apply lookup_insert_eq.
  - intros p f. rewrite !lookup_insert_Some, lookup_empty.
    intros [[_ <-]|[_ [[_ <-]|[_ [[_ <-]|[_ [[_ <-]|[_ [[_ <-]|[_ [[_ <-]|[_ ?]]]]]]]]]]]].
    + exact (op_handler_ok (EGetinode 0)).
    + exact (op_handler_ok (ERemove 0)).
    + exact (op_handler_ok (EPut 0 [])).
    + exact (op_handler_ok (EGetattr 0)).
    + exact (op_handler_ok (EGet 0)).
    + exact (rpcbind_ok _ _).
    + done.
Qed.
Lemma op_result_valid o s b r s' :
  extent_inv s -> op_meth o (c_dflt (res_codec o)) s = Ret (b, r, s') -> valid (res_codec o) r.
Proof.
  intros Hs E. destruct o as [id|id|id buf|id|is_file].
  - by destruct (op_meth_ok (EGet id) s b r s').
  - by destruct (op_meth_ok (EGetattr id) s b r s').
  - by injection E as <- <- <-.
  - by destruct (op_meth_ok (ERemove id) s b r s').
  - by destruct (op_meth_ok (EGetinode is_file) s b r s').
Qed.
End programs.

(** The system of the extent server's program and a client that has just been
    constructed. *)
Definition extent_start `{FreshMem} (st : rpcs extent_server) (random lossy : Z) : rsys extent_server :=
  RSys (rpcc_new true random lossy) ∅ st [] [] [] [] [] [] [].

(** C7. The extent service, end to end.  The program of [extent_smain.cc] serves a
    client whose calls never time out, over a network that loses, repeats and
    reorders, among other clients; each method of the server takes effect at one
    moment, which the code leaves to chance, as its locks are commented out.  A
    call of [extent_client] that has returned is a call as [Extent] models it:
    with the fate [Delivered], in the state the server's object had when its
    method ran, it yields the status and the value the stub unmarshalled and the
    state the method left; or with the fate [Failed], not executed, it yields the
    error and leaves the caller's value. *)
Theorem extent_calls `{FreshMem} random count ts ds st create_time crandom lossy s e o h :
  extent_smain random count ts ds = Ret st -> 0 < u32 crandom ->
  rtc (rpc_step create_time (u32 crandom) true) (extent_start st crandom lossy) s ->
  e ∈ rs_ends s -> (h, op_req o) ∈ rs_made s -> rq_xid h = n_xid e -> rq_proc h = op_proc o ->
  op_valid o ->
  exists ft s1 s2,
    (ft = Delivered /\ (exists x, x ∈ rs_execs s /\ e_hdr x = h /\ e_pre x = s1 /\ e_post x = s2) \/
     ft = Failed rpc_const.atmostonce_failure false /\ (forall x, x ∈ rs_execs s -> e_hdr x <> h)) /\
    forall old cache cts, exists b r,
      call_m (res_codec o) (n_ret e) (n_un e) old = Ret (b, r) /\
      call (op_meth o) (c_dflt (res_codec o)) old (World cache cts [ft] s1)
        = Ret (b, r, World cache cts [] s2).
Proof.
  intros Hst Hn Hs He Hm Hx Hp Ho. destruct (extent_smain_ok _ _ _ _ _ Hst) as (Hops & Hok & Hinv & Hnon & Hw).
  assert (rpc_init (u32 crandom) extent_inv (extent_start st crandom lossy)) as Hi.
  { apply rpc_starts; [done|done| |done| |done]; [rewrite Hnon; apply u32_range|].
    rewrite Hw. done. }
  destruct (typed_call create_time (u32 crandom) extent_inv (res_codec o) (op_handler o) (op_bytes o)
    (op_meth o (c_dflt (res_codec o))) (op_implements o Ho) (op_result_valid o) _ s e h (op_req o) Hi Hs
    He Hm Hx (op_req_carries o)) as [(x & b & r & Hxe & Eh & Hb & Em & Ec)|[Hno Ec]].
  - cbn. by rewrite Hp.
  - exists Delivered, (e_pre x), (e_post x). split; [left; split; [done|by exists x]|].
    intros old cache cts. exists b, r. split; [done|]. unfold call. cbn [net hd srv].
    rewrite Em. cbn. destruct (Z.ltb_spec b 0); [lia|done].
  - exists (Failed rpc_const.atmostonce_failure false), (app_ (rs_sv s)), (app_ (rs_sv s)).
    split; [by right|]. intros old cache cts. by eexists _, _.
Qed.

(** ** [lock_client.cc]: a lock server called by RPC *)

Module lock_client.
Import lock_server.
Section client.
Context `{FreshMem}.

(** [cl->call(proc, cl->id(), lid, r)]: [id] is an [unsigned int]. *)
Definition lc_req (id lid : Z) : marshall := call_req2 c_u32 c_u64 id lid.
(** What [stat], [acquire] and [release] make of the reply; [r] starts undefined,
    and is not read unless the call succeeded. *)
Definition lc_finish (r intret : Z) (u : unmarshall) : outcome Z :=
  '(ret, r) ← call_m c_i32 intret u r;
  _ ← VERIFY (ret =? lock_protocol.OK);
  Ret r.

(** The methods of [lock_server] behind their wrappers: a worker whose lock is
    taken does not go on. *)
Definition lc_meth (proc clt lid r : Z) (st : lsv_state) : outcome (Z * Z * lsv_state) :=
  if proc =? lock_protocol.proc_acquire then
    match acquire_lock lid st with Some (b, st) => Ret (b, r, st) | None => Hang end
  else if proc =? lock_protocol.proc_release then
    '(b, st) ← release_lock lid st; Ret (b, r, st)
  else lsv_stat clt lid r st.
Definition lc_handler (proc : Z) : handler lsv_state := rpcs_fn2 c_i32 c_u64 c_i32 (lc_meth proc).

(** The client's [unsigned int] is the server's [int]. *)
Lemma lc_req_carries id lid :
  is_u32 id -> carries (lc_req id lid) (enc c_i32 (i32 id) ++ enc c_u64 lid).
Proof.
  intros Hid. unfold lc_req. replace (enc c_i32 (i32 id)) with (enc c_u32 id); [by apply call_req2_carries|].
  cbn [enc c_u32_ok c_i32_ok]. by rewrite u32_i32, u32_id.
Qed.
Lemma lc_meth_result proc clt lid st b r st' :
  is_i32 (nacquire st) -> lc_meth proc clt lid 0 st = Ret (b, r, st') ->
  is_i32 r /\ b = lock_protocol.OK /\ is_i32 (nacquire st').
Proof.
  unfold lc_meth, acquire_lock, release_lock, lsv_stat. intros Hn E.
  repeat case_match; simplify_eq/=; done.
Qed.

(** A call of [lock_client] that has returned got what the server's method
    returned in one execution, which for [acquire] found the lock free; a call
    that was not executed ends the process. *)
Theorem lock_client_call create_time n (s0 s : rsys lsv_state) e h id lid :
  rpc_init n (fun st => is_i32 (nacquire st)) s0 -> rtc (rpc_step create_time n true) s0 s ->
  e ∈ rs_ends s -> (h, lc_req id lid) ∈ rs_made s -> rq_xid h = n_xid e ->
  is_u32 id -> is_u64 lid ->
  procs_ (rs_sv s0) !! rq_proc h = Some (lc_handler (rq_proc h)) ->
  (exists x r, x ∈ rs_execs s /\ e_hdr x = h /\ (forall r0, lc_finish r0 (n_ret e) (n_un e) = Ret r) /\
     lc_meth (rq_proc h) (i32 id) lid 0 (e_pre x) = Ret (lock_protocol.OK, r, e_post x)) \/
  (forall x, x ∈ rs_execs s -> e_hdr x <> h) /\ forall r0, lc_finish r0 (n_ret e) (n_un e) = VerifyFail.
Proof.
  intros Hi Hs He Hm Hx Hid Hl Hp.
  assert (implements c_i32 (lc_handler (rq_proc h)) (enc c_i32 (i32 id) ++ enc c_u64 lid)
    (lc_meth (rq_proc h) (i32 id) lid 0)) as Himp.
  { apply (rpcs_fn2_implements c_i32 c_u64 c_i32 (lc_meth (rq_proc h))); [apply i32_range|done]. }
  assert (forall st b r st', is_i32 (nacquire st) ->
    lc_meth (rq_proc h) (i32 id) lid 0 st = Ret (b, r, st') -> valid c_i32 r) as Hv.
  { intros st b r st' Hst E. by destruct (lc_meth_result _ _ _ _ _ _ _ Hst E). }
  destruct (typed_call create_time n _ c_i32 _ _ _ Himp Hv s0 s e h _ Hi Hs He Hm Hx (lc_req_carries id lid Hid) Hp)
    as [(x & b & r & Hxe & Eh & _ & Em & Ec)|[Hno Ec]].
  - left. exists x, r. split; [done|]. split; [done|].
    pose proof (good_reachable _ _ _ _ _ _ eq_refl Hi Hs) as (rep & F & rp & nw & an & fg & Hinv).
    destruct (si_execs _ _ _ _ _ _ _ _ _ Hinv x Hxe) as [_ _ Hpre _ _].
    destruct (lc_meth_result _ _ _ _ _ _ _ Hpre Em) as (_ & -> & _). split; [|done].
    intros r0. unfold lc_finish. by rewrite Ec.
  - right. split; [done|]. intros r0. unfold lc_finish. by rewrite Ec.
Qed.
End client.
End lock_client.

(** A [put] and a [get] of a client with nonce 42. *)
#[local] Existing Instance fresh_zero.
Definition served : rpcs extent_server :=
  match extent_smain 99 0 [100; 101; 102] [] with
  | Ret st => st
  | _ => Rpcs 0 ∅ ∅ ∅ ∅ 0 0 ∅ (ExtentServer ∅ [] [])
  end.
Lemma served_eq : extent_smain 99 0 [100; 101; 102] [] = Ret served.
Proof.
  unfold served. destruct (extent_smain _ _ _ _) eqn:E; [done|..]; exfalso;
    apply (f_equal (fun o => match o with Ret _ => true | _ => false end)) in E; vm_compute in E; done.
Qed.
Definition put_get : list act :=
  [A_bind; A_call proc_put (op_req (EPut 2 (lit "hi"))); A_transmit 1; A_deliver 3 0; A_run 0; A_send 0;
   A_reply 0; A_end 1;
   A_call proc_get (op_req (EGet 2)); A_transmit 2; A_deliver 3 1; A_run 0; A_send 0; A_reply 1; A_end 2].
Abbreviation put_get_final := (final (fun _ => (0, 0)) 42 true put_get (extent_start served 42 0)).
Lemma put_get_runs :
  is_Some (run_acts (fun _ => (0, 0)) 42 true put_get (extent_start served 42 0)).
Proof. apply is_Some_alt. vm_compute. exact I. Qed.
Lemma put_get_ok : Forall act_ok put_get.
Proof.
  apply Forall_forall. intros a. unfold put_get. rewrite !elem_of_cons, elem_of_nil.
  assert (forall p o, act_ok (A_call p (op_req o))) as Ho by (intros p o; apply op_req_carries).
  intros Ha. repeat destruct Ha as [->|Ha]; try exact Logic.I; try apply Ho. done.
Qed.
Definition get_ended : ended := List.hd (Ended 0 0 unmarshall_empty) (rs_ends put_get_final).
Definition get_header : req_header := ReqHeader 2 proc_get 42 99 1.
Lemma get_ended_facts :
  get_ended ∈ rs_ends put_get_final /\ (get_header, op_req (EGet 2)) ∈ rs_made put_get_final /\
  n_xid get_ended = 2 /\ call_m c_string (n_ret get_ended) (n_un get_ended) [] = Ret (OK, lit "hi").
Proof.
  assert (rs_ends put_get_final !! 0%nat = Some get_ended) as He by (vm_compute; reflexivity).
  assert (rs_made put_get_final !! 0%nat = Some (get_header, op_req (EGet 2))) as Hm
    by (vm_compute; reflexivity).
  split_and!; [by eapply list_elem_of_lookup_2..|vm_compute; reflexivity|vm_compute; reflexivity].
Qed.
Lemma extent_calls_witness :
  call_m c_string (n_ret get_ended) (n_un get_ended) [] = Ret (OK, lit "hi") /\
  exists ft s1 s2,
    (ft = Delivered /\ (exists x, x ∈ rs_execs put_get_final /\ e_hdr x = get_header /\
       e_pre x = s1 /\ e_post x = s2) \/
     ft = Failed rpc_const.atmostonce_failure false /\
       (forall x, x ∈ rs_execs put_get_final -> e_hdr x <> get_header)) /\
    forall old cache cts, exists b r,
      call_m c_string (n_ret get_ended) (n_un get_ended) old = Ret (b, r) /\
      call (server_get 2) [] old (World cache cts [ft] s1) = Ret (b, r, World cache cts [] s2).
Proof.
  destruct get_ended_facts as (He & Hm & Hx & Hc). split; [exact Hc|].
  apply (extent_calls 99 0 [100; 101; 102] [] served (fun _ => (0, 0)) 42 0 put_get_final get_ended (EGet 2)
    get_header); [exact served_eq|reflexivity| |exact He|exact Hm|by rewrite Hx|reflexivity|cbn; width].
  apply final_reached; [exact put_get_ok|exact put_get_runs].
Defined.
