(* ===== verification/RpcTest.v ===== *)
(** * The test of the RPC library: [rpctest.cc]

    The server of the test, the checks its clients make of the calls they make,
    and what [RpcSystem] says of them: a call of the test that was executed
    passes its check, whatever the network did. *)
From S2P Require Import Prelude Connection Marshall Protocols RpcStub RpcServer RpcClient RpcSystem Services.

Section rpctest.
Context `{FreshMem}.

(** ** The server *)

(** The methods of [srv], which has no state.  [mem] is the longest string the
    process can allocate: [std::string] throws otherwise, and for a negative
    length, and nobody catches. *)
Definition handle_22 (a b r : str) (s : unit) : outcome (Z * str * unit) := Ret (0, a ++ b, s).
Definition handle_fast (a r : Z) (s : unit) : outcome (Z * Z * unit) :=
  if a + 1 <? 2 ^ 31 then Ret (0, a + 1, s) else UB.
(** After a delay. *)
Definition handle_slow (a r : Z) (s : unit) : outcome (Z * Z * unit) :=
  if a + 2 <? 2 ^ 31 then Ret (0, a + 2, s) else UB.
Definition handle_bigrep (mem len : Z) (r : str) (s : unit) : outcome (Z * str * unit) :=
  if (len <? 0) || (mem <? len) then VerifyFail else Ret (0, replicate (Z.to_nat len) "x"%char, s).

Definition startserver (mem random count : Z) : outcome (rpcs unit) :=
  server ← rpcs_new random count tt;
  server ← reg1 22 (rpcs_fn2 c_string c_string c_string handle_22) server;
  server ← reg1 23 (rpcs_fn1 c_i32 c_i32 handle_fast) server;
  server ← reg1 24 (rpcs_fn1 c_i32 c_i32 handle_slow) server;
  reg1 25 (rpcs_fn1 c_i32 c_string (handle_bigrep mem)) server.

(** ** [testmarshall] *)

Definition hallo : str := lit "hallo....".
Definition testmarshall : outcome unit :=
  let rh := ReqHeader 1 2 3 4 5 in
  let m := pack_req_header marshall_new rh in
  _ ← VERIFY (m_ind m =? RPC_HEADER_SZ);
  let m := c_put c_string (c_put c_u64 (c_put c_i32 m 12345) 1223344455) hallo in
  let '(b, sz) := m_take_buf m in
  _ ← VERIFY (sz =? RPC_HEADER_SZ + 4 + 8 + Z.of_nat (length hallo) + 4);
  let '(rh1, un) := unpack_req_header (unmarshall_pdu b sz) in
  _ ← VERIFY (bool_decide (rq_xid rh1 = rq_xid rh /\ rq_proc rh1 = rq_proc rh /\
                rq_clt_nonce rh1 = rq_clt_nonce rh /\ rq_srv_nonce rh1 = rq_srv_nonce rh /\
                rq_xid_rep rh1 = rq_xid_rep rh));
  '(i1, un) ← c_get c_i32 0 un;
  '(l1, un) ← c_get c_u64 0 un;
  '(s1, un) ← c_get c_string [] un;
  _ ← VERIFY (okdone un);
  VERIFY ((i1 =? 12345) && (l1 =? 1223344455) && bool_decide (s1 = hallo)).
Lemma testmarshall_ok : testmarshall = Ret tt.
Proof. vm_compute. reflexivity. Qed.

(** ** The calls of the tests *)

Inductive test_call := C22 (a b : str) | CFast (a : Z) | CSlow (a : Z) | CBig (len : Z).
Definition tc_res (o : test_call) : Type := match o with C22 _ _ | CBig _ => str | _ => Z end.
Definition tc_codec (o : test_call) : codec (tc_res o) :=
  match o with C22 _ _ | CBig _ => c_string | CFast _ | CSlow _ => c_i32 end.
#[export] Instance tc_codec_ok o : CodecOk (tc_codec o).
Proof. destruct o; cbn; apply _. Defined.
Definition tc_proc (o : test_call) : Z :=
  match o with C22 _ _ => 22 | CFast _ => 23 | CSlow _ => 24 | CBig _ => 25 end.
Definition tc_req (o : test_call) : marshall :=
  match o with C22 a b => call_req2 c_string c_string a b | CFast a | CSlow a | CBig a => call_req1 c_i32 a end.
Definition tc_bytes (o : test_call) : str :=
  match o with C22 a b => enc c_string a ++ enc c_string b | CFast a | CSlow a | CBig a => enc c_i32 a end.
(** What the caller should get. *)
Definition tc_expect (o : test_call) : tc_res o :=
  match o with
  | C22 a b => a ++ b | CFast a => a + 1 | CSlow a => a + 2 | CBig len => replicate (Z.to_nat len) "x"%char
  end.

Section served.
Variable mem : Z.
Hypothesis Hmem : 0 <= mem < 2 ^ 31 - RPC_HEADER_SZ - 4.

Definition tc_valid (o : test_call) : Prop :=
  match o with
  | C22 _ _ => True
  | CFast a | CSlow a => is_i32 a /\ a + 2 < 2 ^ 31
  | CBig len => 0 <= len <= mem
  end.
Definition tc_meth (o : test_call) : tc_res o -> unit -> outcome (Z * tc_res o * unit) :=
  match o with
  | C22 a b => handle_22 a b | CFast a => handle_fast a | CSlow a => handle_slow a
  | CBig len => handle_bigrep mem len
  end.
Definition tc_handler (o : test_call) : handler unit :=
  match o with
  | C22 _ _ => rpcs_fn2 c_string c_string c_string handle_22
  | CFast _ => rpcs_fn1 c_i32 c_i32 handle_fast
  | CSlow _ => rpcs_fn1 c_i32 c_i32 handle_slow
  | CBig _ => rpcs_fn1 c_i32 c_string (handle_bigrep mem)
  end.
Lemma tc_carries o : carries (tc_req o) (tc_bytes o).
Proof. destruct o; [by apply call_req2_carries|by apply (call_req1_carries c_i32)..]. Qed.
Lemma tc_implements o :
  tc_valid o -> implements (tc_codec o) (tc_handler o) (tc_bytes o) (tc_meth o (c_dflt (tc_codec o))).
Proof.
  destruct o; intros Hv.
  - by apply (rpcs_fn2_implements c_string c_string c_string handle_22).
  - apply (rpcs_fn1_implements c_i32 c_i32 handle_fast), Hv.
  - apply (rpcs_fn1_implements c_i32 c_i32 handle_slow), Hv.
  - apply (rpcs_fn1_implements c_i32 c_string (handle_bigrep mem)).
    unfold RPC_HEADER_SZ in Hmem. cbn in *. unfold is_i32. lia.
Qed.
Lemma tc_result o r s : tc_valid o -> tc_meth o r s = Ret (0, tc_expect o, s).
Proof.
  destruct o; cbn; intros Hv; [done|..].
  - unfold handle_fast. by destruct (Z.ltb_spec (a + 1) (2 ^ 31)); [|lia].
  - unfold handle_slow. by destruct (Z.ltb_spec (a + 2) (2 ^ 31)); [|lia].
  - unfold handle_bigrep. destruct (Z.ltb_spec len 0); [lia|]. by destruct (Z.ltb_spec mem len); [lia|].
Qed.
Lemma tc_expect_valid o : tc_valid o -> valid (tc_codec o) (tc_expect o).
Proof. destruct o; cbn; unfold is_i32; [done|lia|lia|done]. Qed.

(** The handlers keep what [RpcSystem] asks of a service. *)
Lemma fn2_handler_ok {S A B R} (I : S -> Prop) (c1 : codec A) (c2 : codec B) (cr : codec R) `{!CodecOk cr}
    (meth : A -> B -> R -> S -> outcome (Z * R * S)) :
  (forall u a u1 b u2 s st r s', readable u -> c_get c1 (c_dflt c1) u = Ret (a, u1) ->
     c_get c2 (c_dflt c2) u1 = Ret (b, u2) -> I s -> meth a b (c_dflt cr) s = Ret (st, r, s') ->
     sendable_result I cr st r s') ->
  handler_ok I (rpcs_fn2 c1 c2 cr meth).
Proof.
  intros Hm u s ret rep s' Hu Hs. unfold rpcs_fn2. intros ([a u1] & E1 & E)%bind_Ret_inv.
  apply bind_Ret_inv in E as ([b u2] & E2 & E).
  case_match; [injection E as <- <- <-; split_and!; [done..|apply marshall_new_wf|done]|].
  apply bind_Ret_inv in E as ([[st r] s1] & Em & [= <- <- <-]). apply (put_sendable I cr).
  by eapply (Hm u a u1 b u2 s).
Qed.
Lemma two_strings_ok : handler_ok (fun _ => True) (rpcs_fn2 c_string c_string c_string handle_22).
Proof.
  apply (fn2_handler_ok _ c_string c_string c_string).
  intros u a u1 b u2 s st r s' ((_ & Hl & _) & _ & Hsz) E1 E2 _ Em. unfold handle_22 in Em.
  injection Em as <- <- <-. split_and!; [done..|].
  pose proof (get_string_length _ _ _ _ E1) as L1. pose proof (get_string_length _ _ _ _ E2) as L2.
  apply get_string_buf in E1. rewrite E1 in L2. cbn [enc c_string_ok c_dflt c_string length] in *.
  change MAX_PDU with 10485760 in Hsz. rewrite !length_app. unfold RPC_HEADER_SZ. cbn [length be32]. lia.
Qed.
Lemma tc_handler_ok o : handler_ok (fun _ => True) (tc_handler o).
Proof.
  unfold RPC_HEADER_SZ in Hmem. cbn in Hmem. destruct o; cbn.
  - exact two_strings_ok.
  - apply (fn1_handler_ok _ c_i32 c_i32). intros x s b r s' _. unfold handle_fast. case_match; [|done].
    intros [= <- <- <-]. split_and!; [done..|]. unfold RPC_HEADER_SZ. cbn. lia.
  - apply (fn1_handler_ok _ c_i32 c_i32). intros x s b r s' _. unfold handle_slow. case_match; [|done].
    intros [= <- <- <-]. split_and!; [done..|]. unfold RPC_HEADER_SZ. cbn. lia.
  - apply (fn1_handler_ok _ c_i32 c_string). intros x s b r s' _. unfold handle_bigrep.
    destruct (Z.ltb_spec x 0); [done|]. destruct (Z.ltb_spec mem x); [done|]. cbn [orb].
    intros [= <- <- <-]. split_and!; [done..|]. unfold RPC_HEADER_SZ. cbn [enc c_string_ok].
    rewrite length_app, length_replicate. cbn [length be32]. lia.
Qed.
Lemma startserver_ok random count st :
  startserver mem random count = Ret st ->
  (forall o, procs_ st !! tc_proc o = Some (tc_handler o)) /\
  (forall p f, procs_ st !! p = Some f -> handler_ok (fun _ => True) f) /\
  nonce_ st = u32 random /\ reply_window_ st = ∅.
Proof.
  unfold startserver. intros (st0 & E0 & E)%bind_Ret_inv. apply bind_Ret_inv in E as (st1 & E1 & E).
  apply bind_Ret_inv in E as (st2 & E2 & E). apply bind_Ret_inv in E as (st3 & E3 & E).
  apply reg1_Ret in E0 as (P0 & _ & N0 & W0), E1 as (P1 & _ & N1 & W1), E2 as (P2 & _ & N2 & W2),
    E3 as (P3 & _ & N3 & W3), E as (P4 & _ & N4 & W4).
  cbn [procs_ nonce_ reply_window_] in P0, N0, W0.
  rewrite P4, P3, P2, P1, P0, N4, N3, N2, N1, N0, W4, W3, W2, W1, W0. split_and!; try done.
  - intros []; unfold tc_proc, tc_handler; rewrite ?lookup_insert_ne by discriminate; apply lookup_insert_eq.
  - intros p f. rewrite !lookup_insert_Some, lookup_empty.
    intros [[_ <-]|[_ [[_ <-]|[_ [[_ <-]|[_ [[_ <-]|[_ [[_ <-]|[_ ?]]]]]]]]]].
    + exact (tc_handler_ok (CBig 0)).
    + exact (tc_handler_ok (CSlow 0)).
    + exact (tc_handler_ok (CFast 0)).
    + exact (tc_handler_ok (C22 [] [])).
    + exact (rpcbind_ok _ _).
    + done.
Qed.
End served.

(** ** The checks *)

(** A check of a call: what the test makes of the result of the call and of the
    value of its last argument. *)
Record check := Check { ck_call : test_call; ck_test : Z -> tc_res ck_call -> outcome unit }.

(** [client1] makes a hundred calls with a big reply, then a hundred that are fast
    or slow; [rs] are the numbers of [random()]. *)
Definition client1_big (arg : Z) : check :=
  Check (CBig arg) (fun ret rep => _ ← VERIFY (ret =? 0); VERIFY (Z.of_nat (length rep) =? arg)).
Definition client1_mixed (which : bool) (arg : Z) : check :=
  if which then Check (CFast arg) (fun ret rep => _ ← VERIFY (ret =? 0); VERIFY (rep =? arg + 1))
  else Check (CSlow arg) (fun ret rep => _ ← VERIFY (ret =? 0); VERIFY (rep =? arg + 2)).
Fixpoint client1_loop1 (n : nat) (rs : list Z) : list check * list Z :=
  match n, rs with
  | S n, r :: rs => let '(l, rs) := client1_loop1 n rs in (client1_big (r `mod` 2000) :: l, rs)
  | _, _ => ([], rs)
  end.
Fixpoint client1_loop2 (n : nat) (rs : list Z) : list check :=
  match n, rs with
  | S n, w :: r :: rs => client1_mixed (negb (w `mod` 2 =? 0)) (r `mod` 1000) :: client1_loop2 n rs
  | _, _ => []
  end.
Definition client1 (rs : list Z) : list check :=
  let '(l, rs) := client1_loop1 100 rs in l ++ client1_loop2 100 rs.
(** [client2] goes on for ten seconds: one call for each of [rs]. *)
Definition client2 (rs : list Z) : list check :=
  (fun r => Check (CBig (r `mod` 2000)) (fun _ rep => VERIFY (Z.of_nat (length rep) =? r `mod` 2000))) <$> rs.
Definition client3 : list check :=
  (fun i => Check (CSlow (Z.of_nat i))
              (fun ret rep => VERIFY ((ret =? rpc_const.timeout_failure) || (rep =? Z.of_nat i + 2)))) <$> seq 0 4.
Definition hello_check (a b : str) : check :=
  Check (C22 a b) (fun ret rep => _ ← VERIFY (ret =? 0); VERIFY (bool_decide (rep = a ++ b))).
(** The calls of [simple_tests]; its last check is of a server that is not there. *)
Definition simple_tests : list check :=
  [hello_check (lit "hello") (lit " goodbye");
   Check (CBig 70000) (fun ret rep => _ ← VERIFY (ret =? 0); VERIFY (Z.of_nat (length rep) =? 70000));
   Check (CFast 77) (fun ret rep => VERIFY ((ret =? 0) && (rep =? 78)));
   Check (C22 (replicate 1000 "x"%char) (lit "x")) (fun _ rep => VERIFY (Z.of_nat (length rep) =? 1001));
   Check (C22 (replicate (Z.to_nat 1000000) "x"%char) (lit "z"))
     (fun _ rep => VERIFY (Z.of_nat (length rep) =? 1000001))].
(** A check that the expected answer passes. *)
Definition ck_ok (mem : Z) (c : check) : Prop :=
  tc_valid mem (ck_call c) /\ ck_test c 0 (tc_expect (ck_call c)) = Ret tt.

Lemma client1_big_ok mem r : 2000 <= mem -> ck_ok mem (client1_big (r `mod` 2000)).
Proof.
  intros Hm. pose proof (Z.mod_pos_bound r 2000). split; [cbn; lia|]. cbn. rewrite length_replicate.
  by rewrite Z2Nat.id, Z.eqb_refl by lia.
Qed.
Lemma client1_mixed_ok mem which r : ck_ok mem (client1_mixed which (r `mod` 1000)).
Proof.
  pose proof (Z.mod_pos_bound r 1000). destruct which; (split; [cbn; unfold is_i32; lia|]);
    cbn; by rewrite Z.eqb_refl.
Qed.
Lemma client1_loop1_ok mem n : 2000 <= mem -> forall rs, Forall (ck_ok mem) (client1_loop1 n rs).1.
Proof.
  intros Hm. induction n as [|n IH]; intros [|r rs]; try by constructor. cbn [client1_loop1].
  specialize (IH rs). destruct (client1_loop1 n rs) as [l rs']. constructor; [by apply client1_big_ok|done].
Qed.
Lemma client1_loop2_ok mem n : forall rs, Forall (ck_ok mem) (client1_loop2 n rs).
Proof.
  induction n as [|n IH]; intros [|w [|r rs]]; try by constructor. constructor; [apply client1_mixed_ok|apply IH].
Qed.
Lemma client1_ok mem rs : 2000 <= mem -> Forall (ck_ok mem) (client1 rs).
Proof.
  intros Hm. unfold client1. pose proof (client1_loop1_ok mem 100 Hm rs) as H1.
  destruct (client1_loop1 100 rs) as [l rs']. apply Forall_app. split; [done|apply client1_loop2_ok].
Qed.
Lemma client2_ok mem rs : 2000 <= mem -> Forall (ck_ok mem) (client2 rs).
Proof.
  intros Hm. apply Forall_fmap, Forall_true. intros r. pose proof (Z.mod_pos_bound r 2000).
  split; [cbn; lia|]. cbn. rewrite length_replicate. by rewrite Z2Nat.id, Z.eqb_refl by lia.
Qed.
Lemma client3_ok mem : Forall (ck_ok mem) client3.
Proof. repeat constructor; done. Qed.
Lemma concat_check_ok mem a b n :
  Z.of_nat (length a) + Z.of_nat (length b) = n ->
  ck_ok mem (Check (C22 a b) (fun _ rep => VERIFY (Z.of_nat (length rep) =? n))).
Proof. intros Hn. split; [done|]. cbn. rewrite length_app, Nat2Z.inj_add, Hn. by rewrite Z.eqb_refl. Qed.
Lemma simple_tests_ok mem : 70000 <= mem -> Forall (ck_ok mem) simple_tests.
Proof.
  intros Hm. constructor; [by split|]. constructor; [|constructor; [by split|]].
  { split; [cbn; lia|]. cbn [ck_test ck_call tc_expect]. rewrite length_replicate. by rewrite Z2Nat.id by lia. }
  constructor; [apply concat_check_ok; by rewrite length_replicate|]. constructor; [|done].
  apply concat_check_ok. rewrite length_replicate, Z2Nat.id by lia. done.
Qed.

(** ** The test *)

(** The server of the test and a client that has just been constructed. *)
Definition test_start (st : rpcs unit) (random lossy : Z) : rsys unit :=
  RSys (rpcc_new true random lossy) ∅ st [] [] [] [] [] [] [].
(** The checks that the threads of the program make. *)
Definition made_by_test (c : check) : Prop :=
  c ∈ simple_tests \/ (exists rs, c ∈ client1 rs \/ c ∈ client2 rs) \/ c ∈ client3.
Lemma test_checks_ok mem c : 70000 <= mem -> made_by_test c -> ck_ok mem c.
Proof.
  intros Hm. assert (forall l, Forall (ck_ok mem) l -> c ∈ l -> ck_ok mem c) as Hin
    by (intros l Hl; by apply Forall_forall).
  intros [Hc|[(rs & [Hc|Hc])|Hc]]; (eapply Hin; [|exact Hc]);
    [by apply simple_tests_ok|apply client1_ok; lia|apply client2_ok; lia|apply client3_ok].
Qed.

(** C31. The test of the RPC library passes over a bad network, in runs in which no
    call of the client times out.  Its server serves its clients while the network
    loses, repeats and reorders; a call of the tests that has returned was
    executed, and the check that the test makes of its result and reply passes, or
    it was refused unexecuted with [atmostonce_failure], which is no answer the
    test expects. *)
Theorem rpctest_passes mem random count st create_time crandom lossy s c e h :
  70000 <= mem < 2 ^ 31 - RPC_HEADER_SZ - 4 -> startserver mem random count = Ret st -> 0 < u32 crandom ->
  rtc (rpc_step create_time (u32 crandom) true) (test_start st crandom lossy) s ->
  made_by_test c -> e ∈ rs_ends s -> (h, tc_req (ck_call c)) ∈ rs_made s -> rq_xid h = n_xid e ->
  rq_proc h = tc_proc (ck_call c) ->
  (exists x, x ∈ rs_execs s /\ e_hdr x = h) /\
    (forall old, exists ret rep, call_m (tc_codec (ck_call c)) (n_ret e) (n_un e) old = Ret (ret, rep) /\
       ck_test c ret rep = Ret tt) \/
  (forall x, x ∈ rs_execs s -> e_hdr x <> h) /\
    forall old, call_m (tc_codec (ck_call c)) (n_ret e) (n_un e) old = Ret (rpc_const.atmostonce_failure, old).
Proof.
  intros Hmem Hst Hn Hs Hc He Hm Hx Hp. destruct (test_checks_ok mem c) as [Hv Hck]; [lia|done|].
  assert (0 <= mem < 2 ^ 31 - RPC_HEADER_SZ - 4) as Hmem' by lia.
  destruct (startserver_ok mem Hmem' _ _ _ Hst) as (Hops & Hok & Hnon & Hw).
  assert (rpc_init (u32 crandom) (fun _ => True) (test_start st crandom lossy)) as Hi.
  { apply rpc_starts; [done|done|rewrite Hnon; apply u32_range|done|rewrite Hw; done|done]. }
  set (o := ck_call c) in *.
  destruct (typed_call create_time (u32 crandom) (fun _ => True) (tc_codec o) (tc_handler mem o) (tc_bytes o)
    (tc_meth mem o (c_dflt (tc_codec o))) (tc_implements mem Hmem' o Hv)) with (s0 := test_start st crandom lossy)
    (s := s) (e := e) (h := h) (req := tc_req o) as [(x & b & r & Hxe & Eh & _ & Em & Ec)|Hno]; try done.
  - intros s' b r s'' _ E. rewrite (tc_result mem o) in E by done. injection E as _ <- _. by apply (tc_expect_valid mem).
  - apply tc_carries.
  - cbn. rewrite Hp. apply Hops.
  - left. rewrite (tc_result mem o) in Em by done. injection Em as <- <- _. split; [by exists x|].
    intros old. exists 0, (tc_expect o). split; [apply Ec|exact Hck].
  - by right.
Qed.

(** ** [failure_test] *)

(** The two checks of a client that was bound to a server that has been replaced,
    and of a client that binds again. *)
Definition recovered_check (ret : Z) : outcome unit := VERIFY (ret =? rpc_const.oldsrv_failure).
Definition bind_again_check (ret : Z) : outcome unit := VERIFY (ret <? 0).

(** A server with another nonce refuses every call of a client that was bound to
    its predecessor, before it looks at the procedure; the client's stub returns
    the error the test expects and leaves its value alone. *)
Lemma recovered_server_refuses {R} (cr : codec R) create_time c req h (st : rpcs unit) (old : R) :
  marshall_wf req -> m_ind req < 2 ^ 31 -> valid_req_header h ->
  rq_srv_nonce h <> 0 -> rq_srv_nonce h <> nonce_ st ->
  exists rep, dispatch_check create_time c (pdu (pack_req_header req h)) (m_ind req) st = Ret (inl [(c, rep)], st) /\
    (let '(rh, u) := unpack_reply_header (unmarshall_pdu rep RPC_HEADER_SZ) in
     rp_xid rh = rq_xid h /\ call_m cr (rp_ret rh) u old = Ret (rpc_const.oldsrv_failure, old) /\
     recovered_check (rp_ret rh) = Ret tt).
Proof.
  intros Hw Hsz Hh H0 Hne. unfold dispatch_check.
  pose proof (req_header_roundtrip req h Hw Hsz Hh) as Hr. cbn zeta in Hr.
  destruct (unpack_req_header _) as [h' u]. destruct Hr as (-> & -> & _). cbn [negb].
  rewrite (proj2 (Z.eqb_neq _ _) H0), (proj2 (Z.eqb_neq _ _) Hne). cbn [negb andb].
  eexists. split; [reflexivity|]. destruct Hh as (Hx & _).
  pose proof (reply_header_roundtrip marshall_new (ReplyHeader (rq_xid h) rpc_const.oldsrv_failure)
    marshall_new_wf ltac:(done) Hx ltac:(done)) as Hr. cbn zeta in Hr.
  change (m_ind marshall_new) with RPC_HEADER_SZ in Hr.
  destruct (unpack_reply_header _) as [rh u']. destruct Hr as (-> & _). by split_and!.
Qed.
Lemma bind_again_refused req un cl :
  bind_done_ cl = true ->
  exists ret, call1_begin rpc_const.bind req un cl = Ret (inl ret, cl) /\ bind_again_check ret = Ret tt.
Proof. intros Hb. unfold call1_begin. rewrite Hb. by eexists. Qed.
End rpctest.

(** ** A run: the test's first call, lost once *)

#[local] Existing Instance fresh_zero.
Definition test_srv : rpcs unit :=
  match startserver 100000 99 0 with Ret st => st | _ => Rpcs 0 ∅ ∅ ∅ ∅ 0 0 ∅ tt end.
Lemma test_srv_eq : startserver 100000 99 0 = Ret test_srv.
Proof.
  unfold test_srv. destruct (startserver _ _ _) eqn:E; [done|..]; exfalso;
    apply (f_equal (fun o => match o with Ret _ => true | _ => false end)) in E; vm_compute in E; done.
Qed.
Definition hello : check := hello_check (lit "hello") (lit " goodbye").
Definition hello_run : list act :=
  [A_bind; A_call 22 (tc_req (ck_call hello)); A_transmit 1; A_transmit 1; A_deliver 3 1; A_run 0; A_send 0;
   A_reply 0; A_end 1].
Abbreviation hello_final := (final (fun _ => (0, 0)) 42 true hello_run (test_start test_srv 42 0)).
Lemma hello_runs : is_Some (run_acts (fun _ => (0, 0)) 42 true hello_run (test_start test_srv 42 0)).
Proof. apply is_Some_alt. vm_compute. exact I. Qed.
Lemma hello_ok : Forall act_ok hello_run.
Proof.
  apply Forall_forall. intros a. unfold hello_run. rewrite !elem_of_cons, elem_of_nil.
  intros Ha. repeat destruct Ha as [->|Ha]; try exact Logic.I; [apply (tc_carries (ck_call hello))|done].
Qed.
Definition hello_ended : ended := List.hd (Ended 0 0 unmarshall_empty) (rs_ends hello_final).
Lemma rpctest_passes_witness :
  exists x, x ∈ rs_execs hello_final /\ e_hdr x = ReqHeader 1 22 42 99 0 /\
    forall old, exists ret rep, call_m c_string (n_ret hello_ended) (n_un hello_ended) old = Ret (ret, rep) /\
      rep = lit "hello goodbye".
Proof.
  assert (rs_ends hello_final !! 0%nat = Some hello_ended) as He by (vm_compute; reflexivity).
  assert (rs_made hello_final !! 0%nat = Some (ReqHeader 1 22 42 99 0, tc_req (ck_call hello))) as Hm
    by (vm_compute; reflexivity).
  destruct (rpctest_passes 100000 99 0 test_srv (fun _ => (0, 0)) 42 0 hello_final hello hello_ended
    (ReqHeader 1 22 42 99 0)) as [[(x & Hx & Eh) Hc]|[Hno _]].
  - unfold RPC_HEADER_SZ. lia.
  - exact test_srv_eq.
  - reflexivity.
  - apply final_reached; [exact hello_ok|exact hello_runs].
  - left. by left.
  - by eapply list_elem_of_lookup_2.
  - by eapply list_elem_of_lookup_2.
  - vm_compute. reflexivity.
  - reflexivity.
  - exists x. split; [exact Hx|]. split; [exact Eh|]. intros old. destruct (Hc old) as (ret & rep & Ec & Et).
    exists ret, rep. split; [exact Ec|]. cbn in Et. apply bind_Ret_inv in Et as (_ & _ & Et).
    unfold VERIFY in Et. case_bool_decide; [done|discriminate].
  - exfalso. assert (exists x, rs_execs hello_final !! 0%nat = Some x /\ e_hdr x = ReqHeader 1 22 42 99 0)
      as (x & Hx & Eh) by (eexists; split; vm_compute; reflexivity).
    apply (Hno x); [by eapply list_elem_of_lookup_2|exact Eh].
Defined.
