(* ===== verification/PollMgr.v ===== *)
(** * The poll manager: [pollmgr.cc]

    One thread waits for descriptors to become ready and calls the callback of
    each.  What is watched is kept by an [aio_mgr], an interface with two
    implementations, [SelectAIO] and [EPollAIO]; the class [AioMgr] is that
    interface, and the theorems on removal are proved against its laws: those of
    [AioMgrOk], which both implementations keep, and those of [AioMgrWakes],
    which [SelectAIO] keeps with its pipe.  What [select] and [epoll_wait]
    return is an input. *)
From S2P Require Import Prelude.

Inductive poll_flag := CB_RDONLY | CB_WRONLY | CB_RDWR.
Definition reads (f : poll_flag) : bool := match f with CB_WRONLY => false | _ => true end.
Definition writes (f : poll_flag) : bool := match f with CB_RDONLY => false | _ => true end.
Definition flag_bits (f : poll_flag) : Z :=
  match f with CB_RDONLY => 0x1 | CB_WRONLY => 0x10 | CB_RDWR => 0x11 end.
Definition MAX_POLL_FDS : Z := 128.

(** [aio_mgr]; [unwatch_fd] says whether nothing of the descriptor is watched
    any more.  [wait_ready] leaves the mutex while it waits: it is given the
    state it looked at, the answer of the kernel and the state it then finds, and
    gives the readable and the writable descriptors. *)
Class AioMgr (A K : Type) := {
  watch_fd : Z -> poll_flag -> A -> outcome A;
  unwatch_fd : Z -> poll_flag -> A -> outcome (bool * A);
  is_watched : Z -> poll_flag -> A -> bool;
  wait_ready : A -> K -> A -> outcome (list Z * list Z * A);
}.
(** What is watched, the answers the kernel can give, and what an implementation
    promises about them in the states of its invariant.  It may have descriptors
    of its own that nobody else unwatches. *)
Class AioMgrOk (A K : Type) `{AioMgr A K} := {
  aio_inv : A -> Prop;
  reserved : A -> Z -> bool;
  watched : A -> Z -> bool * bool;
  possible : A -> K -> A -> Prop;
  watch_ok a fd f a' : aio_inv a -> 0 <= fd -> watch_fd fd f a = Ret a' ->
    aio_inv a' /\ (forall i, i <> fd -> watched a' i = watched a i) /\
    watched a' fd = ((watched a fd).1 || reads f, (watched a fd).2 || writes f);
  unwatch_ok a fd f b a' :
    aio_inv a -> reserved a fd = false -> unwatch_fd fd f a = Ret (b, a') ->
    aio_inv a' /\ (forall i, i <> fd -> watched a' i = watched a i) /\
    watched a' fd = ((watched a fd).1 && negb (reads f), (watched a fd).2 && negb (writes f)) /\
    b = bool_decide (watched a' fd = (false, false));
  ready_ok snap k a r w a' : aio_inv a -> possible snap k a -> wait_ready snap k a = Ret (r, w, a') ->
    aio_inv a' /\ (forall i, watched a' i = watched a i) /\
    forall i, i ∈ r ++ w -> watched snap i <> (false, false) \/ watched a i <> (false, false);
}.
(** A removal ends a [wait_ready] that looked at an earlier state. *)
Class AioMgrWakes (A K : Type) `{AioMgrOk A K} := {
  signalled : A -> A -> Prop;
  signal_unwatch snap a fd b a' :
    aio_inv snap -> aio_inv a -> unwatch_fd fd CB_RDWR a = Ret (b, a') -> signalled snap a';
  signal_watched snap a fd f a' :
    signalled snap a -> watch_fd fd f a = Ret a' -> signalled snap a';
  signal_unwatched snap a fd f b a' :
    signalled snap a -> unwatch_fd fd f a = Ret (b, a') -> signalled snap a';
  signal_returns snap a : signalled snap a ->
    exists k r w a', possible snap k a /\ wait_ready snap k a = Ret (r, w, a');
}.

(** ** [SelectAIO] *)

(** With the number of bytes in the pipe [pipefd_], which is taken not to fill
    up. *)
Record select_aio := SelectAIO {
  rfds_ : gset Z; wfds_ : gset Z; highfds_ : Z; pipefd0 : Z; pipe_ : Z }.
Definition select_new (pipe0 : Z) : select_aio := SelectAIO {[ pipe0 ]} ∅ pipe0 pipe0 0.

Definition select_watch (fd : Z) (f : poll_flag) (a : select_aio) : outcome select_aio :=
  let high := if highfds_ a <=? fd then fd else highfds_ a in
  let pipe := pipe_ a + 1 in
  Ret match f with
      | CB_RDONLY => SelectAIO ({[ fd ]} ∪ rfds_ a) (wfds_ a) high (pipefd0 a) pipe
      | CB_WRONLY => SelectAIO (rfds_ a) ({[ fd ]} ∪ wfds_ a) high (pipefd0 a) pipe
      | CB_RDWR => SelectAIO ({[ fd ]} ∪ rfds_ a) ({[ fd ]} ∪ wfds_ a) high (pipefd0 a) pipe
      end.
Definition select_is_watched (fd : Z) (f : poll_flag) (a : select_aio) : bool :=
  match f with
  | CB_RDONLY => bool_decide (fd ∈ rfds_ a)
  | CB_WRONLY => bool_decide (fd ∈ wfds_ a)
  | CB_RDWR => bool_decide (fd ∈ rfds_ a) && bool_decide (fd ∈ wfds_ a)
  end.
(** The descriptors [0 .. high] of a loop. *)
Definition upto (high : Z) : list Z := Z.of_nat <$> seq 0 (Z.to_nat (high + 1)).
(** The search for the new highest descriptor. *)
Definition new_high (r w : gset Z) (pipe0 high : Z) : Z :=
  foldl (fun newh i =>
    if bool_decide (i ∈ r) then i else if bool_decide (i ∈ w) then i else newh) pipe0 (upto high).
Definition select_unwatch (fd : Z) (f : poll_flag) (a : select_aio) : outcome (bool * select_aio) :=
  let r := if reads f then rfds_ a ∖ {[ fd ]} else rfds_ a in
  let w := if writes f then wfds_ a ∖ {[ fd ]} else wfds_ a in
  let none := negb (bool_decide (fd ∈ r)) && negb (bool_decide (fd ∈ w)) in
  let high := if none && (fd =? highfds_ a) then new_high r w (pipefd0 a) (highfds_ a)
              else highfds_ a in
  let pipe := match f with CB_RDWR => pipe_ a + 1 | _ => pipe_ a end in
  Ret (none, SelectAIO r w high (pipefd0 a) pipe).
(** The loop of [wait_ready], with the snapshot it made and the sets [select]
    returned: the readable and the writable descriptors. *)
Definition select_ready (a : select_aio) (kr kw : gset Z) : list Z * list Z :=
  let fds := filter (fun fd => ~ (fd = pipefd0 a /\ fd ∈ kr)) (upto (highfds_ a)) in
  (filter (fun fd => fd ∈ kr) fds, filter (fun fd => fd ∈ kw) fds).

(** The loop comes to the pipe and takes a byte out of it. *)
Definition drains (snap : select_aio) (kr : gset Z) : bool :=
  bool_decide (pipefd0 snap ∈ upto (highfds_ snap)) && bool_decide (pipefd0 snap ∈ kr).
(** [select] gives the sets of ready descriptors, is interrupted, or fails. *)
Inductive select_answer := SelReady (kr kw : gset Z) | SelEintr | SelFails.
Definition select_wait (snap : select_aio) (k : select_answer) (a : select_aio)
    : outcome (list Z * list Z * select_aio) :=
  match k with
  | SelFails => VerifyFail
  | SelEintr => Ret ([], [], a)
  | SelReady kr kw =>
      _ ← VERIFY (negb (drains snap kr) || (0 <? pipe_ a));
      let pipe := if drains snap kr then pipe_ a - 1 else pipe_ a in
      Ret (select_ready snap kr kw, SelectAIO (rfds_ a) (wfds_ a) (highfds_ a) (pipefd0 a) pipe)
  end.

#[global] Instance select_mgr : AioMgr select_aio select_answer := {|
  watch_fd := select_watch; unwatch_fd := select_unwatch; is_watched := select_is_watched;
  wait_ready := select_wait |}.

(** ** [EPollAIO] *)

(** [fdstatus_], with the kernel's table: a descriptor is registered with the
    epoll instance when its status is not 0, so that [EPOLL_CTL_DEL] of one
    that has none fails. *)
Record epoll_aio := EPollAIO { fdstatus_ : gmap Z Z }.
Definition epoll_new : epoll_aio := EPollAIO ∅.
Definition status (a : epoll_aio) (fd : Z) : Z := std_ref 0 (fdstatus_ a) fd.
Definition epoll_watch (fd : Z) (f : poll_flag) (a : epoll_aio) : outcome epoll_aio :=
  _ ← VERIFY (fd <? MAX_POLL_FDS);
  Ret (EPollAIO (<[fd := Z.lor (status a fd) (flag_bits f)]> (fdstatus_ a))).
Definition epoll_unwatch (fd : Z) (f : poll_flag) (a : epoll_aio) : outcome (bool * epoll_aio) :=
  _ ← VERIFY (fd <? MAX_POLL_FDS);
  let s := Z.land (status a fd) (Z.lnot (flag_bits f)) in
  let del := s =? 0 in
  _ ← (match f with CB_RDWR => VERIFY del | _ => Ret tt end);
  _ ← VERIFY (negb (status a fd =? 0));
  Ret (del, EPollAIO (<[fd := s]> (fdstatus_ a))).
(** [CB_MASK] is [~0x11]. *)
Definition CB_MASK : Z := Z.lnot 0x11.
Definition epoll_is_watched (fd : Z) (f : poll_flag) (a : epoll_aio) : bool :=
  Z.land (status a fd) CB_MASK =? flag_bits f.
(** An event: the descriptor, [EPOLLIN] and [EPOLLOUT]; after an error of
    [epoll_wait] there are none. *)
Definition epoll_ready (snap : epoll_aio) (k : list (Z * bool * bool)) (a : epoll_aio)
    : outcome (list Z * list Z * epoll_aio) :=
  Ret ((filter (fun e => e.1.2 = true) k).*1.*1, (filter (fun e => e.2 = true) k).*1.*1, a).
#[global] Instance epoll_mgr : AioMgr epoll_aio (list (Z * bool * bool)) := {|
  watch_fd := epoll_watch; unwatch_fd := epoll_unwatch; is_watched := epoll_is_watched;
  wait_ready := epoll_ready |}.

(** ** [PollMgr] *)

Section pollmgr.
Context `{AioMgr A K}.

(** [callbacks_] holds the identity of the object to call. *)
Record pollmgr := PollMgr { aio_ : A; callbacks_ : gmap Z Z; pending_change_ : bool }.

Definition add_callback (fd : Z) (f : poll_flag) (ch : Z) (p : pollmgr) : outcome pollmgr :=
  _ ← VERIFY (fd <? MAX_POLL_FDS);
  a ← watch_fd fd f (aio_ p);
  _ ← VERIFY match callbacks_ p !! fd with None => true | Some c => c =? ch end;
  Ret (PollMgr a (<[fd := ch]> (callbacks_ p)) (pending_change_ p)).
(** [block_remove_fd] up to its wait, and after it. *)
Definition block_remove_begin (fd : Z) (p : pollmgr) : outcome pollmgr :=
  '(_, a) ← unwatch_fd fd CB_RDWR (aio_ p);
  Ret (PollMgr a (callbacks_ p) true).
Definition block_remove_end (fd : Z) (p : pollmgr) : pollmgr :=
  PollMgr (aio_ p) (delete fd (callbacks_ p)) (pending_change_ p).
Definition del_callback (fd : Z) (f : poll_flag) (p : pollmgr) : outcome pollmgr :=
  '(none, a) ← unwatch_fd fd f (aio_ p);
  Ret (PollMgr a (if none : bool then delete fd (callbacks_ p) else callbacks_ p) (pending_change_ p)).
Definition has_callback (fd : Z) (f : poll_flag) (c : Z) (p : pollmgr) : bool :=
  match callbacks_ p !! fd with
  | Some c' => (c' =? c) && is_watched fd f (aio_ p)
  | None => false
  end.
(** The head of [wait_loop]: whether the threads that wait in
    [block_remove_fd] are woken. *)
Definition loop_head (p : pollmgr) : bool * pollmgr :=
  (pending_change_ p, PollMgr (aio_ p) (callbacks_ p) false).
(** One entry of the ready lists: the callback that is called. *)
Definition dispatch (fd : Z) (p : pollmgr) : option Z := callbacks_ p !! fd.
End pollmgr.
Arguments pollmgr : clear implicits.

(** ** The implementations keep the promise *)

Lemma elem_of_upto high i : i ∈ upto high <-> 0 <= i <= high.
Proof.
  unfold upto. rewrite list_elem_of_fmap. split.
  - intros (n & -> & Hn). apply elem_of_seq in Hn. lia.
  - intros Hi. exists (Z.to_nat i). split; [lia|]. apply elem_of_seq. lia.
Qed.
(** The search finds a bound of the descriptors that are set. *)
Lemma new_high_ge r w pipe0 high i :
  i ∈ r \/ i ∈ w -> 0 <= i <= high -> i <= new_high r w pipe0 high.
Proof.
  intros Hi Hr. unfold new_high, upto.
  assert (forall n newh, (0 <= i < Z.of_nat n) -> i <= foldl (fun newh i =>
    if bool_decide (i ∈ r) then i else if bool_decide (i ∈ w) then i else newh) newh
    (Z.of_nat <$> seq 0 n)) as Hn; [|apply Hn; lia].
  induction n as [|n IH]; intros newh Hlt; [lia|].
  rewrite seq_S, fmap_app, foldl_app. cbn [foldl fmap list_fmap plus].
  destruct (decide (i = Z.of_nat n)) as [->|].
  - repeat case_bool_decide; try lia. tauto.
  - specialize (IH newh ltac:(lia)). repeat case_bool_decide; lia.
Qed.

Definition select_inv (a : select_aio) : Prop :=
  forall fd, fd ∈ rfds_ a \/ fd ∈ wfds_ a -> 0 <= fd <= highfds_ a.
(** The invariant as a user of [SelectAIO] keeps it: the pipe is watched. *)
Definition select_good (a : select_aio) : Prop :=
  select_inv a /\ pipefd0 a ∈ rfds_ a /\ 0 <= pipe_ a.
Definition select_watched (a : select_aio) (fd : Z) : bool * bool :=
  (bool_decide (fd ∈ rfds_ a), bool_decide (fd ∈ wfds_ a)).

Lemma select_watch_ok a fd f a' :
  select_inv a -> 0 <= fd -> select_watch fd f a = Ret a' ->
  select_inv a' /\ (forall i, i <> fd -> select_watched a' i = select_watched a i) /\
  select_watched a' fd =
    ((select_watched a fd).1 || reads f, (select_watched a fd).2 || writes f).
Proof.
  intros Hi Hfd [= <-]. unfold select_inv, select_watched in *. split_and!.
  - intros i Hin. assert (i = fd \/ 0 <= i <= highfds_ a) as Hc.
    { destruct f; cbn in Hin; rewrite ?elem_of_union, ?elem_of_singleton in Hin;
        destruct (decide (i = fd)); auto; right; apply Hi; tauto. }
    destruct (Z.leb_spec (highfds_ a) fd), f; cbn; lia.
  - intros i Hne. destruct f; cbn; f_equal; apply bool_decide_ext; set_solver.
  - destruct f; cbn; rewrite ?orb_false_r, ?orb_true_r; f_equal; apply bool_decide_eq_true_2; set_solver.
Qed.
Lemma select_unwatch_ok a fd f b a' :
  select_inv a -> select_unwatch fd f a = Ret (b, a') ->
  select_inv a' /\ (forall i, i <> fd -> select_watched a' i = select_watched a i) /\
  select_watched a' fd =
    ((select_watched a fd).1 && negb (reads f), (select_watched a fd).2 && negb (writes f)) /\
  b = bool_decide (select_watched a' fd = (false, false)).
Proof.
  intros Hi [= <- <-]. unfold select_inv, select_watched in *. cbn [rfds_ wfds_ highfds_].
  set (r := if reads f then _ else _). set (w := if writes f then _ else _).
  assert (forall i, i ∈ r \/ i ∈ w -> i ∈ rfds_ a \/ i ∈ wfds_ a) as Hsub.
  { intros i. unfold r, w. destruct f; cbn; set_solver. }
  split_and!.
  - intros i Hin. pose proof (Hi i (Hsub i Hin)) as Hb. destruct (_ && (fd =? highfds_ a)); [|done].
    split; [lia|]. by apply new_high_ge.
  - intros i Hne. unfold r, w. destruct f; cbn; f_equal; apply bool_decide_ext; set_solver.
  - unfold r, w. destruct f; cbn; rewrite ?andb_false_r, ?andb_true_r; f_equal;
      apply bool_decide_eq_false_2; set_solver.
  - case_bool_decide as H1; case_bool_decide as H2; case_bool_decide as H3; simplify_eq; done.
Qed.
(** [select] reports what it was asked about, and the pipe only when there is a
    byte in it. *)
Definition select_possible (snap : select_aio) (k : select_answer) (a : select_aio) : Prop :=
  match k with
  | SelReady kr kw => kr ⊆ rfds_ snap /\ kw ⊆ wfds_ snap /\ (pipefd0 snap ∈ kr -> 0 < pipe_ a)
  | SelEintr => True
  | SelFails => False
  end.
Lemma select_watch_good a fd f a' :
  select_good a -> 0 <= fd -> select_watch fd f a = Ret a' ->
  select_good a' /\ (forall i, i <> fd -> select_watched a' i = select_watched a i) /\
  select_watched a' fd =
    ((select_watched a fd).1 || reads f, (select_watched a fd).2 || writes f).
Proof.
  intros (Hi & Hp & Hn) Hfd E. destruct (select_watch_ok a fd f a' Hi Hfd E) as (Hi' & Ho & Hw).
  split; [|done]. split; [done|]. injection E as <-. destruct f; cbn; split; lia || set_solver.
Qed.
Lemma select_unwatch_good a fd f b a' :
  select_good a -> (fd =? pipefd0 a) = false -> select_unwatch fd f a = Ret (b, a') ->
  select_good a' /\ (forall i, i <> fd -> select_watched a' i = select_watched a i) /\
  select_watched a' fd =
    ((select_watched a fd).1 && negb (reads f), (select_watched a fd).2 && negb (writes f)) /\
  b = bool_decide (select_watched a' fd = (false, false)).
Proof.
  intros (Hi & Hp & Hn) Hfd%Z.eqb_neq E.
  destruct (select_unwatch_ok a fd f b a' Hi E) as (Hi' & Ho & Hw).
  split; [|done]. split; [done|]. injection E as _ <-. cbn. split; destruct f; cbn; lia || set_solver.
Qed.
Lemma select_ready_ok snap k a r w a' :
  select_good a -> select_possible snap k a -> select_wait snap k a = Ret (r, w, a') ->
  select_good a' /\ (forall i, select_watched a' i = select_watched a i) /\
  forall i, i ∈ r ++ w ->
    select_watched snap i <> (false, false) \/ select_watched a i <> (false, false).
Proof.
  intros (Hi & Hp & Hn) Hk E. destruct k as [kr kw| |]; cbn in E; [| |done].
  2:{ simplify_eq. split_and!; try done. by intros i ?%not_elem_of_nil. }
  destruct Hk as (Hr & Hw & _). inv_bind. simplify_eq. split_and!; try done.
  - cbn. destruct (drains snap kr); [|done]. cbn in E0. apply Z.ltb_lt in E0. by split_and!; [| |cbn; lia].
  - intros i. rewrite elem_of_app, !list_elem_of_filter. intros Hin. left. unfold select_watched.
    destruct Hin as [[Hin _]|[Hin _]]; intros [= H1%bool_decide_eq_false H2%bool_decide_eq_false];
      set_solver.
Qed.
#[global] Instance select_mgr_ok : AioMgrOk select_aio select_answer := {|
  aio_inv := select_good; reserved a fd := fd =? pipefd0 a; watched := select_watched;
  possible := select_possible; watch_ok := select_watch_good;
  unwatch_ok := select_unwatch_good; ready_ok := select_ready_ok |}.

(** The pipe is readable and among what [select] was asked about, so that
    [select] does not block. *)
Definition pipe_readable (snap a : select_aio) : Prop :=
  pipefd0 snap ∈ rfds_ snap /\ 0 <= pipefd0 snap <= highfds_ snap /\ 0 < pipe_ a.
#[global] Instance select_mgr_wakes : AioMgrWakes select_aio select_answer.
Proof.
  refine {| signalled := pipe_readable |}.
  - intros snap a fd b a' (Hi & Hp & _) (_ & _ & Hn) [= _ <-]. split; [done|].
    split; [apply Hi; by left|cbn; lia].
  - intros snap a fd f a' (Hp & Hh & Hn) [= <-]. split_and!; try done; try lia. destruct f; cbn; lia.
  - intros snap a fd f b a' (Hp & Hh & Hn) [= _ <-]. split_and!; try done; try lia. destruct f; cbn; lia.
  - intros snap a (Hp & Hh & Hn). exists (SelReady {[ pipefd0 snap ]} ∅).
    assert (drains snap {[ pipefd0 snap ]} = true) as Hd.
    { unfold drains. rewrite !bool_decide_eq_true_2; [done|set_solver|by apply elem_of_upto]. }
    eexists _, _, _. split; [cbn; set_solver|]. cbn. rewrite Hd.
    apply Z.ltb_lt in Hn. by rewrite Hn.
Defined.

Definition epoll_inv (a : epoll_aio) : Prop := forall fd, status a fd ∈ [0; 0x1; 0x10; 0x11].
Definition epoll_watched (a : epoll_aio) (fd : Z) : bool * bool :=
  (Z.testbit (status a fd) 0, Z.testbit (status a fd) 4).

Lemma status_insert a fd s i :
  status (EPollAIO (<[fd := s]> (fdstatus_ a))) i = if decide (i = fd) then s else status a i.
Proof.
  unfold status. cbn. case_decide as E; [subst; apply std_ref_insert_eq|].
  apply std_ref_insert_ne. congruence.
Qed.
(** The new status of one descriptor, for each of the four old ones. *)
Lemma epoll_update a fd s :
  epoll_inv a -> s ∈ [0; 0x1; 0x10; 0x11] ->
  epoll_inv (EPollAIO (<[fd := s]> (fdstatus_ a))) /\
  (forall i, i <> fd ->
     epoll_watched (EPollAIO (<[fd := s]> (fdstatus_ a))) i = epoll_watched a i) /\
  epoll_watched (EPollAIO (<[fd := s]> (fdstatus_ a))) fd = (Z.testbit s 0, Z.testbit s 4).
Proof.
  intros Hi Hs. unfold epoll_inv, epoll_watched. split_and!.
  - intros i. rewrite status_insert. by case_decide.
  - intros i Hne. by rewrite status_insert, decide_False.
  - by rewrite status_insert, decide_True.
Qed.
Ltac four_statuses H :=
  rewrite !elem_of_cons in H; decompose [or] H; clear H;
  try (match goal with H : _ ∈ [] |- _ => by apply not_elem_of_nil in H end);
  match goal with E : status _ _ = _ |- _ => rewrite E end.
Lemma epoll_watch_ok a fd f a' :
  epoll_inv a -> 0 <= fd -> epoll_watch fd f a = Ret a' ->
  epoll_inv a' /\ (forall i, i <> fd -> epoll_watched a' i = epoll_watched a i) /\
  epoll_watched a' fd = ((epoll_watched a fd).1 || reads f, (epoll_watched a fd).2 || writes f).
Proof.
  intros Hi _ E. unfold epoll_watch in E. inv_bind. subst a'.
  pose proof (Hi fd) as Hs. destruct (epoll_update a fd (Z.lor (status a fd) (flag_bits f)) Hi)
    as (H1 & H2 & H3).
  - four_statuses Hs; destruct f; set_solver.
  - split; [done|]. split; [done|]. rewrite H3. unfold epoll_watched. cbn [fst snd].
    rewrite !Z.lor_spec. by destruct f.
Qed.
Lemma epoll_unwatch_ok a fd f b a' :
  epoll_inv a -> epoll_unwatch fd f a = Ret (b, a') ->
  epoll_inv a' /\ (forall i, i <> fd -> epoll_watched a' i = epoll_watched a i) /\
  epoll_watched a' fd =
    ((epoll_watched a fd).1 && negb (reads f), (epoll_watched a fd).2 && negb (writes f)) /\
  b = bool_decide (epoll_watched a' fd = (false, false)).
Proof.
  intros Hi E. unfold epoll_unwatch in E. inv_bind. simplify_eq.
  pose proof (Hi fd) as Hs.
  assert (Z.land (status a fd) (Z.lnot (flag_bits f)) ∈ [0; 0x1; 0x10; 0x11]) as Hs'.
  { clear -Hs. four_statuses Hs; destruct f; set_solver. }
  destruct (epoll_update a fd _ Hi Hs') as (H1 & H2 & H3).
  split; [done|]. split; [done|]. rewrite H3. split.
  - unfold epoll_watched. cbn [fst snd]. rewrite !Z.land_spec, !Z.lnot_spec by lia. by destruct f.
  - clear -Hs. four_statuses Hs; destruct f; reflexivity.
Qed.
Lemma epoll_unwatch_any a fd f b a' :
  epoll_inv a -> false = false -> epoll_unwatch fd f a = Ret (b, a') ->
  epoll_inv a' /\ (forall i, i <> fd -> epoll_watched a' i = epoll_watched a i) /\
  epoll_watched a' fd =
    ((epoll_watched a fd).1 && negb (reads f), (epoll_watched a fd).2 && negb (writes f)) /\
  b = bool_decide (epoll_watched a' fd = (false, false)).
Proof. intros Hi _. by apply epoll_unwatch_ok. Qed.
(** [epoll_wait] reports descriptors that are registered when it does. *)
Definition epoll_possible (snap : epoll_aio) (k : list (Z * bool * bool)) (a : epoll_aio) : Prop :=
  Forall (fun e => epoll_watched a e.1.1 <> (false, false)) k.
Lemma epoll_ready_ok snap k a r w a' :
  epoll_inv a -> epoll_possible snap k a -> epoll_ready snap k a = Ret (r, w, a') ->
  epoll_inv a' /\ (forall i, epoll_watched a' i = epoll_watched a i) /\
  forall i, i ∈ r ++ w ->
    epoll_watched snap i <> (false, false) \/ epoll_watched a i <> (false, false).
Proof.
  intros Hi Hk [= <- <- <-]. split_and!; try done. intros i Hin. right.
  unfold epoll_possible in Hk. rewrite Forall_forall in Hk.
  rewrite elem_of_app, !list_elem_of_fmap in Hin.
  destruct Hin as [(p & -> & Hp)|(p & -> & Hp)]; apply list_elem_of_fmap in Hp as (e & -> & He);
    apply list_elem_of_filter in He as [_ He]; by apply Hk.
Qed.
#[global] Instance epoll_mgr_ok : AioMgrOk epoll_aio (list (Z * bool * bool)) := {|
  aio_inv := epoll_inv; reserved _ _ := false; watched := epoll_watched;
  possible := epoll_possible; watch_ok := epoll_watch_ok;
  unwatch_ok := epoll_unwatch_any; ready_ok := epoll_ready_ok |}.

(** [EPollAIO::is_watched] masks with the complement of what it means: nothing
    is ever watched. *)
Lemma epoll_is_watched_never a fd f : epoll_inv a -> epoll_is_watched fd f a = false.
Proof.
  intros Hi. pose proof (Hi fd) as Hs. unfold epoll_is_watched.
  four_statuses Hs; by destruct f.
Qed.

(** ** The thread and the threads that remove descriptors *)

Section system.
Context `{AioMgrOk A K}.

(** The poll thread is at the head of its loop, enters [wait_ready], waits in it
    with what it looked at, or calls the callbacks of the descriptors that are
    left. *)
Inductive poll_pc := PTop | PAsk | PWait (snap : A) | PCalls (l : list Z).
(** The threads in [block_remove_fd], by their descriptors: those that wait, those
    that have been woken, and those that have returned since the descriptor was
    last added. *)
Record psys := Psys {
  ps_mgr : pollmgr A; ps_pc : poll_pc; ps_waiting : gset Z; ps_woken : gset Z; ps_gone : gset Z }.
Definition psys_new (a : A) : psys := Psys (PollMgr a ∅ false) PTop ∅ ∅ ∅.
Definition set_aio (p : pollmgr A) (a : A) : pollmgr A :=
  PollMgr a (callbacks_ p) (pending_change_ p).

(** A turn of [wait_loop]. *)
Inductive thread_step : psys -> psys -> Prop :=
  | ps_head p w k g :
      thread_step (Psys p PTop w k g)
        (Psys (loop_head p).2 PAsk (if (loop_head p).1 then ∅ else w)
           (if (loop_head p).1 then w ∪ k else k) g)
  | ps_look p w k g : thread_step (Psys p PAsk w k g) (Psys p (PWait (aio_ p)) w k g)
  | ps_ready snap ans readable writable a p w k g :
      possible snap ans (aio_ p) ->
      wait_ready snap ans (aio_ p) = Ret (readable, writable, a) ->
      thread_step (Psys p (PWait snap) w k g) (Psys (set_aio p a) (PCalls (readable ++ writable)) w k g)
  | ps_call fd l p w k g : thread_step (Psys p (PCalls (fd :: l)) w k g) (Psys p (PCalls l) w k g)
  | ps_loop p w k g : thread_step (Psys p (PCalls []) w k g) (Psys p PTop w k g).
(** The other threads.  A descriptor is not added while it is being removed; it is
    closed, and its number reused, when [block_remove_fd] has returned.  With
    [spurious] a [pthread_cond_wait] may return although nobody has signalled. *)
Variable spurious : bool.
Inductive user_step : psys -> psys -> Prop :=
  | ps_add fd f ch p pc w k g p' :
      0 <= fd -> fd ∉ w ∪ k -> add_callback fd f ch p = Ret p' ->
      user_step (Psys p pc w k g) (Psys p' pc w k (g ∖ {[ fd ]}))
  | ps_del fd f p pc w k g p' :
      reserved (aio_ p) fd = false -> del_callback fd f p = Ret p' ->
      user_step (Psys p pc w k g) (Psys p' pc w k g)
  | ps_remove fd p pc w k g p' :
      reserved (aio_ p) fd = false -> block_remove_begin fd p = Ret p' ->
      user_step (Psys p pc w k g) (Psys p' pc ({[ fd ]} ∪ w) k g)
  | ps_spurious fd p pc w k g :
      spurious = true -> fd ∈ w -> user_step (Psys p pc w k g) (Psys p pc (w ∖ {[ fd ]}) ({[ fd ]} ∪ k) g)
  | ps_end fd p pc w k g :
      fd ∈ k -> user_step (Psys p pc w k g) (Psys (block_remove_end fd p) pc w (k ∖ {[ fd ]}) ({[ fd ]} ∪ g)).
Definition poll_step (s s' : psys) : Prop := thread_step s s' \/ user_step s s'.

(** The descriptors whose removal is over for the thread that asked for it. *)
Definition over (s : psys) : gset Z := ps_woken s ∪ ps_gone s.
Definition poll_inv (s : psys) : Prop :=
  aio_inv (aio_ (ps_mgr s)) /\
  (forall fd, fd ∈ ps_waiting s ∪ over s -> watched (aio_ (ps_mgr s)) fd = (false, false)) /\
  (ps_waiting s <> ∅ -> pending_change_ (ps_mgr s) = true) /\
  match ps_pc s with
  | PTop | PAsk => True
  | PWait snap => aio_inv snap /\ (spurious = false -> forall fd, fd ∈ over s -> watched snap fd = (false, false))
  | PCalls l => spurious = false -> forall fd, fd ∈ over s -> fd ∉ l
  end.
Lemma unwatched_stays (a : A) fd f b a' i :
  aio_inv a -> reserved a fd = false -> unwatch_fd fd f a = Ret (b, a') ->
  watched a i = (false, false) -> watched a' i = (false, false).
Proof.
  intros Hi Hr E Hw. destruct (unwatch_ok a fd f b a' Hi Hr E) as (_ & Ho & Hf & _).
  destruct (decide (i = fd)) as [->|]; [by rewrite Hf, Hw|by rewrite Ho].
Qed.
Lemma user_step_inv s s' : user_step s s' -> poll_inv s -> poll_inv s'.
Proof.
  intros Hs (Hi & Hw & Hp & Hpc). destruct Hs as [fd f ch p pc w k g p' Hfd Hn E
    |fd f p pc w k g p' Hf E|fd p pc w k g p' Hf E|fd p pc w k g Hsp Hk|fd p pc w k g Hk];
    unfold poll_inv, over in *; cbn [ps_mgr ps_pc ps_waiting ps_woken ps_gone] in *.
  - unfold add_callback in E. inv_bind. subst p'.
    destruct (watch_ok _ _ _ _ Hi Hfd E1) as (Hi' & Ho & _). split_and!; try done.
    + intros i Hin. cbn. rewrite Ho; [apply Hw; set_solver|]. intros ->. set_solver.
    + destruct pc as [| |snap|l]; try done; [destruct Hpc as [? Hpc]; split; [done|]|]; intros Hsp i Hin;
        apply (Hpc Hsp); set_solver.
  - unfold del_callback in E. inv_bind. destruct a as [none a]. inv_bind. subst p'.
    split_and!; try done; cbn.
    + by eapply (unwatch_ok _ _ _ _ _ Hi Hf).
    + intros i Hin. eapply unwatched_stays; [exact Hi|exact Hf|exact E0|by apply Hw].
  - unfold block_remove_begin in E. inv_bind. destruct a as [none a]. inv_bind. subst p'.
    destruct (unwatch_ok _ _ _ _ _ Hi Hf E0) as (Hi' & _ & Hfd & _). split_and!; try done; cbn.
    intros i Hin. destruct (decide (i = fd)) as [->|].
    + rewrite Hfd. cbn. by rewrite !andb_false_r.
    + eapply unwatched_stays; [exact Hi|exact Hf|exact E0|]. apply Hw. set_solver.
  - split_and!; try done.
    + intros i Hin. apply Hw. set_solver.
    + intros Hne. apply Hp. set_solver.
    + rewrite Hsp in *. destruct pc; try done. by destruct Hpc.
  - split_and!; try done.
    + intros i Hin. apply Hw. set_solver.
    + destruct pc as [| |snap|l]; try done; [destruct Hpc as [? Hpc]; split; [done|]|]; intros Hsp i Hin;
        apply (Hpc Hsp); set_solver.
Qed.
Lemma thread_step_inv s s' : thread_step s s' -> poll_inv s -> poll_inv s'.
Proof.
  intros Hs (Hi & Hw & Hp & Hpc). destruct Hs
    as [p w k g|p w k g|snap ans r wr a p w k g Hans E|fd l p w k g|p w k g];
    unfold poll_inv, over in *; cbn [ps_mgr ps_pc ps_waiting ps_woken ps_gone] in *.
  - destruct (pending_change_ p) eqn:Ep; cbn; rewrite ?Ep; split_and!; try done; cbn.
    all: intros i Hin; apply Hw; set_solver.
  - split_and!; try done. intros _ i Hin. apply Hw. set_solver.
  - destruct (ready_ok _ _ _ _ _ _ Hi Hans E) as (Hi' & Ho & Hl). destruct Hpc as [_ Hpc].
    split_and!; try done; cbn.
    + intros i Hin. rewrite Ho. by apply Hw.
    + intros Hsp i Hin Hil. destruct (Hl i Hil) as [Hne|Hne]; apply Hne; [by apply Hpc|apply Hw; set_solver].
  - split_and!; try done. cbn. intros Hsp i Hin Hil. apply (Hpc Hsp i Hin). by right.
  - by split_and!.
Qed.
Lemma poll_reachable_inv a s :
  aio_inv a -> rtc poll_step (psys_new a) s -> poll_inv s.
Proof.
  intros Ha Hr. assert (poll_inv (psys_new a)) as Hi0.
  { unfold poll_inv, over. split_and!; try done; cbn; intros fd Hfd; set_solver. }
  induction Hr as [|s1 s2 s3 [Hs|Hs] _ IH]; [done| |]; apply IH.
  - by eapply thread_step_inv.
  - by eapply user_step_inv.
Qed.

(** ** A removal ends *)

(** While the poll thread waits, a change that is pending has been signalled. *)
Definition wake_inv `{!AioMgrWakes A K} (s : psys) : Prop :=
  forall snap, ps_pc s = PWait snap \/ ps_pc s = PAsk /\ aio_inv snap ->
    ps_waiting s <> ∅ -> signalled snap (aio_ (ps_mgr s)).
Lemma wake_step_inv `{!AioMgrWakes A K} s s' :
  poll_step s s' -> poll_inv s -> wake_inv s -> wake_inv s'.
Proof.
  intros Hs (Hi & _ & Hp & Hpc) Hk snap Esnap Hne. destruct Hs as [Hs|Hs].
  - destruct Hs as [p w k g|p w k g| | |]; cbn in *; destruct Esnap as [E|[E Hs]]; simplify_eq.
    + destruct (pending_change_ p); [done|]. by specialize (Hp Hne).
    + apply Hk; [by right|done].
  - destruct Hs as [fd f ch p pc w k g p' _ _ E|fd f p pc w k g p' _ E|fd p pc w k g p' _ E
      |fd p pc w k g _ _|fd p pc w k g _]; cbn [ps_mgr ps_pc ps_waiting ps_woken ps_gone] in *.
    + unfold add_callback in E. inv_bind. subst p'. cbn. eapply signal_watched; [|exact E1].
      by apply Hk.
    + unfold del_callback in E. inv_bind. destruct a as [none a]. inv_bind. subst p'. cbn.
      eapply signal_unwatched; [|exact E0]. by apply Hk.
    + unfold block_remove_begin in E. inv_bind. destruct a as [none a]. inv_bind. subst p'. cbn.
      eapply signal_unwatch; [|exact Hi|exact E0]. destruct Esnap as [-> | [_ Hsnap]]; [apply Hpc|exact Hsnap].
    + apply Hk; [done|]. set_solver.
    + by apply Hk.
Qed.
Lemma calls_end p l w k g : rtc thread_step (Psys p (PCalls l) w k g) (Psys p PTop w k g).
Proof.
  induction l as [|fd l IH]; [apply rtc_once, ps_loop|]. eapply rtc_l; [apply ps_call|done].
Qed.
Lemma head_wakes fd p w k g :
  fd ∈ w -> pending_change_ p = true ->
  exists s', rtc thread_step (Psys p PTop w k g) s' /\ fd ∈ ps_woken s'.
Proof.
  intros Hfd Hp. eexists. split; [apply rtc_once, ps_head|]. cbn. rewrite Hp. set_solver.
Qed.

Lemma wait_wakes `{!AioMgrWakes A K} fd p w k g snap :
  fd ∈ w -> pending_change_ p = true -> signalled snap (aio_ p) ->
  exists s', rtc thread_step (Psys p (PWait snap) w k g) s' /\ fd ∈ ps_woken s'.
Proof.
  intros Hfd Hp Hk. destruct (signal_returns snap (aio_ p) Hk) as (ans & r & wr & a' & Hans & E).
  destruct (head_wakes fd (set_aio p a') w k g Hfd Hp) as (s' & Hs' & Hw').
  exists s'. split; [|done]. eapply rtc_l; [by eapply ps_ready|]. etrans; [apply calls_end|done].
Qed.

(** C19. No removal is lost.  Over an [aio_mgr] whose removals end its waits, as
    those of [SelectAIO] do by the byte they write to its pipe: whenever a
    thread waits in [block_remove_fd], a poll thread that is in [wait_ready] has
    been signalled, and the steps of the poll thread alone lead to the waiting
    thread being woken. *)
Theorem removal_ends `{!AioMgrWakes A K} a s fd :
  aio_inv a -> rtc poll_step (psys_new a) s -> fd ∈ ps_waiting s ->
  (forall snap, ps_pc s = PWait snap -> signalled snap (aio_ (ps_mgr s))) /\
  exists s', rtc thread_step s s' /\ fd ∈ ps_woken s'.
Proof.
  intros Ha Hr Hfd. destruct (poll_reachable_inv a s Ha Hr) as (Hi & _ & Hp & _).
  assert (wake_inv s) as Hk.
  { clear Hfd Hp. apply (rtc_ind_r (fun s => poll_inv s /\ wake_inv s) (psys_new a)) in Hr as [_ ?];
      [done|split; [by apply (poll_reachable_inv a)|by intros snap _ []]|].
    intros s1 s2 _ Hs [Hi1 Hk]. split; [|by eapply wake_step_inv].
    destruct Hs; [by eapply thread_step_inv|by eapply user_step_inv]. }
  assert (ps_waiting s <> ∅) as Hne by set_solver. split; [intros snap E; apply Hk; [by left|done]|].
  specialize (Hp Hne). destruct s as [p pc w k g]; cbn in *. destruct pc as [| |snap|l].
  - by apply head_wakes.
  - destruct (wait_wakes fd p w k g (aio_ p) Hfd Hp) as (s' & Hs' & Hw'); [apply Hk; [by right|done]|].
    exists s'. split; [|done]. by eapply rtc_l; [apply ps_look|].
  - apply wait_wakes; [done|done|]. apply Hk; [by left|done].
  - destruct (head_wakes fd p w k g Hfd Hp) as (s' & Hs' & Hw'). exists s'. split; [|done].
    etrans; [apply calls_end|done].
Qed.
End system.

(** ** Properties *)

(** C18. [block_remove_fd] keeps what its comment says, over any [aio_mgr] that
    keeps its promise, in runs without spurious wake-ups: from the moment the
    thread in it is woken, and when it has returned, until the descriptor is added
    again, the poll thread never has a callback of the descriptor ahead of it,
    whatever it was doing when the removal began, and nothing of the descriptor is
    watched.  A thread that waits is not forgotten, even with spurious wake-ups:
    the change is pending until the head of the loop wakes it. *)
Theorem block_remove_quiet `{AioMgrOk A K} (a : A) (s : psys (A := A)) spurious :
  aio_inv a -> rtc (poll_step spurious) (psys_new a) s ->
  (spurious = false -> forall fd l, fd ∈ over s -> ps_pc s = PCalls l -> fd ∉ l) /\
  (forall fd, fd ∈ over s -> watched (aio_ (ps_mgr s)) fd = (false, false)) /\
  (ps_waiting s <> ∅ -> (loop_head (ps_mgr s)).1 = true).
Proof.
  intros Ha Hr. destruct (poll_reachable_inv spurious a s Ha Hr) as (_ & Hw & Hp & Hpc).
  split_and!; [|intros fd Hfd; apply Hw; set_solver|done].
  intros Hsp fd l Hfd E. rewrite E in Hpc. by apply Hpc.
Qed.

(** ** The properties at concrete inputs *)

Lemma select_new_inv pipe0 : 0 <= pipe0 -> select_inv (select_new pipe0).
Proof. intros Hp fd [Hfd|Hfd]; cbn in *; set_solver by lia. Qed.
Lemma select_new_good pipe0 : 0 <= pipe0 -> select_good (select_new pipe0).
Proof. intros Hp. split; [by apply select_new_inv|]. cbn. split; [set_solver|lia]. Qed.
(** A descriptor that is removed while its callback is about to be called, and
    one that is removed while the poll thread waits. *)
Lemma removing_reached :
  exists s : psys (A := select_aio), rtc (poll_step false) (psys_new (select_new 3)) s /\ 5 ∈ ps_woken s.
Proof.
  eexists. split.
  - eapply rtc_l; [right; apply (ps_add false 5 CB_RDONLY 77); [lia|set_solver|reflexivity]|].
    eapply rtc_l; [left; apply ps_head|]. eapply rtc_l; [left; apply ps_look|].
    eapply rtc_l; [left; eapply (ps_ready _ (SelReady {[ 5 ]} ∅) [5] []); [cbn; set_solver|vm_compute; reflexivity]|].
    eapply rtc_l; [right; apply (ps_remove false 5); reflexivity|].
    eapply rtc_l; [left; apply ps_call|]. eapply rtc_l; [left; apply ps_loop|].
    apply rtc_once. left. apply ps_head.
  - cbn. set_solver.
Qed.
Lemma block_remove_quiet_witness :
  exists s : psys (A := select_aio), 5 ∈ ps_woken s /\
    watched (aio_ (ps_mgr s)) 5 = (false, false).
Proof.
  destruct removing_reached as (s & Hr & Hk). exists s. split; [exact Hk|].
  destruct (block_remove_quiet (select_new 3) s false) as (_ & Hw & _);
    [apply select_new_good; lia|exact Hr|]. exact (Hw 5 ltac:(unfold over; set_solver)).
Defined.
(** With a spurious wake-up the guarantee is lost: the wait has no predicate, so
    [block_remove_fd] returns while the poll thread is about to call the callback. *)
Lemma spurious_removal :
  exists s : psys (A := select_aio), rtc (poll_step true) (psys_new (select_new 3)) s /\
    5 ∈ ps_gone s /\ ps_pc s = PCalls [5].
Proof.
  eexists. split; [|split].
  - eapply rtc_l; [right; apply (ps_add true 5 CB_RDONLY 77); [lia|set_solver|reflexivity]|].
    eapply rtc_l; [left; apply ps_head|]. eapply rtc_l; [left; apply ps_look|].
    eapply rtc_l; [left; eapply (ps_ready _ (SelReady {[ 5 ]} ∅) [5] []); [cbn; set_solver|vm_compute; reflexivity]|].
    eapply rtc_l; [right; apply (ps_remove true 5); reflexivity|].
    eapply rtc_l; [right; apply (ps_spurious true 5); [done|set_solver]|].
    apply rtc_once. right. apply (ps_end true 5). set_solver.
  - cbn. set_solver.
  - reflexivity.
Qed.
Lemma waiting_reached :
  exists s : psys (A := select_aio), rtc (poll_step false) (psys_new (select_new 3)) s /\ 5 ∈ ps_waiting s.
Proof.
  eexists. split.
  - eapply rtc_l; [right; apply (ps_add false 5 CB_RDONLY 77); [lia|set_solver|reflexivity]|].
    eapply rtc_l; [left; apply ps_head|]. eapply rtc_l; [left; apply ps_look|]. apply rtc_once. right. apply (ps_remove false 5); reflexivity.
  - cbn. set_solver.
Qed.
Lemma removal_ends_witness :
  exists s s' : psys (A := select_aio), 5 ∈ ps_waiting s /\ rtc thread_step s s' /\ 5 ∈ ps_woken s'.
Proof.
  destruct waiting_reached as (s & Hr & Hw). exists s.
  destruct (removal_ends false (select_new 3) s 5) as (_ & s' & Hs & Hk);
    [apply select_new_good; lia|exact Hr|exact Hw|].
  exists s'. split; [exact Hw|]. split; [exact Hs|exact Hk].
Defined.

(** [SelectAIO] misses nothing: after any watching and unwatching of
    descriptors, [highfds_] bounds all that are watched, so that [wait_ready]
    reports exactly the descriptors that [select] found ready, for reading
    without its own pipe. *)
Theorem select_complete pipe0 (ops : list (bool * Z * poll_flag)) a kr kw fd :
  0 <= pipe0 -> Forall (fun o => 0 <= o.1.2) ops ->
  foldl (fun m (o : bool * Z * poll_flag) =>
    a ← m; if o.1.1 then select_watch o.1.2 o.2 a
           else '(_, a) ← select_unwatch o.1.2 o.2 a; Ret a) (Ret (select_new pipe0)) ops = Ret a ->
  kr ⊆ rfds_ a -> kw ⊆ wfds_ a -> pipe0 ∉ kw ->
  (fd ∈ (select_ready a kr kw).1 <-> fd ∈ kr /\ fd <> pipefd0 a) /\
  (fd ∈ (select_ready a kr kw).2 <-> fd ∈ kw) /\ pipefd0 a = pipe0.
Proof.
  intros Hp Hops E Hkr Hkw Hpw.
  assert (select_inv a /\ pipefd0 a = pipe0) as [Hinv Hpipe].
  { assert (select_inv (select_new pipe0) /\ pipefd0 (select_new pipe0) = pipe0) as H0
      by (split; [by apply select_new_inv|done]).
    revert E H0. generalize (select_new pipe0). induction Hops as [|[[b i] f] ops Ho _ IH]; intros a0 E H0.
    { by injection E as <-. }
    cbn in E, Ho. destruct b; cbn in E.
    - eapply IH; [exact E|]. destruct H0 as [H1 H2].
      split; [by eapply (select_watch_ok a0 i f)|by destruct f].
    - eapply IH; [exact E|]. destruct H0 as [H1 H2].
      split; [by eapply (select_unwatch_ok a0 i f)|done]. }
  unfold select_ready. cbn [fst snd]. rewrite !list_elem_of_filter, !elem_of_upto, Hpipe.
  assert (forall i, i ∈ kr \/ i ∈ kw -> 0 <= i <= highfds_ a) as Hb.
  { intros i Hi. apply Hinv. set_solver. }
  split_and!; try done.
  - split; [tauto|]. intros [Hi Hne]. split; [done|]. split; [tauto|]. apply Hb. by left.
  - split; [tauto|]. intros Hi. split; [done|]. split; [intros [-> _]; done|]. apply Hb. by right.
Qed.
Lemma select_complete_witness :
  exists a, (9 ∈ (select_ready a {[ 9; 4 ]} ∅).1 <-> 9 ∈ ({[ 9; 4 ]} : gset Z) /\ 9 <> pipefd0 a).
Proof.
  eexists. eapply (select_complete 4 [(true, 9, CB_RDONLY); (true, 12, CB_WRONLY); (false, 12, CB_RDWR)]
    _ {[ 9; 4 ]} ∅ 9); [lia|repeat constructor; cbn; lia|reflexivity|cbn; set_solver|set_solver|set_solver].
Defined.
