(* ===== verification/Base64.v ===== *)
(** * Base64 text: [base_64.h]

    The encoder and decoder that [rsm.cc] includes.  Both work on [char], which
    is signed: an index into a table that comes out negative, or past its end,
    is undefined. *)
From S2P Require Import Prelude.

Definition base64_table : str :=
  lit "ABCDEFGHIJKLMNOPQRSTUVWXYZabcdefghijklmnopqrstuvwxyz0123456789+/".
Definition base64_pad : ascii := "="%char.

(** [_base64_table[i]]: the terminator can be read, what is beyond not. *)
Definition table_at (i : Z) : outcome ascii :=
  if (i <? 0) || (Z.of_nat (length base64_table) <? i) then UB
  else Ret (default NUL (base64_table !! Z.to_nat i)).

(** The characters of a full group, and of the last one. *)
Definition enc0 (a : ascii) : Z := Z.shiftr (schar_to_Z a) 2.
Definition enc1 (a b : ascii) : Z :=
  Z.shiftl (Z.land (schar_to_Z a) 3) 4 + Z.shiftr (schar_to_Z b) 4.
Definition enc2 (b c : ascii) : Z :=
  Z.shiftl (Z.land (schar_to_Z b) 15) 2 + Z.shiftr (schar_to_Z c) 6.
Definition enc3 (c : ascii) : Z := Z.land (schar_to_Z c) 63.
Fixpoint Encode (s : str) : outcome str :=
  match s with
  | [] => Ret []
  | [a] =>
      x0 ← table_at (enc0 a);
      x1 ← table_at (Z.shiftl (Z.land (schar_to_Z a) 3) 4);
      Ret [x0; x1; base64_pad; base64_pad]
  | [a; b] =>
      x0 ← table_at (enc0 a);
      x1 ← table_at (enc1 a b);
      x2 ← table_at (Z.shiftl (Z.land (schar_to_Z b) 15) 2);
      Ret [x0; x1; x2; base64_pad]
  | a :: b :: c :: s =>
      x0 ← table_at (enc0 a);
      x1 ← table_at (enc1 a b);
      x2 ← table_at (enc2 b c);
      x3 ← table_at (enc3 c);
      r ← Encode s;
      Ret ([x0; x1; x2; x3] ++ r)
  end.

(** [DecodeTable]: the value of a character, -1 for blanks and -2 for others;
    the values of the table are below 64, so [char] holds them. *)
Definition DecodeTable : list Z :=
  [-2; -2; -2; -2; -2; -2; -2; -2; -2; -1; -1; -2; -2; -1; -2; -2;
   -2; -2; -2; -2; -2; -2; -2; -2; -2; -2; -2; -2; -2; -2; -2; -2;
   -1; -2; -2; -2; -2; -2; -2; -2; -2; -2; -2; 62; -2; -2; -2; 63;
   52; 53; 54; 55; 56; 57; 58; 59; 60; 61; -2; -2; -2; -2; -2; -2;
   -2;  0;  1;  2;  3;  4;  5;  6;  7;  8;  9; 10; 11; 12; 13; 14;
   15; 16; 17; 18; 19; 20; 21; 22; 23; 24; 25; -2; -2; -2; -2; -2;
   -2; 26; 27; 28; 29; 30; 31; 32; 33; 34; 35; 36; 37; 38; 39; 40;
   41; 42; 43; 44; 45; 46; 47; 48; 49; 50; 51; -2; -2; -2; -2; -2]
  ++ replicate 128 (-2).
Definition decode_at (ch : ascii) : outcome Z :=
  if schar_to_Z ch <? 0 then UB else Ret (default 0 (DecodeTable !! Z.to_nat (schar_to_Z ch))).

(** One character of value [ch] at place [i] of its group: the bits that are
    kept and what is appended. *)
Definition decode_char (ch bin i : Z) : Z * str :=
  match i mod 4 with
  | 0 => (Z.shiftl ch 2, [])
  | 1 => (Z.shiftl (Z.land ch 15) 4, [Z_to_char (Z.lor bin (Z.shiftr ch 4))])
  | 2 => (Z.shiftl (Z.land ch 3) 6, [Z_to_char (Z.lor bin (Z.shiftr ch 2))])
  | _ => (Z.lor bin ch, [Z_to_char (Z.lor bin ch)])
  end.
(** The loop; [return NULL] constructs a string from a null pointer, which is
    undefined.  The character after the last is the terminator. *)
Fixpoint decode_loop (s : str) (length bin i : Z) : outcome str :=
  match s with
  | [] => Ret []
  | ch :: s =>
      if decide (ch = NUL) then Ret []
      else if length <=? 0 then Ret []
      else if decide (ch = base64_pad) then
        if negb (bool_decide (default NUL (head s) = base64_pad)) && (i mod 4 =? 1)
        then UB
        else decode_loop s (length - 1) bin i
      else
        v ← decode_at ch;
        if v <? 0 then decode_loop s (length - 1) bin i
        else
          let '(bin, out) := decode_char v bin i in
          r ← decode_loop s (length - 1) bin (i + 1);
          Ret (out ++ r)
  end.
Definition Decode (s : str) (length : Z) : outcome str := decode_loop s length 0 0.

(** ** Lemmas *)

(** The character of a value, and that it is read back. *)
Definition sym (k : Z) : ascii := default NUL (base64_table !! Z.to_nat k).
Lemma sym_table k : 0 <= k < 64 -> table_at k = Ret (sym k).
Proof.
  intros Hk. unfold table_at. destruct (Z.ltb_spec k 0); [lia|].
  destruct (Z.ltb_spec (Z.of_nat (length base64_table)) k) as [Hl|]; [|done].
  change (Z.of_nat (length base64_table)) with 64 in Hl. lia.
Qed.
(** Facts about small numbers, by evaluation. *)
Lemma all_below (p : Z -> bool) n :
  forallb p (Z.of_nat <$> seq 0 n) = true -> forall k, 0 <= k < Z.of_nat n -> p k = true.
Proof.
  intros Hp k Hk. rewrite forallb_forall in Hp. apply Hp.
  apply list_elem_of_In, list_elem_of_fmap. exists (Z.to_nat k). split; [lia|].
  apply elem_of_seq. lia.
Qed.
Lemma all_below2 (p : Z -> Z -> bool) n :
  forallb (fun a => forallb (p a) (Z.of_nat <$> seq 0 n)) (Z.of_nat <$> seq 0 n) = true ->
  forall a b, 0 <= a < Z.of_nat n -> 0 <= b < Z.of_nat n -> p a b = true.
Proof. intros Hp a b Ha Hb. by apply (all_below (p a) n (all_below _ n Hp a Ha)). Qed.

Lemma sym_back k :
  0 <= k < 64 -> sym k <> NUL /\ sym k <> base64_pad /\ decode_at (sym k) = Ret k.
Proof.
  intros Hk. pose proof (all_below (fun k => bool_decide (sym k <> NUL /\ sym k <> base64_pad /\
    decode_at (sym k) = Ret k)) 64) as Hb.
  apply bool_decide_eq_true with (1 := Hb ltac:(vm_compute; reflexivity) k Hk).
Qed.
(** The six bits of two neighbouring bytes, and how they are put together. *)
Lemma split_bits a b :
  0 <= a < 128 -> 0 <= b < 128 ->
  let k1 := Z.shiftl (Z.land a 3) 4 + Z.shiftr b 4 in
  let k2 := Z.shiftl (Z.land a 15) 2 + Z.shiftr b 6 in
  0 <= Z.shiftr a 2 < 64 /\ 0 <= Z.land a 63 < 64 /\ 0 <= k1 < 64 /\ 0 <= k2 < 64 /\
  Z.lor (Z.shiftl (Z.shiftr a 2) 2) (Z.shiftr k1 4) = a /\ Z.land k1 15 = Z.shiftr b 4 /\
  Z.lor (Z.shiftl (Z.shiftr a 4) 4) (Z.shiftr k2 2) = a /\ Z.land k2 3 = Z.shiftr b 6 /\
  Z.lor (Z.shiftl (Z.shiftr a 6) 6) (Z.land a 63) = a.
Proof.
  intros Ha Hb. cbv zeta.
  pose proof (all_below2 (fun a b => bool_decide
    (0 <= Z.shiftr a 2 < 64 /\ 0 <= Z.land a 63 < 64 /\
     0 <= Z.shiftl (Z.land a 3) 4 + Z.shiftr b 4 < 64 /\
     0 <= Z.shiftl (Z.land a 15) 2 + Z.shiftr b 6 < 64 /\
     Z.lor (Z.shiftl (Z.shiftr a 2) 2) (Z.shiftr (Z.shiftl (Z.land a 3) 4 + Z.shiftr b 4) 4) = a /\
     Z.land (Z.shiftl (Z.land a 3) 4 + Z.shiftr b 4) 15 = Z.shiftr b 4 /\
     Z.lor (Z.shiftl (Z.shiftr a 4) 4) (Z.shiftr (Z.shiftl (Z.land a 15) 2 + Z.shiftr b 6) 2) = a /\
     Z.land (Z.shiftl (Z.land a 15) 2 + Z.shiftr b 6) 3 = Z.shiftr b 6 /\
     Z.lor (Z.shiftl (Z.shiftr a 6) 6) (Z.land a 63) = a)) 128) as Hc.
  apply bool_decide_eq_true with (1 := Hc ltac:(vm_compute; reflexivity) a b Ha Hb).
Qed.

Definition is_ascii (c : ascii) : Prop := char_to_Z c < 128.
Lemma schar_ascii c : is_ascii c -> schar_to_Z c = char_to_Z c /\ 0 <= char_to_Z c < 128.
Proof.
  intros Hc. pose proof (char_to_Z_range c). unfold is_ascii, schar_to_Z in *.
  rewrite bool_decide_eq_true_2 by done. split; [done|]. width.
Qed.

(** A symbol in the loop. *)
Lemma decode_sym k s n bin i :
  0 <= k < 64 -> 0 < n ->
  decode_loop (sym k :: s) n bin i =
    (r ← decode_loop s (n - 1) (decode_char k bin i).1 (i + 1); Ret ((decode_char k bin i).2 ++ r)).
Proof.
  intros Hk Hn. destruct (sym_back k Hk) as (H1 & H2 & H3). cbn [decode_loop].
  rewrite !decide_False by done. destruct (Z.leb_spec n 0); [lia|].
  rewrite H3, outcome_bind_Ret. destruct (Z.ltb_spec k 0); [lia|].
  by destruct (decode_char k bin i).
Qed.

Lemma decode_char0 k bin i : i mod 4 = 0 -> decode_char k bin i = (Z.shiftl k 2, []).
Proof. intros Hi. unfold decode_char. by rewrite Hi. Qed.
Lemma decode_char1 k bin i :
  i mod 4 = 1 ->
  decode_char k bin i = (Z.shiftl (Z.land k 15) 4, [Z_to_char (Z.lor bin (Z.shiftr k 4))]).
Proof. intros Hi. unfold decode_char. by rewrite Hi. Qed.
Lemma decode_char2 k bin i :
  i mod 4 = 2 ->
  decode_char k bin i = (Z.shiftl (Z.land k 3) 6, [Z_to_char (Z.lor bin (Z.shiftr k 2))]).
Proof. intros Hi. unfold decode_char. by rewrite Hi. Qed.
Lemma decode_char3 k bin i :
  i mod 4 = 3 -> decode_char k bin i = (Z.lor bin k, [Z_to_char (Z.lor bin k)]).
Proof. intros Hi. unfold decode_char. by rewrite Hi. Qed.
Lemma next_place i k : i mod 4 = k -> k < 3 -> (i + 1) mod 4 = k + 1.
Proof. intros <- Hk. pose proof (Z.mod_pos_bound i 4). rewrite Z.add_mod by lia.
  rewrite (Z.mod_small 1) by lia. rewrite Z.mod_small; lia. Qed.

(** The four characters of a group. *)
Lemma decode_group a b c s n i :
  is_ascii a -> is_ascii b -> is_ascii c -> i mod 4 = 0 -> 4 <= n ->
  forall bin, exists bin',
  decode_loop ([sym (enc0 a); sym (enc1 a b); sym (enc2 b c); sym (enc3 c)] ++ s) n bin i =
    (r ← decode_loop s (n - 4) bin' (i + 4); Ret ([a; b; c] ++ r)).
Proof.
  intros [Ea Ha]%schar_ascii [Eb Hb]%schar_ascii [Ec Hc]%schar_ascii Hi Hn bin.
  destruct (split_bits _ _ Ha Hb) as (A0 & _ & A1 & _ & A2 & A3 & _).
  destruct (split_bits _ _ Hb Hc) as (_ & _ & _ & B1 & _ & _ & B2 & B3 & _).
  destruct (split_bits _ _ Hc Hc) as (_ & C1 & _ & _ & _ & _ & _ & _ & C2).
  unfold enc0, enc1, enc2, enc3. rewrite Ea, Eb, Ec. cbn [app].
  assert ((i + 1) mod 4 = 1) as P1 by (by rewrite (next_place i 0)).
  assert ((i + 1 + 1) mod 4 = 2) as P2 by (by rewrite (next_place (i + 1) 1)).
  assert ((i + 1 + 1 + 1) mod 4 = 3) as P3 by (by rewrite (next_place (i + 1 + 1) 2)).
  rewrite decode_sym by lia. rewrite (decode_char0 _ _ _ Hi). cbn [fst snd].
  rewrite decode_sym by lia. rewrite (decode_char1 _ _ _ P1). cbn [fst snd]. rewrite A2, A3.
  rewrite decode_sym by lia. rewrite (decode_char2 _ _ _ P2). cbn [fst snd]. rewrite B2, B3.
  rewrite decode_sym by lia. rewrite (decode_char3 _ _ _ P3). cbn [fst snd]. rewrite C2.
  rewrite !Z_to_char_to_Z. exists (char_to_Z c). replace (n - 1 - 1 - 1 - 1) with (n - 4) by lia.
  replace (i + 1 + 1 + 1 + 1) with (i + 4) by lia.
  by destruct (decode_loop s (n - 4) _ (i + 4)).
Qed.

(** The last group, of one or of two bytes, with its padding. *)
Lemma decode_pad s n bin i :
  0 < n -> i mod 4 <> 1 -> decode_loop (base64_pad :: s) n bin i = decode_loop s (n - 1) bin i.
Proof.
  intros Hn Hi. cbn [decode_loop].
  rewrite (decide_False (P := base64_pad = NUL)) by (vm_compute; discriminate).
  rewrite (decide_True (P := base64_pad = base64_pad)) by done.
  destruct (Z.leb_spec n 0); [lia|]. apply Z.eqb_neq in Hi. by rewrite Hi, andb_false_r.
Qed.
Lemma zero_ascii : 0 <= 0 < 128.
Proof. lia. Qed.
Lemma decode_last1 a i bin :
  is_ascii a -> i mod 4 = 0 ->
  decode_loop [sym (enc0 a); sym (Z.shiftl (Z.land (schar_to_Z a) 3) 4); base64_pad; base64_pad]
    4 bin i = Ret [a].
Proof.
  intros [Ea Ha]%schar_ascii Hi.
  destruct (split_bits _ _ Ha zero_ascii) as (A0 & _ & A1 & _ & A2 & _).
  rewrite Z.shiftr_0_l, Z.add_0_r in A1, A2. unfold enc0. rewrite Ea.
  assert ((i + 1) mod 4 = 1) as P1 by (by rewrite (next_place i 0)).
  assert ((i + 1 + 1) mod 4 = 2) as P2 by (by rewrite (next_place (i + 1) 1)).
  rewrite decode_sym by lia. rewrite (decode_char0 _ _ _ Hi). cbn [fst snd].
  rewrite decode_sym by lia. rewrite (decode_char1 _ _ _ P1). cbn [fst snd]. rewrite A2.
  rewrite !decode_pad by lia. by rewrite Z_to_char_to_Z.
Qed.
Lemma decode_last2 a b i bin :
  is_ascii a -> is_ascii b -> i mod 4 = 0 ->
  decode_loop [sym (enc0 a); sym (enc1 a b); sym (Z.shiftl (Z.land (schar_to_Z b) 15) 2);
    base64_pad] 4 bin i = Ret [a; b].
Proof.
  intros [Ea Ha]%schar_ascii [Eb Hb]%schar_ascii Hi.
  destruct (split_bits _ _ Ha Hb) as (A0 & _ & A1 & _ & A2 & A3 & _).
  destruct (split_bits _ _ Hb zero_ascii) as (_ & _ & _ & B1 & _ & _ & B2 & _).
  rewrite Z.shiftr_0_l, Z.add_0_r in B1, B2. unfold enc0, enc1. rewrite Ea, Eb.
  assert ((i + 1) mod 4 = 1) as P1 by (by rewrite (next_place i 0)).
  assert ((i + 1 + 1) mod 4 = 2) as P2 by (by rewrite (next_place (i + 1) 1)).
  assert ((i + 1 + 1 + 1) mod 4 = 3) as P3 by (by rewrite (next_place (i + 1 + 1) 2)).
  rewrite decode_sym by lia. rewrite (decode_char0 _ _ _ Hi). cbn [fst snd].
  rewrite decode_sym by lia. rewrite (decode_char1 _ _ _ P1). cbn [fst snd]. rewrite A2, A3.
  rewrite decode_sym by lia. rewrite (decode_char2 _ _ _ P2). cbn [fst snd]. rewrite B2.
  rewrite decode_pad by lia. by rewrite !Z_to_char_to_Z.
Qed.

(** What the encoder appends for one group. *)
Lemma enc_range a b c :
  is_ascii a -> is_ascii b -> is_ascii c ->
  (0 <= enc0 a < 64 /\ 0 <= enc1 a b < 64 /\ 0 <= enc2 b c < 64 /\ 0 <= enc3 c < 64) /\
  0 <= Z.shiftl (Z.land (schar_to_Z a) 3) 4 < 64 /\
  0 <= Z.shiftl (Z.land (schar_to_Z b) 15) 2 < 64.
Proof.
  intros [Ea Ha]%schar_ascii [Eb Hb]%schar_ascii [Ec Hc]%schar_ascii.
  destruct (split_bits _ _ Ha Hb) as (A0 & _ & A1 & _).
  destruct (split_bits _ _ Hb Hc) as (_ & _ & _ & B1 & _).
  destruct (split_bits _ _ Hc Hc) as (_ & C1 & _).
  destruct (split_bits _ _ Ha zero_ascii) as (_ & _ & A1' & _).
  destruct (split_bits _ _ Hb zero_ascii) as (_ & _ & _ & B1' & _).
  rewrite Z.shiftr_0_l, Z.add_0_r in A1', B1'.
  unfold enc0, enc1, enc2, enc3. by rewrite Ea, Eb, Ec.
Qed.

Lemma roundtrip_from s :
  Forall is_ascii s ->
  exists e, Encode s = Ret e /\
    forall bin i, i mod 4 = 0 -> decode_loop e (Z.of_nat (length e)) bin i = Ret s.
Proof.
  induction s as [s IH] using (induction_ltof1 _ (@length ascii)). unfold ltof in IH. intros Hs.
  destruct s as [|a [|b [|c s]]].
  - by exists [].
  - apply Forall_inv in Hs. destruct (enc_range a a a Hs Hs Hs) as ((R0 & _) & R1 & _).
    eexists. split; [cbn [Encode]; by rewrite !sym_table by done|].
    intros bin i. by apply decode_last1.
  - apply Forall_cons in Hs as [Ha Hb%Forall_inv].
    destruct (enc_range a b b Ha Hb Hb) as ((R0 & R1 & _) & _ & R2).
    eexists. split; [cbn [Encode]; by rewrite !sym_table by done|].
    intros bin i. by apply decode_last2.
  - rewrite !Forall_cons in Hs. destruct Hs as (Ha & Hb & Hc & Hs).
    destruct (enc_range a b c Ha Hb Hc) as ((R0 & R1 & R2 & R3) & _).
    destruct (IH s ltac:(cbn [length]; lia) Hs) as (e & He & Hd).
    exists ([sym (enc0 a); sym (enc1 a b); sym (enc2 b c); sym (enc3 c)] ++ e). split.
    { cbn [Encode]. rewrite !sym_table by done. rewrite !outcome_bind_Ret. by rewrite He. }
    intros bin i Hi. rewrite length_app, Nat2Z.inj_add. cbn [length].
    destruct (decode_group a b c e (Z.of_nat 4 + Z.of_nat (length e)) i Ha Hb Hc Hi
      ltac:(lia) bin) as [bin' ->].
    replace (Z.of_nat 4 + Z.of_nat (length e) - 4) with (Z.of_nat (length e)) by lia.
    rewrite Hd; [done|]. rewrite Z.add_mod, Hi by lia. done.
Qed.

(** A group that starts with a byte of 128 or more. *)
Lemma enc0_high a : ~ is_ascii a -> table_at (enc0 a) = UB.
Proof.
  intros Ha. unfold is_ascii in Ha. pose proof (char_to_Z_range a).
  unfold table_at, enc0, schar_to_Z. rewrite bool_decide_eq_false_2 by lia.
  assert (Z.shiftr (char_to_Z a - 256) 2 < 0) as Hn by (apply Z.shiftr_neg; width).
  apply Z.ltb_lt in Hn. by rewrite Hn.
Qed.
Lemma encode_high pre a s :
  Forall is_ascii pre -> (length pre mod 3 = 0)%nat -> ~ is_ascii a -> Encode (pre ++ a :: s) = UB.
Proof.
  induction pre as [pre IH] using (induction_ltof1 _ (@length ascii)). unfold ltof in IH.
  intros Hp Hl Ha. destruct pre as [|b [|c [|d pre]]]; cbn [length] in Hl; [|done..|].
  - cbn [app]. destruct s as [|b [|c s]]; cbn [Encode]; by rewrite (enc0_high a Ha).
  - rewrite !Forall_cons in Hp. destruct Hp as (Hb & Hc & Hd & Hp).
    destruct (enc_range b c d Hb Hc Hd) as ((R0 & R1 & R2 & R3) & _).
    cbn [app Encode]. rewrite !sym_table by done. rewrite !outcome_bind_Ret.
    rewrite IH; [done|cbn [length]; lia|done| |done].
    change (S (S (S (length pre)))) with (3 + length pre)%nat in Hl.
    rewrite Nat.add_comm, <-(Nat.mul_1_l 3), Nat.Div0.mod_add in Hl. done.
Qed.

(** ** Theorems *)

(** Text of any length is encoded, without an index outside of the table,
    and [Decode] gives it back; a group that starts with a byte that is not
    ASCII makes [Encode] use a negative index. *)
Theorem base64_roundtrip s :
  (Forall is_ascii s ->
   exists e, Encode s = Ret e /\ Decode e (Z.of_nat (length e)) = Ret s) /\
  (forall pre a, Forall is_ascii pre -> (length pre mod 3 = 0)%nat -> ~ is_ascii a ->
   Encode (pre ++ a :: s) = UB).
Proof.
  split.
  - intros (e & He & Hd)%roundtrip_from. exists e. split; [done|]. by apply Hd.
  - intros pre a Hp Hl Ha. by apply encode_high.
Qed.

Lemma hello_ascii : Forall is_ascii (lit "hello").
Proof. unfold is_ascii. repeat constructor; by vm_compute. Qed.
Lemma high_not_ascii : ~ is_ascii (Z_to_char 228).
Proof. unfold is_ascii. by vm_compute. Qed.
Lemma base64_roundtrip_witness :
  (exists e, Encode (lit "hello") = Ret e /\
     Decode e (Z.of_nat (length e)) = Ret (lit "hello")) /\
  Encode (lit "abc" ++ Z_to_char 228 :: lit "hello") = UB.
Proof.
  split; [exact (proj1 (base64_roundtrip (lit "hello")) hello_ascii)|].
  apply (proj2 (base64_roundtrip (lit "hello"))); [|done|exact high_not_ascii].
  unfold is_ascii. repeat constructor; by vm_compute.
Defined.
Example encode_hello : Encode (lit "hello") = Ret (lit "aGVsbG8=").
Proof. by vm_compute. Qed.
