(* ===== verification/LockTester.v ===== *)
(** * The lock tester: [lock_tester.cc]

    The tester's threads take and give back locks through their clients and, while
    they have a lock, go through [check_grant] and [check_release], which count
    the holders of each lock.  The tests are scripts of actions, a run is an
    interleaving of the scripts of its threads, and a failed check ends the
    process.  The lock service is the one the tests expect: [acquire] returns
    when the lock is free, [release] frees it. *)
From S2P Require Import Prelude.

(** ** The counters *)

(** [ct]; an [exit(1)] is [None]. *)
Definition slot (lid : Z) : Z := Z.land lid 255.
Definition check_grant (lid : Z) (ct : gmap Z Z) : option (gmap Z Z) :=
  if decide (std_ref 0 ct (slot lid) <> 0) then None
  else Some (<[slot lid := std_ref 0 ct (slot lid) + 1]> ct).
Definition check_release (lid : Z) (ct : gmap Z Z) : option (gmap Z Z) :=
  if decide (std_ref 0 ct (slot lid) <> 1) then None
  else Some (<[slot lid := std_ref 0 ct (slot lid) - 1]> ct).

(** ** The tests *)

(** What a thread does with the client [lc[i]]. *)
Inductive action :=
  | Acquire (i : nat) (lid : Z) | Grant (lid : Z) | Check (lid : Z) | Release (i : nat) (lid : Z).
Definition lock_a : Z := 1.
Definition lock_b : Z := 2.
Definition nt : nat := 6.

Definition test1 : list action :=
  [Acquire 0 lock_a; Grant lock_a; Release 0 lock_a; Check lock_a;
   Acquire 0 lock_a; Grant lock_a; Release 0 lock_a; Check lock_a;
   Acquire 0 lock_a; Grant lock_a; Acquire 0 lock_b; Grant lock_b;
   Release 0 lock_b; Check lock_b; Release 0 lock_a; Check lock_a].
Definition turn (i : nat) (lid : Z) : list action := [Acquire i lid; Grant lid; Check lid; Release i lid].
Fixpoint turns (n : nat) (i : nat) (lid : Z) : list action :=
  match n with O => [] | S n => turn i lid ++ turns n i lid end.
Definition test2 (i : nat) : list action := turn i lock_a.
Definition test3 (i : nat) : list action := turns 10 i lock_a.
Definition test4 (i : nat) : list action := turns 10 0 lock_a.
Definition test5 (i : nat) : list action := turns 10 (if (i <? 5)%nat then 0 else 1) lock_a.

(** The phases of [main] with the test number [test]: the threads of a phase are
    joined before the next one starts. *)
Definition main_phases (test : Z) : list (list (list action)) :=
  (if (test =? 0) || (test =? 1) then [[test1]] else []) ++
  (if (test =? 0) || (test =? 2) then [test2 <$> seq 0 nt] else []) ++
  (if (test =? 0) || (test =? 3) then [test3 <$> seq 0 nt] else []) ++
  (if (test =? 0) || (test =? 4) then [test4 <$> seq 0 2] else []) ++
  (if (test =? 0) || (test =? 5) then [test5 <$> seq 0 nt] else []).

(** ** Runs *)

(** The counters, the holder of each lock, what the threads have yet to do, and
    whether a check has failed. *)
Record tester := Tester {
  counts : gmap Z Z;
  holder : gmap Z nat;
  todo : list (list action);
  failed : bool;
}.
Definition enabled (st : tester) (x : action) : Prop :=
  match x with Acquire _ l => holder st !! l = None | _ => True end.
Definition perform (t : nat) (x : action) (rest : list action) (st : tester) : tester :=
  let st' ct h := Tester ct h (<[t := rest]> (todo st)) (failed st) in
  match x with
  | Acquire _ l => st' (counts st) (<[l := t]> (holder st))
  | Release _ l => st' (counts st) (delete l (holder st))
  | Grant l | Check l =>
      match (match x with Grant _ => check_grant l | _ => check_release l end) (counts st) with
      | Some ct => st' ct (holder st)
      | None => Tester (counts st) (holder st) (todo st) true
      end
  end.
Inductive tester_step : tester -> tester -> Prop :=
  | step_thread t x rest st :
      failed st = false -> todo st !! t = Some (x :: rest) -> enabled st x ->
      tester_step st (perform t x rest st).
Definition start (ct : gmap Z Z) (scripts : list (list action)) : tester := Tester ct ∅ scripts false.
Definition finished (st : tester) : Prop := Forall (eq []) (todo st).

(** ** Phases whose threads take turns *)

Section phase.
Variable lid : Z.

(** Where a thread is in its turns: it has [n] turns left, and, unless it is
    [Idle], has the lock. *)
Inductive pos := Idle (n : nat) | Got (n : nat) | Counted (n : nat) | Uncounted (n : nat).
Definition script (x : nat * pos) : list action :=
  let '(i, p) := x in
  match p with
  | Idle n => turns n i lid
  | Got n => [Grant lid; Check lid; Release i lid] ++ turns n i lid
  | Counted n => [Check lid; Release i lid] ++ turns n i lid
  | Uncounted n => [Release i lid] ++ turns n i lid
  end.
Definition idle (x : nat * pos) : Prop := match x.2 with Idle _ => True | _ => False end.
Definition counted (x : nat * pos) : Z := match x.2 with Counted _ => 1 | _ => 0 end.

(** At most one thread has the lock, and the counter says whether it is between
    its two checks. *)
Record phase_inv (xs : list (nat * pos)) (st : tester) : Prop := {
  pi_todo : todo st = script <$> xs;
  pi_failed : failed st = false;
  pi_others k : k <> slot lid -> std_ref 0 (counts st) k = 0;
  pi_free : holder st !! lid = None -> Forall idle xs /\ std_ref 0 (counts st) (slot lid) = 0;
  pi_held t : holder st !! lid = Some t -> exists x, xs !! t = Some x /\ ~ idle x /\
    std_ref 0 (counts st) (slot lid) = counted x /\
    forall t' x', xs !! t' = Some x' -> t' <> t -> idle x';
}.
Definition all_zero (ct : gmap Z Z) : Prop := forall k, std_ref 0 ct k = 0.
Lemma phase_start xs ct : Forall idle xs -> all_zero ct -> phase_inv xs (start ct (script <$> xs)).
Proof. intros Hx Hz. by split. Qed.
Lemma idle_free xs st t x : phase_inv xs st -> xs !! t = Some x -> ~ idle x -> holder st !! lid = Some t.
Proof.
  intros Hi Hx Hn. destruct (holder st !! lid) as [t'|] eqn:E.
  - destruct (pi_held _ _ Hi t' E) as (y & _ & _ & _ & Ho).
    destruct (decide (t = t')) as [->|Hne]; [done|]. by apply (Ho t x) in Hne.
  - destruct (pi_free _ _ Hi E) as [Hf _]. by apply Forall_lookup_1 with (i := t) (x := x) in Hf.
Qed.
Lemma others_idle (xs : list (nat * pos)) (t : nat) x :
  (forall t' x', xs !! t' = Some x' -> t' <> t -> idle x') ->
  forall t' x', <[t := x]> xs !! t' = Some x' -> t' <> t -> idle x'.
Proof. intros Ho t' x' E Hne. rewrite list_lookup_insert_ne in E by done. by apply (Ho t' x'). Qed.

(** A thread moves on: from [p] to [p'], with the action [x]. *)
Definition moves (i : nat) (p : pos) : option (action * pos) :=
  match p with
  | Idle O => None
  | Idle (S n) => Some (Acquire i lid, Got n)
  | Got n => Some (Grant lid, Counted n)
  | Counted n => Some (Check lid, Uncounted n)
  | Uncounted n => Some (Release i lid, Idle n)
  end.
Lemma script_moves i p x rest :
  script (i, p) = x :: rest -> exists p', moves i p = Some (x, p') /\ rest = script (i, p').
Proof. destruct p as [[|n]|n|n|n]; intros E; simplify_eq/=; eauto. Qed.

(** The thread [t] has the lock, or has just given it back. *)
Lemma phase_held (xs : list (nat * pos)) t x ct h :
  xs !! t = Some x -> ~ idle x -> h !! lid = Some t -> std_ref 0 ct (slot lid) = counted x ->
  (forall k, k <> slot lid -> std_ref 0 ct k = 0) ->
  (forall t' x', xs !! t' = Some x' -> t' <> t -> idle x') ->
  phase_inv xs (Tester ct h (script <$> xs) false).
Proof.
  intros Hx Hn Hh Hc Hz Ho. split; cbn; try done; [congruence|].
  intros t' Ht'. rewrite Hh in Ht'. injection Ht' as <-. by exists x.
Qed.
Lemma phase_freed (xs : list (nat * pos)) t x ct h :
  xs !! t = Some x -> idle x -> h !! lid = None -> all_zero ct ->
  (forall t' x', xs !! t' = Some x' -> t' <> t -> idle x') ->
  phase_inv xs (Tester ct h (script <$> xs) false).
Proof.
  intros Hx Hn Hh Hz Ho. split; cbn; try done; [|congruence].
  intros _. split; [|done]. apply Forall_lookup. intros t' x' Ht'.
  destruct (decide (t' = t)) as [->|Hne]; [congruence|by eapply Ho].
Qed.

Lemma phase_step xs st st' :
  phase_inv xs st -> tester_step st st' -> exists xs', phase_inv xs' st'.
Proof.
  intros Hi Hs. destruct Hs as [t x rest st Hf Ht He].
  rewrite (pi_todo _ _ Hi), list_lookup_fmap in Ht.
  apply fmap_Some in Ht as ([i p] & Hx & Hsc). symmetry in Hsc.
  apply script_moves in Hsc as (p' & Hm & ->).
  exists (<[t := (i, p')]> xs).
  pose proof (list_lookup_insert_eq xs t (i, p') (lookup_lt_Some _ _ _ Hx)) as Hx'.
  assert (<[t := script (i, p')]> (todo st) = script <$> (<[t := (i, p')]> xs)) as Htodo
    by by rewrite list_fmap_insert, (pi_todo _ _ Hi).
  assert (~ idle (i, p) -> holder st !! lid = Some t /\
    std_ref 0 (counts st) (slot lid) = counted (i, p) /\
    forall t' x', <[t := (i, p')]> xs !! t' = Some x' -> t' <> t -> idle x') as Hheld.
  { intros Hn. pose proof (idle_free _ _ _ _ Hi Hx Hn) as Hh.
    destruct (pi_held _ _ Hi t Hh) as (y & Hy & _ & Hc & Ho).
    rewrite Hx in Hy. injection Hy as <-. split_and!; [done|done|by apply others_idle]. }
  pose proof (pi_others _ _ Hi) as Hz.
  destruct p as [[|n]|n|n|n]; cbn in Hm; [done|injection Hm as <- <-..]; unfold perform; rewrite Htodo, Hf.
  - destruct (pi_free _ _ Hi He) as [Hidle H0].
    apply (phase_held _ t (i, Got n)); [exact Hx'|by intros []|apply lookup_insert_eq|exact H0|exact Hz|].
    intros t' x' E Hne. rewrite list_lookup_insert_ne in E by done. by eapply Forall_lookup_1.
  - destruct Hheld as (Hh & Hc & Ho); [by intros []|]. unfold check_grant. rewrite Hc, decide_False by (by intros []).
    apply (phase_held _ t (i, Counted n)); [exact Hx'|by intros []|exact Hh|apply std_ref_insert_eq| |exact Ho].
    intros k Hk. rewrite std_ref_insert_ne by done. by apply Hz.
  - destruct Hheld as (Hh & Hc & Ho); [by intros []|]. unfold check_release. rewrite Hc, decide_False by (by intros []).
    apply (phase_held _ t (i, Uncounted n)); [exact Hx'|by intros []|exact Hh|apply std_ref_insert_eq| |exact Ho].
    intros k Hk. rewrite std_ref_insert_ne by done. by apply Hz.
  - destruct Hheld as (Hh & Hc & Ho); [by intros []|].
    apply (phase_freed _ t (i, Idle n)); [exact Hx'|done|apply lookup_delete_eq| |exact Ho].
    intros k. destruct (decide (k = slot lid)) as [->|Hk]; [exact Hc|by apply Hz].
Qed.

(** Somebody can go on until all have finished: the thread that has the lock, or
    any thread when it is free. *)
Lemma phase_progress xs st :
  phase_inv xs st -> finished st \/ exists st', tester_step st st'.
Proof.
  intros Hi. assert (forall t i p x p', xs !! t = Some (i, p) -> moves i p = Some (x, p') -> enabled st x ->
    exists st', tester_step st st') as Hgo.
  { intros t i p x p' Hx Hm He. exists (perform t x (script (i, p')) st). constructor; [apply Hi| |done].
    rewrite (pi_todo _ _ Hi), list_lookup_fmap, Hx. by destruct p as [[|n]|n|n|n]; simplify_eq/=. }
  destruct (holder st !! lid) as [t|] eqn:Eh.
  - right. destruct (pi_held _ _ Hi t Eh) as ([i p] & Hx & Hn & _).
    destruct p as [n|n|n|n]; [by destruct Hn|by eapply Hgo..].
  - destruct (pi_free _ _ Hi Eh) as [Hidle _]. destruct (decide (Exists (fun x => script x <> []) xs)) as [He|He].
    + right. apply Exists_exists in He as ([i p] & (t & Hx)%list_elem_of_lookup & Hn).
      pose proof (Forall_lookup_1 _ _ _ _ Hidle Hx) as Hp. destruct p as [[|n]|n|n|n]; try done.
      by eapply (Hgo t i (Idle (S n))).
    + left. unfold finished. rewrite (pi_todo _ _ Hi). apply Forall_fmap, Forall_forall. intros x Hx.
      destruct (decide (script x = [])) as [E|E]; [by rewrite <-E|].
      destruct He. apply Exists_exists. by exists x.
Qed.
Lemma phase_end xs st : phase_inv xs st -> finished st -> all_zero (counts st) /\ failed st = false.
Proof.
  intros Hi Hf. split; [|apply Hi]. unfold finished in Hf. rewrite (pi_todo _ _ Hi) in Hf.
  rewrite Forall_fmap in Hf. destruct (holder st !! lid) as [t|] eqn:Eh.
  - destruct (pi_held _ _ Hi t Eh) as ([i p] & Hx & Hn & _).
    pose proof (Forall_lookup_1 _ _ _ _ Hf Hx) as Hp. by destruct p as [n|n|n|n]; [destruct Hn|..].
  - destruct (pi_free _ _ Hi Eh) as [_ H0]. intros k.
    destruct (decide (k = slot lid)) as [->|Hk]; [done|]. by apply (pi_others _ _ Hi).
Qed.
End phase.

(** ** A phase with one thread *)

(** The script runs through, and leaves the counters at zero. *)
Fixpoint runs_through (s : list action) (st : tester) : bool :=
  negb (failed st) &&
  match s with
  | [] => bool_decide (map_Forall (fun _ n => n = 0) (counts st))
  | x :: s =>
      match x with Acquire _ l => bool_decide (holder st !! l = None) | _ => true end &&
      runs_through s (perform 0 x s st)
  end.
Definition single (st : tester) : Prop := exists s, todo st = [s] /\ runs_through s st = true.
Lemma single_sound st :
  single st -> failed st = false /\ (finished st \/ exists st', tester_step st st').
Proof.
  intros (s & Ht & Hs). destruct s as [|x s]; cbn [runs_through] in Hs; apply andb_prop in Hs as [Hf Hs];
    apply negb_true_iff in Hf; (split; [done|]).
  - left. unfold finished. rewrite Ht. by constructor.
  - right. apply andb_prop in Hs as [He _]. exists (perform 0 x s st). constructor; [done|by rewrite Ht|].
    destruct x; cbn; try done. by apply bool_decide_eq_true in He.
Qed.
Lemma single_step st st' : single st -> tester_step st st' -> single st'.
Proof.
  intros (s & Ht & Hs) Hst. destruct Hst as [t x rest st Hf Hx He]. rewrite Ht in Hx.
  destruct t as [|t]; [|by destruct t]. injection Hx as ->. cbn [runs_through] in Hs.
  apply andb_prop in Hs as [_ Hs]. apply andb_prop in Hs as [_ Hs]. exists rest. split; [|done].
  assert (failed (perform 0 x rest st) = false) as Hf'.
  { destruct rest; cbn [runs_through] in Hs; apply andb_prop in Hs as [Hs _]; by apply negb_true_iff. }
  unfold perform in *. destruct x; cbn; rewrite ?Ht; try done; by case_match; cbn; rewrite ?Ht.
Qed.
Lemma single_end st : single st -> finished st -> all_zero (counts st).
Proof.
  intros (s & Ht & Hs) Hf. unfold finished in Hf. rewrite Ht in Hf. inversion_clear Hf as [|? ? <- _].
  cbn [runs_through] in Hs. apply andb_prop in Hs as [_ Hs]. apply bool_decide_eq_true in Hs.
  intros k. unfold std_ref. destruct (counts st !! k) as [n|] eqn:E; [by apply (Hs k)|done].
Qed.
Lemma test1_single : single (start ∅ [test1]).
Proof. exists test1. split; [done|by vm_compute]. Qed.

(** ** The program *)

(** The states of a run of [main] with the phases [phs]. *)
Inductive reached : list (list (list action)) -> gmap Z Z -> tester -> Prop :=
  | reached_now ph phs ct st : rtc tester_step (start ct ph) st -> reached (ph :: phs) ct st
  | reached_later ph phs ct st st' :
      rtc tester_step (start ct ph) st -> finished st -> failed st = false ->
      reached phs (counts st) st' -> reached (ph :: phs) ct st'.
(** The actions that are left in a phase. *)
Definition left_over (st : tester) : nat := length (concat (todo st)).

Definition sound (st : tester) : Prop := failed st = false /\ (finished st \/ exists st', tester_step st st').
Definition taking_turns (ph : list (list action)) : Prop :=
  exists xs, Forall idle xs /\ ph = script lock_a <$> xs.
Lemma turns_reached ph ct st : taking_turns ph -> all_zero ct -> rtc tester_step (start ct ph) st ->
  exists xs, phase_inv lock_a xs st.
Proof.
  intros (xs & Hx & ->) Hz Hr. pose proof (phase_start lock_a xs ct Hx Hz) as Hi.
  refine (rtc_ind_r (R := tester_step) (fun st => exists xs, phase_inv lock_a xs st) (start ct (script lock_a <$> xs)) _ _ st Hr); [by exists xs|].
  intros s s' _ Hs [xs' Hi']. by eapply phase_step.
Qed.
Lemma turns_all_sound phs : forall ct st,
  Forall taking_turns phs -> all_zero ct -> reached phs ct st -> sound st.
Proof.
  induction phs as [|ph phs IH]; intros ct st Hf Hz Hr; [by inversion Hr|].
  inversion_clear Hf as [|? ? Hph Hphs]. inversion Hr as [? ? ? ? Hst|? ? ? s ? Hst Hfin Hok Hr']; subst.
  - destruct (turns_reached ph ct st Hph Hz Hst) as [xs Hi]. split; [apply Hi|by eapply phase_progress].
  - destruct (turns_reached ph ct s Hph Hz Hst) as [xs Hi]. eapply IH; [done| |exact Hr'].
    by eapply phase_end.
Qed.

Lemma single_reached st : rtc tester_step (start ∅ [test1]) st -> single st.
Proof.
  intros Hr. refine (rtc_ind_r (R := tester_step) single (start ∅ [test1]) test1_single _ st Hr).
  intros s s' _ Hs Hi. by eapply single_step.
Qed.
Lemma turns_of (k : nat) (f : nat -> nat) ts :
  taking_turns ((fun i => turns k (f i) lock_a) <$> ts).
Proof.
  exists ((fun i => (f i, Idle k)) <$> ts). split; [by apply Forall_fmap, Forall_true|].
  by rewrite <-list_fmap_compose.
Qed.
Lemma step_left st st' :
  tester_step st st' -> failed st' = true \/ (left_over st' < left_over st)%nat.
Proof.
  destruct 1 as [t x rest st Hf Ht He]. unfold left_over.
  assert (length (concat (<[t := rest]> (todo st))) < length (concat (todo st)))%nat as Hlt.
  { pose proof (lookup_lt_Some _ _ _ Ht) as Hlen. rewrite <-(take_drop_middle _ _ _ Ht) at 2.
    rewrite insert_take_drop by done. rewrite !concat_app. cbn [concat]. rewrite !length_app. cbn. lia. }
  unfold perform. destruct x; cbn; [by right| | |by right]; case_match; cbn; auto.
Qed.

Lemma reached_step phs ct st st' : reached phs ct st -> tester_step st st' -> reached phs ct st'.
Proof.
  induction 1 as [|ph phs ct s st Hr Hf Hok _ IH]; intros Hs; [|by eapply reached_later; eauto].
  constructor. by eapply rtc_r.
Qed.
Lemma later_phases_turn test : Forall taking_turns (
  (if (test =? 0) || (test =? 2) then [test2 <$> seq 0 nt] else []) ++
  (if (test =? 0) || (test =? 3) then [test3 <$> seq 0 nt] else []) ++
  (if (test =? 0) || (test =? 4) then [test4 <$> seq 0 2] else []) ++
  (if (test =? 0) || (test =? 5) then [test5 <$> seq 0 nt] else [])).
Proof.
  repeat apply Forall_app_2; case_match; repeat constructor.
  - exact (turns_of 1 id _).
  - exact (turns_of 10 id _).
  - exact (turns_of 10 (fun _ => 0%nat) _).
  - exact (turns_of 10 (fun i => if (i <? 5)%nat then 0%nat else 1%nat) _).
Qed.
Lemma main_sound test st : reached (main_phases test) ∅ st -> sound st.
Proof.
  unfold main_phases. pose proof (later_phases_turn test) as Ht.
  destruct ((test =? 0) || (test =? 1)); cbn [app]; [|by apply turns_all_sound].
  intros Hr. inversion Hr as [? ? ? ? Hst|? ? ? s ? Hst Hfin Hok Hr']; subst.
  - by apply single_sound, single_reached.
  - eapply turns_all_sound; [exact Ht| |exact Hr']. apply single_end; [by apply single_reached|done].
Qed.

(** C33. The lock tester does not cry wolf: with a lock service that excludes, for
    every choice of the test and every interleaving of the threads, no check
    fails, somebody can always go on until all threads of a phase have finished,
    and every action brings the phase closer to its end. *)
Theorem tester_passes test st :
  reached (main_phases test) ∅ st ->
  failed st = false /\ (finished st \/ exists st', tester_step st st') /\
  forall st', tester_step st st' -> (left_over st' < left_over st)%nat.
Proof.
  intros Hr. destruct (main_sound test st Hr) as [Hf Hp]. split_and!; [done|done|]. intros st' Hs.
  destruct (step_left st st' Hs) as [Hf'|]; [|done].
  destruct (main_sound test st' (reached_step _ _ _ _ Hr Hs)) as [Hf'' _]. congruence.
Qed.
Lemma tester_passes_witness :
  let st := perform 0 (Acquire 0 lock_a) [Grant lock_a; Check lock_a; Release 0 lock_a]
              (start ∅ (test2 <$> seq 0 nt)) in
  reached (main_phases 2) ∅ st /\ failed st = false.
Proof.
  intros st. assert (reached (main_phases 2) ∅ st) as Hr.
  { apply reached_now, rtc_once. by constructor. }
  split; [exact Hr|]. exact (proj1 (tester_passes 2 st Hr)).
Defined.

(** It does catch a double grant: a thread that is granted the lock while another
    has counted its own grant fails its check. *)
Lemma double_grant_caught st t lid rest :
  std_ref 0 (counts st) (slot lid) = 1 -> todo st !! t = Some (Grant lid :: rest) -> failed st = false ->
  tester_step st (perform t (Grant lid) rest st) /\ failed (perform t (Grant lid) rest st) = true.
Proof.
  intros Hc Ht Hf. split; [by constructor|]. cbn. unfold check_grant. by rewrite Hc, decide_True.
Qed.
