(* ===== verification/LabTests.v ===== *)
(** * The file system tests: [test-lab-3-b.c], [test-lab-3-c.c]

    The tests make system calls in the same directory through two servers and
    check what they see; some of them in two processes at once.  A test is a list
    of phases, a phase the scripts of its processes, and a run interleaves their
    system calls.  The file system is the one the tests expect: one store, whose
    calls are atomic, and which is what the abstract file system of [YfsClient]
    makes of the requests for a call ([served]).  A failed check is an
    [exit(1)]. *)
From S2P Require Import Prelude Log DirForm YfsClient.

(** ** System calls *)

(** Files are named by directory and name. *)
Abbreviation key := (str * str)%type.
Abbreviation store := (gmap key str).
Record fdesc := Fdesc { fd_key : key; fd_off : Z; fd_append : bool }.

(** The system calls of the tests with what the tests do about their results.
    [Creat] with [dup] goes on with the next file when the file exists;
    [ReadIs] reads at most [n] bytes, wants as many as [s] has and compares the
    first [cmp]. *)
Inductive op :=
  | Creat (k : key) (dup : bool) | OpenFile (k : key) (app : bool) | OpenCreate (k : key) | Seek (off : Z)
  | WriteAll (s : str) | Fsync | ReadIs (n : Z) (s : str) (cmp : nat) | ReadChar (c : ascii) | Close
  | Absent (k : key) | UnlinkFile (k : key) | Dircheck (d : str) (n : nat).

(** The entries of a directory that [dircheck] counts.  It also looks for two with
    one name, which a map has not. *)
Definition entries (d : str) (st : store) : list key :=
  filter (fun k => k.1 = d /\ head k.2 <> Some "."%char) (elements (dom st)).

(** A call: the store, the open file and the number of calls of the script that
    are skipped; [None] when the process exits.  [creat] of a file that exists
    truncates it, or, when the server's lookup missed it, fails with [EEXIST]:
    [missed] says which. *)
Definition do_op (missed : bool) (o : op) (st : store) (fd : option fdesc) : option (store * option fdesc * nat) :=
  match o with
  | Creat k dup =>
      if missed && bool_decide (is_Some (st !! k)) then (if dup then Some (st, fd, 2%nat) else None)
      else Some (<[k := []]> st, Some (Fdesc k 0 false), 0%nat)
  | OpenFile k app =>
      match st !! k with Some _ => Some (st, Some (Fdesc k 0 app), 0%nat) | None => None end
  | OpenCreate k =>
      Some (if decide (is_Some (st !! k)) then st else <[k := []]> st, Some (Fdesc k 0 false), 0%nat)
  | Seek off => f ← fd; Some (st, Some (Fdesc (fd_key f) off (fd_append f)), 0%nat)
  | WriteAll s =>
      f ← fd; c ← st !! fd_key f;
      let off := if fd_append f then Z.of_nat (length c) else fd_off f in
      Some (<[fd_key f := overwrite c off s]> st,
            Some (Fdesc (fd_key f) (off + Z.of_nat (length s)) (fd_append f)), 0%nat)
  | Fsync => f ← fd; Some (st, Some f, 0%nat)
  | ReadIs n s cmp =>
      f ← fd; c ← st !! fd_key f;
      let data := slice c (fd_off f) n in
      if bool_decide (length data = length s /\ take cmp data = take cmp s)
      then Some (st, Some (Fdesc (fd_key f) (fd_off f + Z.of_nat (length data)) (fd_append f)), 0%nat) else None
  | ReadChar ch =>
      f ← fd; c ← st !! fd_key f;
      if bool_decide (slice c (fd_off f) 1 = [ch])
      then Some (st, Some (Fdesc (fd_key f) (fd_off f + 1) (fd_append f)), 0%nat) else None
  | Close => f ← fd; Some (st, None, 0%nat)
  | Absent k => if bool_decide (is_Some (st !! k)) then None else Some (st, fd, 0%nat)
  | UnlinkFile k => if bool_decide (is_Some (st !! k)) then Some (delete k st, fd, 0%nat) else None
  | Dircheck d n => if bool_decide (length (entries d st) = n) then Some (st, fd, 0%nat) else None
  end.

(** ** The functions of the tests *)

(** [dl] is the length of the directory's path, [bufsz] the size of the buffer of
    [check1]: it compares as many characters as the path has. *)
Definition create1 (d f s : str) : list op := [Creat (d, f) false; WriteAll s; Close].
Definition check1 (dl : nat) (bufsz : Z) (d f s : str) : list op :=
  [OpenFile (d, f) false; ReadIs (bufsz - 1) s (dl + 1 + length f); Close].
Definition unlink1 (d f : str) : list op := [UnlinkFile (d, f)].
Definition checknot (d f : str) : list op := [Absent (d, f)].
Definition append1 (d f s : str) : list op := [OpenFile (d, f) true; WriteAll s; Close].
Fixpoint write_loop (n : nat) (c : ascii) : list op :=
  match n with O => [Close] | S n => WriteAll [c] :: Fsync :: write_loop n c end.
Definition write1 (d f : str) (start : Z) (n : nat) (c : ascii) : list op :=
  OpenCreate (d, f) :: Seek start :: write_loop n c.
Fixpoint read_loop (n : nat) (c : ascii) : list op :=
  match n with O => [Close] | S n => ReadChar c :: read_loop n c end.
Definition checkread (d f : str) (start : Z) (n : nat) (c : ascii) : list op :=
  OpenFile (d, f) false :: Seek start :: read_loop n c.
(** The file [prefix-i], which holds the bytes of the [int] [i]. *)
Definition fname (prefix : str) (i : nat) : str := prefix ++ lit "-" ++ decimal (Z.of_nat i).
Definition int_bytes (i : nat) : str :=
  (fun j => Z_to_char (Z.of_nat i `div` 256 ^ Z.of_nat j)) <$> seq 0 4.
Definition createn (d prefix : str) (nf : nat) (dup : bool) : list op :=
  seq 0 nf ≫= fun i => [Creat (d, fname prefix i) dup; WriteAll (int_bytes i); Close].
Definition checkn (d prefix : str) (nf : nat) : list op :=
  seq 0 nf ≫= fun i => [OpenFile (d, fname prefix i) false; ReadIs 4 (int_bytes i) 4; Close].
Definition unlinkn (d prefix : str) (nf : nat) : list op :=
  (fun i => UnlinkFile (d, fname prefix i)) <$> seq 0 nf.
Definition dircheck (d : str) (nf : nat) : list op := [Dircheck d nf].

(** ** The programs *)

(** [main] of [test-lab-3-b.c]: both arguments lead to the directory [dd], whose
    paths have the lengths [l1] and [l2]. *)
Section main.
Variables (l1 l2 : nat).
Definition dd : str := lit "d".
Definition big : str := replicate (Z.to_nat 20000) "x"%char.
Definition huge : str := replicate (Z.to_nat (65536 * 2)) "0"%char.
Local Abbreviation bufsz := 21000.
Local Abbreviation check_1 := (check1 l1 bufsz dd).
Local Abbreviation check_2 := (check1 l2 bufsz dd).
Definition sequential : list op :=
  (* Create then read *)
  create1 dd (lit "f1") (lit "aaa") ++ check_2 (lit "f1") (lit "aaa") ++ check_1 (lit "f1") (lit "aaa") ++
  (* Unlink *)
  unlink1 dd (lit "f1") ++ create1 dd (lit "fx1") (lit "fxx") ++ unlink1 dd (lit "fx1") ++
  checknot dd (lit "f1") ++ checknot dd (lit "f1") ++ create1 dd (lit "f2") (lit "222") ++
  unlink1 dd (lit "f2") ++ checknot dd (lit "f2") ++ checknot dd (lit "f2") ++
  create1 dd (lit "f3") (lit "333") ++ check_2 (lit "f3") (lit "333") ++ check_1 (lit "f3") (lit "333") ++
  unlink1 dd (lit "f3") ++ create1 dd (lit "fx2") (lit "22") ++ unlink1 dd (lit "fx2") ++
  checknot dd (lit "f3") ++ checknot dd (lit "f3") ++
  (* Append *)
  create1 dd (lit "f1") (lit "aaa") ++ append1 dd (lit "f1") (lit "bbb") ++ append1 dd (lit "f1") (lit "ccc") ++
  check_1 (lit "f1") (lit "aaabbbccc") ++ check_2 (lit "f1") (lit "aaabbbccc") ++
  (* Readdir *)
  dircheck dd 1 ++ dircheck dd 1 ++ unlink1 dd (lit "f1") ++ dircheck dd 0 ++ dircheck dd 0 ++
  create1 dd (lit "f2") (lit "aaa") ++ create1 dd (lit "f3") (lit "aaa") ++ dircheck dd 2 ++ dircheck dd 2 ++
  unlink1 dd (lit "f2") ++ dircheck dd 1 ++ dircheck dd 1 ++ unlink1 dd (lit "f3") ++ dircheck dd 0 ++
  dircheck dd 0 ++
  (* Many sequential creates *)
  createn dd (lit "aa") 10 false ++ createn dd (lit "bb") 10 false ++ dircheck dd 20 ++
  checkn dd (lit "bb") 10 ++ checkn dd (lit "aa") 10 ++ checkn dd (lit "aa") 10 ++ checkn dd (lit "bb") 10 ++
  unlinkn dd (lit "aa") 10 ++ unlinkn dd (lit "bb") 10 ++
  (* Write 20000 bytes *)
  create1 dd (lit "bf") big ++ check_1 (lit "bf") big ++ check_2 (lit "bf") big ++ unlink1 dd (lit "bf").
(** The child's script and the parent's, up to [reap]. *)
Definition concurrent_creates : list (list op) :=
  [createn dd (lit "xx") 20 false; createn dd (lit "yy") 20 false].
Definition same_file : list (list op) :=
  [createn dd (lit "zz") 20 true; createn dd (lit "zz") 20 true ++ dircheck dd 20].
Definition create_delete : list (list op) :=
  [unlinkn dd (lit "x1") 20 ++ createn dd (lit "x3") 20 false; createn dd (lit "x4") 20 false].
Definition two_writers : list (list op) :=
  [write1 dd (lit "www") 65536 64 "2"%char; write1 dd (lit "www") 0 64 "1"%char].
Definition lab_3_b : list (list (list op)) :=
  [[sequential];
   concurrent_creates;
   [dircheck dd 40 ++ checkn dd (lit "xx") 20 ++ checkn dd (lit "yy") 20 ++
    unlinkn dd (lit "xx") 20 ++ unlinkn dd (lit "yy") 20];
   same_file;
   [checkn dd (lit "zz") 20 ++ checkn dd (lit "zz") 20 ++ unlinkn dd (lit "zz") 20 ++
    createn dd (lit "x1") 20 false ++ createn dd (lit "x2") 20 false];
   create_delete;
   [unlinkn dd (lit "x2") 20 ++ unlinkn dd (lit "x4") 20 ++ unlinkn dd (lit "x3") 20 ++ dircheck dd 0];
   same_file;
   [checkn dd (lit "zz") 20 ++ unlinkn dd (lit "zz") 20 ++ create1 dd (lit "www") huge];
   two_writers;
   [checkread dd (lit "www") 0 64 "1"%char ++ checkread dd (lit "www") 0 64 "1"%char ++
    checkread dd (lit "www") 65536 64 "2"%char ++ checkread dd (lit "www") 65536 64 "2"%char]].
End main.
(** [main] of [test-lab-3-c.c]: two directories. *)
Definition da : str := lit "da".
Definition db : str := lit "db".
Definition createn_c (d prefix : str) (nf : nat) : list op := createn d prefix nf false.
Definition lab_3_c : list (list (list op)) :=
  [[createn_c db (lit "xx") 100 ++ unlinkn db (lit "xx") 99;
    createn_c da (lit "yy") 100 ++ unlinkn da (lit "yy") 99];
   [dircheck da 1 ++ dircheck db 1]].

(** ** Runs *)

Record testing := Testing {
  files : store;
  procs : list (option fdesc * list op);
  exited : bool;
}.
Inductive test_step : testing -> testing -> Prop :=
  | test_call t fd o rest missed s fd' skip s1 :
      exited s = false -> procs s !! t = Some (fd, o :: rest) ->
      do_op missed o (files s) fd = Some (s1, fd', skip) ->
      test_step s (Testing s1 (<[t := (fd', drop skip rest)]> (procs s)) false)
  | test_exit t fd o rest missed s :
      exited s = false -> procs s !! t = Some (fd, o :: rest) ->
      do_op missed o (files s) fd = None -> test_step s (Testing (files s) (procs s) true).
Definition begin (s : store) (ph : list (list op)) : testing := Testing s ((None,.) <$> ph) false.
Definition ended (s : testing) : Prop := Forall (fun p => p.2 = []) (procs s).
Definition calls_left (s : testing) : nat := length (concat (procs s).*2).

(** The states of a run of the phases [phs] on the store [s]. *)
Inductive in_run : list (list (list op)) -> store -> testing -> Prop :=
  | in_phase ph phs s x : rtc test_step (begin s ph) x -> in_run (ph :: phs) s x
  | next_phase ph phs s x y :
      rtc test_step (begin s ph) x -> ended x -> exited x = false ->
      in_run phs (files x) y -> in_run (ph :: phs) s y.

(** The phase [ph] takes the store [s] to [s'], however its processes run. *)
Definition phase_ok (s : store) (ph : list (list op)) (s' : store) : Prop :=
  forall x, rtc test_step (begin s ph) x -> exited x = false /\ (ended x -> files x = s').
Inductive phases_ok : store -> list (list (list op)) -> Prop :=
  | phases_nil s : phases_ok s []
  | phases_cons s ph s' phs : phase_ok s ph s' -> phases_ok s' phs -> phases_ok s (ph :: phs).
Lemma phases_sound s phs x : phases_ok s phs -> in_run phs s x -> exited x = false.
Proof.
  intros Hok Hr. revert Hok. induction Hr as [ph phs s x Hx|ph phs s x y Hx He Hn _ IH]; intros Hok;
    inversion_clear Hok as [|? ? s' ? Hph Hphs]; destruct (Hph x Hx) as [? Hend]; [done|].
  apply IH. by rewrite Hend.
Qed.

(** An invariant of a phase. *)
Lemma phase_invariant (I : testing -> Prop) s ph s' :
  I (begin s ph) -> (forall x y, I x -> test_step x y -> I y) ->
  (forall x, I x -> exited x = false /\ (ended x -> files x = s')) -> phase_ok s ph s'.
Proof.
  intros H0 Hstep Hend x Hx. apply Hend.
  refine (rtc_ind_r (R := test_step) I (begin s ph) H0 _ x Hx). intros y z _ Hs Hy. by eapply Hstep.
Qed.

(** ** Scripts that create only new files *)

(** A call whose effect is certain. *)
Definition certain (o : op) (s : store) (fd : option fdesc) : option (store * option fdesc) :=
  match do_op true (match o with Creat k _ => Creat k false | o => o end) s fd with
  | Some (s, fd, _) => Some (s, fd)
  | None => None
  end.
Fixpoint run_script (ops : list op) (s : store) (fd : option fdesc) : option store :=
  match ops with
  | [] => Some s
  | o :: ops => '(s, fd) ← certain o s fd; run_script ops s fd
  end.
Lemma certain_call o s fd s' fd' :
  certain o s fd = Some (s', fd') -> forall missed, do_op missed o s fd = Some (s', fd', 0%nat).
Proof.
  unfold certain. intros E missed.
  destruct o; cbn [do_op] in *; try (repeat case_match; simplify_option_eq; done).
  cbn [andb] in E. case_bool_decide; [done|]. rewrite andb_false_r. by injection E as <- <-.
Qed.
Lemma single_phase s ops s' : run_script ops s None = Some s' -> phase_ok s [ops] s'.
Proof.
  intros Hrun. apply (phase_invariant (fun x => exited x = false /\
    exists fd ops, procs x = [(fd, ops)] /\ run_script ops (files x) fd = Some s')).
  - split; [done|]. by exists None, ops.
  - intros x y (Hx & fd & os & Hp & Hr) Hs. inversion Hs as [t f o rest missed ? fd' skip s1 _ Ht Hd|t f o rest missed ? _ Ht Hd];
      subst; rewrite Hp in Ht; (destruct t as [|t]; [|by destruct t]); injection Ht as -> ->;
      cbn [run_script] in Hr; apply bind_Some in Hr as ([s2 fd2] & Hc & Hr);
      rewrite (certain_call _ _ _ _ _ Hc missed) in Hd; [|done]. injection Hd as <- <- <-.
    split; [done|]. exists fd2, rest. by rewrite Hp.
  - intros x (Hx & fd & os & Hp & Hr). split; [done|]. unfold ended. rewrite Hp.
    intros He. inversion_clear He as [|? ? Ho _]. cbn in Ho. subst os. by injection Hr.
Qed.

(** ** Two processes with files of their own *)

Section own_files.
Variable P : key -> Prop.
Definition own_op (o : op) : Prop :=
  match o with
  | Creat k _ | OpenFile k _ | OpenCreate k | UnlinkFile k | Absent k => P k
  | Dircheck _ _ => False
  | _ => True
  end.
Definition own_fd (fd : option fdesc) : Prop := match fd with Some f => P (fd_key f) | None => True end.
Definition agree (s v : store) : Prop := forall k, P k -> s !! k = v !! k.
Lemma agree_insert s v k c : agree s v -> agree (<[k := c]> s) (<[k := c]> v).
Proof. intros Ha j Hj. destruct (decide (k = j)) as [->|]; [by rewrite !lookup_insert_eq|]. rewrite !lookup_insert_ne by done. by apply Ha. Qed.
Lemma agree_delete s v k : agree s v -> agree (delete k s) (delete k v).
Proof. intros Ha j Hj. destruct (decide (k = j)) as [->|]; [by rewrite !lookup_delete_eq|]. rewrite !lookup_delete_ne by done. by apply Ha. Qed.

(** What a process does to its own files does not depend on the others. *)
Lemma certain_frame o v fd v' fd' s :
  own_op o -> own_fd fd -> agree s v -> certain o v fd = Some (v', fd') ->
  exists s', certain o s fd = Some (s', fd') /\ agree s' v' /\ own_fd fd' /\
    forall k, ~ P k -> s' !! k = s !! k.
Proof.
  intros Ho Hf Ha. unfold certain. intros E.
  assert (forall k (c : str), P k -> forall j, ~ P j -> <[k := c]> s !! j = s !! j) as Hi.
  { intros k c Hk j Hj. apply lookup_insert_ne. by intros ->. }
  destruct o as [k dup|k app|k|off|c| |n c cmp|ch| |k|k|]; cbn [do_op own_op] in *; try done;
    try rewrite (Ha k Ho).
  - cbn [andb] in *. case_bool_decide; [done|]. injection E as <- <-.
    eexists. split_and!; [reflexivity|by apply agree_insert|done|by apply Hi].
  - destruct (v !! k); [|done]. injection E as <- <-. by eexists.
  - injection E as <- <-. eexists. split; [reflexivity|]. case_decide; [done|].
    split_and!; [by apply agree_insert|done|by apply Hi].
  - destruct fd as [f|]; [|done]. injection E as <- <-. by eexists.
  - destruct fd as [f|]; [|done]. cbn in Hf, E |- *. rewrite (Ha _ Hf). destruct (v !! fd_key f); [|done].
    cbn in E |- *. injection E as <- <-. eexists. split_and!; [reflexivity|by apply agree_insert|done|by apply Hi].
  - destruct fd as [f|]; [|done]. injection E as <- <-. by eexists.
  - destruct fd as [f|]; [|done]. cbn in Hf, E |- *. rewrite (Ha _ Hf). destruct (v !! fd_key f); [|done].
    cbn in E |- *. case_bool_decide; [|done]. injection E as <- <-. by eexists.
  - destruct fd as [f|]; [|done]. cbn in Hf, E |- *. rewrite (Ha _ Hf). destruct (v !! fd_key f); [|done].
    cbn in E |- *. case_bool_decide; [|done]. injection E as <- <-. by eexists.
  - destruct fd as [f|]; [|done]. injection E as <- <-. by eexists.
  - case_bool_decide; [done|]. injection E as <- <-. by eexists.
  - case_bool_decide; [|done]. injection E as <- <-. eexists. split_and!; [reflexivity|by apply agree_delete|done|].
    intros j Hj. apply lookup_delete_ne. by intros ->.
Qed.
End own_files.

(** A process that has [ops] left to do, which take its own files, now as in [v],
    to those of [v']. *)
Record owner (P : key -> Prop) (s : store) (p : option fdesc * list op) (v' : store) : Prop := {
  ow_ops : Forall (own_op P) p.2;
  ow_fd : own_fd P p.1;
  ow_run : exists v, agree P s v /\ run_script p.2 v p.1 = Some v';
}.
Lemma owner_step P s fd o rest v' missed :
  owner P s (fd, o :: rest) v' ->
  exists s1 fd1, do_op missed o s fd = Some (s1, fd1, 0%nat) /\ owner P s1 (fd1, rest) v' /\
    forall k, ~ P k -> s1 !! k = s !! k.
Proof.
  intros [Ho Hf (v & Ha & Hr)]. cbn in *. inversion_clear Ho as [|? ? Ho1 Hos].
  apply bind_Some in Hr as ([v1 fd1] & Hc & Hr).
  destruct (certain_frame P o v fd v1 fd1 s Ho1 Hf Ha Hc) as (s1 & Hc1 & Ha1 & Hf1 & Hsame).
  exists s1, fd1. split_and!; [by apply certain_call| |done]. split; [done|done|]. by exists v1.
Qed.
Lemma owner_frame (P Q : key -> Prop) s s1 p v' :
  (forall k, P k -> ~ Q k) -> (forall k, ~ Q k -> s1 !! k = s !! k) -> owner P s p v' -> owner P s1 p v'.
Proof.
  intros Hd Hs [? ? (v & Ha & Hr)]. split; [done|done|]. exists v. split; [|done].
  intros k Hk. rewrite Hs by by apply Hd. by apply Ha.
Qed.
Lemma two_owners (P : key -> Prop) `{!forall k, Decision (P k)} s opsA opsB vA vB s' :
  Forall (own_op P) opsA -> Forall (own_op (fun k => ~ P k)) opsB ->
  run_script opsA s None = Some vA -> run_script opsB s None = Some vB ->
  (forall k, s' !! k = if decide (P k) then vA !! k else vB !! k) ->
  phase_ok s [opsA; opsB] s'.
Proof.
  intros HA HB HrA HrB Hs'. apply (phase_invariant (fun x => exited x = false /\ exists pa pb,
    procs x = [pa; pb] /\ owner P (files x) pa vA /\ owner (fun k => ~ P k) (files x) pb vB)).
  - split; [done|]. exists (None, opsA), (None, opsB). split_and!; [done|..]; by split; [..|exists s].
  - intros x y (Hx & pa & pb & Hp & Ha & Hb) Hs.
    inversion Hs as [t f o rest missed ? fd' skip s1 _ Ht Hd|t f o rest missed ? _ Ht Hd]; subst; rewrite Hp in Ht;
      (destruct t as [|[|t]]; [| |by destruct t]); injection Ht as ->.
    + destruct (owner_step _ _ _ _ _ _ missed Ha) as (s2 & fd2 & E & Ha' & Hk).
      rewrite E in Hd. injection Hd as <- <- <-. split; [done|]. exists (fd2, rest), pb. rewrite Hp.
      split_and!; [done|done|]. by eapply (owner_frame (fun k => ~ P k) P).
    + destruct (owner_step _ _ _ _ _ _ missed Hb) as (s2 & fd2 & E & Hb' & Hk).
      rewrite E in Hd. injection Hd as <- <- <-. split; [done|]. exists pa, (fd2, rest). rewrite Hp.
      split_and!; [done| |done]. eapply (owner_frame P (fun k => ~ P k)); [|done|done]. naive_solver.
    + destruct (owner_step _ _ _ _ _ _ missed Ha) as (s2 & fd2 & E & _). congruence.
    + destruct (owner_step _ _ _ _ _ _ missed Hb) as (s2 & fd2 & E & _). congruence.
  - intros x (Hx & [fa oa] & [fb ob] & Hp & [_ _ (va & Haa & Ra)] & [_ _ (vb & Hab & Rb)]). split; [done|].
    unfold ended. rewrite Hp. intros He. inversion_clear He as [|? ? E1 He']. inversion_clear He' as [|? ? E2 _].
    cbn in E1, E2. subst oa ob. injection Ra as ->. injection Rb as ->. apply map_eq. intros k. rewrite Hs'.
    case_decide; [by apply Haa|by apply Hab].
Qed.

(** ** Two processes that create the same files *)

Section same_files.
Variables (s0 : store) (items : list (key * str)) (dname : str) (n : nat).
Hypothesis Hnd : NoDup items.*1.
Hypothesis Hnew : forall k c, (k, c) ∈ items -> s0 !! k = None.
Definition creates (l : list (key * str)) : list op :=
  l ≫= fun x => [Creat x.1 true; WriteAll x.2; Close].
Definition created : store := list_to_map items ∪ s0.
Hypothesis Hcount : length (entries dname created) = n.

(** Where a process is: before a [creat], a [write] or a [close]; the files it
    has yet to create, and whether it counts the entries in the end. *)
Inductive place := AtCreat | AtWrite (k : key) (c : str) | AtClose (k : key).
Record creator := Creator { cr_place : place; cr_todo : list (key * str); cr_counts : bool }.
Definition cr_rest (p : creator) : list op := creates (cr_todo p) ++ (if cr_counts p then [Dircheck dname n] else []).
Inductive at_script (p : creator) : option fdesc * list op -> Prop :=
  | at_creat fd : cr_place p = AtCreat -> at_script p (fd, cr_rest p)
  | at_write k c : cr_place p = AtWrite k c ->
      at_script p (Some (Fdesc k 0 false), WriteAll c :: Close :: cr_rest p)
  | at_close k f : cr_place p = AtClose k -> at_script p (Some f, Close :: cr_rest p).
(** The files before the ones it has yet to create; the last one it may be writing. *)
Definition cr_passed (p : creator) : Prop :=
  exists pre, items = pre ++ cr_todo p /\ forall k c, cr_place p = AtWrite k c -> exists pre', pre = pre' ++ [(k, c)].
(** A file is there once a process has created it, and it is empty only while a
    process is about to write it. *)
Definition creating (s : store) (p q : creator) : Prop :=
  cr_passed p /\ cr_passed q /\ (forall k, k ∉ items.*1 -> s !! k = s0 !! k) /\
  forall k c, (k, c) ∈ items ->
    (k, c) ∈ cr_todo p /\ (k, c) ∈ cr_todo q /\ s !! k = None \/
    ((k, c) ∉ cr_todo p \/ (k, c) ∉ cr_todo q) /\
      (s !! k = Some c \/ s !! k = Some [] /\ (cr_place p = AtWrite k c \/ cr_place q = AtWrite k c)).
Lemma creating_sym s p q : creating s p q -> creating s q p.
Proof. intros (? & ? & ? & H). split_and!; try done. intros k c Hk. destruct (H k c Hk); naive_solver. Qed.
Lemma same_key k c c' : (k, c) ∈ items -> (k, c') ∈ items -> c = c'.
Proof.
  intros (i & Hi)%list_elem_of_lookup (j & Hj)%list_elem_of_lookup.
  assert (i = j) as ->; [|congruence]. eapply NoDup_lookup; [exact Hnd| |]; by rewrite list_lookup_fmap, ?Hi, ?Hj.
Qed.
Lemma passed_head p k c rest :
  cr_passed p -> cr_todo p = (k, c) :: rest -> (k, c) ∈ items /\ (k, c) ∉ rest.
Proof.
  intros (pre & E & _) Et. rewrite Et in E. split; [rewrite E; apply elem_of_app; right; by left|].
  intros Hin. pose proof Hnd as N. rewrite E, fmap_app, fmap_cons in N.
  apply NoDup_app in N as (_ & _ & N). apply NoDup_cons in N as [N _]. apply N.
  apply list_elem_of_fmap. by exists (k, c).
Qed.
Lemma passed_writing p k c : cr_passed p -> cr_place p = AtWrite k c -> (k, c) ∈ items /\ (k, c) ∉ cr_todo p.
Proof.
  intros (pre & E & Hw) Hp. destruct (Hw k c Hp) as (pre' & ->). split; [rewrite E; set_solver|].
  intros Hin. pose proof Hnd as N. rewrite E, !fmap_app in N. apply NoDup_app in N as (_ & N & _).
  apply (N k); [apply elem_of_app; right; by left|]. apply list_elem_of_fmap. by exists (k, c).
Qed.
Lemma overwrite_whole y c : y = c \/ y = [] -> overwrite y 0 c = c.
Proof.
  intros Hy. unfold overwrite. change (Z.to_nat 0) with 0%nat. rewrite Nat.add_0_l.
  assert (str_resize 0 y = []) as -> by done. cbn [app].
  destruct Hy as [-> | ->]; by rewrite ?drop_all, ?drop_nil, app_nil_r.
Qed.

(** A process moves on. *)
Lemma creating_skip s p q k c rest :
  creating s p q -> cr_place p = AtCreat -> cr_todo p = (k, c) :: rest -> is_Some (s !! k) ->
  creating s (Creator AtCreat rest (cr_counts p)) q.
Proof.
  intros (Hp & Hq & Ho & Hi) Hpl Ht [y Hy]. destruct (passed_head p k c rest Hp Ht) as [Hk Hr].
  split_and!; [|done|done|].
  { destruct Hp as (pre & E & _). exists (pre ++ [(k, c)]). cbn. split; [by rewrite E, Ht, <-app_assoc|done]. }
  intros k' c' Hin. destruct (Hi k' c' Hin) as [(Hp' & Hq' & Hn)|[Hn Hs]].
  - rewrite Ht in Hp'. apply elem_of_cons in Hp' as [[= -> ->]|Hp']; [congruence|by left].
  - right. split; [|by rewrite Hpl in Hs; naive_solver]. destruct Hn as [Hn|Hn]; [left|by right].
    intros Hin'. apply Hn. rewrite Ht. by right.
Qed.
Lemma creating_create s p q k c rest :
  creating s p q -> cr_place p = AtCreat -> cr_todo p = (k, c) :: rest ->
  creating (<[k := []]> s) (Creator (AtWrite k c) rest (cr_counts p)) q.
Proof.
  intros (Hp & Hq & Ho & Hi) Hpl Ht. destruct (passed_head p k c rest Hp Ht) as [Hk Hr].
  assert (k ∈ items.*1) as Hk1 by (apply list_elem_of_fmap; by exists (k, c)).
  split_and!; [|done| |].
  { destruct Hp as (pre & E & _). exists (pre ++ [(k, c)]). cbn.
    split; [by rewrite E, Ht, <-app_assoc|]. intros ? ? [= <- <-]. by exists pre. }
  { intros k' Hk'. rewrite lookup_insert_ne; [by apply Ho|]. by intros ->. }
  intros k' c' Hin. cbn. destruct (decide (k = k')) as [<-|Hne].
  - rewrite (same_key k c' c) by done. right. split; [by left|]. right. rewrite lookup_insert_eq. by split; [|left].
  - rewrite lookup_insert_ne by done. destruct (Hi k' c' Hin) as [(Hp' & Hq' & Hn)|[Hn Hs]].
    + left. split_and!; [|done|done]. rewrite Ht in Hp'. by apply elem_of_cons in Hp' as [[= <- <-]|Hp'].
    + right. split; [|rewrite Hpl in Hs; naive_solver]. destruct Hn as [Hn|Hn]; [left|by right].
      intros Hin'. apply Hn. rewrite Ht. by right.
Qed.
Lemma creating_write s p q k c :
  creating s p q -> cr_place p = AtWrite k c ->
  exists y, s !! k = Some y /\ overwrite y 0 c = c /\
    creating (<[k := c]> s) (Creator (AtClose k) (cr_todo p) (cr_counts p)) q.
Proof.
  intros (Hp & Hq & Ho & Hi) Hpl. destruct (passed_writing p k c Hp Hpl) as [Hk Hr].
  assert (exists y, s !! k = Some y /\ (y = c \/ y = [])) as (y & Hy & Hyc).
  { destruct (Hi k c Hk) as [(? & _)|[_ [?|[? _]]]]; [done|eauto..]. }
  exists y. split_and!; [done|by apply overwrite_whole|]. split_and!; [|done| |].
  { destruct Hp as (pre & E & _). exists pre. by split. }
  { intros k' Hk'. rewrite lookup_insert_ne; [by apply Ho|].
    intros ->. apply Hk', list_elem_of_fmap. by exists (k', c). }
  intros k' c' Hin. cbn. destruct (decide (k = k')) as [<-|Hne].
  - rewrite (same_key k c' c) by done. right. split; [by left|]. left. apply lookup_insert_eq.
  - rewrite lookup_insert_ne by done. destruct (Hi k' c' Hin) as [?|[Hn Hs]]; [by left|right].
    split; [done|]. rewrite Hpl in Hs. naive_solver.
Qed.
Lemma creating_close s p q k :
  creating s p q -> cr_place p = AtClose k -> creating s (Creator AtCreat (cr_todo p) (cr_counts p)) q.
Proof.
  intros (Hp & Hq & Ho & Hi) Hpl. split_and!; [|done|done|].
  { destruct Hp as (pre & E & _). exists pre. by split. }
  intros k' c' Hin. destruct (Hi k' c' Hin) as [?|[Hn Hs]]; [by left|right]. split; [done|].
  rewrite Hpl in Hs. naive_solver.
Qed.
(** Once a process has passed all files, they are all there. *)
Lemma creating_dom s p q : creating s p q -> cr_todo p = [] -> dom s = dom created.
Proof.
  intros (Hp & Hq & Ho & Hi) Ht. apply set_eq. intros k. unfold created.
  rewrite dom_union, dom_list_to_map, elem_of_union, elem_of_list_to_set.
  destruct (decide (k ∈ items.*1)) as [Hk|Hk].
  - split; [by left|intros _]. apply list_elem_of_fmap in Hk as ([k' c] & -> & Hin).
    apply elem_of_dom. cbn. destruct (Hi k' c Hin) as [(Hn & _)|[_ [Hs|[Hs _]]]]; [|by rewrite Hs..].
    rewrite Ht in Hn. by apply elem_of_nil in Hn.
  - rewrite !elem_of_dom, Ho by done. naive_solver.
Qed.
Lemma creating_done s p q :
  creating s p q -> cr_todo p = [] -> cr_place p = AtCreat -> cr_place q = AtCreat -> s = created.
Proof.
  intros (Hp & Hq & Ho & Hi) Ht Hp1 Hq1. apply map_eq. intros k. unfold created.
  destruct (decide (k ∈ items.*1)) as [Hk|Hk].
  - apply list_elem_of_fmap in Hk as ([k' c] & -> & Hin). cbn.
    rewrite (lookup_union_Some_l _ _ k' c) by by apply elem_of_list_to_map_1.
    destruct (Hi k' c Hin) as [(Hn & _)|[_ [?|[_ [?|?]]]]]; [|done|congruence..].
    rewrite Ht in Hn. by apply elem_of_nil in Hn.
  - rewrite Ho by done. rewrite lookup_union_r; [done|]. by apply not_elem_of_list_to_map_1.
Qed.

Lemma creator_step s p q fd o rest missed :
  creating s p q -> at_script p (fd, o :: rest) ->
  exists s1 fd1 skip p', do_op missed o s fd = Some (s1, fd1, skip) /\
    at_script p' (fd1, drop skip rest) /\ creating s1 p' q.
Proof.
  intros Hc Hp. inversion Hp as [f Hpl [Ef E]|k c Hpl|k f Hpl]; subst.
  - unfold cr_rest in *. destruct (cr_todo p) as [|[k c] l] eqn:Ht.
    + destruct (cr_counts p); [|done]. cbn in E. injection E as <- <-.
      exists s, fd, 0%nat, (Creator AtCreat [] false). split_and!; [|by constructor|].
      * cbn. unfold entries. rewrite (creating_dom s p q Hc Ht). fold (entries dname created).
        by rewrite bool_decide_eq_true_2.
      * destruct Hc as (Hp1 & Hq & Ho & Hi). split_and!; [|done|done|by rewrite <-Ht, <-Hpl].
        destruct Hp1 as (pre & E & _). exists pre. by rewrite <-Ht.
    + cbn in E. injection E as <- <-. cbn [do_op].
      destruct (missed && bool_decide (is_Some (s !! k))) eqn:Em.
      * apply andb_prop in Em as [_ Em%bool_decide_eq_true].
        exists s, fd, 2%nat, (Creator AtCreat l (cr_counts p)). split_and!; [done|by constructor|].
        by apply (creating_skip s p q k c).
      * eexists _, _, 0%nat, (Creator (AtWrite k c) l (cr_counts p)). split_and!; [reflexivity|by constructor|].
        by apply creating_create.
  - destruct (creating_write s p q k c Hc Hpl) as (y & Hy & Hw & Hc').
    eexists _, _, 0%nat, (Creator (AtClose k) (cr_todo p) (cr_counts p)).
    cbn. rewrite Hy. cbn. rewrite Hw. split_and!;
      [reflexivity|exact (at_close (Creator (AtClose k) (cr_todo p) (cr_counts p)) k _ eq_refl)|done].
  - exists s, None, 0%nat, (Creator AtCreat (cr_todo p) (cr_counts p)).
    split_and!; [done|exact (at_creat (Creator AtCreat (cr_todo p) (cr_counts p)) None eq_refl)|by eapply creating_close].
Qed.
Lemma at_script_done p fd : at_script p (fd, []) -> cr_place p = AtCreat /\ cr_todo p = [].
Proof.
  inversion 1 as [f Hpl [Ef E]| |]; subst. split; [done|]. unfold cr_rest in E. by destruct (cr_todo p).
Qed.
Lemma same_files_phase :
  phase_ok s0 [creates items; creates items ++ [Dircheck dname n]] created.
Proof.
  apply (phase_invariant (fun x => exited x = false /\ exists p q ep eq, procs x = [ep; eq] /\
    at_script p ep /\ at_script q eq /\ creating (files x) p q)).
  - split; [done|]. exists (Creator AtCreat items false), (Creator AtCreat items true).
    eexists (None, _), (None, _). split_and!; [reflexivity| | |].
    + rewrite <-(app_nil_r (creates items)). by apply (at_creat (Creator AtCreat items false)).
    + by apply (at_creat (Creator AtCreat items true)).
    + split_and!; [by exists []..|done|]. intros k c Hk. left. split_and!; [done|done|]. by eapply Hnew.
  - intros x y (Hx & p & q & ep & eq & Hp & Ap & Aq & Hc) Hs.
    inversion Hs as [t f o rest missed ? fd' skip s1 _ Ht Hd|t f o rest missed ? _ Ht Hd]; subst; rewrite Hp in Ht;
      (destruct t as [|[|t]]; [| |by destruct t]); injection Ht as ->.
    + destruct (creator_step _ p q _ _ _ missed Hc Ap) as (s2 & fd2 & sk & p' & E & Ap' & Hc').
      rewrite E in Hd. injection Hd as <- <- <-. split; [done|]. exists p', q. rewrite Hp. by eexists _, _.
    + apply creating_sym in Hc.
      destruct (creator_step _ q p _ _ _ missed Hc Aq) as (s2 & fd2 & sk & q' & E & Aq' & Hc').
      rewrite E in Hd. injection Hd as <- <- <-. split; [done|]. exists p, q'. rewrite Hp.
      apply creating_sym in Hc'. by eexists _, _.
    + destruct (creator_step _ p q _ _ _ missed Hc Ap) as (? & ? & ? & ? & E & _). congruence.
    + apply creating_sym in Hc. destruct (creator_step _ q p _ _ _ missed Hc Aq) as (? & ? & ? & ? & E & _). congruence.
  - intros x (Hx & p & q & [fp op] & [fq oq] & Hp & Ap & Aq & Hc). split; [done|]. unfold ended. rewrite Hp.
    intros He. inversion_clear He as [|? ? E1 He']. inversion_clear He' as [|? ? E2 _]. cbn in E1, E2. subst op oq.
    apply at_script_done in Ap as [Hp1 Ht], Aq as [Hq1 _]. by eapply creating_done.
Qed.
End same_files.

(** ** Two processes that write different parts of a file *)

Record writer := Writer { w_start : nat; w_n : nat; w_char : ascii }.
Section writers.
Variables (s0 : store) (k : key) (c0 : str).
Implicit Types (w u : writer) (y : str).
Definition wrote w (i j : nat) : Prop := (w_start w <= j < w_start w + i)%nat.
#[local] Instance wrote_dec w i j : Decision (wrote w i j).
Proof. unfold wrote. apply _. Defined.
Definition apart w u : Prop :=
  (w_start w + w_n w <= w_start u \/ w_start u + w_n u <= w_start w)%nat.
Definition inside w : Prop := (w_start w + w_n w <= length c0)%nat.
(** The file after [i] and [j] characters of the two writers. *)
Definition content w u (i j : nat) y : Prop :=
  forall x, y !! x = if decide (wrote w i x) then Some (w_char w)
                     else if decide (wrote u j x) then Some (w_char u) else c0 !! x.
Inductive at_write1 w (i : nat) : option fdesc * list op -> Prop :=
  | w_open fd : i = 0%nat -> at_write1 w i (fd, write1 k.1 k.2 (Z.of_nat (w_start w)) (w_n w) (w_char w))
  | w_seek : i = 0%nat ->
      at_write1 w i (Some (Fdesc k 0 false), Seek (Z.of_nat (w_start w)) :: write_loop (w_n w) (w_char w))
  | w_loop m : (i + m = w_n w)%nat ->
      at_write1 w i (Some (Fdesc k (Z.of_nat (w_start w + i)) false), write_loop m (w_char w))
  | w_sync m : (i + m = w_n w)%nat ->
      at_write1 w i (Some (Fdesc k (Z.of_nat (w_start w + i)) false), Fsync :: write_loop m (w_char w))
  | w_end : i = w_n w -> at_write1 w i (None, []).
Lemma content_sym w u i j y :
  apart w u -> (i <= w_n w)%nat -> (j <= w_n u)%nat -> content w u i j y -> content u w j i y.
Proof.
  intros Ha Hi Hj Hc x. rewrite Hc. unfold apart, wrote in *. repeat case_decide; try done. lia.
Qed.
Lemma content_length w u i j y :
  inside w -> inside u -> (i <= w_n w)%nat -> (j <= w_n u)%nat -> content w u i j y -> length y = length c0.
Proof.
  intros Hw Hu Hi Hj Hc. assert (forall x, is_Some (y !! x) <-> is_Some (c0 !! x)) as Heq.
  { intros x. rewrite Hc. unfold inside, wrote in *. repeat case_decide; [| |done];
      (split; [intros _; apply lookup_lt_is_Some; lia|done]). }
  apply Nat.le_antisymm; apply Nat.nlt_ge; intros Hlt.
  - pose proof (proj1 (Heq (length c0)) (proj2 (lookup_lt_is_Some y _) Hlt)) as ?%lookup_lt_is_Some. lia.
  - pose proof (proj2 (Heq (length y)) (proj2 (lookup_lt_is_Some c0 _) Hlt)) as ?%lookup_lt_is_Some. lia.
Qed.
Lemma content_write w u i j y :
  inside w -> inside u -> (i < w_n w)%nat -> (j <= w_n u)%nat -> apart w u -> content w u i j y ->
  content w u (S i) j (overwrite y (Z.of_nat (w_start w + i)) [w_char w]).
Proof.
  intros Hw Hu Hi Hj Ha Hc. pose proof (content_length w u i j y Hw Hu ltac:(lia) Hj Hc) as Hl.
  intros x. rewrite overwrite_lookup by lia. cbn [length]. unfold inside, wrote, apart in *.
  destruct (decide (Z.of_nat x < Z.of_nat (w_start w + i))).
  - assert (is_Some (y !! x)) as [ch Hx] by (apply lookup_lt_is_Some; lia). rewrite Hx. cbn.
    rewrite Hc in Hx. unfold wrote in Hx. rewrite <-Hx. repeat case_decide; try done; lia.
  - destruct (decide (Z.of_nat x < Z.of_nat (w_start w + i) + Z.of_nat 1)).
    + replace (x - Z.to_nat (Z.of_nat (w_start w + i)))%nat with 0%nat by lia. rewrite decide_True by lia. done.
    + rewrite Hc. unfold wrote. repeat case_decide; try done; lia.
Qed.

(** The file system while both write. *)
Definition writing w u (i j : nat) (s : store) : Prop :=
  (i <= w_n w)%nat /\ (j <= w_n u)%nat /\ exists y, s = <[k := y]> s0 /\ content w u i j y.
Lemma writer_step w u i j s fd o rest missed :
  inside w -> inside u -> apart w u -> writing w u i j s -> at_write1 w i (fd, o :: rest) ->
  exists s1 fd1 i', do_op missed o s fd = Some (s1, fd1, 0%nat) /\ at_write1 w i' (fd1, rest) /\
    writing w u i' j s1.
Proof.
  intros Hw Hu Ha (Hi & Hj & y & -> & Hc) Hp.
  assert (<[k := y]> s0 !! k = Some y) as Hy by apply lookup_insert_eq.
  inversion Hp as [f H0|H0|m Hm [Ef E]|m Hm|]; subst.
  - eexists _, _, 0%nat. cbn [do_op].
    rewrite decide_True by (rewrite <-surjective_pairing, Hy; done).
    split_and!; [reflexivity| |split_and!; [done..|by exists y]]. rewrite <-surjective_pairing. by constructor.
  - eexists _, _, 0%nat. split_and!; [reflexivity| |split_and!; [done..|by exists y]]. cbn.
    replace (w_start w) with (w_start w + 0)%nat by lia. by constructor.
  - destruct m as [|m]; injection E as <- <-.
    + eexists _, _, i. split_and!; [reflexivity|constructor; lia|split_and!; [done..|by exists y]].
    + eexists _, _, (S i). cbn. rewrite Hy. cbn. split_and!; [reflexivity| |].
      * replace (Z.of_nat (w_start w + i) + Z.of_nat 1) with (Z.of_nat (w_start w + S i)) by lia. apply w_sync. lia.
      * split_and!; [lia|done|]. eexists. rewrite insert_insert_eq. split; [reflexivity|]. apply content_write; [done|done|lia|done..].
  - eexists _, _, i. split_and!; [reflexivity|by constructor|split_and!; [done..|by exists y]].
Qed.

Lemma writing_sym w u i j s : apart w u -> writing w u i j s -> writing u w j i s.
Proof. intros Ha (? & ? & y & ? & ?). split_and!; [done|done|]. exists y. split; [done|by apply content_sym]. Qed.
Lemma apart_sym w u : apart w u -> apart u w.
Proof. unfold apart. lia. Qed.
Definition both_written w u : str :=
  overwrite (overwrite c0 (Z.of_nat (w_start w)) (replicate (w_n w) (w_char w)))
    (Z.of_nat (w_start u)) (replicate (w_n u) (w_char u)).
Lemma content_done w u y :
  inside w -> inside u -> apart w u -> content w u (w_n w) (w_n u) y -> y = both_written w u.
Proof.
  intros Hw Hu Ha Hc. apply list_eq. intros x. rewrite Hc. unfold both_written.
  assert (forall i n (c : ascii) z, (z - i < n)%nat -> replicate n c !! (z - i)%nat = Some c) as Hrep
    by (intros; by apply lookup_replicate_2).
  unfold inside, apart, wrote in *. rewrite overwrite_lookup by lia. rewrite length_replicate, !Nat2Z.id.
  assert (forall z, (z < length c0)%nat -> default NUL (c0 !! z) = default NUL (c0 !! z) /\ is_Some (c0 !! z)) as Hin
    by (intros; split; [done|by apply lookup_lt_is_Some]).
  rewrite overwrite_lookup by lia. rewrite length_replicate, !Nat2Z.id.
  repeat case_decide; try lia; rewrite ?Hrep by lia; try done;
    destruct (proj2 (Hin x ltac:(lia))) as [? ->]; done.
Qed.
Lemma two_writers_phase w u :
  inside w -> inside u -> apart w u -> s0 !! k = Some c0 ->
  phase_ok s0 [write1 k.1 k.2 (Z.of_nat (w_start w)) (w_n w) (w_char w);
               write1 k.1 k.2 (Z.of_nat (w_start u)) (w_n u) (w_char u)] (<[k := both_written w u]> s0).
Proof.
  intros Hw Hu Ha Hk. apply (phase_invariant (fun x => exited x = false /\ exists i j ew eu, procs x = [ew; eu] /\
    at_write1 w i ew /\ at_write1 u j eu /\ writing w u i j (files x))).
  - split; [done|]. exists 0%nat, 0%nat. eexists _, _. split_and!; [reflexivity|by constructor..|].
    split_and!; [lia|lia|]. exists c0. split; [by rewrite insert_id|].
    intros x. unfold wrote. rewrite !decide_False by lia. done.
  - intros x y (Hx & i & j & ew & eu & Hp & Aw & Au & Hc) Hs.
    inversion Hs as [t f o rest missed ? fd' skip s1 _ Ht Hd|t f o rest missed ? _ Ht Hd]; subst; rewrite Hp in Ht;
      (destruct t as [|[|t]]; [| |by destruct t]); injection Ht as ->.
    + destruct (writer_step w u i j _ _ _ _ missed Hw Hu Ha Hc Aw) as (s2 & fd2 & i' & E & Aw' & Hc').
      rewrite E in Hd. injection Hd as <- <- <-. split; [done|]. exists i', j. rewrite Hp. by eexists _, _.
    + apply (writing_sym _ _ _ _ _ Ha) in Hc.
      destruct (writer_step u w j i _ _ _ _ missed Hu Hw (apart_sym _ _ Ha) Hc Au) as (s2 & fd2 & j' & E & Au' & Hc').
      rewrite E in Hd. injection Hd as <- <- <-. split; [done|]. exists i, j'. rewrite Hp.
      apply (writing_sym _ _ _ _ _ (apart_sym _ _ Ha)) in Hc'. by eexists _, _.
    + destruct (writer_step w u i j _ _ _ _ missed Hw Hu Ha Hc Aw) as (? & ? & ? & E & _). congruence.
    + apply (writing_sym _ _ _ _ _ Ha) in Hc.
      destruct (writer_step u w j i _ _ _ _ missed Hu Hw (apart_sym _ _ Ha) Hc Au) as (? & ? & ? & E & _). congruence.
  - intros x (Hx & i & j & [fw ow] & [fu ou] & Hp & Aw & Au & (_ & _ & y & -> & Hc)). split; [done|]. unfold ended.
    rewrite Hp. intros He. inversion_clear He as [|? ? E1 He']. inversion_clear He' as [|? ? E2 _]. cbn in E1, E2. subst.
    assert (forall v m e, at_write1 v m (e, []) -> m = w_n v) as Hend.
    { intros v m e A. inversion A as [| |m' Hm| |]; subst; [by destruct m'|done]. }
    apply Hend in Aw as ->. apply Hend in Au as ->. f_equal. by apply content_done.
Qed.
End writers.

(** ** The tests pass *)

(** A read that compares everything compares enough. *)
Definition exact_op (o : op) : op := match o with ReadIs n s _ => ReadIs n s (length s) | o => o end.
Lemma certain_exact o s fd r : certain (exact_op o) s fd = Some r -> certain o s fd = Some r.
Proof.
  destruct o as [| | | | | |n c cmp| | | | |]; try done. unfold certain. cbn [exact_op do_op].
  destruct fd as [f|]; [|done]. cbn. destruct (s !! fd_key f); [|done]. cbn.
  case_bool_decide as H1; [|done]. destruct H1 as [Hl Ht].
  rewrite bool_decide_eq_true_2; [done|]. split; [done|].
  rewrite <-Hl, take_ge, Hl, take_ge in Ht by lia. by rewrite Ht.
Qed.
Lemma run_exact ops : forall s fd s',
  run_script (exact_op <$> ops) s fd = Some s' -> run_script ops s fd = Some s'.
Proof.
  induction ops as [|o ops IH]; intros s fd s'; [done|]. rewrite fmap_cons. cbn [run_script].
  intros ([s1 fd1] & E & Hr)%bind_Some. rewrite (certain_exact _ _ _ _ E). cbn. by apply IH.
Qed.
#[local] Instance own_op_dec P `{!forall k, Decision (P k)} o : Decision (own_op P o).
Proof. destruct o; cbn; apply _. Defined.
(** The files of the one owner and of the other. *)
Definition joined (P : key -> Prop) `{!forall k, Decision (P k)} (vA vB : store) : store :=
  filter (fun x => P x.1) vA ∪ filter (fun x => ~ P x.1) vB.
Lemma joined_lookup P `{!forall k, Decision (P k)} vA vB k :
  joined P vA vB !! k = if decide (P k) then vA !! k else vB !! k.
Proof.
  unfold joined. case_decide as Hk.
  - destruct (vA !! k) as [c|] eqn:E; [by apply lookup_union_Some_l, map_lookup_filter_Some|].
    apply lookup_union_None. split; apply map_lookup_filter_None; [by left|right].
    intros c _ Hn. by apply Hn.
  - rewrite lookup_union_r; [|apply map_lookup_filter_None; right; by intros ? _].
    destruct (vB !! k) eqn:E; [by apply map_lookup_filter_Some|apply map_lookup_filter_None; by left].
Qed.
Definition after (ops : list op) (s : store) : store := default ∅ (run_script ops s None).
Lemma owners_phase P `{!forall k, Decision (P k)} s opsA opsB :
  bool_decide (Forall (own_op P) opsA /\ Forall (own_op (fun k => ~ P k)) opsB /\
    is_Some (run_script opsA s None) /\ is_Some (run_script opsB s None)) = true ->
  phase_ok s [opsA; opsB] (joined P (after opsA s) (after opsB s)).
Proof.
  intros (HA & HB & [vA EA] & [vB EB])%bool_decide_eq_true. unfold after. rewrite EA, EB. cbn.
  eapply (two_owners P); [done..|]. intros k. apply joined_lookup.
Qed.

Lemma exact_phase s ops s' :
  bool_decide (run_script (exact_op <$> ops) s None = Some s') = true -> phase_ok s [ops] s'.
Proof. intros E%bool_decide_eq_true. by apply single_phase, run_exact. Qed.
Definition starts_with (p : str) (k : key) : Prop := take (length p) k.2 = p.
#[local] Instance starts_with_dec p k : Decision (starts_with p k).
Proof. unfold starts_with. apply _. Defined.
(** The files [zz-0] to [zz-19]. *)
Definition zz_items : list (key * str) := (fun i => ((dd, fname (lit "zz") i), int_bytes i)) <$> seq 0 20.
Definition zz_files : store := created ∅ zz_items.
Lemma same_file_phase : phase_ok ∅ same_file zz_files.
Proof.
  apply (same_files_phase ∅ zz_items dd 20); [by apply (bool_decide_unpack _); vm_compute|done|].
  apply (bool_decide_unpack _). vm_compute. done.
Qed.
Definition www : key := (dd, lit "www").
Definition writer_2 : writer := Writer (Z.to_nat 65536) 64 "2"%char.
Definition writer_1 : writer := Writer 0 64 "1"%char.
Definition www_files : store := <[www := huge]> ∅.
Definition www_written : store := <[www := both_written huge writer_2 writer_1]> www_files.
Lemma two_writers_ok : phase_ok www_files two_writers www_written.
Proof.
  pose proof (two_writers_phase www_files www huge writer_2 writer_1) as Hph.
  cbn [w_start w_n w_char writer_1 writer_2 fst Datatypes.snd www] in Hph. rewrite Z2Nat.id in Hph by lia.
  apply Hph; unfold inside, apart, huge; cbn [w_start w_n writer_1 writer_2];
    rewrite ?length_replicate; [lia|lia|lia|apply lookup_insert_eq].
Qed.
Definition xy_files : store :=
  joined (starts_with (lit "xx")) (after (createn dd (lit "xx") 20 false) ∅) (after (createn dd (lit "yy") 20 false) ∅).
Definition x12_files : store :=
  after (createn dd (lit "x1") 20 false ++ createn dd (lit "x2") 20 false) ∅.
Definition x234_files : store :=
  joined (fun k => ~ starts_with (lit "x4") k)
    (after (unlinkn dd (lit "x1") 20 ++ createn dd (lit "x3") 20 false) x12_files)
    (after (createn dd (lit "x4") 20 false) x12_files).
Lemma lab_3_b_phases l1 l2 : phases_ok ∅ (lab_3_b l1 l2).
Proof.
  unfold lab_3_b.
  apply phases_cons with ∅; [apply exact_phase; vm_compute; reflexivity|].
  apply phases_cons with xy_files; [apply owners_phase; vm_compute; reflexivity|].
  apply phases_cons with ∅; [apply exact_phase; vm_compute; reflexivity|].
  apply phases_cons with zz_files; [exact same_file_phase|].
  apply phases_cons with x12_files; [apply exact_phase; vm_compute; reflexivity|].
  apply phases_cons with x234_files; [apply owners_phase; vm_compute; reflexivity|].
  apply phases_cons with ∅; [apply exact_phase; vm_compute; reflexivity|].
  apply phases_cons with zz_files; [exact same_file_phase|].
  apply phases_cons with www_files; [apply exact_phase; vm_compute; reflexivity|].
  apply phases_cons with www_written; [exact two_writers_ok|].
  apply phases_cons with www_written; [apply exact_phase; vm_compute; reflexivity|constructor].
Qed.
Definition lab_3_c_files : store :=
  joined (fun k => k.1 = db) (after (createn db (lit "xx") 100 false ++ unlinkn db (lit "xx") 99) ∅)
    (after (createn da (lit "yy") 100 false ++ unlinkn da (lit "yy") 99) ∅).
Lemma lab_3_c_phases : phases_ok ∅ lab_3_c.
Proof.
  apply phases_cons with lab_3_c_files; [apply owners_phase; vm_compute; reflexivity|].
  apply phases_cons with lab_3_c_files; [apply exact_phase; vm_compute; reflexivity|constructor].
Qed.

Lemma run_step phs s x y : in_run phs s x -> test_step x y -> in_run phs s y.
Proof.
  induction 1 as [|ph phs s z x Hr Hf Hok _ IH]; intros Hs; [|by eapply next_phase; eauto].
  constructor. by eapply rtc_r.
Qed.
Lemma test_progress x : exited x = false -> ended x \/ exists y, test_step x y.
Proof.
  intros Hx. destruct (decide (Exists (fun p => p.2 <> []) (procs x))) as [He|He].
  - right. apply Exists_exists in He as ([fd [|o rest]] & (t & Ht)%list_elem_of_lookup & Hn); [done|].
    destruct (do_op true o (files x) fd) as [[[s fd'] skip]|] eqn:E; eexists;
      [by eapply test_call|by eapply test_exit].
  - left. apply Forall_forall. intros p Hp. destruct (decide (p.2 = [])) as [|Hn]; [done|].
    destruct He. apply Exists_exists. by exists p.
Qed.
Lemma test_step_left x y : test_step x y -> exited y = true \/ (calls_left y < calls_left x)%nat.
Proof.
  destruct 1 as [t fd o rest missed s fd' skip s1 Hx Ht Hd|]; [right|by left]. unfold calls_left. cbn [procs].
  rewrite <-(take_drop_middle _ _ _ Ht) at 2. rewrite insert_take_drop by by eapply lookup_lt_Some.
  rewrite !fmap_app, !concat_app, !fmap_cons. cbn [concat fst Datatypes.snd].
  rewrite !length_app, length_drop. cbn [length]. lia.
Qed.

(** ** The file system under the tests

    The store is what the abstract file system of [YfsClient] makes of the
    requests the kernel sends for the system calls of the tests. *)

Definition good_name (f : str) : Prop :=
  f <> [] /\ Forall (fun c => c <> NUL) f /\ (length f <= MAX_ITEM_NAME_LEN)%nat.
#[local] Instance good_name_dec f : Decision (good_name f).
Proof. unfold good_name. apply _. Defined.
Lemma c_str_key f : good_name f -> c_str (YfsClient.key f) = f.
Proof.
  intros (_ & Hf & Hl). unfold YfsClient.key.
  assert (forall n, c_str (f ++ replicate n NUL) = f) as Hc.
  { intros n. clear Hl. induction Hf as [|c f Hc Hf IH]; [by destruct n|]. cbn. by rewrite decide_False, IH. }
  pose proof (Hc 0%nat) as H0. rewrite app_nil_r in H0. rewrite H0. unfold str_resize.
  rewrite take_ge by done. apply Hc.
Qed.
Lemma head_key f : good_name f -> head (YfsClient.key f) = head f.
Proof.
  intros Hg. pose proof (c_str_key f Hg) as E. destruct Hg as (Hne & Hf & _).
  destruct (YfsClient.key f) as [|c n]; cbn in E; [by subst|]. case_decide; subst; done.
Qed.

(** The calls of the tests name files of the tests' directories. *)
Definition test_dirs : list str := [dd; da; db].
Definition proper_key (k : key) : Prop := k.1 ∈ test_dirs /\ good_name k.2.
Definition proper (o : op) : Prop :=
  match o with
  | Creat k _ | OpenFile k _ | OpenCreate k | Absent k | UnlinkFile k => proper_key k
  | Dircheck d _ => d ∈ test_dirs
  | _ => True
  end.
#[local] Instance proper_dec o : Decision (proper o).
Proof. unfold proper, proper_key. destruct o; apply _. Defined.

Import yfs_status.
Section on_fs.
Variable dirs : gmap str Z.

(** The file system [F] holds the store: [im] gives the numbers of its files. *)
Record holds (im : gmap key Z) (F : fs) (st : store) : Prop := {
  h_none k : st !! k = None -> im !! k = None;
  h_file k c : st !! k = Some c -> good_name k.2 /\ exists i, im !! k = Some i /\ isfile i = true /\
    F !! i = Some (File c);
  h_apart k k' i : im !! k = Some i -> im !! k' = Some i -> k = k';
  h_dir d i : dirs !! d = Some i -> exists m, F !! i = Some (Dir m) /\
    (forall f, good_name f -> m !! YfsClient.key f = im !! (d, f)) /\
    (forall n, is_Some (m !! n) -> exists f, good_name f /\ n = YfsClient.key f);
}.

(** The requests for a system call, with the answers that let the test go on. *)
Inductive served (im : gmap key Z) (fd : option fdesc) : op -> fs -> fs -> Prop :=
  | sv_truncate d f dup i ino F F' :
      dirs !! d = Some i -> fs_step F (OpLookup i f) (RFound OK true ino) F ->
      fs_step F (OpSetattr ino 0) (RStatus OK) F' -> served im fd (Creat (d, f) dup) F F'
  | sv_create d f dup i ino F F' :
      dirs !! d = Some i -> fs_step F (OpLookup i f) (RFound OK false 0) F ->
      fs_step F (OpCreate true i f) (RIno OK ino) F' -> served im fd (Creat (d, f) dup) F F'
  | sv_exists d f i F :
      dirs !! d = Some i -> fs_step F (OpCreate true i f) (RIno EXIST 0) F -> served im fd (Creat (d, f) true) F F
  | sv_open d f app i ino F :
      dirs !! d = Some i -> fs_step F (OpLookup i f) (RFound OK true ino) F -> served im fd (OpenFile (d, f) app) F F
  | sv_reopen d f i ino F :
      dirs !! d = Some i -> fs_step F (OpLookup i f) (RFound OK true ino) F -> served im fd (OpenCreate (d, f)) F F
  | sv_open_new d f i ino F F' :
      dirs !! d = Some i -> fs_step F (OpLookup i f) (RFound OK false 0) F ->
      fs_step F (OpCreate true i f) (RIno OK ino) F' -> served im fd (OpenCreate (d, f)) F F'
  | sv_seek off F : served im fd (Seek off) F F
  | sv_fsync F : served im fd Fsync F F
  | sv_close F : served im fd Close F F
  | sv_write f s c ino F F' :
      fd = Some f -> im !! fd_key f = Some ino -> F !! ino = Some (File c) ->
      fs_step F (OpWrite ino (if fd_append f then Z.of_nat (length c) else fd_off f) s) (RStatus OK) F' ->
      served im fd (WriteAll s) F F'
  | sv_read f n s cmp data ino F :
      fd = Some f -> im !! fd_key f = Some ino -> fs_step F (OpRead ino n (fd_off f)) (RData OK data) F ->
      length data = length s -> take cmp data = take cmp s -> served im fd (ReadIs n s cmp) F F
  | sv_char f c ino F :
      fd = Some f -> im !! fd_key f = Some ino -> fs_step F (OpRead ino 1 (fd_off f)) (RData OK [c]) F ->
      served im fd (ReadChar c) F F
  | sv_absent d f i F :
      dirs !! d = Some i -> fs_step F (OpLookup i f) (RFound OK false 0) F -> served im fd (Absent (d, f)) F F
  | sv_unlink d f i F F' :
      dirs !! d = Some i -> fs_step F (OpUnlink i f) (RStatus OK) F' -> served im fd (UnlinkFile (d, f)) F F'
  | sv_dircheck d i m n F :
      dirs !! d = Some i -> fs_step F (OpReaddir i) (RDir OK m) F ->
      length (filter (fun x => head x <> Some "."%char) (elements (dom m))) = n -> served im fd (Dircheck d n) F F.

Hypothesis dirs_all : forall d, d ∈ test_dirs -> is_Some (dirs !! d).
Hypothesis dirs_apart : forall d d' i, dirs !! d = Some i -> dirs !! d' = Some i -> d = d'.

Lemma holds_lookup im F st d f :
  holds im F st -> proper_key (d, f) ->
  exists i, dirs !! d = Some i /\
    fs_step F (OpLookup i f) (match im !! (d, f) with Some ino => RFound OK true ino | None => RFound OK false 0 end) F.
Proof.
  intros Hh [[i Hi]%dirs_all Hg]. destruct (h_dir _ _ _ Hh d i Hi) as (m & Hm & Hk & _). exists i. split; [done|].
  rewrite <-(Hk f Hg). by apply step_lookup.
Qed.
(** The content of a file is replaced. *)
Lemma holds_update im F st k c c' i :
  holds im F st -> st !! k = Some c -> im !! k = Some i -> holds im (<[i := File c']> F) (<[k := c']> st).
Proof.
  intros Hh Hs Hi. destruct (h_file _ _ _ Hh k c Hs) as (Hg & i' & Hi' & Hf & HF).
  assert (i' = i) as -> by congruence. split.
  - intros k' Hk'. apply lookup_insert_None in Hk' as [Hk' _]. by apply (h_none _ _ _ Hh).
  - intros k' x. rewrite lookup_insert_Some. intros [[<- <-]|[Hne Hk']].
    + split; [done|]. exists i. by rewrite lookup_insert_eq.
    + destruct (h_file _ _ _ Hh k' x Hk') as (Hg' & j & Hj & Hf' & HF'). split; [done|]. exists j.
      rewrite lookup_insert_ne; [done|]. intros ->. by apply Hne, (h_apart _ _ _ Hh k k' j).
  - apply (h_apart _ _ _ Hh).
  - intros d j Hd. destruct (h_dir _ _ _ Hh d j Hd) as (m & Hm & Hk). exists m.
    rewrite lookup_insert_ne; [done|]. intros ->. congruence.
Qed.
(** A file is created: the number [i] is free. *)
Lemma holds_create im F st d f i :
  holds im F st -> proper_key (d, f) -> st !! (d, f) = None -> F !! i = None -> isfile i = true ->
  exists p F', dirs !! d = Some p /\ fs_step F (OpCreate true p f) (RIno OK i) F' /\
    holds (<[(d, f) := i]> im) F' (<[(d, f) := []]> st).
Proof.
  intros Hh [[p Hp]%dirs_all Hg] Hs Hi Hf. cbn in Hp, Hg. pose proof (h_none _ _ _ Hh _ Hs) as Him.
  destruct (h_dir _ _ _ Hh d p Hp) as (m & Hm & Hk & Hn). eexists p, _. split; [done|].
  split; [eapply (step_create F true p f m i); [done|by rewrite Hk|done|done]|].
  assert (i <> p) as Hip by congruence.
  assert (forall k, im !! k <> Some i) as Hfresh.
  { intros k Hki. destruct (st !! k) as [c|] eqn:Ek; [|rewrite (h_none _ _ _ Hh _ Ek) in Hki; done].
    destruct (h_file _ _ _ Hh k c Ek) as (_ & j & Hj & _ & HF). congruence. }
  split.
  - intros k. rewrite !lookup_insert_None. intros [Hk' Hne]. split; [by apply (h_none _ _ _ Hh)|done].
  - intros k c. rewrite lookup_insert_Some. intros [[<- <-]|[Hne Hk']].
    + split; [done|]. exists i. by rewrite !lookup_insert_eq.
    + destruct (h_file _ _ _ Hh k c Hk') as (Hg' & j & Hj & Hf' & HF'). split; [done|]. exists j.
      rewrite !lookup_insert_ne; [done|congruence|congruence|done].
  - intros k k' j. rewrite !lookup_insert_Some. intros [[<- <-]|[Hk1 H1]] [[<- E2]|[Hk2 H2]]; subst; try done.
    + by destruct (Hfresh k').
    + by destruct (Hfresh k).
    + by apply (h_apart _ _ _ Hh k k' j).
  - intros d' j Hd'. destruct (decide (d' = d)) as [->|Hne].
    + assert (j = p) as -> by congruence. eexists. rewrite lookup_insert_ne, lookup_insert_eq by done.
      split; [done|]. split.
      * intros g Hgg. destruct (decide (g = f)) as [->|Hgf]; [by rewrite !lookup_insert_eq|].
        rewrite !lookup_insert_ne; [by apply Hk|congruence|]. intros E. apply Hgf.
        rewrite <-(c_str_key f Hg), <-(c_str_key g Hgg). by rewrite E.
      * intros n [x Hx]. apply lookup_insert_Some in Hx as [[<- _]|[_ Hx]]; [by exists f|by apply Hn].
    + destruct (h_dir _ _ _ Hh d' j Hd') as (m' & Hm' & Hk' & Hn'). exists m'.
      rewrite !lookup_insert_ne; [|intros ->; by apply Hne, (dirs_apart d' d j)|congruence].
      split_and!; [done| |done]. intros g Hgg. rewrite lookup_insert_ne; [by apply Hk'|congruence].
Qed.
Lemma holds_unlink im F st d f c :
  holds im F st -> d ∈ test_dirs -> st !! (d, f) = Some c ->
  exists p F', dirs !! d = Some p /\ fs_step F (OpUnlink p f) (RStatus OK) F' /\
    holds (delete (d, f) im) F' (delete (d, f) st).
Proof.
  intros Hh [p Hp]%dirs_all Hs. destruct (h_file _ _ _ Hh _ _ Hs) as (Hg & i & Hi & Hf & HF). cbn in Hg.
  destruct (h_dir _ _ _ Hh d p Hp) as (m & Hm & Hk & Hn). eexists p, _. split; [done|].
  split; [eapply (step_unlink F p f m i); [done|by rewrite Hk|done|done]|].
  assert (i <> p) as Hip by congruence. split.
  - intros k. rewrite !lookup_delete_None. intros [?|?]; [by left|right; by apply (h_none _ _ _ Hh)].
  - intros k x. rewrite lookup_delete_Some. intros [Hne Hk'].
    destruct (h_file _ _ _ Hh k x Hk') as (Hg' & j & Hj & Hf' & HF'). split; [done|]. exists j.
    rewrite lookup_delete_ne by done. rewrite lookup_delete_ne, lookup_insert_ne; [done|congruence|].
    intros ->. by apply Hne, (h_apart _ _ _ Hh _ _ j).
  - intros k k' j. rewrite !lookup_delete_Some. intros [_ H1] [_ H2]. by apply (h_apart _ _ _ Hh k k' j).
  - intros d' j Hd'. destruct (decide (d' = d)) as [->|Hne].
    + assert (j = p) as -> by congruence. eexists. rewrite lookup_delete_ne, lookup_insert_eq by done.
      split; [done|]. split.
      * intros g Hgg. destruct (decide (g = f)) as [->|Hgf]; [by rewrite !lookup_delete_eq|].
        rewrite !lookup_delete_ne; [by apply Hk|congruence|]. intros E. apply Hgf.
        rewrite <-(c_str_key f Hg), <-(c_str_key g Hgg). by rewrite E.
      * intros n [x Hx]. apply lookup_delete_Some in Hx as [_ Hx]. by apply Hn.
    + destruct (h_dir _ _ _ Hh d' j Hd') as (m' & Hm' & Hk' & Hn'). exists m'.
      rewrite lookup_delete_ne by congruence. rewrite lookup_insert_ne by (intros ->; by apply Hne, (dirs_apart d' d j)).
      split_and!; [done| |done]. intros g Hgg. rewrite lookup_delete_ne; [by apply Hk'|congruence].
Qed.
(** [readdir] gives as many names as the store has. *)
Lemma holds_entries im F st d i m :
  holds im F st -> dirs !! d = Some i -> F !! i = Some (Dir m) ->
  length (filter (fun x => head x <> Some "."%char) (elements (dom m))) = length (entries d st).
Proof.
  intros Hh Hd Hm. destruct (h_dir _ _ _ Hh d i Hd) as (m' & Hm' & Hk & Hn). assert (m' = m) as -> by congruence.
  rewrite <-(length_fmap (fun k => YfsClient.key k.2) (entries d st)). apply Permutation_length.
  assert (forall k, k ∈ entries d st <-> k.1 = d /\ head k.2 <> Some "."%char /\ is_Some (st !! k)) as Hin.
  { intros k. unfold entries. rewrite list_elem_of_filter, elem_of_elements, elem_of_dom. tauto. }
  assert (forall k, k ∈ entries d st -> good_name k.2) as Hgood.
  { intros k (_ & _ & [c Hc])%Hin. by apply (h_file _ _ _ Hh k c). }
  apply NoDup_Permutation.
  - apply NoDup_filter, NoDup_elements.
  - apply NoDup_fmap_2_strong; [|apply NoDup_filter, NoDup_elements].
    intros [a f] [b g] Hf Hg E. pose proof (Hgood _ Hf). pose proof (Hgood _ Hg).
    apply Hin in Hf as (Ea & _), Hg as (Eb & _). cbn in *. subst a b. f_equal.
    rewrite <-(c_str_key f), <-(c_str_key g) by done. by rewrite E.
  - intros n. rewrite list_elem_of_filter, elem_of_elements, elem_of_dom, list_elem_of_fmap. split.
    + intros [Hdot Hs]. destruct (Hn n Hs) as (f & Hg & ->). rewrite head_key in Hdot by done.
      exists (d, f). split; [done|]. apply Hin. split_and!; [done..|].
      destruct (st !! (d, f)) eqn:E; [done|]. rewrite Hk, (h_none _ _ _ Hh _ E) in Hs by done. by destruct Hs.
    + intros ([b f] & -> & Hf). pose proof (Hgood _ Hf) as Hg. apply Hin in Hf as (Eb & Hdot & [c Hc]). cbn in *. subst b.
      rewrite head_key, Hk by done. split; [done|].
      destruct (h_file _ _ _ Hh _ _ Hc) as (_ & j & -> & _). done.
Qed.
(** There are free numbers for files. *)
Lemma free_number (F : fs) : exists i, F !! i = None /\ isfile i = true.
Proof.
  set (q := fresh (set_map (fun z => z `div` 2 ^ 32) (dom F) : gset Z)).
  exists (q * 2 ^ 32 + 2 ^ 31). split.
  - apply not_elem_of_dom. intros Hin.
    apply (is_fresh (set_map (fun z => z `div` 2 ^ 32) (dom F) : gset Z)). fold q.
    apply elem_of_map. eexists. split; [|exact Hin]. rewrite Z.div_add_l by lia. by rewrite Z.div_small, Z.add_0_r.
  - unfold isfile. apply negb_true_iff, Z.eqb_neq. intros E.
    assert (Z.testbit (Z.land (q * 2 ^ 32 + 2 ^ 31) 0x80000000) 31 = true) as Hb; [|by rewrite E in Hb].
    rewrite Z.land_spec. apply andb_true_iff. split; [|done]. apply Z.testbit_true; [lia|].
    replace (q * 2 ^ 32 + 2 ^ 31) with ((q * 2 + 1) * 2 ^ 31) by lia. rewrite Z.div_mul by lia.
    by rewrite Z.add_comm, Z_mod_plus_full.
Qed.
(** Every call that the store takes the file system takes as well. *)
Definition serves im F o fd st' : Prop := exists F' im', served im fd o F F' /\ holds im' F' st'.
Lemma creat_served im F st d f dup fd missed st' fd' skip :
  holds im F st -> proper_key (d, f) -> do_op missed (Creat (d, f) dup) st fd = Some (st', fd', skip) ->
  serves im F (Creat (d, f) dup) fd st'.
Proof.
  intros Hh Ho E. cbn [do_op] in E. destruct (holds_lookup _ _ _ _ _ Hh Ho) as (p & Hp & Hl).
  destruct (st !! (d, f)) as [c|] eqn:Es.
  - destruct (h_file _ _ _ Hh _ _ Es) as (Hg & j & Hj & Hfj & HF). rewrite Hj in Hl.
    destruct missed; cbn [andb bool_decide] in E.
    + destruct dup; [|done]. injection E as <- <- <-. exists F, im. split; [|done].
      destruct (h_dir _ _ _ Hh d p Hp) as (m & Hm & Hk & _).
      apply (sv_exists _ _ d f p); [done|]. apply (step_create_exists F true p f m j); [done|by rewrite Hk].
    + injection E as <- <- <-.
      eexists _, im. split; [eapply (sv_truncate _ _ d f dup p j); [done|done|by apply (step_setattr F j 0 c)]|].
      cbn. by apply (holds_update im F st (d, f) c).
  - rewrite bool_decide_eq_false_2, andb_false_r in E by (by intros []). injection E as <- <- <-.
    destruct (free_number F) as (i & Hi & Hf).
    destruct (holds_create _ _ _ _ _ _ Hh Ho Es Hi Hf) as (p' & F' & Hp' & Hc & H').
    rewrite (h_none _ _ _ Hh _ Es) in Hl. assert (p' = p) as -> by congruence.
    exists F'. eexists. split; [by apply (sv_create _ _ d f dup p i)|done].
Qed.
Lemma open_create_served im F st d f fd missed st' fd' skip :
  holds im F st -> proper_key (d, f) -> do_op missed (OpenCreate (d, f)) st fd = Some (st', fd', skip) ->
  serves im F (OpenCreate (d, f)) fd st'.
Proof.
  intros Hh Ho E. injection E as <- <- <-. destruct (holds_lookup _ _ _ _ _ Hh Ho) as (p & Hp & Hl). case_decide as Hd.
  - exists F, im. split; [|done]. destruct Hd as [c Hc]. destruct (h_file _ _ _ Hh _ _ Hc) as (_ & j & Hj & _).
    rewrite Hj in Hl. by apply (sv_reopen _ _ d f p j).
  - assert (st !! (d, f) = None) as Es by by apply eq_None_not_Some. destruct (free_number F) as (i & Hi & Hf).
    destruct (holds_create _ _ _ _ _ _ Hh Ho Es Hi Hf) as (p' & F' & Hp' & Hc & H').
    rewrite (h_none _ _ _ Hh _ Es) in Hl. assert (p' = p) as -> by congruence.
    exists F'. eexists. split; [by apply (sv_open_new _ _ d f p i)|done].
Qed.
Lemma serves_same im F st o fd : holds im F st -> served im fd o F F -> serves im F o fd st.
Proof. intros. by exists F, im. Qed.
Lemma call_served im F st o fd missed st' fd' skip :
  holds im F st -> proper o -> do_op missed o st fd = Some (st', fd', skip) -> serves im F o fd st'.
Proof.
  intros Hh Ho E.
  destruct o as [[d f] dup|[d f] app|[d f]|off|s| |n s cmp|c| |[d f]|[d f]|d n];
    [by eapply creat_served| |by eapply open_create_served|..]; cbn [do_op proper] in *.
  - destruct (st !! (d, f)) as [c|] eqn:Es; [|done]. injection E as <- <- <-. apply serves_same; [done|].
    destruct (h_file _ _ _ Hh _ _ Es) as (_ & j & Hj & _). destruct (holds_lookup _ _ _ _ _ Hh Ho) as (p & Hp & Hl).
    rewrite Hj in Hl. by apply (sv_open _ _ d f app p j).
  - destruct fd as [g|]; [|done]. injection E as <- <- <-. apply serves_same; [done|constructor].
  - destruct fd as [g|]; [|done]. cbn in E. destruct (st !! fd_key g) as [c|] eqn:Es; [|done].
    injection E as <- <- <-. destruct (h_file _ _ _ Hh _ _ Es) as (_ & j & Hj & _ & HF).
    eexists _, im. split; [by eapply (sv_write im _ g s c j); [..|by apply step_write]|].
    by apply (holds_update im F st (fd_key g) c).
  - destruct fd as [g|]; [|done]. injection E as <- <- <-. apply serves_same; [done|constructor].
  - destruct fd as [g|]; [|done]. cbn in E. destruct (st !! fd_key g) as [c|] eqn:Es; [|done]. cbn in E.
    case_bool_decide as Hd; [|done]. injection E as <- <- <-. apply serves_same; [done|].
    destruct (h_file _ _ _ Hh _ _ Es) as (_ & j & Hj & _ & HF). destruct Hd.
    by apply (sv_read im _ g n s cmp (slice c (fd_off g) n) j); [..|by apply step_read| |].
  - destruct fd as [g|]; [|done]. cbn in E. destruct (st !! fd_key g) as [x|] eqn:Es; [|done]. cbn in E.
    case_bool_decide as Hd; [|done]. injection E as <- <- <-. apply serves_same; [done|].
    destruct (h_file _ _ _ Hh _ _ Es) as (_ & j & Hj & _ & HF).
    apply (sv_char im _ g c j); [done..|]. rewrite <-Hd. by apply step_read.
  - destruct fd as [g|]; [|done]. injection E as <- <- <-. apply serves_same; [done|constructor].
  - case_bool_decide as Hd; [done|]. injection E as <- <- <-. apply serves_same; [done|].
    destruct (holds_lookup _ _ _ _ _ Hh Ho) as (p & Hp & Hl).
    rewrite (h_none _ _ _ Hh _ (proj2 (eq_None_not_Some _) Hd)) in Hl. by apply (sv_absent _ _ d f p).
  - case_bool_decide as Hd; [|done]. injection E as <- <- <-. destruct Hd as [c Hc].
    destruct (holds_unlink _ _ _ _ _ _ Hh (proj1 Ho) Hc) as (p & F' & Hp & Hu & H').
    exists F'. eexists. split; [by apply (sv_unlink _ _ d f p)|done].
  - case_bool_decide as Hd; [|done]. injection E as <- <- <-. apply serves_same; [done|].
    apply dirs_all in Ho as [p Hp]. destruct (h_dir _ _ _ Hh d p Hp) as (m & Hm & _).
    apply (sv_dircheck im _ d p m n); [done|by apply step_readdir|]. by rewrite (holds_entries im F st d p m).
Qed.

(** A step of the tests is a call that the file system serves. *)
Definition proper_run (x : testing) : Prop := Forall (fun p => Forall proper p.2) (procs x).
Lemma step_served im F x y :
  holds im F (files x) -> proper_run x -> test_step x y -> exited y = false ->
  exists t fd o rest, procs x !! t = Some (fd, o :: rest) /\ serves im F o fd (files y).
Proof.
  intros Hh Hp Hs Hy. destruct Hs as [t fd o rest missed s fd' skip s1 _ Ht E|]; [|done].
  exists t, fd, o, rest. split; [done|].
  pose proof (proj1 (Forall_lookup _ _) Hp t _ Ht) as Ho. cbn in Ho. apply Forall_cons_1 in Ho as [Ho _].
  by eapply call_served.
Qed.
End on_fs.
Lemma proper_step x y : proper_run x -> test_step x y -> proper_run y.
Proof.
  intros Hp Hs. destruct Hs as [t fd o rest missed s fd' skip s1 _ Ht E|]; [|done].
  apply Forall_insert; [done|]. cbn. apply Forall_drop.
  pose proof (proj1 (Forall_lookup _ _) Hp t _ Ht) as Ho. cbn in Ho. by apply Forall_cons_1 in Ho as [_ ?].
Qed.
Lemma proper_phases phs s x : Forall (Forall (Forall proper)) phs -> in_run phs s x -> proper_run x.
Proof.
  intros Hp Hr. revert Hp. induction Hr as [ph phs s x Hx|ph phs s x y Hx He Hn _ IH]; intros Hp;
    inversion_clear Hp as [|? ? Hph Hphs]; [|by apply IH].
  assert (proper_run (begin s ph)) as H0 by (unfold proper_run, begin; cbn; by apply Forall_fmap).
  clear -H0 Hx. induction Hx as [|x z y Hs _ IH]; [done|]. by apply IH, (proper_step x).
Qed.
Lemma lab_proper l1 l2 : Forall (Forall (Forall proper)) (lab_3_b l1 l2) /\ Forall (Forall (Forall proper)) lab_3_c.
Proof. split; apply (bool_decide_unpack _); vm_compute; exact I. Qed.

(** C32. The file system tests pass on a file system that keeps its promises: for
    every interleaving of the calls of the two processes, whether or not a
    [creat] sees the file that the other process has just created, no check of
    [test-lab-3-b] or [test-lab-3-c] fails, and a run goes on, with fewer calls
    left after each, until all processes have finished.  The file system is the
    abstract one that [yfs_client] implements: when it holds the files of a
    state, the requests for the next call lead it to hold those of the next. *)
Theorem lab_tests_pass dirs l1 l2 x :
  (forall d, d ∈ test_dirs -> is_Some (dirs !! d)) ->
  (forall d d' i, dirs !! d = Some i -> dirs !! d' = Some i -> d = d') ->
  in_run (lab_3_b l1 l2) ∅ x \/ in_run lab_3_c ∅ x ->
  exited x = false /\ (ended x \/ exists y, test_step x y) /\
  forall y, test_step x y -> (calls_left y < calls_left x)%nat /\
    forall im F, holds dirs im F (files x) ->
      exists t fd o rest, procs x !! t = Some (fd, o :: rest) /\ serves dirs im F o fd (files y).
Proof.
  intros Hall Hapart Hr.
  assert (forall z, in_run (lab_3_b l1 l2) ∅ z \/ in_run lab_3_c ∅ z -> exited z = false) as Hok.
  { intros z [Hz|Hz]; (eapply phases_sound; [|exact Hz]); [apply lab_3_b_phases|exact lab_3_c_phases]. }
  split_and!; [by apply Hok|by apply test_progress, Hok|]. intros y Hs.
  assert (exited y = false) as Hy by (apply Hok; destruct Hr; [left|right]; by eapply run_step). split.
  - destruct (test_step_left x y Hs) as [Hy'|]; [congruence|done].
  - intros im F Hh. eapply step_served; try done.
    destruct (lab_proper l1 l2) as [Hb Hc], Hr as [Hr|Hr];
      [exact (proper_phases _ _ _ Hb Hr)|exact (proper_phases _ _ _ Hc Hr)].
Qed.
Definition first_creat : testing :=
  Testing (<[(dd, lit "f1") := []]> ∅)
    [(Some (Fdesc (dd, lit "f1") 0 false), List.tl (sequential 10 10))] false.
Definition dirs_234 : gmap str Z := {[ dd := 2; da := 3; db := 4 ]}.
Definition empty_dirs : fs := {[ 2 := Dir ∅; 3 := Dir ∅; 4 := Dir ∅ ]}.
Lemma dirs_234_cases d i : dirs_234 !! d = Some i -> d = dd /\ i = 2 \/ d = da /\ i = 3 \/ d = db /\ i = 4.
Proof.
  unfold dirs_234. rewrite !lookup_insert_Some, lookup_singleton_Some.
  intros [[<- <-]|[_ [[<- <-]|[_ [<- <-]]]]]; auto.
Qed.
Lemma empty_dirs_hold : holds dirs_234 ∅ empty_dirs ∅.
Proof.
  split; try done. intros d i Hd. exists ∅. split; [|split].
  - by apply dirs_234_cases in Hd as [[_ ->]|[[_ ->]|[_ ->]]].
  - intros f _. by rewrite !lookup_empty.
  - intros n [x Hx]. by rewrite lookup_empty in Hx.
Qed.
Lemma lab_tests_pass_witness :
  in_run (lab_3_b 10 10) ∅ first_creat /\ exited first_creat = false /\
  serves dirs_234 ∅ empty_dirs (Creat (dd, lit "f1") false) None (files first_creat).
Proof.
  assert (forall d, d ∈ test_dirs -> is_Some (dirs_234 !! d)) as Hall.
  { apply (proj1 (Forall_forall _ test_dirs)). repeat constructor; eexists; reflexivity. }
  assert (forall d d' i, dirs_234 !! d = Some i -> dirs_234 !! d' = Some i -> d = d') as Hapart.
  { intros d d' i Hd Hd'. apply dirs_234_cases in Hd, Hd'. by intuition congruence. }
  assert (test_step (begin ∅ [sequential 10 10]) first_creat) as Hs.
  { apply (test_call 0 None (Creat (dd, lit "f1") false) (List.tl (sequential 10 10)) false (begin ∅ [sequential 10 10])
      (Some (Fdesc (dd, lit "f1") 0 false)) 0 (<[(dd, lit "f1") := []]> ∅)); reflexivity. }
  assert (in_run (lab_3_b 10 10) ∅ first_creat) as Hr by by apply in_phase, rtc_once.
  split; [exact Hr|]. split; [exact (proj1 (lab_tests_pass dirs_234 10 10 first_creat Hall Hapart (or_introl Hr)))|].
  assert (in_run (lab_3_b 10 10) ∅ (begin ∅ [sequential 10 10])) as H0 by by apply in_phase.
  destruct (lab_tests_pass dirs_234 10 10 _ Hall Hapart (or_introl H0)) as (_ & _ & Hn).
  destruct (proj2 (Hn _ Hs) _ _ empty_dirs_hold) as ([|t] & fd & o & rest & Ht & Hv); [|discriminate].
  injection Ht as <- <- _. exact Hv.
Defined.

(** [check1] compares as many characters as the path has, so it takes a long file
    for another that differs later. *)
Lemma check1_misses (dl : nat) (bufsz : Z) (d f s s' : str) (st : store) :
  st !! (d, f) = Some s' -> length s' = length s -> Z.of_nat (length s) < bufsz ->
  take (dl + 1 + length f) s' = take (dl + 1 + length f) s ->
  run_script (check1 dl bufsz d f s) st None = Some st.
Proof.
  intros Hs Hl Hb Ht.
  assert (certain (OpenFile (d, f) false) st None = Some (st, Some (Fdesc (d, f) 0 false))) as E1.
  { unfold certain. cbn [do_op]. by rewrite Hs. }
  assert (exists fd, certain (ReadIs (bufsz - 1) s (dl + 1 + length f)) st (Some (Fdesc (d, f) 0 false))
    = Some (st, Some fd)) as [fd E2].
  { unfold certain. cbn. rewrite Hs. cbn. unfold slice. change (Z.to_nat 0) with 0%nat. rewrite drop_0.
    rewrite take_ge by lia. rewrite bool_decide_eq_true_2 by done. by eexists. }
  unfold check1. cbn [run_script]. rewrite E1. cbn. rewrite E2. done.
Qed.
